(* ===== verification/_CoqProject ===== *)
-Q . S2P
Prelude.v
PyStr.v
Sql.v
Models.v
Queue.v
QueueInv.v
QueueProps.v
Progress.v
Csv.v
Jobs.v
JobsProps.v
CsvRow.v
Transitions.v
Worker.v
Frame.v
System.v
Lifecycle.v
WorkerLoop.v
WorkerLoopProps.v
RateLimit.v
SharedBucket.v
Breaker.v
Regex.v
Groups.v
Url.v
UrlJoin.v
Emails.v
FilterRank.v
Normalize.v
Site.v
Discovery.v
HtmlScan.v
Fetch.v
Errors.v
Sha256.v
Json.v
Ingest.v
IngestProps.v
Html.v
SiteDocs.v
PageText.v
JsonLoads.v
JsonLoadsProps.v
RetryAfter.v
JsonLd.v
Fields.v
PageEmails.v
PageEmailsProps.v
PageTextProps.v
JudgeClient.v
Run.v
RunProps.v
FieldsProps.v
Auth.v
AuthProps.v
IpAddress.v
NetGuard.v
Webhook.v
Access.v
AccessProps.v
Api.v
ApiProps.v
Delivery.v
ProviderKeys.v
ProviderKeysProps.v
Fetchers.v
FetchersProps.v
EndToEnd.v
Extract.v
DatabaseUrl.v
Evaluation.v
Schema.v
Migrations.v
MigrationProps.v
MigrationRun.v
LogSetup.v
DbSession.v
KeyRefresh.v
Process.v
EvalReport.v
