(* ===== verification/Prelude.v ===== *)
(** * Verification of the website email extractor

    The program takes lists of business websites, fetches a few pages of each and returns
    the contact addresses it finds.  An API (src/app/main.py) stores a list as a job; fetch
    workers (src/app/worker.py) take one domain at a time from a queue kept in Postgres
    (src/app/queue.py), run the pipeline on it (src/app/pipeline) and record the result on
    the queue row and in a cache shared by all jobs; a download replays the input rows with
    their results (src/app/jobs.py).  Fetching goes through a rate limiter, a circuit
    breaker and concurrency limits (src/app/ratelimit.py).  People and services authenticate
    with keys (auth.py, users.py), an administrator may save provider keys
    (provider_keys.py), and a finished job is announced to a webhook (webhook.py).

    ** Files

    A file named after a component holds its data and operations; the file of the same name
    ending in Props holds its theorems, where they are not in the file itself.

    Foundations: the parts of the language and its library the sources use.
    - [Prelude]: this header, tactics, lists selected by boolean tests, sorting.
    - [PyStr] (str), [Regex], [Groups] (re), [Url], [UrlJoin] (urllib.parse), [Csv] (csv),
      [Json], [JsonLoads] (json), [Html] (html, and the interface of the parsed page),
      [IpAddress] (ipaddress), [Sha256] (hashlib, hmac).  The backtracking matcher is proved
      sound and complete for the relation [matches]; what [json.dumps] writes, [json.loads]
      reads back.
    - [Sql]: tables as lists of rows, [UPDATE ... WHERE ... RETURNING], comparisons with NULL.
    - [Models]: the records of schemas.py, models.py and settings.py.  [DatabaseUrl]: the
      validator of settings.py.  [Errors] (errors.py): the envelope every refusal becomes.

    The queue and its clients.
    - [Queue] (queue.py): one definition per operation, each one transaction.  [QueueInv]:
      the invariant [db_ok] and that every operation keeps it.  [QueueProps]: what each
      operation does.  [Progress]: every active job whose rows are due gets done.
    - [Jobs] (jobs.py): creation, counts, output rows, the streamed download.  [CsvRow]
      (schemas.py): one result as a row of cells.
    - [Transitions] (main.py): retry, resume, cancel, the resume after a new provider key,
      the active time of a job.
    - [Worker] (worker.py): the handler of one claim as a program over the database, one
      constructor per transaction or other await.  [WorkerLoop]: the process around it, with
      its slots, tasks, background loops, stop signal and drain.
    - [Frame], [System]: every interleaving of handlers, failed transactions, crashes,
      background loops and operator requests as a step relation.
    - [Lifecycle]: the specification of a queue row as an abstract machine (waiting, held by
      a token, finished) and the theorem that the whole system refines it.

    The API.
    - [Auth] (auth.py, users.py): who is calling, the request window, the user commands.
    - [Ingest] (ingest.py, jobs.py): from the bytes of an upload to the rows of a job.
    - [Access], [Api], [Extract] (main.py): the endpoints, each a function from the caller
      and the database to the reply and the database it leaves.
      [Delivery]: an upload, the job made of it, and the download in every later state.
    - [ProviderKeys] (provider_keys.py, providers.py): sealed keys, the copy each process
      holds, checks, balances.  [KeyRefresh] (main.py, worker.py): the loops that reload it.
    - [Webhook] (webhook.py), [NetGuard] (netguard.py): deliveries, and where they may go.

    Fetching.
    - [RateLimit], [SharedBucket], [Breaker] (ratelimit.py): the token buckets, one process
      and several; the breaker, the wait loop of a slot, the semaphores.
    - [Fetch], [RetryAfter], [Fetchers] (pipeline/fetch.py): classification of answers, the
      retry loop, redirects guarded hop by hop, the Retry-After header, and the two fetchers
      from a URL to a page or an error.

    The pipeline of one domain.
    - [Normalize] (normalize.py): from an input cell to a crawl key.
    - [Site] (dns_check.py, parked.py); [Discovery], [SiteDocs] (discovery): which pages to
      fetch, robots.txt, sitemap documents and links; [HtmlScan] (htmlscan.py).
    - [PageText] (cloudflare.py, normalize_html.py, context.py), [JsonLd] (jsonld.py),
      [Emails], [PageEmails] (emails.py, patterns.py): the candidates of a page from its raw
      HTML, and merging pages.  [Fields] (phones.py, socials.py, forms.py).
    - [FilterRank] (filter_rank.py, status.py, typesafe.py): dropping, ranking, decisions on
      the judging service's answers, status.  [JudgeClient] (typesafe.py): requests, retries
      and the reading of answers.
    - [Run] (run.py): the stages in a state, deadline and exception monad, the salvage after
      a deadline, the attempts of a domain, one input cell.  [EndToEnd]: [Run] on the
      fetchers of [Fetchers].

    Around the program.
    - [Schema], [Migrations], [MigrationProps] (migrations/versions): the operations of the
      eleven migrations, the schema the models declare, and what the data updates do.
      [MigrationRun] (migrations/env.py): the transaction that runs them, in any number of
      processes at once.
    - [Evaluation], [EvalReport] (scripts/eval.py): reading labels, running rows, the counts
      and figures of the report.
    - [LogSetup] (logsetup.py): the masking of credentials in log records, and its set-up.
      [DbSession] (db.py): the engines and session factories kept per event loop.
      [Process] (main.py, worker.py, users.py, serve.py, fetch.py): what each process opens,
      in the order it closes it.

    ** What the theorems show

    - Queue: in every reachable state of the whole system the tables are well formed and
      each row moves only along the edges of its life cycle; a claim records at most once,
      so no result is overwritten and no webhook sent twice; a finished job's download never
      changes; claiming serves the least loaded owner and job; jobs get done; a handler that
      lost its claim is inert; paused time is not counted.  The worker processes with their
      slots and loops refine that system, keep their slots, and hand rows back on a stop.
    - Downloads and uploads: the rows of an upload come back in order, each with the result
      of its own domain while that is finished, and all of them with one once the job is
      done; the bounded cache of parsed results is invisible; no cell is run as a formula; a
      line reads back as the cells written, and a table written as a CSV file comes back when
      it is uploaded, if no other delimiter occurs in it; an accepted file has the cells of
      its records and no others; the preview describes the job to be created.
    - API: who a request acts as; people neither see nor touch each other's jobs; a retried
      creation finds the job it made; a refusal changes nothing; provider keys refine an
      abstract table of saved keys and survive sealing, and a saved key is in use within a
      minute in every process, whatever reloads fail or are skipped.
    - Rate and breaker: a bucket never exceeds its burst plus its rate, and neither do all
      processes that share one through Redis, in any stretch of time, but for a burst each
      time Redis forgets it and what the processes' own buckets give while it is away;
      [acquire] returns; the breaker opens exactly when the failure rate of its window passes
      the threshold, and is told of each attempt once, as a failure only for a provider's own
      trouble; waiting on it is bounded; the gate keeps its limits and loses no slot.
    - Fetching: only transient failures are retried, at most twice, with bounded waits; each
      request, redirects included, is for a URL whose host was just looked up and found
      public or unknown; a webhook connects to the very address that was checked.
    - Webhooks: no delivery ends a sender, what waits can always still be sent, and a
      shutdown that does not time out loses nothing accepted before it.
    - Pipeline: whatever the outside answers and wherever the deadline falls, an attempt
      ends in a well-formed result (its addresses come from pages really fetched, its status
      matches its contents) or in the account error that pauses the job; attempts are
      bounded; no accepted address is made up; merging, ranking, judging, selection of pages
      and normalisation keep what they promise; the sitemap walk ends; the block scanner
      loses nothing.
    - Logs: a configured process masks whole credentials in the messages it writes and
      changes nothing else of them; values in quotes and tracebacks are not masked.
      Sessions: each is on a live engine.
    - Migrations: the chain builds the declared schema, downgrades undo it, and old finished
      rows come out as the running code writes them, unless two users' names differ only in
      case, which stops the upgrade; deployments that migrate at once apply each version
      exactly once, and all of them get through.
    - Evaluation: every row is accounted for, and the file on disk has all that was recorded
      up to the last hundred rows, and everything once the run has ended.

    ** Choices

    - Code not in the repository is a parameter: the public suffix list ([Tld]), the IDNA
      codec ([Idna]), codecs, csv.Sniffer and the spreadsheet reader ([Codecs] with the laws
      [CodecLaws], [Sheets]), AES-GCM
      ([Aead], with the law [AeadLaws] that opening undoes sealing), the table of named
      character references ([Html5]), characters beyond the first 256 ([Wide]), the HTML
      parser ([Dom]), the phone library ([Phones]), gzip ([Gzip]), the interpreter's
      recursion limit ([RecursionLimit]), pydantic's reading of a token count ([TokenCount]),
      the formatting of log arguments, the network ([Net], by attempt and hop), what one
      attempt sees of the outside ([World]), the resolver, Redis faults, and the reading of
      result documents of older releases ([Reader]).  Where a theorem relies on one of them,
      the law is among its hypotheses.
    - A transaction is atomic and has one instant [now()]; rows locked by a concurrent claim
      are an argument of the claim.  Instants are microseconds.  Floats are rationals;
      overflow, infinities and NaN are written out where they can come in ([FloatVal]).
    - Strings are lists of the first 256 code points; [str.lower] and the character classes
      of [re] are those of that range.
    - Loops that are not structural carry fuel: the sitemap walk four passes per document
      plus one per queued URL, the block scanner one more than the characters of the page,
      the wait loop 61 checks, [acquire] 240 passes per token asked for.  In each case a
      theorem says the fuel is enough.
    - One reading of the clock is used where the breaker reads it twice in a row; the
      buckets take each reading apart.

    ** Not modelled

    The upload page (upload_page.py) is one constant of markup, style and browser code.  What
    is left beside it decides nothing: the constant answer of the health check, the argument
    parser of the user commands and of the evaluation script, the formatting of printed and
    logged lines, the SQL that Alembic prints in its offline mode, and the lazily made Redis
    connections, whose calls are modelled with their failures. *)

From Stdlib Require Import ZArith QArith Lia.
From stdpp Require Import base strings option decidable sorting sets list.

#[global] Set Default Goal Selector "!".

(** ** Automation *)

Create HintDb ee.
Create Rewrite HintDb ee.

(** Case analysis on every boolean test or match of the goal. *)
Ltac break :=
  match goal with
  | |- context [if ?b then _ else _] => destruct b eqn:?
  | |- context [match ?x with _ => _ end] => destruct x eqn:?
  end.

Ltac break_in H :=
  match type of H with
  | context [if ?b then _ else _] => destruct b eqn:?
  | context [match ?x with _ => _ end] => destruct x eqn:?
  end.

(** Splits the boolean conjunctions and disjunctions of the context and turns the
    comparisons on integers into propositions. *)
Ltac bool_to_prop :=
  repeat match goal with
  | H : (_ && _)%bool = true |- _ => apply andb_true_iff in H; destruct H
  | H : (_ || _)%bool = false |- _ => apply orb_false_iff in H; destruct H
  | H : negb _ = true |- _ => apply negb_true_iff in H
  | H : negb _ = false |- _ => apply negb_false_iff in H
  | H : bool_decide _ = true |- _ => apply bool_decide_eq_true_1 in H
  | H : bool_decide _ = false |- _ => apply bool_decide_eq_false_1 in H
  | H : (_ <=? _)%Z = true |- _ => apply Z.leb_le in H
  | H : (_ <=? _)%Z = false |- _ => apply Z.leb_gt in H
  | H : (_ <? _)%Z = true |- _ => apply Z.ltb_lt in H
  | H : (_ <? _)%Z = false |- _ => apply Z.ltb_ge in H
  | H : (_ =? _)%Z = true |- _ => apply Z.eqb_eq in H
  | H : (_ =? _)%Z = false |- _ => apply Z.eqb_neq in H
  | H : String.eqb _ _ = true |- _ => apply String.eqb_eq in H
  | H : String.eqb _ _ = false |- _ => apply String.eqb_neq in H
  end.

(** ** Lists selected by boolean predicates

    The sources filter, count and test with boolean conditions; these are the Standard
    Library's boolean versions under names of their own. *)

Definition keep {A} (p : A → bool) (l : list A) : list A := List.filter p l.
Definition any {A} (p : A → bool) (l : list A) : bool := existsb p l.
Definition all {A} (p : A → bool) (l : list A) : bool := forallb p l.
Definition count {A} (p : A → bool) (l : list A) : nat := length (keep p l).
Definition mem {A} `{EqDecision A} (x : A) (l : list A) : bool := bool_decide (x ∈ l).

(** What a loop that may raise collects comes from its items. *)
Lemma elem_of_mapM {A B} (f : A → option B) l k y : mapM f l = Some k → y ∈ k → ∃ x, x ∈ l ∧ f x = Some y.
Proof.
  intros H%mapM_Some. induction H as [|x z l k Hx _ IH]; intros Hy; [by apply not_elem_of_nil in Hy|].
  apply elem_of_cons in Hy as [->|Hy]; [exists x; split; [left|done]|].
  destruct (IH Hy) as (x' & ? & ?). exists x'. split; [by right|done].
Qed.

Section bool_lists.
Context {A : Type}.
Implicit Types (p q : A → bool) (l : list A) (x : A).

Lemma elem_of_keep p l x : x ∈ keep p l ↔ x ∈ l ∧ p x = true.
Proof. unfold keep. rewrite !list_elem_of_In. apply List.filter_In. Qed.

Lemma any_true p l : any p l = true ↔ ∃ x, x ∈ l ∧ p x = true.
Proof.
  unfold any. rewrite existsb_exists.
  split; intros (x & Hx & Hp); exists x; split; try done; by apply list_elem_of_In.
Qed.

Lemma any_false p l : any p l = false ↔ ∀ x, x ∈ l → p x = false.
Proof.
  split.
  - intros H x Hx. destruct (p x) eqn:E; [|done].
    assert (any p l = true) by (apply any_true; eauto). congruence.
  - intros H. destruct (any p l) eqn:E; [|done].
    apply any_true in E as (x & Hx & Hp). rewrite H in Hp; done.
Qed.

Lemma all_true p l : all p l = true ↔ ∀ x, x ∈ l → p x = true.
Proof. unfold all. rewrite forallb_forall. by setoid_rewrite list_elem_of_In. Qed.

Lemma keep_app p l k : keep p (l ++ k) = keep p l ++ keep p k.
Proof. apply List.filter_app. Qed.

Lemma keep_all p l : (∀ x, x ∈ l → p x = true) → keep p l = l.
Proof.
  induction l as [|a l IH]; intros H; [done|]. cbn.
  rewrite H by set_solver. unfold keep in *. rewrite IH; [done|]. set_solver.
Qed.

Lemma keep_none p l : (∀ x, x ∈ l → p x = false) → keep p l = [].
Proof.
  induction l as [|a l IH]; intros H; [done|]. cbn.
  rewrite H by set_solver. unfold keep in *. rewrite IH; [done|]. set_solver.
Qed.

Lemma keep_nil_inv p l : keep p l = [] → ∀ x, x ∈ l → p x = false.
Proof.
  intros H x Hx. destruct (p x) eqn:E; [|done].
  assert (x ∈ keep p l) as Hk by (apply elem_of_keep; done).
  rewrite H in Hk. set_solver.
Qed.

Lemma keep_Permutation p l k : l ≡ₚ k → keep p l ≡ₚ keep p k.
Proof.
  induction 1; cbn; try done.
  - destruct (p x); [by constructor|done].
  - destruct (p x), (p y); try done. by constructor.
  - by etrans.
Qed.

Lemma length_keep_le p l : length (keep p l) ≤ length l.
Proof. apply List.filter_length_le. Qed.

Lemma keep_keep p q l : keep p (keep q l) = keep (λ x, q x && p x) l.
Proof.
  induction l as [|a l IH]; [done|]. cbn.
  destruct (q a) eqn:Eq; cbn; [destruct (p a)|]; unfold keep in *; by rewrite ?IH.
Qed.

Lemma keep_ext p q l : (∀ x, x ∈ l → p x = q x) → keep p l = keep q l.
Proof.
  induction l as [|a l IH]; intros H; [done|]. cbn.
  rewrite H by set_solver. unfold keep in *. rewrite IH; [done|]. set_solver.
Qed.

Lemma NoDup_keep p l : NoDup l → NoDup (keep p l).
Proof. intros H. apply NoDup_ListNoDup, List.NoDup_filter, NoDup_ListNoDup, H. Qed.

Lemma count_zero p l : count p l = 0%nat ↔ any p l = false.
Proof.
  unfold count. rewrite any_false. split.
  - intros H. apply keep_nil_inv. by destruct (keep p l).
  - intros H. by rewrite keep_none.
Qed.
End bool_lists.

#[export] Instance keep_perm {A} (p : A → bool) : Proper ((≡ₚ) ==> (≡ₚ)) (keep p).
Proof.
  intros l l' H. unfold keep. induction H; cbn; repeat case_match; try done.
  - by constructor.
  - by apply perm_swap.
  - by etransitivity.
Qed.

Lemma mem_true {A} `{EqDecision A} (x : A) l : mem x l = true ↔ x ∈ l.
Proof. apply bool_decide_eq_true. Qed.

Lemma mem_false {A} `{EqDecision A} (x : A) l : mem x l = false ↔ x ∉ l.
Proof. apply bool_decide_eq_false. Qed.

#[export] Hint Rewrite @elem_of_keep @any_true @any_false @mem_true @mem_false : ee.

(** ** Stable sorting by a boolean order

    Python's [sorted] and [list.sort] are stable: an element is placed after every
    earlier element it does not strictly precede.  [le x y] reads "x may come before y". *)

Section sort_by.
Context {A : Type} (le : A → A → bool).

Fixpoint insert_by (x : A) (l : list A) : list A :=
  match l with
  | [] => [x]
  | y :: l' => if le x y then x :: y :: l' else y :: insert_by x l'
  end.

Fixpoint sort_by (l : list A) : list A :=
  match l with
  | [] => []
  | x :: l' => insert_by x (sort_by l')
  end.

Lemma insert_by_Permutation x l : insert_by x l ≡ₚ x :: l.
Proof.
  induction l as [|y l IH]; [done|]. cbn. break; [done|].
  rewrite IH. by constructor.
Qed.

Lemma sort_by_Permutation l : sort_by l ≡ₚ l.
Proof. induction l as [|x l IH]; [done|]. cbn. rewrite insert_by_Permutation. by f_equiv. Qed.

Lemma elem_of_sort_by x l : x ∈ sort_by l ↔ x ∈ l.
Proof. by rewrite sort_by_Permutation. Qed.

Lemma length_sort_by l : length (sort_by l) = length l.
Proof. by rewrite sort_by_Permutation. Qed.

Context (Htotal : ∀ x y, le x y = false → le y x = true).
Context (Htrans : ∀ x y z, le x y = true → le y z = true → le x z = true).

Definition le_rel (x y : A) : Prop := le x y = true.

Lemma insert_by_StronglySorted x l :
  StronglySorted le_rel l → StronglySorted le_rel (insert_by x l).
Proof.
  induction 1 as [|y l Hs IH Hall]; cbn; [repeat constructor|].
  break.
  - constructor; [by constructor|]. constructor; [done|].
    eapply Forall_impl; [exact Hall|]. intros z. by apply Htrans.
  - constructor; [done|]. rewrite insert_by_Permutation. constructor; [|done].
    by apply Htotal.
Qed.

Lemma sort_by_StronglySorted l : StronglySorted le_rel (sort_by l).
Proof. induction l; cbn; [constructor|by apply insert_by_StronglySorted]. Qed.

(** The head of the sorted list is a least element. *)
Lemma sort_by_head_least x l k : sort_by l = x :: k → ∀ y, y ∈ l → le x y = true ∨ y = x.
Proof.
  intros E y Hy. assert (y ∈ x :: k) as Hin by (rewrite <- E; by apply elem_of_sort_by).
  pose proof (sort_by_StronglySorted l) as Hs. rewrite E in Hs.
  inversion Hs as [|? ? _ Hall]; subst.
  apply elem_of_cons in Hin as [->|Hin]; [by right|]. left.
  rewrite Forall_forall in Hall. by apply Hall.
Qed.

(** Stability: elements that tie (each may precede the other, in one class [p] of
    mutually tied elements) keep their input order. *)
Lemma insert_by_keep p x l :
  (∀ y, p x = true → p y = true → le x y = true) →
  keep p (insert_by x l) = keep p (x :: l).
Proof.
  intros Hp. induction l as [|y l IH]; [done|]. cbn. break; [done|].
  cbn. destruct (p y) eqn:Ey.
  - destruct (p x) eqn:Ex; [rewrite Hp in Heqb; done|].
    unfold keep in *. rewrite IH. cbn. by rewrite Ex.
  - unfold keep in *. by rewrite IH.
Qed.

Lemma sort_by_stable p l :
  (∀ x y, p x = true → p y = true → le x y = true) → keep p (sort_by l) = keep p l.
Proof.
  intros Hp. induction l as [|x l IH]; [done|]. cbn [sort_by].
  rewrite insert_by_keep by auto. unfold keep in *. cbn. by rewrite IH.
Qed.
End sort_by.

(** Lexicographic comparison of keys, as Python compares tuples: [lex c d] refines the
    comparison [c] by [d]. *)
Definition lex (c d : comparison) : comparison := match c with Eq => d | _ => c end.

Definition le_of (c : comparison) : bool := match c with Gt => false | _ => true end.

Record CompareOk {A} (cmp : A → A → comparison) : Prop := {
  cmp_flip : ∀ x y, cmp y x = CompOpp (cmp x y);
  cmp_lt_trans : ∀ x y z, cmp x y = Lt → cmp y z = Lt → cmp x z = Lt;
  cmp_eq_l : ∀ x y z, cmp x y = Eq → cmp x z = cmp y z
}.

Section compare_ok.
Context {A : Type}.
Implicit Types cmp : A → A → comparison.

Lemma cmp_eq_r cmp x y z : CompareOk cmp → cmp x y = Eq → cmp z x = cmp z y.
Proof. intros H E. rewrite (cmp_flip _ H x z), (cmp_flip _ H y z). f_equal. by apply cmp_eq_l. Qed.

Lemma CompareOk_lex cmp1 cmp2 :
  CompareOk cmp1 → CompareOk cmp2 → CompareOk (λ x y, lex (cmp1 x y) (cmp2 x y)).
Proof.
  intros H1 H2. split.
  - intros x y. rewrite (cmp_flip _ H1), (cmp_flip _ H2). by destruct (cmp1 x y).
  - intros x y z. destruct (cmp1 x y) eqn:E1; cbn; try done.
    + rewrite (cmp_eq_l _ H1 x y z E1). destruct (cmp1 y z); cbn; try done. apply H2.
    + intros _. destruct (cmp1 y z) eqn:E2; cbn; try done.
      * rewrite <- (cmp_eq_r _ y z x H1 E2), E1. done.
      * by rewrite (cmp_lt_trans _ H1 x y z).
  - intros x y z. destruct (cmp1 x y) eqn:E1; cbn; try done. intros E2.
    rewrite (cmp_eq_l _ H1 x y z E1). by rewrite (cmp_eq_l _ H2 x y z E2).
Qed.

Lemma CompareOk_on {B} (f : A → B) (cmp : B → B → comparison) :
  CompareOk cmp → CompareOk (λ x y, cmp (f x) (f y)).
Proof. intros H. split; intros; [apply H|by eapply (cmp_lt_trans _ H)|by apply (cmp_eq_l _ H)]. Qed.

Lemma CompareOk_total cmp x y :
  CompareOk cmp → le_of (cmp x y) = false → le_of (cmp y x) = true.
Proof. intros H. rewrite (cmp_flip _ H x y). by destruct (cmp x y). Qed.

Lemma CompareOk_trans cmp x y z :
  CompareOk cmp → le_of (cmp x y) = true → le_of (cmp y z) = true → le_of (cmp x z) = true.
Proof.
  intros H. destruct (cmp x y) eqn:E1; cbn; try done; intros _.
  - by rewrite (cmp_eq_l _ H x y z E1).
  - destruct (cmp y z) eqn:E2; cbn; try done; intros _.
    + by rewrite <- (cmp_eq_r _ y z x H E2), E1.
    + by rewrite (cmp_lt_trans _ H x y z).
Qed.
End compare_ok.

Lemma CompareOk_Z : CompareOk Z.compare.
Proof.
  split.
  - intros x y. apply Z.compare_antisym.
  - intros x y z. rewrite !Z.compare_lt_iff. lia.
  - intros x y z H. apply Z.compare_eq in H. by subst.
Qed.

Lemma CompareOk_nat : CompareOk Nat.compare.
Proof.
  split.
  - intros x y. apply Nat.compare_antisym.
  - intros x y z. rewrite !Nat.compare_lt_iff. lia.
  - intros x y z H. apply Nat.compare_eq in H. by subst.
Qed.

(** Python compares strings by code point, as [String.compare] does on characters. *)
Lemma string_compare_lt_trans x y z :
  String.compare x y = Lt → String.compare y z = Lt → String.compare x z = Lt.
Proof.
  revert y z. induction x as [|a x IH]; intros [|b y] [|c z]; cbn; try done.
  unfold Ascii.compare.
  destruct (N.compare_spec (Ascii.N_of_ascii a) (Ascii.N_of_ascii b)) as [E|E|E];
    destruct (N.compare_spec (Ascii.N_of_ascii b) (Ascii.N_of_ascii c)) as [F|F|F];
    destruct (N.compare_spec (Ascii.N_of_ascii a) (Ascii.N_of_ascii c)) as [G|G|G];
    try done; try lia. apply IH.
Qed.

Lemma CompareOk_string : CompareOk String.compare.
Proof.
  split.
  - intros x y. apply String.compare_antisym.
  - apply string_compare_lt_trans.
  - intros x y z H. apply String.compare_eq_iff in H. by subst.
Qed.

#[export] Hint Resolve CompareOk_lex CompareOk_on CompareOk_Z CompareOk_nat CompareOk_string : ee.

Lemma StronglySorted_weaken {A} (R S : A → A → Prop) l :
  (∀ x y, R x y → S x y) → StronglySorted R l → StronglySorted S l.
Proof.
  intros H. induction 1 as [|x l _ IH Hx]; constructor; [done|]. eapply Forall_impl; [exact Hx|]. auto.
Qed.

(** Sorting by a comparison yields a list in its order. *)
Lemma sort_cmp_sorted {A} (cmp : A → A → comparison) l :
  CompareOk cmp → StronglySorted (λ x y, cmp x y ≠ Gt) (sort_by (λ x y, le_of (cmp x y)) l).
Proof.
  intros H. eapply StronglySorted_weaken; [|apply sort_by_StronglySorted].
  - intros x y. unfold le_rel, le_of. by destruct (cmp x y).
  - intros x y. apply (CompareOk_total cmp), H.
  - intros x y z. apply (CompareOk_trans cmp), H.
Qed.
