(* ===== verification/PyStr.v ===== *)
(** * Python strings

    A [str] is a [string] whose characters are code points U+0000 to U+00FF.  The
    operations are those of the language reference on that range: case mapping, white
    space and the character classes are the Latin-1 ones. *)

From Stdlib Require Import ZArith Lia Ascii.
From stdpp Require Import base strings option sets list.
From S2P Require Import Prelude.

(** ** Characters *)

Definition code (c : ascii) : N := N_of_ascii c.
Definition between (lo hi : N) (c : ascii) : bool := N.leb lo (code c) && N.leb (code c) hi.

Definition is_lower (c : ascii) : bool := between 97 122 c.
Definition is_upper (c : ascii) : bool := between 65 90 c.
Definition is_digit09 (c : ascii) : bool := between 48 57 c.

(** [str.lower] on one character: A-Z, and U+00C0 to U+00DE but the multiplication sign. *)
Definition lower_char (c : ascii) : ascii :=
  if is_upper c || (between 192 222 c && negb (N.eqb (code c) 215))
  then ascii_of_N (code c + 32) else c.

(** [str.isspace]: tab to carriage return, U+001C to U+001F, space, U+0085, U+00A0. *)
Definition is_space (c : ascii) : bool :=
  between 9 13 c || between 28 32 c || N.eqb (code c) 133 || N.eqb (code c) 160.

(** [str.isalpha] and [str.isalnum]; superscripts and fractions are numeric. *)
Definition is_alpha (c : ascii) : bool :=
  is_lower c || is_upper c || N.eqb (code c) 170 || N.eqb (code c) 181 || N.eqb (code c) 186
  || (between 192 255 c && negb (N.eqb (code c) 215) && negb (N.eqb (code c) 247)).
Definition is_alnum (c : ascii) : bool :=
  is_alpha c || is_digit09 c || N.eqb (code c) 178 || N.eqb (code c) 179 || N.eqb (code c) 185
  || between 188 190 c.
Definition is_digit (c : ascii) : bool :=
  is_digit09 c || N.eqb (code c) 178 || N.eqb (code c) 179 || N.eqb (code c) 185.

Lemma lower_char_idemp c : lower_char (lower_char c) = lower_char c.
Proof. by destruct c as [[] [] [] [] [] [] [] []]. Qed.

(** ** Whole strings *)

Fixpoint str_map (f : ascii → ascii) (s : string) : string :=
  match s with EmptyString => EmptyString | String c s' => String (f c) (str_map f s') end.

Definition lower (s : string) : string := str_map lower_char s.

Fixpoint str_all (p : ascii → bool) (s : string) : bool :=
  match s with EmptyString => true | String c s' => p c && str_all p s' end.

Fixpoint str_any (p : ascii → bool) (s : string) : bool :=
  match s with EmptyString => false | String c s' => p c || str_any p s' end.

Definition nonempty (s : string) : bool := negb (String.eqb s "").

(** The tests that are false on the empty string. *)
Definition isalpha (s : string) : bool := nonempty s && str_all is_alpha s.
Definition isalnum (s : string) : bool := nonempty s && str_all is_alnum s.
Definition isdigit (s : string) : bool := nonempty s && str_all is_digit s.
Definition isascii (s : string) : bool := str_all (between 0 127) s.

Definition startswith (s p : string) : bool := String.prefix p s.
Definition startswith_any (s : string) (ps : list string) : bool := any (startswith s) ps.

Fixpoint str_rev_app (s acc : string) : string :=
  match s with EmptyString => acc | String c s' => str_rev_app s' (String c acc) end.
Definition str_rev (s : string) : string := str_rev_app s "".

Definition endswith (s p : string) : bool := String.prefix (str_rev p) (str_rev s).
Definition endswith_any (s : string) (ps : list string) : bool := any (endswith s) ps.

(** [x in s] for strings. *)
Fixpoint contains (s x : string) : bool :=
  String.prefix x s || match s with EmptyString => false | String _ s' => contains s' x end.

Definition has_char (c : ascii) (s : string) : bool := str_any (Ascii.eqb c) s.

(** Slices with bounds inside the string. *)
Fixpoint str_take (n : nat) (s : string) : string :=
  match n, s with
  | O, _ => ""
  | _, EmptyString => ""
  | S n', String c s' => String c (str_take n' s')
  end.
Fixpoint str_drop (n : nat) (s : string) : string :=
  match n, s with
  | O, _ => s
  | _, EmptyString => ""
  | S n', String _ s' => str_drop n' s'
  end.
Definition slice (i j : nat) (s : string) : string := str_take (j - i) (str_drop i s).

(** [s.find(x, start)], as the index of the first occurrence at or after [start]. *)
Fixpoint find_at (x : string) (s : string) (i : nat) : option nat :=
  if String.prefix x s then Some i
  else match s with EmptyString => None | String _ s' => find_at x s' (S i) end.
Definition find_from (s x : string) (start : nat) : option nat :=
  if Nat.leb start (String.length s) then find_at x (str_drop start s) start else None.

(** [str.lstrip], [str.rstrip] and [str.strip] with a set of characters. *)
Fixpoint lstrip_by (p : ascii → bool) (s : string) : string :=
  match s with
  | EmptyString => EmptyString
  | String c s' => if p c then lstrip_by p s' else s
  end.
Definition rstrip_by (p : ascii → bool) (s : string) : string := str_rev (lstrip_by p (str_rev s)).
Definition strip_by (p : ascii → bool) (s : string) : string := rstrip_by p (lstrip_by p s).
Definition strip (s : string) : string := strip_by is_space s.
Definition in_set (cs : string) (c : ascii) : bool := has_char c cs.
Definition strip_chars (cs s : string) : string := strip_by (in_set cs) s.
Definition lstrip_chars (cs s : string) : string := lstrip_by (in_set cs) s.
Definition rstrip_chars (cs s : string) : string := rstrip_by (in_set cs) s.

(** [s.split(c)] for a one-character separator: never empty, empty pieces kept. *)
Fixpoint split_on (p : ascii → bool) (s : string) : list string :=
  match s with
  | EmptyString => [""]
  | String c s' =>
      if p c then "" :: split_on p s'
      else match split_on p s' with
           | [] => [String c ""]
           | w :: ws => String c w :: ws
           end
  end.
Definition split_char (c : ascii) (s : string) : list string := split_on (Ascii.eqb c) s.

(** [sep.join(l)]. *)
Fixpoint join (sep : string) (l : list string) : string :=
  match l with
  | [] => ""
  | [w] => w
  | w :: ws => w +:+ sep +:+ join sep ws
  end.

(** [s.partition(c)] and [s.rpartition(c)]: the parts around the first and the last
    occurrence; without one, the string is the first part and the last part. *)
Fixpoint partition_at (c : ascii) (s : string) : option (string * string) :=
  match s with
  | EmptyString => None
  | String d s' =>
      if Ascii.eqb c d then Some ("", s')
      else match partition_at c s' with
           | Some (a, b) => Some (String d a, b)
           | None => None
           end
  end.
Definition partition (c : ascii) (s : string) : string * string :=
  match partition_at c s with Some p => p | None => (s, "") end.

Fixpoint rpartition_at (c : ascii) (s : string) : option (string * string) :=
  match s with
  | EmptyString => None
  | String d s' =>
      match rpartition_at c s' with
      | Some (a, b) => Some (String d a, b)
      | None => if Ascii.eqb c d then Some ("", s') else None
      end
  end.
Definition rpartition (c : ascii) (s : string) : string * string :=
  match rpartition_at c s with Some p => p | None => ("", s) end.

(** The line boundaries of [str.splitlines] below U+0100. *)
Definition is_line_break (c : ascii) : bool := between 10 13 c || between 28 30 c || N.eqb (code c) 133.

(** [s.splitlines()]: a carriage return and a newline end one line, and nothing follows the
    last line end; [cur] is the current line, reversed. *)
Fixpoint splitlines_from (cur s : string) : list string :=
  match s with
  | EmptyString => if nonempty cur then [str_rev cur] else []
  | String c s' =>
      if is_line_break c
      then str_rev cur ::
           match s' with
           | String d s'' => if N.eqb (code c) 13 && N.eqb (code d) 10 then splitlines_from "" s'' else splitlines_from "" s'
           | EmptyString => []
           end
      else splitlines_from (String c cur) s'
  end.
Definition splitlines (s : string) : list string := splitlines_from "" s.

(** ** Lemmas *)

#[global] Arguments String.append !_ _ / : simpl nomatch.
#[global] Arguments str_rev : simpl never.

Lemma app_assoc_str (a b c : string) : (a +:+ b) +:+ c = a +:+ b +:+ c.
Proof. induction a as [|x a IH]; cbn; [done|]. by rewrite IH. Qed.

Lemma app_nil_str (a : string) : a +:+ "" = a.
Proof. induction a as [|x a IH]; cbn; [done|]. by rewrite IH. Qed.

Lemma str_rev_app_spec s acc : str_rev_app s acc = str_rev s +:+ acc.
Proof.
  unfold str_rev. revert acc. induction s as [|c s IH]; intros acc; cbn; [done|].
  rewrite IH, (IH (String c "")). clear. induction (str_rev_app s "") as [|d u IHu]; cbn; [done|].
  by rewrite IHu.
Qed.

Lemma str_rev_cons c s : str_rev (String c s) = str_rev s +:+ String c "".
Proof. unfold str_rev at 1. cbn. apply str_rev_app_spec. Qed.

Lemma str_rev_snoc s c : str_rev (s +:+ String c "") = String c (str_rev s).
Proof. induction s as [|d s IH]; [done|]. cbn. rewrite !str_rev_cons, IH. done. Qed.

Lemma str_rev_involutive s : str_rev (str_rev s) = s.
Proof. induction s as [|c s IH]; [done|]. by rewrite str_rev_cons, str_rev_snoc, IH. Qed.

Lemma str_rev_app_distr a b : str_rev (a +:+ b) = str_rev b +:+ str_rev a.
Proof.
  induction a as [|c a IH]; cbn; [by rewrite app_nil_str|].
  by rewrite !str_rev_cons, IH, app_assoc_str.
Qed.

Lemma str_map_app f s t : str_map f (s +:+ t) = str_map f s +:+ str_map f t.
Proof. induction s as [|c s IH]; cbn; [done|]. by rewrite IH. Qed.

Lemma lower_idemp s : lower (lower s) = lower s.
Proof. unfold lower. induction s as [|c s IH]; cbn; [done|]. by rewrite lower_char_idemp, IH. Qed.

Lemma length_lower s : String.length (lower s) = String.length s.
Proof. unfold lower. induction s as [|c s IH]; cbn; [done|]. by rewrite IH. Qed.

Lemma prefix_app p s : String.prefix p (p +:+ s) = true.
Proof. induction p as [|c p IH]; cbn; [by destruct s|]. by destruct (ascii_dec c c). Qed.

Lemma prefix_spec p s : String.prefix p s = true ↔ ∃ t, s = p +:+ t.
Proof.
  split.
  - revert s. induction p as [|c p IH]; intros s H; [by exists s|].
    destruct s as [|d s]; [done|]. cbn in H. destruct (ascii_dec c d) as [->|]; [|done].
    destruct (IH s H) as [t ->]. by exists t.
  - intros [t ->]. apply prefix_app.
Qed.

Lemma contains_cons c s x : contains (String c s) x = String.prefix x (String c s) || contains s x.
Proof. done. Qed.

Lemma contains_prefix s x : String.prefix x s = true → contains s x = true.
Proof. destruct s; cbn [contains]; by intros ->. Qed.

Lemma contains_spec s x : contains s x = true ↔ ∃ a b, s = a +:+ x +:+ b.
Proof.
  split.
  - induction s as [|c s IH].
    + cbn [contains]. rewrite orb_false_r. intros [t E]%prefix_spec. by exists "", t.
    + rewrite contains_cons. intros [H|H]%orb_true_iff.
      * apply prefix_spec in H as [t ->]. by exists "", t.
      * destruct (IH H) as (a & b & ->). by exists (String c a), b.
  - intros (a & b & ->). induction a as [|c a IH].
    + apply contains_prefix, (prefix_app x b).
    + change (String c a +:+ x +:+ b) with (String c (a +:+ x +:+ b)).
      rewrite contains_cons, IH. apply orb_true_r.
Qed.

Lemma has_char_app c s t : has_char c (s +:+ t) = has_char c s || has_char c t.
Proof.
  unfold has_char. induction s as [|d s IH]; cbn; [done|]. by rewrite IH, orb_assoc.
Qed.

Lemma join_split_on c s : join (String c "") (split_char c s) = s.
Proof.
  unfold split_char. induction s as [|d s IH]; [done|]. cbn [split_on].
  destruct (Ascii.eqb_spec c d) as [->|Hne].
  - destruct (split_on (Ascii.eqb d) s) as [|w ws] eqn:E.
    + destruct s; cbn in E; [done|]. by repeat (break_in E; try done).
    + cbn in *. by rewrite IH.
  - destruct (split_on (Ascii.eqb c) s) as [|w ws] eqn:E.
    + destruct s; cbn in E; [done|]. by repeat (break_in E; try done).
    + cbn in *. destruct ws; cbn in *; congruence.
Qed.

Lemma partition_at_Some c s a b : partition_at c s = Some (a, b) → s = a +:+ String c b.
Proof.
  revert a. induction s as [|d s IH]; cbn; [done|]. intros a.
  destruct (Ascii.eqb_spec c d) as [->|]; [by intros [= <- <-]|].
  destruct (partition_at c s) as [[a' b']|]; [|done].
  intros [= <- <-]. cbn. f_equal. by apply IH.
Qed.

Lemma rpartition_at_Some c s a b :
  rpartition_at c s = Some (a, b) → s = a +:+ String c b ∧ has_char c b = false.
Proof.
  revert a b. induction s as [|d s IH]; cbn; [done|]. intros a b.
  destruct (rpartition_at c s) as [[a' b']|] eqn:E.
  - intros [= <- <-]. destruct (IH a' b' eq_refl) as [-> ?]. done.
  - destruct (Ascii.eqb_spec c d) as [->|]; [|done]. intros [= <- <-]. split; [done|].
    clear IH. induction s as [|x s IHs]; [done|]. cbn in E |- *.
    destruct (rpartition_at d s) as [[? ?]|]; [done|].
    destruct (Ascii.eqb d x); [done|]. by apply IHs.
Qed.

Lemma rpartition_at_None c s : rpartition_at c s = None ↔ has_char c s = false.
Proof.
  induction s as [|d s IH]; [done|]. unfold has_char in *. cbn.
  destruct (rpartition_at c s) as [[? ?]|]; cbn.
  - split; [done|]. intros [_ H]%orb_false_iff. apply IH in H. done.
  - rewrite (proj1 IH eq_refl), orb_false_r. by destruct (Ascii.eqb c d).
Qed.

(** ** Substrings *)

Lemma contains_refl s : contains s s = true.
Proof. apply contains_spec. exists "", "". by rewrite app_nil_str. Qed.

Lemma contains_trans s t u : contains s t = true → contains t u = true → contains s u = true.
Proof.
  intros (a & b & ->)%contains_spec (c & d & ->)%contains_spec. apply contains_spec.
  exists (a +:+ c), (d +:+ b). by rewrite !app_assoc_str.
Qed.

Lemma contains_app_l s a b : s = a +:+ b → contains s a = true.
Proof. intros ->. apply contains_spec. by exists "", b. Qed.

Lemma contains_app_r s a b : s = a +:+ b → contains s b = true.
Proof. intros ->. apply contains_spec. exists a, "". by rewrite app_nil_str. Qed.

Lemma lower_app s t : lower (s +:+ t) = lower s +:+ lower t.
Proof. apply str_map_app. Qed.

Lemma contains_lower s x : contains s x = true → contains (lower s) (lower x) = true.
Proof. intros (a & b & ->)%contains_spec. rewrite !lower_app. apply contains_spec. eauto. Qed.

Lemma lstrip_by_spec p s : ∃ a, s = a +:+ lstrip_by p s ∧ str_all p a = true.
Proof.
  induction s as [|c s (a & E & Ha)]; [by exists ""|]. cbn. destruct (p c) eqn:Ep; [|by exists ""].
  exists (String c a). cbn. rewrite Ep, Ha. split; [by rewrite <- E|done].
Qed.

Lemma contains_strip_by p s : contains s (strip_by p s) = true.
Proof.
  unfold strip_by, rstrip_by. destruct (lstrip_by_spec p s) as (a & E & _).
  set (t := lstrip_by p s) in *. destruct (lstrip_by_spec p (str_rev t)) as (b & E2 & _).
  apply (contains_trans s t); [by eapply contains_app_r|].
  apply contains_app_l with (str_rev b). rewrite <- str_rev_app_distr, <- E2. by rewrite str_rev_involutive.
Qed.

Lemma lstrip_by_id p s : str_all (λ c, negb (p c)) s = true → lstrip_by p s = s.
Proof. destruct s as [|c s]; cbn; [done|]. intros [H _]%andb_true_iff. by destruct (p c). Qed.

Lemma str_all_app p a b : str_all p (a +:+ b) = str_all p a && str_all p b.
Proof. induction a as [|c a IH]; cbn; [done|]. by rewrite IH, andb_assoc. Qed.

Lemma str_all_rev p s : str_all p (str_rev s) = str_all p s.
Proof.
  induction s as [|c s IH]; [done|]. rewrite str_rev_cons, str_all_app, IH. cbn.
  by rewrite andb_true_r, andb_comm.
Qed.

Lemma strip_by_id p s : str_all (λ c, negb (p c)) s = true → strip_by p s = s.
Proof.
  intros H. unfold strip_by, rstrip_by. rewrite (lstrip_by_id p s H), lstrip_by_id by (by rewrite str_all_rev).
  apply str_rev_involutive.
Qed.

(** Stripping twice is stripping once. *)
Lemma lstrip_by_idem p s : lstrip_by p (lstrip_by p s) = lstrip_by p s.
Proof. induction s as [|c s IH]; cbn; [done|]. destruct (p c) eqn:E; [done|]. cbn. by rewrite E. Qed.

Lemma lstrip_by_prefix p a b : lstrip_by p (a +:+ b) = a +:+ b → lstrip_by p a = a.
Proof.
  destruct a as [|c a]; [done|]. cbn. destruct (p c) eqn:E; [|done]. intros H. exfalso.
  assert (String.length (lstrip_by p (a +:+ b)) ≤ String.length (a +:+ b)) as Hl.
  { generalize (a +:+ b). intros t. induction t as [|d t IH]; cbn; [lia|]. destruct (p d); cbn; lia. }
  rewrite H in Hl. cbn in Hl. lia.
Qed.

Lemma strip_by_idem p s : strip_by p (strip_by p s) = strip_by p s.
Proof.
  unfold strip_by, rstrip_by. set (u := lstrip_by p s). set (r := str_rev (lstrip_by p (str_rev u))).
  assert (lstrip_by p u = u) as Hu by apply lstrip_by_idem.
  destruct (lstrip_by_spec p (str_rev u)) as (b & E & _).
  assert (u = r +:+ str_rev b) as Er.
  { unfold r. rewrite <- str_rev_app_distr, <- E. by rewrite str_rev_involutive. }
  assert (lstrip_by p r = r) as -> by (apply lstrip_by_prefix with (str_rev b); by rewrite <- Er).
  unfold r. by rewrite str_rev_involutive, lstrip_by_idem.
Qed.

Lemma strip_idem s : strip (strip s) = strip s.
Proof. apply strip_by_idem. Qed.

Lemma str_all_impl (p q : ascii → bool) s :
  (∀ c, p c = true → q c = true) → str_all p s = true → str_all q s = true.
Proof.
  intros H. induction s as [|c s IH]; cbn; [done|]. intros [Hc Hs]%andb_true_iff. by rewrite (H c Hc), IH.
Qed.

Lemma split_on_nonempty p s : split_on p s ≠ [].
Proof. destruct s as [|c s]; cbn; [done|]. destruct (p c); [done|]. by destruct (split_on p s). Qed.

Lemma join_snoc sep l w : join sep (l ++ [w]) = match l with [] => w | _ => join sep l +:+ sep +:+ w end.
Proof.
  induction l as [|a l IH]; [done|]. cbn [app]. destruct l as [|b l]; [done|].
  change (join sep (a :: (b :: l) ++ [w])) with (a +:+ sep +:+ join sep ((b :: l) ++ [w])).
  rewrite IH. change (join sep (a :: b :: l)) with (a +:+ sep +:+ join sep (b :: l)). by rewrite !app_assoc_str.
Qed.

Lemma str_drop_app a b : str_drop (String.length a) (a +:+ b) = b.
Proof. induction a as [|c a IH]; [by destruct b|]. cbn. apply IH. Qed.
