(* ===== verification/Sql.v ===== *)
(** * Relational tables

    A table is the list of its rows.  An [UPDATE ... SET ... WHERE] is [update_where], the
    rows its [RETURNING] clause names are [returning], [SELECT count] and [EXISTS] are
    [count] and [any].  Comparisons with NULL are neither true nor false in SQL and a
    WHERE clause keeps only the rows whose condition is true: the comparison operators
    on nullable columns are false on [None]. *)

From Stdlib Require Import ZArith Lia Ascii.
From stdpp Require Import base strings option sets list.
From S2P Require Import Prelude.

(** ** Comparisons on nullable columns *)

Definition null_eq {A} `{EqDecision A} (c : option A) (v : A) : bool := bool_decide (c = Some v).
Definition null_lt (c : option Z) (v : Z) : bool :=
  match c with Some x => Z.ltb x v | None => false end.
Definition null_any {A} `{EqDecision A} (c : option A) (vs : list A) : bool :=
  match c with Some x => mem x vs | None => false end.
Definition is_null {A} (c : option A) : bool := match c with None => true | _ => false end.
Definition coalesce {A} (c : option A) (d : A) : A := default d c.

(** [LIKE]: [%] matches any run, [_] any one character, a backslash quotes the next. *)
Fixpoint like (s pat : string) {struct pat} : bool :=
  match pat with
  | EmptyString => match s with EmptyString => true | _ => false end
  | String pc pat' =>
      if Ascii.eqb pc "%"%char then
        (fix go (s : string) : bool :=
           like s pat' || match s with EmptyString => false | String _ s' => go s' end) s
      else match s with
      | EmptyString => false
      | String sc s' =>
          if Ascii.eqb pc "_"%char then like s' pat'
          else if Ascii.eqb pc "\"%char then
            match pat' with
            | EmptyString => false
            | String qc pat'' => Ascii.eqb qc sc && like s' pat''
            end
          else Ascii.eqb pc sc && like s' pat'
      end
  end.

(** No character of the string is special to [LIKE]. *)
Fixpoint like_plain (s : string) : bool :=
  match s with
  | EmptyString => true
  | String c s' =>
      negb (Ascii.eqb c "%"%char) && negb (Ascii.eqb c "_"%char) && negb (Ascii.eqb c "\"%char) && like_plain s'
  end.

Lemma like_percent s : like s "%" = true.
Proof. cbn. induction s; cbn; [done|]. by rewrite IHs. Qed.

(** A plain pattern followed by [%] matches exactly the strings that extend it. *)
Lemma like_prefix p s : like_plain p = true → like s (p +:+ "%") = String.prefix p s.
Proof.
  revert s. induction p as [|c p IH]; intros s Hp.
  - change (("" +:+ "%")%string) with "%"%string. rewrite like_percent. by destruct s.
  - cbn in Hp. apply andb_true_iff in Hp as [[[E1 E2]%andb_true_iff E3]%andb_true_iff Hp].
    apply negb_true_iff in E1, E2, E3.
    change ((String c p +:+ "%")%string) with (String c (p +:+ "%")). cbn [like].
    rewrite E1, E2, E3. destruct s as [|d s]; [done|]. cbn.
    rewrite IH by done. destruct (Ascii.ascii_dec c d) as [->|Hne].
    + by rewrite Ascii.eqb_refl.
    + by destruct (Ascii.eqb_spec c d).
Qed.

(** ** Updates *)

Definition update_where {R} (p : R → bool) (f : R → R) (t : list R) : list R :=
  map (λ r, if p r then f r else r) t.

Definition returning {R} (p : R → bool) (t : list R) : list R := keep p t.

(** [ORDER BY key] with the earlier row first on ties, which Postgres leaves open. *)
Definition order_by {R} (cmp : R → R → comparison) (t : list R) : list R :=
  sort_by (λ x y, le_of (cmp x y)) t.

Definition limit {R} (n : nat) (t : list R) : list R := take n t.

Section updates.
Context {R : Type}.
Implicit Types (p q : R → bool) (f : R → R) (t : list R).

Lemma length_update_where p f t : length (update_where p f t) = length t.
Proof. apply length_map. Qed.

Lemma elem_of_update_where p f t r :
  r ∈ update_where p f t ↔ ∃ r0, r0 ∈ t ∧ r = if p r0 then f r0 else r0.
Proof.
  unfold update_where. rewrite list_elem_of_In, in_map_iff.
  split; intros (x & H1 & H2); exists x; split; try done.
  - by apply list_elem_of_In.
  - by apply list_elem_of_In.
Qed.

Lemma update_where_none p f t : any p t = false → update_where p f t = t.
Proof.
  rewrite any_false. intros H. unfold update_where. rewrite <- (map_id t) at 2.
  apply map_ext_in. intros r Hr. by rewrite H by (by apply list_elem_of_In).
Qed.

Lemma returning_nil p t : returning p t = [] ↔ any p t = false.
Proof.
  rewrite any_false. split.
  - apply keep_nil_inv.
  - apply keep_none.
Qed.

Lemma Forall_update_where (P : R → Prop) p f t :
  Forall P t → (∀ r, r ∈ t → P r → p r = true → P (f r)) → Forall P (update_where p f t).
Proof.
  rewrite !Forall_forall. intros H Hf r (r0 & Hr0 & ->)%elem_of_update_where.
  break; auto.
Qed.

(** An update that leaves a column alone leaves the column's list alone. *)
Lemma update_where_column {K} (key : R → K) p f t :
  (∀ r, p r = true → key (f r) = key r) → map key (update_where p f t) = map key t.
Proof.
  intros H. unfold update_where. rewrite map_map. apply map_ext. intros r. break; auto.
Qed.

Lemma keep_update_where_stable q p f t :
  (∀ r, p r = true → q r = false ∧ q (f r) = false) → keep q (update_where p f t) = keep q t.
Proof.
  intros H. induction t as [|r t IH]; [done|]. cbn.
  destruct (p r) eqn:E.
  - destruct (H r E) as [H1 H2]. rewrite H1, H2. apply IH.
  - unfold keep, update_where in *. by rewrite IH.
Qed.

Lemma count_update_where q p f t :
  (∀ r, p r = true → q (f r) = q r) → count q (update_where p f t) = count q t.
Proof.
  intros H. unfold count. induction t as [|r t IH]; [done|].
  cbn. destruct (p r) eqn:E; [rewrite H by done|]; destruct (q r); cbn;
    unfold keep, update_where in *; by rewrite IH.
Qed.

Lemma any_update_where q p f t :
  (∀ r, p r = true → q (f r) = q r) → any q (update_where p f t) = any q t.
Proof.
  intros H. pose proof (count_update_where q p f t H) as Hc.
  destruct (any q t) eqn:E1, (any q (update_where p f t)) eqn:E2; try done.
  - apply count_zero in E2. rewrite E2 in Hc. symmetry in Hc. apply count_zero in Hc. congruence.
  - apply count_zero in E1. rewrite E1 in Hc. apply count_zero in Hc. congruence.
Qed.
End updates.

(** ** Rows by primary key *)

Section by_key.
Context {R K : Type} `{EqDecision K} (key : R → K).

Definition find_row (k : K) (t : list R) : option R := head (keep (λ r, bool_decide (key r = k)) t).

Lemma find_row_Some k t r : find_row k t = Some r → r ∈ t ∧ key r = k.
Proof.
  unfold find_row. intros H.
  destruct (keep _ t) as [|x l] eqn:E; [done|]. cbn in H. injection H as ->.
  assert (r ∈ keep (λ r, bool_decide (key r = k)) t) as Hin by (rewrite E; set_solver).
  apply elem_of_keep in Hin as [? ?]. by bool_to_prop.
Qed.

Lemma find_row_None k t : find_row k t = None ↔ ∀ r, r ∈ t → key r ≠ k.
Proof.
  unfold find_row. split.
  - intros H r Hr Hk. destruct (keep _ t) eqn:E; [|done].
    pose proof (keep_nil_inv _ _ E r Hr) as H'. cbn in H'. by bool_to_prop.
  - intros H. rewrite keep_none; [done|]. intros r Hr. apply bool_decide_eq_false. auto.
Qed.

Lemma key_inj t r1 r2 : NoDup (map key t) → r1 ∈ t → r2 ∈ t → key r1 = key r2 → r1 = r2.
Proof.
  induction t as [|x t IH]; [set_solver|]. cbn. intros [Hx Hn]%NoDup_cons H1 H2 E.
  apply elem_of_cons in H1 as [->|H1], H2 as [->|H2]; [done| | |by apply IH].
  - destruct Hx. rewrite E. apply list_elem_of_In, in_map. by apply list_elem_of_In.
  - destruct Hx. rewrite <- E. apply list_elem_of_In, in_map. by apply list_elem_of_In.
Qed.

Lemma find_row_unique t r : NoDup (map key t) → r ∈ t → find_row (key r) t = Some r.
Proof.
  intros Hn Hr. destruct (find_row (key r) t) as [x|] eqn:E.
  - apply find_row_Some in E as [Hx Hk]. f_equal. by apply (key_inj t).
  - by apply (proj1 (find_row_None _ _)) with (r := r) in E.
Qed.

Lemma find_row_update_where k p f t :
  (∀ r, p r = true → key (f r) = key r) →
  find_row k (update_where p f t) = (λ r, if p r then f r else r) <$> find_row k t.
Proof.
  intros H. unfold find_row. induction t as [|r t IH]; [done|]. cbn [update_where map keep List.filter].
  assert (key (if p r then f r else r) = key r) as -> by (break; auto).
  destruct (bool_decide (key r = k)); [done|]. exact IH.
Qed.
End by_key.

#[global] Arguments update_where : simpl never.
#[global] Arguments returning : simpl never.
#[global] Arguments find_row : simpl never.
#[global] Arguments order_by : simpl never.
#[global] Arguments limit : simpl never.
