(* ===== verification/Queue.v ===== *)
(** * The work queue ([src/app/queue.py])

    Every operation is one transaction on the database and takes the transaction's
    instant [now()].  A claim carries the token that guards each later write.  Rows that
    a concurrent transaction holds locked are skipped by [FOR UPDATE SKIP LOCKED]: the
    claim takes the set of locked rows as an argument. *)

From Stdlib Require Import ZArith Lia.
From stdpp Require Import base strings option sets list.
From S2P Require Import Prelude Sql Models.

Definition LEASE_S : Z := 90.
Definition HEARTBEAT_S : Z := 20.
Definition LOCK_BUSY_DELAY_S : Z := 10.

Record Claim := mkClaim {
  c_job_id : uuid;
  c_domain : string;
  c_attempts : Z;
  c_token : string;
  c_not_before : option instant
}.

(** The worker's id, a bar and twelve fresh hexadecimal digits. *)
Definition new_token (worker hex12 : string) : string := worker +:+ "|" +:+ hex12.

(** ** Row updates *)

(** The queue columns of a row; the others are left alone. *)
Definition set_queue (r : JobDomain) (state : RowState) (attempts : Z) (available_at : instant)
    (claimed_by : option string) (heartbeat_at requeued_at : option instant) : JobDomain := {|
  jd_job_id := jd_job_id r; jd_domain := jd_domain r; jd_seq := jd_seq r;
  jd_state := state; jd_attempts := attempts; jd_available_at := available_at;
  jd_claimed_by := claimed_by; jd_heartbeat_at := heartbeat_at;
  jd_finished_at := jd_finished_at r; jd_from_cache := jd_from_cache r;
  jd_jina_tokens := jd_jina_tokens r; jd_status := jd_status r; jd_result := jd_result r;
  jd_needs_review := jd_needs_review r; jd_typesafe_called := jd_typesafe_called r;
  jd_has_phone := jd_has_phone r; jd_has_form := jd_has_form r;
  jd_has_linkedin := jd_has_linkedin r; jd_requeued_at := requeued_at
|}.

Definition set_lock (d : Domain) (owner : option string) (until : option instant)
    (stage : DomainStage) : Domain := {|
  d_domain := d_domain d; d_stage := stage; d_status := d_status d; d_result := d_result d;
  d_attempts := d_attempts d; d_updated_at := d_updated_at d; d_finished_at := d_finished_at d;
  d_lock_owner := owner; d_lock_until := until
|}.

Definition set_job (j : Job) (status : JobStatus) (finished_at : option instant) (done_count : Z)
    (pause_reason : option string) (paused_at started_at : option instant)
    (paused_seconds : Z) : Job := {|
  j_id := j_id j; j_created_at := j_created_at j; j_finished_at := finished_at;
  j_status := status; j_total := j_total j; j_done_count := done_count;
  j_webhook_url := j_webhook_url j; j_filename := j_filename j; j_columns := j_columns j;
  j_website_column := j_website_column j; j_pause_reason := pause_reason;
  j_paused_at := paused_at; j_started_at := started_at; j_paused_seconds := paused_seconds;
  j_idempotency_key := j_idempotency_key j;
  j_idempotency_fingerprint := j_idempotency_fingerprint j; j_owner_id := j_owner_id j;
  j_fresh := j_fresh j
|}.

(** ** Choosing the job to serve *)

Definition state_is (s : RowState) (r : JobDomain) : bool := bool_decide (jd_state r = s).
Definition of_job (j : uuid) (r : JobDomain) : bool := bool_decide (jd_job_id r = j).
Definition is_row (j : uuid) (d : string) (r : JobDomain) : bool := bool_decide (jd_key r = (j, d)).
Definition active (j : Job) : bool := mem (j_status j) [job_queued; job_running].
Definition unfinished (r : JobDomain) : bool := mem (jd_state r) [st_queued; st_running].

(** A queued row whose delay has run out. *)
Definition claimable (now : instant) (r : JobDomain) : bool :=
  state_is st_queued r && Z.leb (jd_available_at r) now.

(** [coalesce(owner_id::text, 'admin')]: no uuid prints as "admin", so the bootstrap
    key's jobs, whose owner is NULL, form a group of their own. *)
Definition owner_of (db : DB) (r : JobDomain) : option (option uuid) :=
  j_owner_id <$> find_row j_id (jd_job_id r) (jobs db).

Definition job_in_flight (db : DB) (j : uuid) : Z :=
  Z.of_nat (count (λ r, state_is st_running r && of_job j r) (job_domains db)).

Definition owner_in_flight (db : DB) (o : option uuid) : Z :=
  Z.of_nat (count (λ r, state_is st_running r && bool_decide (owner_of db r = Some o))
                  (job_domains db)).

Definition servable (db : DB) (now : instant) (j : Job) : bool :=
  active j && any (λ q, of_job (j_id j) q && claimable now q) (job_domains db).

Definition cmp_job (db : DB) (a b : Job) : comparison :=
  lex (Z.compare (owner_in_flight db (j_owner_id a)) (owner_in_flight db (j_owner_id b)))
      (lex (Z.compare (job_in_flight db (j_id a)) (job_in_flight db (j_id b)))
           (Z.compare (j_created_at a) (j_created_at b))).

Definition PICK_JOBS (db : DB) (now : instant) : list Job :=
  limit 5 (order_by (cmp_job db) (keep (servable db now) (jobs db))).

(** ** Claiming *)

Definition cmp_seq (a b : JobDomain) : comparison := Z.compare (jd_seq a) (jd_seq b).

Definition pick_row (locked : JobDomain → bool) (db : DB) (now : instant) (j : uuid)
    : option JobDomain :=
  head (order_by cmp_seq
    (keep (λ r, of_job j r && claimable now r && negb (locked r)) (job_domains db))).

Definition take_row (now : instant) (token : string) (r : JobDomain) : JobDomain :=
  set_queue r st_running (jd_attempts r + 1) (jd_available_at r) (Some token) (Some now)
            (jd_requeued_at r).

Definition CLAIM_FROM_JOB (locked : JobDomain → bool) (db : DB) (now : instant)
    (token : string) (j : uuid) : option (JobDomain * DB) :=
  match pick_row locked db now j with
  | None => None
  | Some pick =>
      Some (take_row now token pick,
            with_job_domains db
              (update_where (is_row (jd_job_id pick) (jd_domain pick)) (take_row now token)
                            (job_domains db)))
  end.

Definition start_job (now : instant) (j : Job) : Job :=
  set_job j (if bool_decide (j_status j = job_queued) then job_running else j_status j)
          (j_finished_at j) (j_done_count j) (j_pause_reason j) (j_paused_at j)
          (Some (coalesce (j_started_at j) now)) (j_paused_seconds j).

Definition mark_started (db : DB) (now : instant) (j : uuid) : DB :=
  with_jobs db
    (update_where (λ r, bool_decide (j_id r = j)
                        && (bool_decide (j_status r = job_queued) || is_null (j_started_at r)))
                  (start_job now) (jobs db)).

(** The loop over the picked jobs; a fresh token is made for each one tried. *)
Fixpoint claim_loop (locked : JobDomain → bool) (db : DB) (now : instant) (worker : string)
    (hexes : nat → string) (i : nat) (job_ids : list uuid) : option (Claim * DB) :=
  match job_ids with
  | [] => None
  | job_id :: rest =>
      let token := new_token worker (hexes i) in
      match CLAIM_FROM_JOB locked db now token job_id with
      | None => claim_loop locked db now worker hexes (S i) rest
      | Some (row, db') =>
          Some ({| c_job_id := job_id; c_domain := jd_domain row; c_attempts := jd_attempts row;
                   c_token := token; c_not_before := jd_requeued_at row |},
                mark_started db' now job_id)
      end
  end.

Definition claim (locked : JobDomain → bool) (db : DB) (now : instant) (worker : string)
    (hexes : nat → string) : option Claim * DB :=
  match claim_loop locked db now worker hexes 0 (map j_id (PICK_JOBS db now)) with
  | Some (c, db') => (Some c, db')
  | None => (None, db)
  end.

(** ** The shared cache *)

Definition cache_usable (cfg : Settings) (now : instant) (job : Job)
    (finished_at : option instant) (status : option Status) (result : option Stored)
    (not_before : option instant) : bool :=
  match finished_at, result with
  | Some f, Some res =>
      if negb (stored_truthy res) then false else
      let floor := match not_before with
                   | Some nb => Z.max (j_created_at job) nb
                   | None => j_created_at job
                   end in
      if Z.leb floor f then true
      else if j_fresh job || bool_decide (status = Some fetch_failed) then false
      else Z.leb (now - days (cache_days cfg)) f
  | _, _ => false
  end.

Definition cached_result (cfg : Settings) (db : DB) (now : instant) (job : Job) (domain : string)
    (not_before : option instant) : option DomainResult :=
  match find_row d_domain domain (domains db) with
  | None => None
  | Some row =>
      if cache_usable cfg now job (d_finished_at row) (d_status row) (d_result row) not_before
      then d_result row ≫= model_validate
      else None
  end.

(** ** Domain locks *)

Definition new_domain (now : instant) (d : string) : Domain := {|
  d_domain := d; d_stage := stage_pending; d_status := None; d_result := None; d_attempts := 0;
  d_updated_at := now; d_finished_at := None; d_lock_owner := None; d_lock_until := None
|}.

(** [INSERT ... ON CONFLICT DO NOTHING]. *)
Definition ensure_domain (now : instant) (d : string) (t : list Domain) : list Domain :=
  match find_row d_domain d t with Some _ => t | None => t ++ [new_domain now d] end.

Definition lock_free (now : instant) (r : Domain) : bool :=
  is_null (d_lock_owner r) || null_lt (d_lock_until r) now.

Definition lock_domain (db : DB) (now : instant) (c : Claim) : bool * DB :=
  let t := ensure_domain now (c_domain c) (domains db) in
  let p := λ r, bool_decide (d_domain r = c_domain c) && lock_free now r in
  (any p t,
   with_domains db
     (update_where p (λ r, set_lock r (Some (c_token c)) (Some (now + seconds LEASE_S)%Z)
                                    stage_fetching) t)).

(** Dropping a lock puts the row's stage back to what its cached result says. *)
Definition drop_lock (r : Domain) : Domain :=
  set_lock r None None (if is_null (d_finished_at r) then stage_pending else stage_done).

Definition unlock_domain (db : DB) (c : Claim) : DB :=
  with_domains db
    (update_where (λ r, bool_decide (d_domain r = c_domain c) && null_eq (d_lock_owner r) (c_token c))
                  drop_lock (domains db)).

(** ** Putting a row back *)

Definition owns (c : Claim) (r : JobDomain) : bool :=
  is_row (c_job_id c) (c_domain c) r && null_eq (jd_claimed_by r) (c_token c) && state_is st_running r.

Definition requeue (db : DB) (now : instant) (c : Claim) (delay : Z) (count_attempt : bool) : DB :=
  with_job_domains db
    (update_where (owns c)
       (λ r, set_queue r st_queued (jd_attempts r - (if count_attempt then 0 else 1))
                       (now + delay) None None (jd_requeued_at r))
       (job_domains db)).

(** ** Completing a job *)

Definition job_rows (db : DB) (j : uuid) : Z := Z.of_nat (count (of_job j) (job_domains db)).

Definition finished_job (db : DB) (j : Job) : bool :=
  active j && negb (any (λ r, of_job (j_id j) r && unfinished r) (job_domains db)).

Definition complete_job (db : DB) (now : instant) (j : Job) : Job :=
  set_job j job_done (Some now) (job_rows db (j_id j)) (j_pause_reason j) (j_paused_at j)
          (j_started_at j) (j_paused_seconds j).

(** The row lock taken first serialises the finishers; within the atomic transaction it
    has no effect of its own. *)
Definition complete_if_finished (db : DB) (now : instant) (job_id : uuid) : bool * DB :=
  let p := λ j, bool_decide (j_id j = job_id) && finished_job db j in
  (any p (jobs db), with_jobs db (update_where p (complete_job db now) (jobs db))).

Definition complete_finished_jobs (db : DB) (now : instant) : nat * DB :=
  (length (returning (finished_job db) (jobs db)),
   with_jobs db (update_where (finished_job db) (complete_job db now) (jobs db))).

(** ** Recording an outcome *)

Definition record_row (now : instant) (result : DomainResult) (from_cache : bool) (r : JobDomain)
    : JobDomain := {|
  jd_job_id := jd_job_id r; jd_domain := jd_domain r; jd_seq := jd_seq r;
  jd_state := st_done; jd_attempts := jd_attempts r; jd_available_at := jd_available_at r;
  jd_claimed_by := None; jd_heartbeat_at := jd_heartbeat_at r;
  jd_finished_at := Some now; jd_from_cache := from_cache;
  jd_jina_tokens := if from_cache then 0 else r_jina_tokens result;
  jd_status := Some (r_status result); jd_result := Some (Dump result);
  jd_needs_review := r_needs_review result;
  jd_typesafe_called := r_typesafe_called result && negb from_cache;
  jd_has_phone := match r_phones result with [] => false | _ => true end;
  jd_has_form := str_truthy (r_contact_form_url result);
  jd_has_linkedin := str_truthy (dict_get (r_socials result) "linkedin");
  jd_requeued_at := jd_requeued_at r
|}.

Definition record_cache (now : instant) (result : DomainResult) (d : Domain) : Domain := {|
  d_domain := d_domain d; d_stage := stage_done; d_status := Some (r_status result);
  d_result := Some (Dump result); d_attempts := d_attempts d + 1; d_updated_at := now;
  d_finished_at := Some now; d_lock_owner := d_lock_owner d; d_lock_until := d_lock_until d
|}.

(** Returns (recorded, job_done).  A claim that no longer owns its row writes nothing
    but still drops its domain lock. *)
Definition finish (db : DB) (now : instant) (c : Claim) (result : DomainResult)
    (from_cache write_cache : bool) : (bool * bool) * DB :=
  if negb (any (owns c) (job_domains db)) then ((false, false), unlock_domain db c) else
  let db1 := with_job_domains db
               (update_where (owns c) (record_row now result from_cache) (job_domains db)) in
  let db2 := if negb from_cache && write_cache
             then with_domains db1
                    (update_where (λ d, bool_decide (d_domain d = c_domain c))
                                  (record_cache now result) (domains db1))
             else db1 in
  let db3 := unlock_domain db2 c in
  let '(done, db4) := complete_if_finished db3 now (c_job_id c) in
  ((true, done), db4).

(** ** Retrying a job's failures *)

Definition RETRYABLE_FAILURE_REASONS : list string :=
  ["homepage"; "dns"; "circuit_open"; "domain_timeout"; "internal_error"; "private_address"].

Definition retryable_row (job_id : uuid) (r : JobDomain) : bool :=
  of_job job_id r && state_is st_done r && null_eq (jd_status r) fetch_failed
  && (null_any (json_error_reason (jd_result r)) RETRYABLE_FAILURE_REASONS
      || null_eq (json_site_status (jd_result r)) "too_many_attempts").

Definition reopen_job (now : instant) (j : Job) : Job :=
  set_job j job_running None (j_done_count j) (j_pause_reason j) (j_paused_at j) (j_started_at j)
          (j_paused_seconds j + match j_finished_at j with Some f => now - f | None => 0 end).

Definition requeue_failed (db : DB) (now : instant) (job_id : uuid) : nat * DB :=
  let rows := returning (retryable_row job_id) (job_domains db) in
  let db1 := with_job_domains db
    (update_where (retryable_row job_id)
       (λ r, set_queue r st_queued 0 now None None (Some now)) (job_domains db)) in
  let db2 := match rows with
             | [] => db1
             | _ => with_jobs db1
                      (update_where (λ j, bool_decide (j_id j = job_id)
                                          && bool_decide (j_status j = job_done))
                                    (reopen_job now) (jobs db1))
             end in
  (length rows, db2).

(** ** Pausing, heartbeats, reaping, shutdown *)

Definition pause_active_jobs (db : DB) (now : instant) (reason : string) : DB :=
  with_jobs db
    (update_where active
       (λ j, set_job j job_paused (j_finished_at j) (j_done_count j) (Some reason) (Some now)
                     (j_started_at j) (j_paused_seconds j))
       (jobs db)).

Definition beat_row (now : instant) (r : JobDomain) : JobDomain :=
  set_queue r (jd_state r) (jd_attempts r) (jd_available_at r) (jd_claimed_by r) (Some now)
            (jd_requeued_at r).

Definition heartbeat (db : DB) (now : instant) (tokens : list string) : DB :=
  match tokens with
  | [] => db
  | _ =>
      let db1 := with_job_domains db
        (update_where (λ r, state_is st_running r && null_any (jd_claimed_by r) tokens)
                      (beat_row now) (job_domains db)) in
      with_domains db1
        (update_where (λ d, null_any (d_lock_owner d) tokens)
                      (λ d, set_lock d (d_lock_owner d) (Some (now + seconds LEASE_S)%Z) (d_stage d))
                      (domains db1))
  end.

Definition stale (now : instant) (r : JobDomain) : bool :=
  state_is st_running r && null_lt (jd_heartbeat_at r) (now - seconds LEASE_S).

Definition reap (db : DB) (now : instant) : nat * DB :=
  (length (returning (stale now) (job_domains db)),
   with_job_domains db
     (update_where (stale now)
        (λ r, set_queue r st_queued (jd_attempts r) now None None (jd_requeued_at r))
        (job_domains db))).

Definition null_like (c : option string) (pat : string) : bool :=
  match c with Some s => like s pat | None => false end.

Definition release_worker (db : DB) (now : instant) (worker : string) : DB :=
  let prefix := worker +:+ "|%" in
  let db1 := with_job_domains db
    (update_where (λ r, state_is st_running r && null_like (jd_claimed_by r) prefix)
       (λ r, set_queue r st_queued (Z.max (jd_attempts r - 1) 0) now None None (jd_requeued_at r))
       (job_domains db)) in
  with_domains db1
    (update_where (λ d, negb (is_null (d_lock_owner d)) && null_like (d_lock_owner d) prefix)
                  drop_lock (domains db1)).

Definition cmp_index (a b : JobItem) : comparison := Z.compare (ji_row_index a) (ji_row_index b).

Definition row_indexes (db : DB) (job_id : uuid) (domain : string) : list Z :=
  map ji_row_index
    (order_by cmp_index
       (keep (λ it, bool_decide (ji_job_id it = job_id) && null_eq (ji_domain it) domain)
             (job_items db))).
