(* ===== verification/QueueInv.v ===== *)
(** * The queue's invariant

    [db_ok issued db]: the well-formedness of the queue tables, relative to the set of
    claim tokens handed out so far.  Every operation of [Queue.v] preserves it. *)

From Stdlib Require Import ZArith Lia.
From stdpp Require Import base strings option sets list.
From S2P Require Import Prelude Sql Models Queue.

(** ** One row *)

Record row_ok (r : JobDomain) : Prop := {
  ok_running : jd_state r = st_running →
    is_Some (jd_claimed_by r) ∧ is_Some (jd_heartbeat_at r) ∧ (1 ≤ jd_attempts r)%Z;
  ok_unclaimed : jd_state r ≠ st_running → jd_claimed_by r = None;
  ok_done : jd_state r = st_done →
    is_Some (jd_finished_at r) ∧ ∃ d, jd_status r = Some (r_status d) ∧ jd_result r = Some (Dump d);
  ok_attempts : (0 ≤ jd_attempts r)%Z
}.

Lemma claimed_running r t : row_ok r → jd_claimed_by r = Some t → jd_state r = st_running.
Proof.
  intros H E. destruct (decide (jd_state r = st_running)) as [|Hne]; [done|].
  apply (ok_unclaimed r H) in Hne. congruence.
Qed.

(** ** The tables *)

Definition tokens_in (issued : list string) (db : DB) : Prop :=
  (∀ r t, r ∈ job_domains db → jd_claimed_by r = Some t → t ∈ issued) ∧
  (∀ d t, d ∈ domains db → d_lock_owner d = Some t → t ∈ issued).

(** One claim holds one row. *)
Definition tokens_unique (t : list JobDomain) : Prop :=
  ∀ r1 r2 k, r1 ∈ t → r2 ∈ t → jd_claimed_by r1 = Some k → jd_claimed_by r2 = Some k →
    jd_key r1 = jd_key r2.

(** A done job has no row left to do. *)
Definition done_ok (db : DB) : Prop :=
  ∀ j r, j ∈ jobs db → j_status j = job_done → r ∈ job_domains db → jd_job_id r = j_id j →
    jd_state r = st_done.

(** A lock has an owner exactly when it has an expiry. *)
Definition lock_ok (d : Domain) : Prop := is_Some (d_lock_owner d) ↔ is_Some (d_lock_until d).

Record db_ok (issued : list string) (db : DB) : Prop := {
  db_rows : Forall row_ok (job_domains db);
  db_row_keys : NoDup (map jd_key (job_domains db));
  db_job_keys : NoDup (map j_id (jobs db));
  db_domain_keys : NoDup (map d_domain (domains db));
  db_fk : ∀ r, r ∈ job_domains db → ∃ j, j ∈ jobs db ∧ j_id j = jd_job_id r;
  db_tokens_unique : tokens_unique (job_domains db);
  db_tokens_in : tokens_in issued db;
  db_done : done_ok db;
  db_locks : Forall lock_ok (domains db)
}.

(** ** Updates of [job_domains] that free rows or leave their claim alone *)

Record row_update_ok (p : JobDomain → bool) (f : JobDomain → JobDomain) : Prop := {
  ru_ok : ∀ r, row_ok r → p r = true → row_ok (f r);
  ru_key : ∀ r, p r = true → jd_key (f r) = jd_key r;
  ru_claim : ∀ r t, p r = true → jd_claimed_by (f r) = Some t → jd_claimed_by r = Some t;
  ru_done : ∀ r, p r = true → jd_state r = st_done → jd_state (f r) = st_done
}.

Lemma jd_key_job r r' : jd_key r = jd_key r' → jd_job_id r = jd_job_id r'.
Proof. unfold jd_key. congruence. Qed.

Lemma db_ok_row_update issued db p f :
  row_update_ok p f → db_ok issued db →
  db_ok issued (with_job_domains db (update_where p f (job_domains db))).
Proof.
  intros Hu H. split; cbn; try apply H.
  - apply Forall_update_where; [apply H|]. intros r _. apply Hu.
  - rewrite update_where_column; [apply H|]. apply Hu.
  - intros r (r0 & Hr0 & ->)%elem_of_update_where.
    destruct (db_fk _ _ H r0 Hr0) as (j & Hj & E). exists j. split; [done|].
    rewrite E. apply jd_key_job. break; [|done]. symmetry. by apply (ru_key p f Hu).
  - intros r1 r2 k (x1 & Hx1 & ->)%elem_of_update_where (x2 & Hx2 & ->)%elem_of_update_where E1 E2.
    assert (∀ x, (if p x then jd_claimed_by (f x) else jd_claimed_by x) = Some k →
                 jd_claimed_by x = Some k) as Hc.
    { intros x. break; [|done]. by apply (ru_claim p f Hu). }
    assert (∀ x, jd_key (if p x then f x else x) = jd_key x) as Hk.
    { intros x. break; [|done]. by apply (ru_key p f Hu). }
    rewrite !Hk. apply (db_tokens_unique _ _ H x1 x2 k); try done; apply Hc.
    + by destruct (p x1).
    + by destruct (p x2).
  - split; [|apply (db_tokens_in _ _ H)].
    intros r t (r0 & Hr0 & ->)%elem_of_update_where E. apply (db_tokens_in _ _ H) with r0; [done|].
    destruct (p r0) eqn:Ep; [by apply (ru_claim p f Hu)|done].
  - intros j r Hj Hs (r0 & Hr0 & ->)%elem_of_update_where Hid.
    assert (jd_job_id r0 = j_id j) as Hid0.
    { rewrite <- Hid. apply jd_key_job. break; [|done]. symmetry. by apply (ru_key p f Hu). }
    pose proof (db_done _ _ H j r0 Hj Hs Hr0 Hid0) as Hd.
    break; [|done]. by apply (ru_done p f Hu).
Qed.

(** ** Updates of [jobs] *)

Record job_update_ok (db : DB) (p : Job → bool) (f : Job → Job) : Prop := {
  ju_id : ∀ j, p j = true → j_id (f j) = j_id j;
  ju_done : ∀ j, j ∈ jobs db → p j = true → j_status (f j) = job_done →
    j_status j = job_done ∨
    (∀ r, r ∈ job_domains db → jd_job_id r = j_id j → jd_state r = st_done)
}.

Lemma db_ok_job_update issued db p f :
  job_update_ok db p f → db_ok issued db → db_ok issued (with_jobs db (update_where p f (jobs db))).
Proof.
  intros Hu H. split; cbn; try apply H.
  - rewrite update_where_column; [apply H|]. apply Hu.
  - intros r Hr. destruct (db_fk _ _ H r Hr) as (j & Hj & E).
    exists (if p j then f j else j). split; [apply elem_of_update_where; eauto|].
    rewrite <- E. break; [|done]. by apply (ju_id db p f Hu).
  - intros j r (j0 & Hj0 & ->)%elem_of_update_where Hs Hr Hid.
    destruct (p j0) eqn:Ep; [|by eapply (db_done _ _ H)].
    rewrite (ju_id db p f Hu j0 Ep) in Hid.
    destruct (ju_done db p f Hu j0 Hj0 Ep Hs) as [Hd|Hd]; [by eapply (db_done _ _ H)|auto].
Qed.

(** ** Updates of [domains] *)

Record domain_update_ok (issued : list string) (p : Domain → bool) (f : Domain → Domain) : Prop := {
  du_key : ∀ d, p d = true → d_domain (f d) = d_domain d;
  du_owner : ∀ d t, p d = true → d_lock_owner (f d) = Some t → d_lock_owner d = Some t ∨ t ∈ issued;
  du_lock : ∀ d, p d = true → lock_ok d → lock_ok (f d)
}.

Lemma db_ok_domain_update issued db p f :
  domain_update_ok issued p f → db_ok issued db →
  db_ok issued (with_domains db (update_where p f (domains db))).
Proof.
  intros Hu H. split; cbn; try apply H.
  - rewrite update_where_column; [apply H|]. apply Hu.
  - split; [apply (db_tokens_in _ _ H)|]. cbn.
    intros d t (d0 & Hd0 & ->)%elem_of_update_where E.
    destruct (p d0) eqn:Ep; [|by apply (db_tokens_in _ _ H) with d0].
    destruct (du_owner _ _ _ Hu d0 t Ep E) as [E'|]; [|done]. by apply (db_tokens_in _ _ H) with d0.
  - apply Forall_update_where; [apply H|]. intros d _ Hd Ep. by apply (du_lock _ _ _ Hu).
Qed.

(** ** Every operation preserves the invariant *)

Lemma state_is_true s r : state_is s r = true ↔ jd_state r = s.
Proof. apply bool_decide_eq_true. Qed.

Lemma owns_true c r :
  owns c r = true ↔ jd_key r = (c_job_id c, c_domain c) ∧ jd_claimed_by r = Some (c_token c)
                    ∧ jd_state r = st_running.
Proof.
  unfold owns, is_row, null_eq, state_is. rewrite !andb_true_iff, !bool_decide_eq_true. tauto.
Qed.

(** A row freed for another claim. *)
Lemma free_update_ok p attempts avail requeued :
  (∀ r, p r = true → jd_state r = st_running) →
  (∀ r, row_ok r → p r = true → (0 ≤ attempts r)%Z) →
  row_update_ok p (λ r, set_queue r st_queued (attempts r) (avail r) None None (requeued r)).
Proof.
  intros Hp Ha. split.
  - intros r Hr Ep. split; cbn; try done. by apply Ha.
  - done.
  - done.
  - intros r Ep Hd. rewrite Hp in Hd; done.
Qed.

Lemma requeue_ok issued db now c delay ca :
  db_ok issued db → db_ok issued (requeue db now c delay ca).
Proof.
  apply db_ok_row_update, (free_update_ok _ _ _ (λ r, jd_requeued_at r)).
  - intros r (_ & _ & ?)%owns_true. done.
  - intros r Hr (_ & _ & Hs)%owns_true. apply (ok_running r Hr) in Hs as (_ & _ & ?).
    destruct ca; lia.
Qed.

Lemma reap_ok issued db now : db_ok issued db → db_ok issued (reap db now).2.
Proof.
  apply db_ok_row_update, (free_update_ok _ _ _ (λ r, jd_requeued_at r)).
  - intros r [H _]%andb_true_iff. by apply state_is_true.
  - intros r Hr _. apply Hr.
Qed.

Lemma drop_lock_ok issued p : domain_update_ok issued p drop_lock.
Proof. split; cbn; try done. intros d _ _. split; intros [? ?]; done. Qed.

Lemma unlock_domain_ok issued db c : db_ok issued db → db_ok issued (unlock_domain db c).
Proof. apply db_ok_domain_update, drop_lock_ok. Qed.

Lemma release_worker_ok issued db now w : db_ok issued db → db_ok issued (release_worker db now w).
Proof.
  intros H. unfold release_worker.
  apply (db_ok_domain_update _ (with_job_domains db _)); [apply drop_lock_ok|].
  apply db_ok_row_update; [|done].
  apply (free_update_ok _ _ _ (λ r, jd_requeued_at r)).
  - intros r [Hs _]%andb_true_iff. by apply state_is_true.
  - intros; lia.
Qed.

Lemma heartbeat_ok issued db now ts : db_ok issued db → db_ok issued (heartbeat db now ts).
Proof.
  intros H. unfold heartbeat. destruct ts as [|t ts]; [done|].
  apply (db_ok_domain_update _ (with_job_domains db _)).
  - split; cbn; try done.
    + intros d k Ep E. by left.
    + intros d Ep [Hd1 Hd2]. split; cbn; [by eauto|]. intros _.
      unfold null_any in Ep. destruct (d_lock_owner d); [by eauto|done].
  - apply db_ok_row_update; [|done]. split; cbn; try done.
    intros r Hr Ep. destruct Hr as [R1 R2 R3 R4].
    split; cbn; try done. intros Hs. destruct (R1 Hs) as (? & ? & ?). eauto.
Qed.

Lemma ensure_domain_cases now d t :
  (ensure_domain now d t = t ∧ is_Some (find_row d_domain d t)) ∨
  (ensure_domain now d t = t ++ [new_domain now d] ∧ find_row d_domain d t = None).
Proof. unfold ensure_domain. destruct (find_row d_domain d t); eauto. Qed.

Lemma ensure_domain_ok issued db now d :
  db_ok issued db → db_ok issued (with_domains db (ensure_domain now d (domains db))).
Proof.
  intros H. destruct (ensure_domain_cases now d (domains db)) as [[-> _]|[-> Hn]].
  - destruct db; exact H.
  - split; cbn; try apply H.
    + rewrite map_app. apply NoDup_app. split; [apply H|]. split; [|by apply NoDup_singleton].
      intros x Hx Hx'. apply list_elem_of_singleton in Hx'. subst. cbn in Hx.
      apply list_elem_of_In, in_map_iff in Hx as (r & E & Hr). apply list_elem_of_In in Hr.
      by apply (proj1 (find_row_None _ _ _) Hn r Hr).
    + split; [apply (db_tokens_in _ _ H)|]. cbn. intros r t Hr E.
      apply elem_of_app in Hr as [Hr|Hr]; [by apply (db_tokens_in _ _ H) with r|].
      apply list_elem_of_singleton in Hr. by subst.
    + apply Forall_app. split; [apply H|]. repeat constructor; cbn; intros [? ?]; done.
Qed.

Lemma lock_domain_ok issued db now c :
  c_token c ∈ issued → db_ok issued db → db_ok issued (lock_domain db now c).2.
Proof.
  intros Ht H. unfold lock_domain. cbn.
  apply (db_ok_domain_update _ (with_domains db (ensure_domain now (c_domain c) (domains db)))).
  - split; cbn; try done. intros d t _ E. right. by injection E as <-.
  - by apply ensure_domain_ok.
Qed.

Lemma pause_active_jobs_ok issued db now reason :
  db_ok issued db → db_ok issued (pause_active_jobs db now reason).
Proof. apply db_ok_job_update. by split. Qed.

Lemma finished_job_rows db j r :
  finished_job db j = true → r ∈ job_domains db → jd_job_id r = j_id j → jd_state r = st_done.
Proof.
  intros [_ Hn]%andb_true_iff Hr Hid. apply negb_true_iff in Hn.
  rewrite any_false in Hn. specialize (Hn r Hr). cbn in Hn.
  unfold of_job, unfinished in Hn. rewrite bool_decide_eq_true_2 in Hn by done. cbn in Hn.
  apply mem_false in Hn. destruct (jd_state r); set_solver.
Qed.

Lemma complete_update_ok db now p :
  (∀ j, p j = true → finished_job db j = true) → job_update_ok db p (complete_job db now).
Proof. intros Hp. split; [done|]. intros j Hj Ep _. right. intros r. apply finished_job_rows. auto. Qed.

Lemma complete_if_finished_ok issued db now j :
  db_ok issued db → db_ok issued (complete_if_finished db now j).2.
Proof.
  apply db_ok_job_update, complete_update_ok. by intros ? [_ ?]%andb_true_iff.
Qed.

Lemma complete_finished_jobs_ok issued db now :
  db_ok issued db → db_ok issued (complete_finished_jobs db now).2.
Proof. by apply db_ok_job_update, complete_update_ok. Qed.

Lemma record_row_ok c now res fc : row_update_ok (owns c) (record_row now res fc).
Proof.
  split; cbn; try done.
  intros r Hr (_ & _ & Hs)%owns_true. split; cbn; eauto; try done. apply Hr.
Qed.

Lemma record_cache_ok issued p now res : domain_update_ok issued p (record_cache now res).
Proof. split; cbn; try done. by left. Qed.

(** The database after the row, and possibly the cache, have been written. *)
Definition finish_written (db : DB) (now : instant) (c : Claim) (result : DomainResult)
    (from_cache write_cache : bool) : DB :=
  let db1 := with_job_domains db
               (update_where (owns c) (record_row now result from_cache) (job_domains db)) in
  unlock_domain
    (if negb from_cache && write_cache
     then with_domains db1 (update_where (λ d, bool_decide (d_domain d = c_domain c))
                                         (record_cache now result) (domains db1))
     else db1) c.

Lemma finish_unfold db now c res fc wc :
  finish db now c res fc wc =
  if any (owns c) (job_domains db)
  then ((true, (complete_if_finished (finish_written db now c res fc wc) now (c_job_id c)).1),
        (complete_if_finished (finish_written db now c res fc wc) now (c_job_id c)).2)
  else ((false, false), unlock_domain db c).
Proof. unfold finish, finish_written. by destruct (any (owns c) (job_domains db)). Qed.

Lemma finish_ok issued db now c res fc wc :
  db_ok issued db → db_ok issued (finish db now c res fc wc).2.
Proof.
  intros H. rewrite finish_unfold. break; [|by apply unlock_domain_ok]. cbn [snd].
  apply complete_if_finished_ok, unlock_domain_ok.
  pose proof (db_ok_row_update _ _ _ _ (record_row_ok c now res fc) H) as H1.
  break; [|done]. by apply (db_ok_domain_update _ (with_job_domains db _)); [apply record_cache_ok|].
Qed.

(** ** Claiming *)

Lemma pick_row_Some locked db now j r :
  pick_row locked db now j = Some r →
  r ∈ job_domains db ∧ jd_job_id r = j ∧ jd_state r = st_queued ∧ (jd_available_at r ≤ now)%Z
  ∧ locked r = false.
Proof.
  unfold pick_row. intros H. apply head_Some_elem_of in H.
  apply elem_of_sort_by, elem_of_keep in H as [Hr Hp].
  unfold of_job, claimable, state_is in Hp. by bool_to_prop.
Qed.

Lemma pick_row_None locked db now j :
  pick_row locked db now j = None →
  ∀ r, r ∈ job_domains db → of_job j r && claimable now r = true → locked r = true.
Proof.
  unfold pick_row. intros H r Hr Hp. destruct (locked r) eqn:El; [done|].
  assert (r ∈ order_by cmp_seq (keep (λ r, of_job j r && claimable now r && negb (locked r))
                                  (job_domains db))) as Hin.
  { apply elem_of_sort_by, elem_of_keep. by rewrite Hp, El. }
  apply head_None in H. rewrite H in Hin. set_solver.
Qed.

Lemma is_row_true j d r : is_row j d r = true ↔ jd_key r = (j, d).
Proof. apply bool_decide_eq_true. Qed.

Lemma tokens_in_mono issued issued' db : issued ⊆ issued' → tokens_in issued db → tokens_in issued' db.
Proof. unfold tokens_in. set_solver. Qed.

Lemma db_ok_mono issued issued' db : issued ⊆ issued' → db_ok issued db → db_ok issued' db.
Proof. intros Hs H. split; try apply H. by eapply tokens_in_mono, H. Qed.

(** A fresh token may be put on one queued row. *)
Lemma take_row_ok issued db now tok pick :
  db_ok issued db → tok ∉ issued → pick ∈ job_domains db → jd_state pick = st_queued →
  db_ok (tok :: issued)
    (with_job_domains db (update_where (is_row (jd_job_id pick) (jd_domain pick))
                                       (take_row now tok) (job_domains db))).
Proof.
  intros H Hf Hp Hq.
  assert (∀ r, r ∈ job_domains db → is_row (jd_job_id pick) (jd_domain pick) r = true → r = pick)
    as Huniq.
  { intros r Hr E%is_row_true. apply (key_inj jd_key (job_domains db)); try done. apply H. }
  split; cbn; try apply H.
  - apply Forall_update_where; [apply H|]. intros r Hr Hok E.
    rewrite (Huniq r Hr E) in *. split; cbn; try done.
    + intros _. pose proof (ok_attempts _ Hok). eauto with lia.
    + pose proof (ok_attempts _ Hok). lia.
  - rewrite update_where_column; [apply H|]. done.
  - intros r (r0 & Hr0 & ->)%elem_of_update_where.
    destruct (db_fk _ _ H r0 Hr0) as (j & Hj & E). exists j. split; [done|]. by break.
  - intros r1 r2 k (x1 & Hx1 & ->)%elem_of_update_where (x2 & Hx2 & ->)%elem_of_update_where.
    destruct (is_row _ _ x1) eqn:E1, (is_row _ _ x2) eqn:E2; cbn; intros F1 F2.
    + by rewrite (Huniq x1 Hx1 E1), (Huniq x2 Hx2 E2).
    + injection F1 as <-. destruct Hf. by apply (db_tokens_in _ _ H) with x2.
    + injection F2 as <-. destruct Hf. by apply (db_tokens_in _ _ H) with x1.
    + by apply (db_tokens_unique _ _ H x1 x2 k).
  - pose proof (db_tokens_in _ _ H) as [T1 T2]. split; cbn.
    + intros r t (r0 & Hr0 & ->)%elem_of_update_where. break; cbn.
      * intros [= <-]. set_solver.
      * intros E. apply elem_of_cons. right. by apply (T1 r0).
    + intros d t Hd E. apply elem_of_cons. right. by apply (T2 d).
  - intros j r Hj Hs (r0 & Hr0 & ->)%elem_of_update_where Hid.
    assert (jd_job_id r0 = j_id j) as Hid0 by (by destruct (is_row _ _ r0)).
    pose proof (db_done _ _ H j r0 Hj Hs Hr0 Hid0) as Hd. break; [|done].
    rewrite (Huniq r0 Hr0) in Hd by done. congruence.
Qed.

Lemma mark_started_ok issued db now j : db_ok issued db → db_ok issued (mark_started db now j).
Proof.
  apply db_ok_job_update. split; cbn; [done|].
  intros k _ _. break; [done|]. by left.
Qed.

Lemma claim_loop_Some locked db now w hexes i ids c db' :
  claim_loop locked db now w hexes i ids = Some (c, db') →
  ∃ k pick, c_job_id c ∈ ids ∧ c_token c = new_token w (hexes k) ∧
    pick_row locked db now (c_job_id c) = Some pick ∧
    c = {| c_job_id := jd_job_id pick; c_domain := jd_domain pick;
           c_attempts := jd_attempts pick + 1; c_token := c_token c;
           c_not_before := jd_requeued_at pick |} ∧
    db' = mark_started
            (with_job_domains db (update_where (is_row (jd_job_id pick) (jd_domain pick))
               (take_row now (c_token c)) (job_domains db))) now (jd_job_id pick).
Proof.
  revert i. induction ids as [|j ids IH]; intros i; cbn; [done|].
  unfold CLAIM_FROM_JOB. destruct (pick_row locked db now j) as [pick|] eqn:E.
  - intros [= <- <-]. cbn. apply pick_row_Some in E as Hp. destruct Hp as (_ & Hj & _). subst j.
    exists i, pick. split; [set_solver|]. done.
  - intros H. destruct (IH _ H) as (k & pick & Hin & ?). exists k, pick. set_solver.
Qed.

Lemma claim_Some locked db now w hexes c db' :
  claim locked db now w hexes = (Some c, db') →
  claim_loop locked db now w hexes 0 (map j_id (PICK_JOBS db now)) = Some (c, db').
Proof. unfold claim. destruct (claim_loop _ _ _ _ _ _ _) as [[? ?]|]; congruence. Qed.

Lemma claim_ok issued db now locked w hexes :
  db_ok issued db → (∀ k, new_token w (hexes k) ∉ issued) →
  match claim locked db now w hexes with
  | (Some c, db') => db_ok (c_token c :: issued) db'
  | (None, db') => db' = db
  end.
Proof.
  intros H Hf. unfold claim. destruct (claim_loop _ _ _ _ _ _ _) as [[c db']|] eqn:E; [|done].
  apply claim_loop_Some in E as (k & pick & _ & Ht & Hp & _ & ->).
  apply pick_row_Some in Hp as (Hr & _ & Hq & _).
  apply mark_started_ok, take_row_ok; try done. rewrite Ht. apply Hf.
Qed.

(** ** Retrying failures reopens the job it touches *)

Lemma retryable_row_true j r :
  retryable_row j r = true → jd_job_id r = j ∧ jd_state r = st_done.
Proof.
  unfold retryable_row, of_job. rewrite !andb_true_iff, bool_decide_eq_true, state_is_true. tauto.
Qed.

Lemma requeue_failed_ok issued db now j : db_ok issued db → db_ok issued (requeue_failed db now j).2.
Proof.
  intros H.
  set (requeued := update_where (retryable_row j)
         (λ r, set_queue r st_queued 0 now None None (Some now)) (job_domains db)).
  unfold requeue_failed. destruct (returning _ _) as [|r0 rs] eqn:E; cbn.
  { apply returning_nil in E. rewrite update_where_none by done. by destruct db. }
  assert (∀ r, r ∈ requeued → ∃ r0, r0 ∈ job_domains db ∧ jd_key r = jd_key r0 ∧
           (r = r0 ∨ jd_job_id r0 = j ∧ jd_claimed_by r = None)) as Hr.
  { intros r (x & Hx & ->)%elem_of_update_where. exists x. split; [done|].
    destruct (retryable_row j x) eqn:Ep; [|eauto].
    apply retryable_row_true in Ep as [? ?]. by eauto. }
  split; cbn; try apply H.
  - apply Forall_update_where; [apply H|]. intros r _ Hok _. split; cbn; done.
  - unfold requeued. rewrite update_where_column; [apply H|]. done.
  - rewrite update_where_column; [apply H|]. done.
  - intros r (x & Hx & Ek & _)%Hr. destruct (db_fk _ _ H x Hx) as (k & Hk & Ej).
    eexists. split; [by apply elem_of_update_where; eexists|].
    apply jd_key_job in Ek. rewrite Ek, <- Ej. by break.
  - intros r1 r2 k (x1 & Hx1 & K1 & [->|[_ C1]])%Hr (x2 & Hx2 & K2 & [->|[_ C2]])%Hr F1 F2;
      try congruence. by apply (db_tokens_unique _ _ H x1 x2 k).
  - pose proof (db_tokens_in _ _ H) as [T1 T2]. split; cbn; [|done].
    intros r t (x & Hx & K & [->|[_ C]])%Hr F; [|congruence]. by apply (T1 x).
  - intros k r (k0 & Hk0 & ->)%elem_of_update_where Hs Hin Hid.
    apply Hr in Hin as (x & Hx & K & Hcase). apply jd_key_job in K.
    destruct (bool_decide (j_id k0 = j) && bool_decide (j_status k0 = job_done)) eqn:Ek; [done|].
    destruct Hcase as [->|[Ej _]]; [by apply (db_done _ _ H k0 x)|].
    assert (j_id k0 = j) as Hj0 by congruence.
    rewrite bool_decide_eq_true_2 in Ek by done. cbn in Ek. by bool_to_prop.
Qed.

(** ** The empty database *)

Definition empty_db : DB := {| jobs := []; job_domains := []; job_items := []; domains := [] |}.

Lemma db_ok_empty issued : db_ok issued empty_db.
Proof. split; cbn; try constructor; try set_solver; unfold tokens_unique, done_ok; set_solver. Qed.
