(* ===== verification/QueueProps.v ===== *)
(** * What each operation of the queue promises ([src/app/queue.py])

    Fairness and progress of [claim], the exact effect of [finish], mutual exclusion of
    the domain locks, leases, the cache and retries. *)

From Stdlib Require Import ZArith Lia.
From stdpp Require Import base strings option sets list.
From S2P Require Import Prelude PyStr Sql Models Queue QueueInv.

(** ** A small database to evaluate the theorems at *)

Definition sample_row (j : uuid) (d : string) (seq : Z) : JobDomain := {|
  jd_job_id := j; jd_domain := d; jd_seq := seq; jd_state := st_queued; jd_attempts := 0;
  jd_available_at := 0; jd_claimed_by := None; jd_heartbeat_at := None; jd_finished_at := None;
  jd_from_cache := false; jd_jina_tokens := 0; jd_status := None; jd_result := None;
  jd_needs_review := false; jd_typesafe_called := false; jd_has_phone := false;
  jd_has_form := false; jd_has_linkedin := false; jd_requeued_at := None
|}.

Definition sample_job (j : uuid) (owner : option uuid) (created : instant) : Job := {|
  j_id := j; j_created_at := created; j_finished_at := None; j_status := job_queued; j_total := 2;
  j_done_count := 0; j_webhook_url := None; j_filename := None; j_columns := ["website"];
  j_website_column := None; j_pause_reason := None; j_paused_at := None; j_started_at := None;
  j_paused_seconds := 0; j_idempotency_key := None; j_idempotency_fingerprint := None;
  j_owner_id := owner; j_fresh := false
|}.

(** Two jobs of one user and one of another, all queued. *)
Definition sample_db : DB := {|
  jobs := [sample_job 1 (Some 7%N) 10; sample_job 2 (Some 7%N) 20; sample_job 3 (Some 8%N) 30];
  job_domains := [sample_row 1 "b.com" 1; sample_row 1 "a.com" 0; sample_row 2 "a.com" 0;
                  sample_row 3 "a.com" 0];
  job_items := []; domains := [new_domain 0 "a.com"]
|}.

(** The rows of a concrete table, one at a time. *)
Ltac each_row H := repeat (apply elem_of_cons in H as [->|H]); try by apply not_elem_of_nil in H.

Lemma sample_db_ok : db_ok [] sample_db.
Proof.
  split.
  - repeat constructor; done.
  - by apply (bool_decide_unpack _); vm_compute.
  - by apply (bool_decide_unpack _); vm_compute.
  - by apply (bool_decide_unpack _); vm_compute.
  - intros r Hr. cbn in Hr.
    assert (is_Some (find_row j_id (jd_job_id r) (jobs sample_db))) as [j Hj] by (each_row Hr; by eexists).
    exists j. by apply find_row_Some in Hj.
  - intros r1 r2 k H1 _ E. cbn in H1. each_row H1; done.
  - split; [intros r t Hr E; cbn in Hr; each_row Hr; done|intros d t Hd E; cbn in Hd; each_row Hd; done].
  - intros j r Hj E. cbn in Hj. each_row Hj; done.
  - repeat constructor; intros [? ?]; done.
Qed.

(** ** Claiming *)

Lemma CompareOk_cmp_job db : CompareOk (cmp_job db).
Proof.
  unfold cmp_job. apply (CompareOk_lex (λ a b, Z.compare _ _) (λ a b, lex _ _)).
  - apply (CompareOk_on (λ a, owner_in_flight db (j_owner_id a)) Z.compare), CompareOk_Z.
  - apply (CompareOk_lex (λ a b, Z.compare _ _) (λ a b, Z.compare _ _)).
    + apply (CompareOk_on (λ a, job_in_flight db (j_id a)) Z.compare), CompareOk_Z.
    + apply (CompareOk_on j_created_at Z.compare), CompareOk_Z.
Qed.

Lemma CompareOk_refl {A} (cmp : A → A → comparison) x : CompareOk cmp → cmp x x = Eq.
Proof. intros H. pose proof (cmp_flip _ H x x). by destruct (cmp x x). Qed.

Lemma order_by_head_least {R} (cmp : R → R → comparison) t x k :
  CompareOk cmp → order_by cmp t = x :: k → x ∈ t ∧ ∀ y, y ∈ t → le_of (cmp x y) = true.
Proof.
  unfold order_by. intros H E. split.
  - apply (elem_of_sort_by (λ a b, le_of (cmp a b))). rewrite E. left.
  - intros y Hy. destruct (sort_by_head_least (λ a b, le_of (cmp a b))) with x t k y as [Hle| ->]; try done.
    + intros a b. apply (CompareOk_total cmp), H.
    + intros a b c. apply (CompareOk_trans cmp), H.
    + by rewrite CompareOk_refl.
Qed.

Lemma order_by_nil {R} (cmp : R → R → comparison) t : order_by cmp t = [] → t = [].
Proof. unfold order_by. intros E. apply length_zero_iff_nil. by rewrite <- (length_sort_by (λ a b, le_of (cmp a b)) t), E. Qed.

Lemma PICK_JOBS_head db now j rest :
  PICK_JOBS db now = j :: rest →
  j ∈ jobs db ∧ servable db now j = true ∧
  ∀ k, k ∈ jobs db → servable db now k = true → le_of (cmp_job db j k) = true.
Proof.
  unfold PICK_JOBS, limit. destruct (order_by _ _) as [|x k] eqn:E; [done|]. intros [= -> _].
  apply order_by_head_least in E as [[Hj Hs]%elem_of_keep Hle]; [|apply CompareOk_cmp_job].
  split_and!; try done. intros y Hy Hsy. apply Hle. by apply elem_of_keep.
Qed.

Lemma PICK_JOBS_nil db now j : PICK_JOBS db now = [] → j ∈ jobs db → servable db now j = false.
Proof.
  unfold PICK_JOBS, limit. intros E Hj. destruct (order_by _ _) as [|x k] eqn:Eo; [|done].
  apply order_by_nil in Eo. by apply (keep_nil_inv _ _ Eo).
Qed.

Lemma servable_pick db now j : servable db now j = true → is_Some (pick_row (λ _, false) db now (j_id j)).
Proof.
  intros [_ (r & Hr & Hc)%any_true]%andb_true_iff.
  destruct (pick_row _ db now (j_id j)) eqn:E; [by eexists|].
  by apply (pick_row_None _ _ _ _ E r Hr) in Hc.
Qed.

Lemma pick_row_least locked db now j r :
  pick_row locked db now j = Some r →
  ∀ r', r' ∈ job_domains db → jd_job_id r' = j → claimable now r' = true → locked r' = false →
    (jd_seq r ≤ jd_seq r')%Z.
Proof.
  unfold pick_row. destruct (order_by _ _) as [|x k] eqn:E; [done|]. cbn. intros [= ->] r' Hr' Hj Hc Hl.
  apply order_by_head_least in E as [_ Hle]; [|apply (CompareOk_on jd_seq Z.compare), CompareOk_Z].
  assert (le_of (cmp_seq r r') = true) as H.
  { apply Hle, elem_of_keep. split; [done|]. rewrite Hc, Hl. unfold of_job. by rewrite bool_decide_true. }
  unfold cmp_seq in H. by destruct (Z.compare_spec (jd_seq r) (jd_seq r')); try lia.
Qed.

(** [a] is no more loaded than [b]: by rows its owner has in flight, then by its own, then by
    age. *)
Definition no_more_loaded (db : DB) (a b : Job) : Prop :=
  let o j := owner_in_flight db (j_owner_id j) in
  let n j := job_in_flight db (j_id j) in
  (o a < o b ∨ (o a = o b ∧ (n a < n b ∨ (n a = n b ∧ j_created_at a ≤ j_created_at b))))%Z.

Lemma cmp_job_no_more_loaded db a b : le_of (cmp_job db a b) = true → no_more_loaded db a b.
Proof.
  unfold cmp_job, no_more_loaded, lex.
  destruct (Z.compare_spec (owner_in_flight db (j_owner_id a)) (owner_in_flight db (j_owner_id b))); [|lia|done].
  destruct (Z.compare_spec (job_in_flight db (j_id a)) (job_in_flight db (j_id b))); [|lia|done].
  destruct (Z.compare_spec (j_created_at a) (j_created_at b)); [lia|lia|done].
Qed.

(** A job being served is marked running, with the instant its work began. *)
Lemma mark_started_served db now j :
  j ∈ jobs db → active j = true →
  ∃ j', j' ∈ jobs (mark_started db now (j_id j)) ∧ j_id j' = j_id j ∧ j_status j' = job_running ∧
        j_started_at j' = match j_started_at j with
                          | Some t => Some t
                          | None => Some now
                          end.
Proof.
  intros Hj Ha. eexists. split; [apply elem_of_update_where; exists j; by split|].
  rewrite bool_decide_true by done. cbn. apply mem_true in Ha.
  assert (j_status j = job_queued ∨ j_status j = job_running) as [Es|Es] by set_solver;
    destruct (j_started_at j) eqn:Et; rewrite Es; cbn; unfold start_job; rewrite ?Es, ?Et; done.
Qed.

(** C8: claiming is work-conserving and fair.  With no row locked by another transaction,
    [claim] returns nothing only when no active job has a row that is due, and then changes
    nothing; otherwise it serves a job that is least in (rows its owner has in flight, rows
    the job has in flight, creation time) among all jobs with a due row, takes that job's
    due row of lowest sequence number, gives it the new token, counts the attempt, marks
    the job running with the instant its work began, and leaves every other row as it was. *)
Theorem claim_serves_least_loaded (db : DB) (now : instant) (worker : string) (hexes : nat → string) :
  match claim (λ _, false) db now worker hexes with
  | (None, db') => db' = db ∧ ∀ j, j ∈ jobs db → servable db now j = false
  | (Some c, db') =>
      ∃ job row,
        job ∈ jobs db ∧ j_id job = c_job_id c ∧ servable db now job = true ∧
        (∀ j, j ∈ jobs db → servable db now j = true → no_more_loaded db job j) ∧
        row ∈ job_domains db ∧ jd_key row = (c_job_id c, c_domain c) ∧ claimable now row = true ∧
        (∀ r, r ∈ job_domains db → jd_job_id r = c_job_id c → claimable now r = true →
              (jd_seq row ≤ jd_seq r)%Z) ∧
        c_attempts c = (jd_attempts row + 1)%Z ∧ c_not_before c = jd_requeued_at row ∧
        c_token c = new_token worker (hexes 0%nat) ∧
        job_domains db' =
          update_where (is_row (c_job_id c) (c_domain c))
            (λ r, set_queue r st_running (jd_attempts r + 1) (jd_available_at r) (Some (c_token c)) (Some now)
                            (jd_requeued_at r)) (job_domains db) ∧
        ∃ job', job' ∈ jobs db' ∧ j_id job' = j_id job ∧ j_status job' = job_running ∧
                j_started_at job' = match j_started_at job with Some t => Some t | None => Some now end
  end.
Proof.
  unfold claim. destruct (PICK_JOBS db now) as [|j rest] eqn:E.
  - cbn. split; [done|]. intros j. by apply PICK_JOBS_nil.
  - apply PICK_JOBS_head in E as (Hj & Hs & Hle). destruct (servable_pick _ _ _ Hs) as [row Hp].
    cbn. unfold CLAIM_FROM_JOB. rewrite Hp. cbn.
    destruct (pick_row_Some _ _ _ _ _ Hp) as (Hr & Hid & Hst & Ha & _).
    exists j, row. split_and!; try done.
    + intros k Hk Hsk. by apply cmp_job_no_more_loaded, Hle.
    + unfold jd_key. by rewrite Hid.
    + unfold claimable, state_is. rewrite bool_decide_true by done. by apply Z.leb_le.
    + intros r Hr' Hj' Hc. by eapply pick_row_least.
    + by rewrite Hid.
    + apply (mark_started_served db now j); [done|]. by apply andb_true_iff in Hs as [? _].
Qed.

(** ** Finishing *)

Lemma find_row_jobs issued db j : db_ok issued db → j ∈ jobs db → find_row j_id (j_id j) (jobs db) = Some j.
Proof. intros H. apply find_row_unique, H. Qed.

(** The one row a claim owns. *)
Lemma owns_unique issued db c r r' :
  db_ok issued db → r ∈ job_domains db → r' ∈ job_domains db → owns c r = true → owns c r' = true → r = r'.
Proof.
  intros Hok Hr Hr' (E & _)%owns_true (E' & _)%owns_true.
  apply (key_inj jd_key (job_domains db)); [apply Hok|done|done|congruence].
Qed.

Lemma finish_written_jobs db now c res fc wc : jobs (finish_written db now c res fc wc) = jobs db.
Proof. unfold finish_written. by break. Qed.

Lemma finish_written_rows db now c res fc wc :
  job_domains (finish_written db now c res fc wc) =
  update_where (owns c) (record_row now res fc) (job_domains db).
Proof. unfold finish_written. by break. Qed.

(** The rows of a job that are not done, after a row of it was recorded. *)
Lemma unfinished_after c now res fc rows j :
  any (λ r, of_job j r && unfinished r) (update_where (owns c) (record_row now res fc) rows) = false ↔
  ∀ r, r ∈ rows → jd_job_id r = j → owns c r = true ∨ jd_state r = st_done.
Proof.
  rewrite any_false. split.
  - intros H r Hr Hj. destruct (owns c r) eqn:Eo; [by left|right].
    specialize (H r). rewrite elem_of_update_where in H. unfold of_job, unfinished in H.
    rewrite (bool_decide_true _ Hj) in H. cbn in H. rewrite mem_false in H.
    destruct (jd_state r) eqn:Es; [| |done]; exfalso; (apply H; [exists r; by rewrite Eo|set_solver]).
  - intros H r' (r & Hr & ->)%elem_of_update_where. unfold of_job, unfinished.
    destruct (owns c r) eqn:Eo; cbn; [by rewrite andb_comm|].
    destruct (decide (jd_job_id r = j)) as [Hj|]; [|by rewrite bool_decide_false].
    destruct (H r Hr Hj) as [?|Hd]; [congruence|]. rewrite Hd. by rewrite andb_comm.
Qed.

(** The exact effect of recording an outcome.  A claim that still owns its row records
    it: that row becomes done with the result, the token is dropped, and every other row
    stays as it was.  The job is reported done exactly when it was still queued or running
    and each of its other rows was already done; then, and only then, its status becomes
    done with its row count, and no other job changes. *)
Theorem finish_exact (issued : list string) (db : DB) (now : instant) (c : Claim)
    (res : DomainResult) (from_cache write_cache : bool) (row : JobDomain) (job : Job)
    (Hok : db_ok issued db) (Hrow : row ∈ job_domains db) (Howns : owns c row = true)
    (Hjob : job ∈ jobs db) (Hid : j_id job = c_job_id c) :
  ∃ job_done db', finish db now c res from_cache write_cache = ((true, job_done), db') ∧
    (∃ row', find_row jd_key (c_job_id c, c_domain c) (job_domains db') = Some row' ∧
       jd_state row' = st_done ∧ jd_claimed_by row' = None ∧ jd_finished_at row' = Some now ∧
       jd_status row' = Some (r_status res) ∧ jd_result row' = Some (Dump res) ∧
       jd_from_cache row' = from_cache ∧ jd_jina_tokens row' = (if from_cache then 0 else r_jina_tokens res)%Z ∧
       jd_attempts row' = jd_attempts row ∧ jd_seq row' = jd_seq row) ∧
    (∀ r, r ∈ job_domains db → jd_key r ≠ (c_job_id c, c_domain c) → r ∈ job_domains db') ∧
    (job_done = true ↔ active job = true ∧
       ∀ r, r ∈ job_domains db → jd_job_id r = c_job_id c → r = row ∨ jd_state r = st_done) ∧
    find_row j_id (c_job_id c) (jobs db') =
      Some (if job_done then set_job job Models.job_done (Some now) (job_rows db (c_job_id c))
                              (j_pause_reason job) (j_paused_at job) (j_started_at job)
                              (j_paused_seconds job)
            else job) ∧
    (∀ j, j ∈ jobs db → j_id j ≠ c_job_id c → j ∈ jobs db').
Proof.
  assert (any (owns c) (job_domains db) = true) as Hany by (apply any_true; eauto).
  rewrite finish_unfold, Hany. unfold complete_if_finished. do 2 eexists. split; [done|].
  cbn [job_domains jobs with_jobs fst snd]. rewrite finish_written_jobs, finish_written_rows.
  set (W := finish_written db now c res from_cache write_cache).
  set (p := λ j, bool_decide (j_id j = c_job_id c) && finished_job W j).
  pose proof Howns as (Hkey & Hcl & Hst)%owns_true.
  assert (any p (jobs db) = p job) as ->.
  { destruct (p job) eqn:Ep; [by apply any_true; eauto|]. apply any_false. intros j Hj.
    destruct (p j) eqn:E; [|done]. rewrite <- Ep, <- E. f_equal.
    apply andb_true_iff in E as [E%bool_decide_eq_true _].
    apply (key_inj j_id (jobs db)); [apply Hok|done|done|congruence]. }
  split_and!.
  - exists (record_row now res from_cache row). split; [|done].
    rewrite find_row_update_where by done. rewrite <- Hkey, find_row_unique; [|apply Hok|done].
    cbn. by rewrite Howns.
  - intros r Hr Hne. apply elem_of_update_where. exists r. split; [done|].
    destruct (owns c r) eqn:E; [|done]. by apply owns_true in E as [? _].
  - unfold p, finished_job. rewrite (bool_decide_true _ Hid), andb_true_l, andb_true_iff, negb_true_iff.
    unfold W. rewrite finish_written_rows, unfinished_after, Hid. split; intros [Ha H]; (split; [done|]).
    + intros r Hr Hj. destruct (H r Hr Hj) as [Ho|]; [left|by right]. by apply (owns_unique issued db c).
    + intros r Hr Hj. destruct (H r Hr Hj) as [->|]; [by left|by right].
  - rewrite find_row_update_where by done. rewrite <- Hid, (find_row_jobs issued) by done. cbn. f_equal.
    break; [|done]. unfold complete_job, job_rows, W. by rewrite finish_written_rows, count_update_where, Hid.
  - intros j Hj Hne. apply elem_of_update_where. exists j. split; [done|].
    unfold p. by rewrite bool_decide_false.
Qed.

(** The sample database after a first claim, which takes the lowest row of job 1. *)
Definition sample_claimed : DB := (claim (λ _, false) sample_db 5 "w" (λ _, "h")).2.
Definition sample_claim : Claim := mkClaim 1%N "a.com" 1 "w|h" None.

Lemma sample_claimed_ok : db_ok ["w|h"] sample_claimed.
Proof.
  assert (∀ k : nat, new_token "w" "h" ∉ @nil string) as Hfresh by set_solver.
  exact (claim_ok [] sample_db 5 (λ _, false) "w" (λ _, "h") sample_db_ok Hfresh).
Qed.

Definition sample_result : DomainResult := blank_result "a.com" no_contact_info.

Lemma finish_exact_witness :
  let r := find_row jd_key (1%N, "a.com") (job_domains sample_claimed) in
  ∃ db', finish sample_claimed 6 sample_claim sample_result false true = ((true, false), db') ∧
    (find_row jd_key (1%N, "a.com") (job_domains db') ≫= jd_status) = Some no_contact_info ∧
    (find_row j_id 1%N (jobs db') ≫= λ j, Some (j_status j)) = Some job_running.
Proof.
  destruct (find_row jd_key (1%N, "a.com") (job_domains sample_claimed)) as [row|] eqn:Er;
    [|vm_compute in Er; discriminate].
  destruct (find_row j_id 1%N (jobs sample_claimed)) as [job|] eqn:Ej; [|vm_compute in Ej; discriminate].
  assert (owns sample_claim row = true ∧ j_status job = job_running) as [Ho Hs].
  { vm_compute in Er. vm_compute in Ej. injection Er as <-. injection Ej as <-. split; reflexivity. }
  apply find_row_Some in Er as [Hr _]. apply find_row_Some in Ej as [Hj Hi].
  destruct (finish_exact ["w|h"] sample_claimed 6 sample_claim sample_result false true row job
              sample_claimed_ok Hr Ho Hj Hi) as (d & db' & E & (row' & E1 & _ & _ & _ & E3 & _) & _ & _ & E2 & _).
  exists db'. assert (d = false) as -> by (vm_compute in E; congruence).
  split; [exact E|]. cbn in E1, E2. rewrite E1, E2. cbn. by rewrite Hs, E3.
Defined.

(** ** Domain locks *)

Definition lock_row (db : DB) (d : string) : option Domain := find_row d_domain d (domains db).

Lemma find_ensure now d t : find_row d_domain d (ensure_domain now d t) =
  Some (default (new_domain now d) (find_row d_domain d t)).
Proof.
  unfold ensure_domain. destruct (find_row d_domain d t) eqn:E; [done|]. cbn.
  unfold find_row in *. rewrite keep_app. destruct (keep _ t) as [|]; [|done]. cbn.
  by rewrite bool_decide_true.
Qed.

Lemma any_by_key {R K} `{EqDecision K} (key : R → K) (k : K) (q : R → bool) (t : list R) :
  NoDup (map key t) →
  any (λ r, bool_decide (key r = k) && q r) t = from_option q false (find_row key k t).
Proof.
  intros Hn. destruct (find_row key k t) as [x|] eqn:E; cbn.
  - apply find_row_Some in E as [Hx <-]. destruct (q x) eqn:Eq.
    + apply any_true. exists x. by rewrite bool_decide_true.
    + apply any_false. intros y Hy. destruct (decide (key y = key x)) as [Ek|]; [|by rewrite bool_decide_false].
      rewrite (key_inj key t y x Hn Hy Hx Ek), bool_decide_true by done. done.
  - apply any_false. intros y Hy. by rewrite bool_decide_false by (by apply (proj1 (find_row_None _ _ _) E)).
Qed.

Lemma lock_domain_spec issued db now c :
  db_ok issued db →
  let row := default (new_domain now (c_domain c)) (lock_row db (c_domain c)) in
  (lock_domain db now c).1 = lock_free now row ∧
  lock_row (lock_domain db now c).2 (c_domain c) =
    Some (if lock_free now row
          then set_lock row (Some (c_token c)) (Some (now + seconds LEASE_S)%Z) stage_fetching else row).
Proof.
  intros Hok. unfold lock_domain. cbn [fst snd lock_row domains with_domains].
  pose proof (db_domain_keys _ _ (ensure_domain_ok issued db now (c_domain c) Hok)) as Hn. cbn in Hn.
  rewrite any_by_key by done. unfold lock_row. cbn [domains with_domains].
  rewrite find_row_update_where by done. rewrite find_ensure. cbn. split; [done|]. f_equal.
  set (row := default _ _).
  assert (d_domain row = c_domain c) as ->.
  { unfold row. destruct (find_row _ _ _) eqn:E; [|done]. by apply find_row_Some in E as [_ ?]. }
  by rewrite bool_decide_true.
Qed.

Lemma unlock_row db c d :
  lock_row (unlock_domain db c) d =
  (λ r, if bool_decide (d_domain r = c_domain c) && null_eq (d_lock_owner r) (c_token c)
        then drop_lock r else r) <$> lock_row db d.
Proof. unfold lock_row, unlock_domain. cbn. by rewrite find_row_update_where. Qed.

(** The domain lock is exclusive for its lease.  After one claim locks a domain, no
    attempt on that domain succeeds until the lease has run out or the owner unlocks, an
    unlock by any other claim leaves the lock in place, the owner's unlock frees it at once,
    and a lock whose lease has expired can be taken over. *)
Theorem lock_domain_exclusive (issued : list string) (db : DB) (now now' : instant) (c c' : Claim)
    (Hok : db_ok (c_token c :: issued) db)
    (Hlock : (lock_domain db now c).1 = true)
    (Hdom : c_domain c' = c_domain c) (Htok : c_token c' ≠ c_token c) :
  let db1 := (lock_domain db now c).2 in
  (lock_domain db1 now' c').1 = Z.ltb (now + seconds LEASE_S) now' ∧
  (lock_domain (unlock_domain db1 c') now' c').1 = Z.ltb (now + seconds LEASE_S) now' ∧
  (lock_domain (unlock_domain db1 c) now' c').1 = true.
Proof.
  destruct (lock_domain_spec _ db now c Hok) as [E1 E2]. rewrite Hlock in E1. rewrite <- E1 in E2.
  cbn zeta. set (db1 := (lock_domain db now c).2) in *.
  assert (db_ok (c_token c :: issued) db1) as Hok1 by (apply lock_domain_ok; [left|done]).
  set (row := set_lock _ _ _ _) in E2.
  assert (d_domain row = c_domain c) as Hrow by (by apply find_row_Some in E2 as [_ ?]).
  split_and!.
  - destruct (lock_domain_spec _ db1 now' c' Hok1) as [-> _]. by rewrite Hdom, E2.
  - destruct (lock_domain_spec _ _ now' c' (unlock_domain_ok _ _ c' Hok1)) as [-> _].
    rewrite unlock_row, Hdom, E2. cbn -[row]. rewrite Hrow, bool_decide_true by done.
    unfold null_eq. rewrite bool_decide_false by (cbn; congruence). done.
  - destruct (lock_domain_spec _ _ now' c' (unlock_domain_ok _ _ c Hok1)) as [-> _].
    rewrite unlock_row, Hdom, E2. cbn -[row]. rewrite Hrow, bool_decide_true by done.
    unfold null_eq. by rewrite bool_decide_true.
Qed.

Lemma lock_domain_exclusive_witness :
  let c := sample_claim in
  let c' := mkClaim 2%N "a.com" 1 "v|k" None in
  let db1 := (lock_domain sample_claimed 6 c).2 in
  (lock_domain sample_claimed 6 c).1 = true ∧ (lock_domain db1 7 c').1 = false ∧
  (lock_domain (unlock_domain db1 c) 7 c').1 = true.
Proof.
  intros c c' db1. split; [reflexivity|].
  destruct (lock_domain_exclusive [] sample_claimed 6 7 c c' sample_claimed_ok eq_refl eq_refl)
    as (E & _ & E'); [discriminate|].
  split; [exact E|exact E'].
Defined.

(** ** Leases *)

Lemma heartbeat_rows db now tokens :
  tokens ≠ [] →
  job_domains (heartbeat db now tokens) =
  update_where (λ r, state_is st_running r && null_any (jd_claimed_by r) tokens) (beat_row now)
               (job_domains db).
Proof. by destruct tokens. Qed.

(** A worker that keeps its heartbeat keeps its rows.  After a heartbeat that names a
    claim's token, a reap within the lease leaves the claim owning its row, so its outcome
    is still recorded; a reap later than the lease takes the row back, queued for anyone,
    with its attempts kept. *)
Theorem heartbeat_keeps_claim (db : DB) (now now' : instant) (tokens : list string)
    (c : Claim) (row : JobDomain)
    (Hrow : row ∈ job_domains db) (Howns : owns c row = true) (Hin : c_token c ∈ tokens) :
  let beaten := beat_row now row in
  let db' := (reap (heartbeat db now tokens) now').2 in
  if Z.leb now' (now + seconds LEASE_S)
  then beaten ∈ job_domains db' ∧ owns c beaten = true
  else set_queue beaten st_queued (jd_attempts row) now' None None (jd_requeued_at row)
         ∈ job_domains db'.
Proof.
  intros beaten db'. pose proof Howns as (Hk & Hc & Hs)%owns_true.
  assert (beaten ∈ job_domains (heartbeat db now tokens)) as Hb.
  { rewrite heartbeat_rows by (intros ->; set_solver). apply elem_of_update_where. exists row. split; [done|].
    unfold state_is, null_any. rewrite Hc, bool_decide_true by done. cbn.
    by rewrite (proj2 (mem_true _ _) Hin). }
  assert (stale now' beaten = negb (Z.leb now' (now + seconds LEASE_S))) as Hst.
  { unfold stale, state_is. cbn. rewrite bool_decide_true by done. cbn.
    destruct (Z.leb_spec now' (now + seconds LEASE_S)); cbn; [apply Z.ltb_ge|apply Z.ltb_lt]; lia. }
  assert (∃ r, r ∈ job_domains db' ∧ r = if stale now' beaten
            then set_queue beaten st_queued (jd_attempts row) now' None None (jd_requeued_at row)
            else beaten) as (r & Hr & E).
  { eexists. split; [|done]. apply elem_of_update_where. by exists beaten. }
  rewrite Hst in E. destruct (Z.leb now' (now + seconds LEASE_S)); cbn in E; subst r; [|done].
  split; [done|]. by apply owns_true.
Qed.

Lemma heartbeat_keeps_claim_witness :
  ∃ row, owns sample_claim row = true ∧
    beat_row 50 row ∈ job_domains (reap (heartbeat sample_claimed 50 ["w|h"]) 60).2.
Proof.
  destruct (find_row jd_key (1%N, "a.com") (job_domains sample_claimed)) as [row|] eqn:Er;
    [|vm_compute in Er; discriminate].
  assert (owns sample_claim row = true) as Ho.
  { vm_compute in Er. injection Er as <-. reflexivity. }
  apply find_row_Some in Er as [Hr _]. exists row. split; [exact Ho|].
  exact (proj1 (heartbeat_keeps_claim sample_claimed 50 60 ["w|h"] sample_claim row Hr Ho
                  ltac:(left))).
Defined.

(** A shutdown gives back exactly the worker's own rows.  For a worker id without [LIKE]
    metacharacters, [release_worker] requeues the running rows whose token starts with the
    worker's id and a bar, due now and with the attempt refunded, and leaves every other
    row alone. *)
Theorem release_worker_own_rows (db : DB) (now : instant) (worker : string)
    (Hplain : like_plain worker = true) :
  job_domains (release_worker db now worker) =
  map (λ r, if bool_decide (jd_state r = st_running)
               && from_option (String.prefix (worker +:+ "|")) false (jd_claimed_by r)
            then set_queue r st_queued (Z.max (jd_attempts r - 1) 0) now None None (jd_requeued_at r)
            else r) (job_domains db).
Proof.
  unfold release_worker. cbn. apply map_ext. intros r. unfold state_is, null_like.
  destruct (jd_claimed_by r) as [t|]; [|done]. cbn.
  change (worker +:+ "|%") with (worker +:+ ("|" +:+ "%")). rewrite <- app_assoc_str, like_prefix; [done|].
  clear -Hplain. induction worker as [|a w IH]; [done|]. cbn in *.
  apply andb_true_iff in Hplain as [-> H]. by apply IH.
Qed.

Lemma release_worker_own_rows_witness :
  like_plain "host:1:ab12cd" = true ∧
  map jd_state (job_domains (release_worker sample_claimed 9 "host:1:ab12cd")) =
  map jd_state (job_domains sample_claimed) ∧
  map jd_state (job_domains (release_worker sample_claimed 9 "w")) =
  [st_queued; st_queued; st_queued; st_queued].
Proof.
  split; [reflexivity|].
  split; [rewrite (release_worker_own_rows sample_claimed 9 "host:1:ab12cd") by reflexivity; reflexivity|].
  rewrite (release_worker_own_rows sample_claimed 9 "w") by reflexivity. reflexivity.
Defined.

(** ** The cache *)

Lemma finish_cache_row db now c res wc row :
  any (owns c) (job_domains db) = true → lock_row db (c_domain c) = Some row →
  ∃ row', lock_row (finish db now c res false wc).2 (c_domain c) = Some row' ∧
    if wc then d_finished_at row' = Some now ∧ d_status row' = Some (r_status res) ∧
               d_result row' = Some (Dump res)
    else d_finished_at row' = d_finished_at row ∧ d_status row' = d_status row ∧
         d_result row' = d_result row.
Proof.
  intros Ho Hr. rewrite finish_unfold, Ho. cbn [snd].
  set (W := finish_written _ _ _ _ _ _).
  change (lock_row (complete_if_finished W now (c_job_id c)).2 (c_domain c)) with (lock_row W (c_domain c)).
  unfold W, finish_written. rewrite unlock_row. pose proof Hr as Hd. apply find_row_Some in Hd as [_ Hd].
  destruct wc; cbn [negb andb]; unfold lock_row in *; cbn [domains with_domains with_job_domains].
  - rewrite find_row_update_where, Hr by done. cbn. eexists. split; [done|].
    rewrite (bool_decide_true _ Hd). by break.
  - rewrite Hr. cbn. eexists. split; [done|]. by break.
Qed.

(** What one job fetched the others reuse, within the rules.  After an outcome is
    recorded with a cache write, the cache hands back that very result to any job created
    (and any retry asked for) no later than the write; to a later job only when it did not
    ask for fresh results, the result was not a failure, and the cache window still covers
    it; in all other cases it hands back nothing, so the domain is fetched again. *)
Theorem finish_then_cached (cfg : Settings) (db : DB) (now now' : instant) (c : Claim)
    (res : DomainResult) (row : Domain) (job : Job) (not_before : option instant)
    (Howns : any (owns c) (job_domains db) = true)
    (Hrow : find_row d_domain (c_domain c) (domains db) = Some row) :
  cached_result cfg (finish db now c res false true).2 now' job (c_domain c) not_before =
  if Z.leb (j_created_at job) now && Z.leb (default now not_before) now then Some res
  else if j_fresh job || bool_decide (r_status res = fetch_failed) then None
  else if Z.leb (now' - days (cache_days cfg)) now then Some res else None.
Proof.
  destruct (finish_cache_row db now c res true row Howns Hrow) as (row' & E & Ef & Es & Er).
  unfold cached_result. unfold lock_row in E. rewrite E, Ef, Es, Er. cbn.
  assert (bool_decide (Some (r_status res) = Some fetch_failed) = bool_decide (r_status res = fetch_failed)) as ->.
  { apply bool_decide_ext. split; congruence. }
  assert (Z.leb (match not_before with Some nb => Z.max (j_created_at job) nb | None => j_created_at job end) now
          = Z.leb (j_created_at job) now && Z.leb (default now not_before) now) as ->.
  { destruct not_before as [nb|]; cbn.
    - destruct (Z.leb_spec (Z.max (j_created_at job) nb) now), (Z.leb_spec (j_created_at job) now),
        (Z.leb_spec nb now); cbn; try done; lia.
    - by rewrite Z.leb_refl, andb_true_r. }
  by repeat break.
Qed.

Lemma finish_then_cached_witness :
  cached_result default_settings (finish sample_claimed 40 sample_claim sample_result false true).2 41
    (sample_job 2 None 20) "a.com" None = Some sample_result.
Proof.
  destruct (find_row d_domain "a.com" (domains sample_claimed)) as [row|] eqn:E;
    [|vm_compute in E; discriminate].
  rewrite (finish_then_cached default_settings sample_claimed 40 41 sample_claim sample_result row);
    [reflexivity|reflexivity|exact E].
Defined.

(** ** Retrying failures *)

(** Retrying a job puts back exactly its retryable failures.  Rows of other jobs, rows
    that succeeded and failures of other kinds stay as they were; the requeued ones are due
    now with a clean attempt count and refuse results fetched before the retry; the count
    returned is their number, and a finished job is reopened exactly when there are some. *)
Theorem requeue_failed_exact (issued : list string) (db : DB) (now : instant) (job : Job)
    (Hok : db_ok issued db) (Hjob : job ∈ jobs db) :
  let '(n, db') := requeue_failed db now (j_id job) in
  n = count (retryable_row (j_id job)) (job_domains db) ∧
  (∀ r, r ∈ job_domains db →
     find_row jd_key (jd_key r) (job_domains db') =
     Some (if bool_decide (jd_job_id r = j_id job) && bool_decide (jd_state r = st_done)
              && bool_decide (jd_status r = Some fetch_failed)
              && (null_any (json_error_reason (jd_result r)) RETRYABLE_FAILURE_REASONS
                  || null_eq (json_site_status (jd_result r)) "too_many_attempts")
           then set_queue r st_queued 0 now None None (Some now) else r)) ∧
  find_row j_id (j_id job) (jobs db') =
    Some (if (0 <? n)%nat && bool_decide (j_status job = job_done) then reopen_job now job else job).
Proof.
  unfold requeue_failed. cbn zeta. set (rows := returning _ _).
  assert (length rows = count (retryable_row (j_id job)) (job_domains db)) as Hlen by done.
  split; [done|]. split.
  - intros r Hr.
    assert (∀ d : DB, job_domains (match rows with [] => d | _ => with_jobs d
              (update_where (λ j, bool_decide (j_id j = j_id job) && bool_decide (j_status j = job_done))
                 (reopen_job now) (jobs d)) end) = job_domains d) as -> by (by destruct rows).
    cbn. rewrite find_row_update_where by done. rewrite find_row_unique; [done|apply Hok|done].
  - destruct rows as [|r0 rows']; cbn [length jobs with_jobs with_job_domains].
    + by apply (find_row_jobs issued).
    + rewrite find_row_update_where by done. rewrite (find_row_jobs issued) by done. cbn.
      by rewrite bool_decide_true.
Qed.

Lemma requeue_failed_exact_witness :
  let res := failed_result "a.com" "homepage" None None in
  let db1 := (finish sample_claimed 6 sample_claim res false true).2 in
  ∃ db', requeue_failed db1 9 1%N = (1%nat, db') ∧
    (find_row jd_key (1%N, "a.com") (job_domains db') ≫= λ r, Some (jd_state r)) = Some st_queued.
Proof.
  intros res db1.
  assert (db_ok ["w|h"] db1) as Hok by (apply finish_ok, sample_claimed_ok).
  destruct (find_row j_id 1%N (jobs db1)) as [job|] eqn:Ej; [|vm_compute in Ej; discriminate].
  destruct (find_row jd_key (1%N, "a.com") (job_domains db1)) as [row|] eqn:Er; [|vm_compute in Er; discriminate].
  pose proof Ej as [Hj Hid]%find_row_Some. pose proof Er as [Hr Hk]%find_row_Some.
  pose proof (requeue_failed_exact ["w|h"] db1 9 job Hok Hj) as H. rewrite Hid in H.
  destruct (requeue_failed db1 9 1%N) as [n db'] eqn:E. destruct H as (-> & H & _).
  exists db'. split; [f_equal; vm_compute; reflexivity|].
  rewrite <- Hk, (H row Hr). vm_compute in Er. injection Er as <-. reflexivity.
Defined.
