(* ===== verification/Progress.v ===== *)
(** * Jobs get done

    Liveness of the queue.  A round claims a row and records an outcome for it, as a worker
    with nothing in its way does; the outcome, the worker and its tokens are arbitrary.
    Every active job whose open rows are due is done after as many rounds as rows were
    queued, whatever other jobs and people compete for the rounds. *)

From Stdlib Require Import ZArith Lia.
From stdpp Require Import base strings option sets list.
From S2P Require Import Prelude Sql Models Queue QueueInv QueueProps.

Section rounds.
Context (now : instant) (worker : string) (hexes : nat → nat → string) (outcome : Claim → DomainResult).

Definition round (i : nat) (db : DB) : DB :=
  match claim (λ _, false) db now worker (hexes i) with
  | (Some c, db') => (finish db' now c (outcome c) false true).2
  | (None, db') => db'
  end.

Fixpoint rounds (n i : nat) (db : DB) : DB :=
  match n with O => db | S n' => rounds n' (S i) (round i db) end.

(** The row of claim [c], taken and recorded. *)
Definition served (c : Claim) (r : JobDomain) : JobDomain :=
  record_row now (outcome c) false (take_row now (c_token c) r).

Definition row_of (c : Claim) : JobDomain → bool := is_row (c_job_id c) (c_domain c).

Lemma record_taken c rows :
  update_where (owns c) (record_row now (outcome c) false) (update_where (row_of c) (take_row now (c_token c)) rows)
  = update_where (row_of c) (served c) rows.
Proof.
  unfold update_where. rewrite map_map. apply map_ext. intros r. unfold row_of.
  destruct (is_row (c_job_id c) (c_domain c) r) eqn:E.
  - assert (owns c (take_row now (c_token c) r) = true) as ->; [|done].
    apply is_row_true in E. by apply owns_true.
  - destruct (owns c r) eqn:Eo; [|done]. apply owns_true in Eo as [Ek _]. apply is_row_true in Ek. congruence.
Qed.

(** What a round that found a row does. *)
Record round_does (c : Claim) (job : Job) (row : JobDomain) (db db' : DB) : Prop := {
  rd_job : job ∈ jobs db ∧ j_id job = c_job_id c ∧ active job = true;
  rd_row : row ∈ job_domains db ∧ row_of c row = true ∧ jd_state row = st_queued;
  rd_rows : job_domains db' = update_where (row_of c) (served c) (job_domains db);
  rd_jobs : ∃ f, jobs db' = map f (jobs db) ∧
    ∀ j, j ∈ jobs db → j_id (f j) = j_id j ∧
      (j_id j ≠ c_job_id c → f j = j) ∧
      (j_id j = c_job_id c → active j = true →
       if any (λ r, of_job (c_job_id c) r && unfinished r) (job_domains db')
       then active (f j) = true else j_status (f j) = job_done)
}.

Lemma start_job_active j : active j = true → active (start_job now j) = true.
Proof. unfold active, start_job. cbn. intros Ha. by destruct (bool_decide_reflect (j_status j = job_queued)). Qed.

Lemma round_Some i db c db1 :
  claim (λ _, false) db now worker (hexes i) = (Some c, db1) →
  ∃ job row, round_does c job row db (finish db1 now c (outcome c) false true).2.
Proof.
  intros E. unfold claim in E. destruct (PICK_JOBS db now) as [|j rest] eqn:Ep; [done|].
  apply PICK_JOBS_head in Ep as (Hj & Hs & _). destruct (servable_pick _ _ _ Hs) as [row Hp].
  cbn in E. unfold CLAIM_FROM_JOB in E. rewrite Hp in E. cbn in E.
  destruct (pick_row_Some _ _ _ _ _ Hp) as (Hr & Hid & Hst & _ & _).
  injection E as Ec Edb. assert (c_job_id c = j_id j ∧ c_domain c = jd_domain row) as [Ej Ed] by (by rewrite <- Ec).
  assert (job_domains db1 = update_where (row_of c) (take_row now (c_token c)) (job_domains db)) as Erows.
  { rewrite <- Edb, <- Ec. cbn. unfold row_of. cbn. by rewrite Hid. }
  assert (row_of c row = true) as Hrow by (apply is_row_true; unfold jd_key; by rewrite Hid, Ej, Ed).
  apply andb_true_iff in Hs as [Ha _].
  exists j, row. rewrite finish_unfold.
  assert (any (owns c) (job_domains db1) = true) as ->.
  { apply any_true. exists (take_row now (c_token c) row). split.
    - rewrite Erows. apply elem_of_update_where. exists row. by rewrite Hrow.
    - apply is_row_true in Hrow. by apply owns_true. }
  set (W := finish_written db1 now c (outcome c) false true). cbn [snd].
  assert (job_domains W = update_where (row_of c) (served c) (job_domains db)) as EW.
  { unfold W. rewrite finish_written_rows, Erows. apply record_taken. }
  split; [done|done|exact EW|].
  set (p := λ x, bool_decide (j_id x = j_id j) && (bool_decide (j_status x = job_queued) || is_null (j_started_at x))).
  set (q := λ x, bool_decide (j_id x = c_job_id c) && finished_job W x).
  exists (λ x, let x' := if p x then start_job now x else x in if q x' then complete_job W now x' else x'). split.
  { unfold complete_if_finished. cbn [snd with_jobs jobs]. unfold W at 3. rewrite finish_written_jobs, <- Edb.
    cbn. unfold update_where. by rewrite map_map. }
  intros x Hx. cbv zeta. assert (j_id (if p x then start_job now x else x) = j_id x) as Hpx by (by destruct (p x)).
  split; [by destruct (q _)|]. split.
  - intros Hne. assert (p x = false) as Hp0 by (unfold p; rewrite bool_decide_false; [done|congruence]).
    rewrite Hp0. unfold q. rewrite bool_decide_false by done. done.
  - intros Hxj Hxa. set (x' := if p x then start_job now x else x) in *.
    assert (active x' = true) as Hxa' by (unfold x'; destruct (p x); [by apply start_job_active|done]).
    unfold q. rewrite Hpx, bool_decide_true by done. unfold finished_job. rewrite Hxa', Hpx, Hxj. cbn [andb complete_if_finished snd with_jobs job_domains].
    destruct (any _ (job_domains W)); done.
Qed.

Lemma round_None i db db1 :
  claim (λ _, false) db now worker (hexes i) = (None, db1) →
  db1 = db ∧ ∀ j, j ∈ jobs db → servable db now j = false.
Proof.
  unfold claim. destruct (PICK_JOBS db now) as [|j rest] eqn:E.
  - cbn. intros [= <-]. split; [done|]. intros j. by apply PICK_JOBS_nil.
  - apply PICK_JOBS_head in E as (Hj & Hs & _). destruct (servable_pick _ _ _ Hs) as [row Hp].
    cbn. unfold CLAIM_FROM_JOB. by rewrite Hp.
Qed.

(** The job is done and so are its rows. *)
Definition job_is_done (J : uuid) (db : DB) : Prop :=
  (∃ j, find_row j_id J (jobs db) = Some j ∧ j_status j = job_done) ∧
  ∀ r, r ∈ job_domains db → jd_job_id r = J → jd_state r = st_done.

(** The job is active with an open row. *)
Definition job_is_open (J : uuid) (db : DB) : Prop :=
  (∃ j, find_row j_id J (jobs db) = Some j ∧ active j = true) ∧
  ∃ r, r ∈ job_domains db ∧ jd_job_id r = J ∧ unfinished r = true.

Definition rows_due (J : uuid) (db : DB) : Prop :=
  ∀ r, r ∈ job_domains db → jd_job_id r = J → jd_state r = st_done ∨ claimable now r = true.

Record waiting (J : uuid) (db : DB) : Prop := {
  wt_ids : NoDup (map j_id (jobs db));
  wt_due : rows_due J db;
  wt_job : job_is_done J db ∨ job_is_open J db
}.

Lemma unfinished_false r : unfinished r = false → jd_state r = st_done.
Proof. unfold unfinished. intros H%bool_decide_eq_false. destruct (jd_state r); [set_solver..|done]. Qed.

Lemma served_state c r : jd_state (served c r) = st_done ∧ jd_job_id (served c r) = jd_job_id r.
Proof. done. Qed.

Lemma find_row_map (f : Job → Job) t J :
  (∀ j, j ∈ t → j_id (f j) = j_id j) → find_row j_id J (map f t) = f <$> find_row j_id J t.
Proof.
  unfold find_row, keep. induction t as [|j t IH]; intros H; [done|]. cbn [map List.filter].
  rewrite (H j ltac:(set_solver)). destruct (bool_decide (j_id j = J)); [done|]. apply IH. set_solver.
Qed.

Lemma round_waiting c job row J db db' :
  round_does c job row db db' → waiting J db → waiting J db'.
Proof.
  intros [(Hj & Hid & Ha) (Hr & Hrow & Hq) Erows (f & Ejobs & Hf)] [Hn Hdue Hjob].
  assert (∀ r, row_of c r = true → jd_job_id r = c_job_id c) as Hof.
  { intros r Er%is_row_true. by injection Er. }
  split.
  - rewrite Ejobs, map_map. erewrite map_ext_in; [exact Hn|]. intros j Hin%list_elem_of_In. by apply Hf.
  - intros r Hr' HJ. rewrite Erows in Hr'. apply elem_of_update_where in Hr' as (r0 & Hr0 & ->).
    destruct (row_of c r0); [by left|by apply Hdue].
  - destruct (decide (c_job_id c = J)) as [<-|Hne].
    + (* the job served: done when this was its last open row *)
      assert (find_row j_id (c_job_id c) (jobs db') = Some (f job)) as Hfind.
      { rewrite Ejobs, find_row_map by (intros; by apply Hf). rewrite <- Hid, (find_row_unique j_id _ _ Hn Hj). done. }
      destruct (Hf job Hj) as (_ & _ & Hserved). specialize (Hserved Hid Ha).
      destruct (any _ (job_domains db')) eqn:Eany.
      * right. split; [by exists (f job)|]. apply any_true in Eany as (r & Hr1 & Hr2). bool_to_prop.
        exists r. split_and!; try done. by apply bool_decide_eq_true in H.
      * left. split; [by exists (f job)|]. intros r Hr1 Hr2. pose proof (proj1 (any_false _ _) Eany r Hr1) as Hu.
        cbv beta in Hu. unfold of_job in Hu. rewrite bool_decide_true in Hu by done. by apply unfinished_false.
    + (* another job: nothing of this one changes *)
      assert (∀ r, jd_job_id r = J → r ∈ job_domains db' ↔ r ∈ job_domains db) as Hrows.
      { intros r HrJ. rewrite Erows, elem_of_update_where. split.
        - intros (r0 & Hr0 & ->). destruct (row_of c r0) eqn:E0; [|done]. destruct Hne. cbn in HrJ.
          by rewrite <- (Hof r0 E0).
        - intros Hin. exists r. split; [done|]. destruct (row_of c r) eqn:E0; [|done]. destruct Hne.
          by rewrite <- (Hof r E0). }
      assert (∀ j, find_row j_id J (jobs db) = Some j → find_row j_id J (jobs db') = Some j) as Hkeep.
      { intros j Ej. rewrite Ejobs, find_row_map by (intros; by apply Hf). rewrite Ej. cbn.
        apply find_row_Some in Ej as [Hin Ej]. destruct (Hf j Hin) as (_ & Hsame & _). by rewrite Hsame by congruence. }
      destruct Hjob as [[(j & Ej & Hjd) Hall]|[(j & Ej & Hja) (r & Hr1 & Hr2 & Hr3)]]; [left|right]; (split; [by eauto|]).
      * intros r Hr1 Hr2. apply Hall; [by apply Hrows|done].
      * exists r. split_and!; try done. by apply Hrows.
Qed.

Lemma round_keeps_done c job row J db db' :
  round_does c job row db db' → NoDup (map j_id (jobs db)) → job_is_done J db → job_is_done J db'.
Proof.
  intros Hd Hn Hdone. pose proof Hd as [(Hj & Hid & Ha) _ Erows _].
  assert (waiting J db') as [_ _ [|[_ (r & Hr & HJ & Hu)]]].
  { eapply round_waiting; [exact Hd|]. split; [done| |by left]. intros r Hr HrJ. left. by apply Hdone. }
  - done.
  - rewrite Erows in Hr. apply elem_of_update_where in Hr as (r0 & Hr0 & ->).
    assert (jd_state (if row_of c r0 then served c r0 else r0) = st_done) as E.
    { destruct (row_of c r0); [done|]. by apply Hdone. }
    unfold unfinished in Hu. rewrite E in Hu. apply bool_decide_eq_true in Hu. set_solver.
Qed.

(** The rows still queued: what the rounds use up. *)
Definition queued_rows (db : DB) : nat := count (state_is st_queued) (job_domains db).

Lemma round_uses_up c job row db db' : round_does c job row db db' → (queued_rows db' < queued_rows db)%nat.
Proof.
  intros [_ (Hr & Hrow & Hq) Erows _]. unfold queued_rows, count. rewrite Erows. clear Erows. unfold update_where.
  induction (job_domains db) as [|r t IH]; [by apply elem_of_nil in Hr|].
  assert (∀ l, (length (keep (state_is st_queued) (map (λ r, if row_of c r then served c r else r) l))
                ≤ length (keep (state_is st_queued) l))%nat) as Hle.
  { clear. induction l as [|r l IH]; [done|]. unfold keep in *. cbn [map List.filter].
    destruct (row_of c r); [change (state_is st_queued (served c r)) with false|];
      destruct (state_is st_queued r); cbn [length]; lia. }
  apply elem_of_cons in Hr as [<-|Hr].
  - specialize (Hle t). unfold keep in *. cbn [map List.filter]. rewrite Hrow.
    change (state_is st_queued (served c row)) with false.
    assert (state_is st_queued row = true) as -> by (by apply state_is_true).
    cbn [length]. lia.
  - specialize (IH Hr). unfold keep in *. cbn [map List.filter].
    destruct (row_of c r); [change (state_is st_queued (served c r)) with false|];
      destruct (state_is st_queued r); cbn [length]; lia.
Qed.

(** An open job with its rows due is served by some round. *)
Lemma open_servable J db :
  job_is_open J db → rows_due J db → (0 < queued_rows db)%nat ∧ ∃ j, j ∈ jobs db ∧ servable db now j = true.
Proof.
  intros [(j & Ej & Ha) (r & Hr & HJ & Hu)] Hdue. destruct (Hdue r Hr HJ) as [Hd|Hc].
  { unfold unfinished in Hu. rewrite Hd in Hu. by apply bool_decide_eq_true in Hu; set_solver. }
  split.
  - unfold queued_rows, count. assert (r ∈ keep (state_is st_queued) (job_domains db)) as Hk.
    { apply elem_of_keep. split; [done|]. by apply andb_true_iff in Hc as [? _]. }
    destruct (keep _ (job_domains db)); [by apply elem_of_nil in Hk|cbn; lia].
  - apply find_row_Some in Ej as [Hin Ej]. exists j. split; [done|]. unfold servable. rewrite Ha. cbn.
    apply any_true. exists r. split; [done|]. unfold of_job. by rewrite bool_decide_true by congruence.
Qed.

Lemma rounds_done J n : ∀ i db,
  waiting J db → (queued_rows db ≤ n)%nat ∨ job_is_done J db → job_is_done J (rounds n i db).
Proof.
  induction n as [|n IH]; intros i db Hw Hn; cbn [rounds].
  - destruct Hn as [Hn|]; [|done]. destruct (wt_job _ _ Hw) as [|Ho]; [done|].
    destruct (open_servable J db Ho (wt_due _ _ Hw)) as [Hpos _]. lia.
  - unfold round. destruct (claim (λ _, false) db now worker (hexes i)) as [[c|] db1] eqn:E.
    + apply round_Some in E as (job & row & Hd). apply IH; [by eapply round_waiting|].
      destruct Hn as [Hn|Hdone]; [left; pose proof (round_uses_up _ _ _ _ _ Hd); lia|right].
      eapply round_keeps_done; [exact Hd|apply Hw|done].
    + apply round_None in E as [-> Hno]. apply IH; [done|]. right. destruct (wt_job _ _ Hw) as [|Ho]; [done|].
      destruct (open_servable J db Ho (wt_due _ _ Hw)) as [_ (j & Hj & Hs)]. by rewrite Hno in Hs.
Qed.
End rounds.

(** C5: jobs get done.  However many jobs and people compete, a job that is active, has open
    rows and whose open rows are all due is done, with every row done, after as many rounds
    of claiming a row and recording any outcome as there were queued rows in all. *)
Theorem due_job_gets_done (now : instant) (worker : string) (hexes : nat → nat → string)
    (outcome : Claim → DomainResult) (db : DB) (J : uuid) (n i : nat)
    (Hids : NoDup (map j_id (jobs db))) (Hopen : job_is_open J db) (Hdue : rows_due now J db)
    (Hn : (queued_rows db ≤ n)%nat) :
  job_is_done J (rounds now worker hexes outcome n i db).
Proof. apply rounds_done; [|by left]. split; [done|done|by right]. Qed.

Lemma due_job_gets_done_witness :
  job_is_done 3%N (rounds 5 "w" (λ _ _, "h") (λ c, blank_result (c_domain c) no_contact_info) 4 0 sample_db).
Proof.
  apply (due_job_gets_done 5 "w" (λ _ _, "h") (λ c, blank_result (c_domain c) no_contact_info) sample_db 3%N 4 0).
  - apply sample_db_ok.
  - split; [eexists; by split|]. exists (sample_row 3 "a.com" 0). split_and!; [cbn; set_solver|done|done].
  - intros r Hr HJ. right. cbn in Hr. each_row Hr; done.
  - vm_compute. lia.
Defined.
