(* ===== verification/Csv.v ===== *)
(** * The csv module, as the sources use it

    [csv_line] is one record of [csv.writer(buf, lineterminator="\n")] (minimal quoting,
    doubled quotes); [read_records] is [list(csv.reader(...))] with the default dialect
    and a chosen delimiter, as a state machine over the characters of the text. *)

From Stdlib Require Import ZArith Lia Ascii.
From stdpp Require Import base strings option sets list.
From S2P Require Import Prelude PyStr.

Definition quote : ascii := ascii_of_nat 34.
Definition lf : ascii := ascii_of_nat 10.
Definition cr : ascii := ascii_of_nat 13.
Definition comma : ascii := ",".

(** ** Writing *)

Definition needs_quotes (c : ascii) : bool :=
  Ascii.eqb c comma || Ascii.eqb c quote || Ascii.eqb c lf.

(** The field between quotes, quotes doubled. *)
Fixpoint double_quotes (s : string) : string :=
  match s with
  | EmptyString => ""
  | String c s' =>
      if Ascii.eqb c quote then String quote (String quote (double_quotes s'))
      else String c (double_quotes s')
  end.

Definition quoted (s : string) : string :=
  String quote (double_quotes s +:+ String quote "").

Definition write_field (s : string) : string := if str_any needs_quotes s then quoted s else s.

(** A record of one empty field is written quoted, so that it is not an empty line. *)
Definition csv_line (values : list string) : string :=
  match values with
  | [v] => (if String.eqb v "" then quoted v else write_field v) +:+ String lf ""
  | _ => join (String comma "") (map write_field values) +:+ String lf ""
  end.

(** ** Reading *)

Inductive RState := START_RECORD | START_FIELD | IN_FIELD | IN_QUOTED_FIELD
  | QUOTE_IN_QUOTED_FIELD | EAT_CRNL.

#[export] Instance RState_eq_dec : EqDecision RState.
Proof. solve_decision. Defined.

(** The reader's state: the records read (last first), the current record's fields (last
    first) and the current field's characters (last first). *)
Record Reader := mkReader {
  rd_state : RState;
  rd_records : list (list string);
  rd_fields : list string;
  rd_field : string
}.

Definition reader0 : Reader := mkReader START_RECORD [] [] "".

Definition end_field (r : Reader) (s : RState) : Reader :=
  mkReader s (rd_records r) (str_rev (rd_field r) :: rd_fields r) "".

Definition end_record (r : Reader) (s : RState) : Reader :=
  let r' := end_field r s in mkReader s (rev (rd_fields r') :: rd_records r') [] "".

Definition add_char (r : Reader) (c : ascii) (s : RState) : Reader :=
  mkReader s (rd_records r) (rd_fields r) (String c (rd_field r)).

Definition set_state (r : Reader) (s : RState) : Reader :=
  mkReader s (rd_records r) (rd_fields r) (rd_field r).

Definition newline (c : ascii) : bool := Ascii.eqb c lf || Ascii.eqb c cr.

(** A carriage return ends the record and may be followed by the line feed of the same
    line; an empty line is an empty record. *)
Definition after_newline (c : ascii) : RState := if Ascii.eqb c cr then EAT_CRNL else START_RECORD.

Definition step_field (delim : ascii) (r : Reader) (c : ascii) : Reader :=
  if newline c then end_record r (after_newline c)
  else if Ascii.eqb c delim then end_field r START_FIELD
  else add_char r c IN_FIELD.

Definition step_start_field (delim : ascii) (r : Reader) (c : ascii) : Reader :=
  if Ascii.eqb c quote then set_state r IN_QUOTED_FIELD else step_field delim r c.

Definition step_start_record (delim : ascii) (r : Reader) (c : ascii) : Reader :=
  if newline c then mkReader (after_newline c) ([] :: rd_records r) [] ""
  else step_start_field delim r c.

Definition read_char (delim : ascii) (r : Reader) (c : ascii) : Reader :=
  match rd_state r with
  | START_RECORD => step_start_record delim r c
  | START_FIELD => step_start_field delim r c
  | IN_FIELD => step_field delim r c
  | IN_QUOTED_FIELD =>
      if Ascii.eqb c quote then set_state r QUOTE_IN_QUOTED_FIELD else add_char r c IN_QUOTED_FIELD
  | QUOTE_IN_QUOTED_FIELD =>
      if Ascii.eqb c quote then add_char r c IN_QUOTED_FIELD else step_field delim r c
  | EAT_CRNL => if Ascii.eqb c lf then set_state r START_RECORD else step_start_record delim r c
  end.

Fixpoint read_chars (delim : ascii) (r : Reader) (s : string) : Reader :=
  match s with EmptyString => r | String c s' => read_chars delim (read_char delim r c) s' end.

(** At the end of the text an unfinished record is completed. *)
Definition read_records (delim : ascii) (s : string) : list (list string) :=
  let r := read_chars delim reader0 s in
  rev (rd_records (match rd_state r with
                   | START_RECORD | EAT_CRNL => r
                   | _ => end_record r START_RECORD
                   end)).

(** ** Lemmas *)

Lemma read_chars_app delim r s t :
  read_chars delim r (s +:+ t) = read_chars delim (read_chars delim r s) t.
Proof. revert r. induction s as [|c s IH]; intros r; cbn; [done|]. apply IH. Qed.

(** ** Reading back what was written *)

(** The states in which a field has just been read, and how the field stands. *)
Definition at_field_end (s : RState) (r : Reader) (recs : list (list string)) (fs : list string)
    (v : string) : Prop :=
  rd_records r = recs ∧ rd_fields r = fs ∧ rd_field r = str_rev v ∧
  (rd_state r = IN_FIELD ∨ rd_state r = QUOTE_IN_QUOTED_FIELD ∨ (rd_state r = s ∧ v = "")).

Definition plain_char (c : ascii) : bool := negb (needs_quotes c) && negb (Ascii.eqb c cr).

Lemma step_field_plain r c : plain_char c = true → step_field comma r c = add_char r c IN_FIELD.
Proof.
  unfold plain_char, needs_quotes, step_field, newline. intros H. bool_to_prop.
  destruct (Ascii.eqb c comma), (Ascii.eqb c quote), (Ascii.eqb c lf), (Ascii.eqb c cr); done.
Qed.

Lemma plain_not_quote c : plain_char c = true → Ascii.eqb c quote = false ∧ newline c = false.
Proof.
  unfold plain_char, needs_quotes, newline. intros H. bool_to_prop.
  destruct (Ascii.eqb c comma), (Ascii.eqb c quote), (Ascii.eqb c lf), (Ascii.eqb c cr); done.
Qed.

Lemma read_plain_tail recs fs v f :
  str_all plain_char v = true →
  read_chars comma (mkReader IN_FIELD recs fs f) v = mkReader IN_FIELD recs fs (str_rev v +:+ f).
Proof.
  revert f. induction v as [|c v IH]; intros f H; [done|]. cbn in H.
  apply andb_true_iff in H as [Hc Hv]. cbn [read_chars]. unfold read_char. cbn [rd_state].
  rewrite step_field_plain by done. unfold add_char. cbn.
  rewrite IH by done. by rewrite str_rev_cons, app_assoc_str.
Qed.

Lemma read_plain_field s recs fs v :
  s = START_FIELD ∨ s = START_RECORD → str_all plain_char v = true →
  at_field_end s (read_chars comma (mkReader s recs fs "") v) recs fs v.
Proof.
  intros Hs H. destruct v as [|c v].
  - unfold at_field_end. cbn. naive_solver.
  - cbn in H. apply andb_true_iff in H as [Hc Hv]. destruct (plain_not_quote c Hc) as [Hq Hn].
    assert (read_char comma (mkReader s recs fs "") c = mkReader IN_FIELD recs fs (String c ""))
      as E.
    { unfold read_char. cbn [rd_state].
      destruct Hs as [->| ->]; unfold step_start_record, step_start_field; rewrite ?Hq, ?Hn;
        by rewrite step_field_plain. }
    cbn [read_chars]. rewrite E, read_plain_tail by done.
    unfold at_field_end. cbn. rewrite str_rev_cons. naive_solver.
Qed.

Lemma read_doubled recs fs v f :
  read_chars comma (mkReader IN_QUOTED_FIELD recs fs f) (double_quotes v) =
  mkReader IN_QUOTED_FIELD recs fs (str_rev v +:+ f).
Proof.
  revert f. induction v as [|c v IH]; intros f; [done|]. cbn [double_quotes].
  destruct (Ascii.eqb c quote) eqn:E; cbn [read_chars]; unfold read_char; cbn [rd_state];
    rewrite ?E, ?Ascii.eqb_refl; cbn [rd_state set_state add_char]; rewrite ?Ascii.eqb_refl;
    unfold set_state, add_char; cbn [rd_state rd_records rd_fields rd_field].
  - apply Ascii.eqb_eq in E as ->. rewrite IH. by rewrite str_rev_cons, app_assoc_str.
  - rewrite IH. by rewrite str_rev_cons, app_assoc_str.
Qed.

Lemma read_quoted s recs fs v :
  s = START_FIELD ∨ s = START_RECORD →
  at_field_end s (read_chars comma (mkReader s recs fs "") (quoted v)) recs fs v.
Proof.
  intros Hs. unfold quoted. cbn [read_chars].
  assert (read_char comma (mkReader s recs fs "") quote = mkReader IN_QUOTED_FIELD recs fs "") as ->.
  { by destruct Hs as [->| ->]. }
  rewrite read_chars_app, read_doubled, app_nil_str. unfold at_field_end. cbn. naive_solver.
Qed.

Lemma unquoted_plain v :
  str_any needs_quotes v = false → has_char cr v = false → str_all plain_char v = true.
Proof.
  unfold has_char. induction v as [|c v IH]; [done|]. cbn. intros H1 H2.
  apply orb_false_iff in H1 as [H1 H1'], H2 as [H2 H2']. rewrite IH by done.
  unfold plain_char. rewrite H1. rewrite Ascii.eqb_sym in H2. by rewrite H2.
Qed.

Lemma read_field s recs fs v :
  s = START_FIELD ∨ s = START_RECORD → has_char cr v = false →
  at_field_end s (read_chars comma (mkReader s recs fs "") (write_field v)) recs fs v.
Proof.
  intros Hs Hv. unfold write_field. destruct (str_any needs_quotes v) eqn:E.
  - by apply read_quoted.
  - apply read_plain_field; [done|]. by apply unquoted_plain.
Qed.

Lemma at_end_comma s r recs fs v :
  s = START_FIELD ∨ s = START_RECORD → at_field_end s r recs fs v →
  read_char comma r comma = mkReader START_FIELD recs (v :: fs) "".
Proof.
  intros Hs0 (<- & <- & Hf & Hs). destruct r as [s' rc fc f]. cbn in *. subst f.
  unfold read_char, step_start_record, step_start_field, step_field, end_field.
  destruct Hs as [->|[->|[-> ->]]]; [| |destruct Hs0 as [->| ->]]; cbn;
    by rewrite ?str_rev_involutive.
Qed.

Lemma at_end_newline s r recs fs v :
  s = START_FIELD ∨ v ≠ "" → at_field_end s r recs fs v →
  read_char comma r lf = mkReader START_RECORD (rev (v :: fs) :: recs) [] "".
Proof.
  intros Hs0 (<- & <- & Hf & Hs). destruct r as [s' rc fc f]. cbn in *. subst f.
  unfold read_char, step_start_field, step_field, end_record, end_field.
  destruct Hs as [->|[->|[-> ->]]]; [| |destruct Hs0 as [->|]; [|done]]; cbn;
    by rewrite ?str_rev_involutive.
Qed.

Lemma at_end_quoted_newline s recs v :
  s = START_FIELD ∨ s = START_RECORD →
  read_chars comma (mkReader s recs [] "") (quoted v +:+ String lf "") =
  mkReader START_RECORD ([v] :: recs) [] "".
Proof.
  intros Hs. unfold quoted. cbn [String.append read_chars].
  assert (read_char comma (mkReader s recs [] "") quote = mkReader IN_QUOTED_FIELD recs [] "") as ->.
  { by destruct Hs as [->| ->]. }
  rewrite app_assoc_str, read_chars_app, read_doubled, app_nil_str.
  transitivity (mkReader START_RECORD ([str_rev (str_rev v)] :: recs) [] ""); [done|].
  by rewrite str_rev_involutive.
Qed.

(** The fields of a record of two fields or more, from the start of any field. *)
Lemma read_fields s recs fs v vs :
  s = START_FIELD ∨ s = START_RECORD →
  (∀ x, x ∈ v :: vs → has_char cr x = false) →
  (s = START_FIELD ∨ v ≠ "" ∨ vs ≠ []) →
  read_chars comma (mkReader s recs fs "")
    (join (String comma "") (map write_field (v :: vs)) +:+ String lf "") =
  mkReader START_RECORD ((rev fs ++ v :: vs) :: recs) [] "".
Proof.
  revert s fs v. induction vs as [|w vs IH]; intros s fs v Hs Hv Hne.
  - cbn [map join]. rewrite read_chars_app.
    pose proof (read_field s recs fs v Hs ltac:(set_solver)) as Hend.
    cbn [read_chars]. rewrite (at_end_newline s _ _ _ _ ltac:(naive_solver) Hend). done.
  - change (join (String comma "") (map write_field (v :: w :: vs)))
      with (write_field v +:+ String comma "" +:+ join (String comma "") (map write_field (w :: vs))).
    rewrite !app_assoc_str, read_chars_app.
    pose proof (read_field s recs fs v Hs ltac:(set_solver)) as Hend.
    cbn [String.append read_chars]. rewrite (at_end_comma s _ _ _ _ Hs Hend).
    rewrite IH; [cbn [rev]; by rewrite <- app_assoc|by left|set_solver|by left].
Qed.

Lemma read_csv_line recs values :
  (∀ x, x ∈ values → has_char cr x = false) →
  read_chars comma (mkReader START_RECORD recs [] "") (csv_line values) =
  mkReader START_RECORD (values :: recs) [] "".
Proof.
  intros Hv. destruct values as [|v [|w vs]].
  - done.
  - unfold csv_line. destruct (String.eqb_spec v "") as [->|Hne].
    + apply at_end_quoted_newline. by right.
    + apply (read_fields START_RECORD recs [] v []); [by right|done|by right; left].
  - unfold csv_line. apply (read_fields START_RECORD recs []); [by right|done|by right; right].
Qed.
