(* ===== verification/Jobs.v ===== *)
(** * Jobs: creation, counts, downloads ([src/app/jobs.py])

    [create_job] is one transaction; the counts are the aggregate queries over the job's
    rows; [stream_rows] walks the input rows with the bounded cache of parsed results. *)

From Stdlib Require Import ZArith QArith Qround Lia Ascii.
From stdpp Require Import base strings pretty option sets list.
From S2P Require Import Prelude PyStr Csv Sql Models Queue.

Definition EX_PREFIX : string := "ex_".
Definition PARSED_CACHE : nat := 2000.

Definition RESULT_FIELDS : list string := [
  "domain"; "final_domain"; "status"; "best_email"; "best_email_source"; "confidence";
  "needs_review"; "business_emails"; "all_emails"; "phones"; "contact_form_url";
  "facebook"; "instagram"; "linkedin"; "x"; "youtube"; "tiktok"; "yelp";
  "mx_provider"; "site_status"; "pages_fetched"; "error_reason"; "retrying"].

Definition SOCIAL_FIELDS : list string :=
  ["facebook"; "instagram"; "linkedin"; "x"; "youtube"; "tiktok"; "yelp"].

Record PreparedItem := mkPrepared {
  p_row_index : Z;
  p_input_value : string;
  p_domain : option string;
  p_status : option Status;
  p_reason : option string;
  p_domain_source : string;
  p_raw_row : list (string * string)
}.

(** The loop of [unique_domains]: input order, first occurrence kept. *)
Fixpoint unique_loop (seen out : list string) (items : list PreparedItem) : list string :=
  match items with
  | [] => out
  | it :: rest =>
      match p_domain it with
      | Some d => if nonempty d && negb (mem d seen) then unique_loop (d :: seen) (out ++ [d]) rest
                  else unique_loop seen out rest
      | None => unique_loop seen out rest
      end
  end.
Definition unique_domains (items : list PreparedItem) : list string := unique_loop [] [] items.

Definition cache_cutoff (cfg : Settings) (now : instant) : instant := (now - days (cache_days cfg))%Z.

(** ** Output rows *)

Definition status_str (s : Status) : string :=
  match s with
  | invalid_input => "invalid_input" | fetch_failed => "fetch_failed"
  | parked_or_for_sale => "parked_or_for_sale" | no_business_email => "no_business_email"
  | found => "found" | form_only => "form_only" | no_contact_info => "no_contact_info"
  end.

Definition source_str (s : option BestSource) : string :=
  match s with None => "" | Some src_typesafe => "typesafe" | Some src_rules => "rules" end.

Definition bool_str (b : bool) : string := if b then "true" else "false".

(** Rounding to the nearest integer, ties to even. *)
Definition round_half_even (q : Q) : Z :=
  let f := Qfloor q in
  let d := (q - inject_Z f)%Q in
  match Qcompare d (1 # 2) with
  | Lt => f
  | Gt => (f + 1)%Z
  | Eq => if Z.even f then f else (f + 1)%Z
  end.

Definition pad3 (n : Z) : string :=
  if Z.ltb n 10 then "00" +:+ pretty n else if Z.ltb n 100 then "0" +:+ pretty n else pretty n.

(** [f"{q:.3f}"]. *)
Definition format3 (q : Q) : string :=
  let n := round_half_even (q * inject_Z 1000) in
  let a := Z.abs n in
  (if Z.ltb n 0 then "-" else "") +:+ pretty (a / 1000)%Z +:+ "." +:+ pad3 (a mod 1000)%Z.

Definition or_blank (s : option string) : string := default "" s.

(** Python dict assignment: an existing key keeps its place. *)
Fixpoint dict_set {V} (d : list (string * V)) (k : string) (v : V) : list (string * V) :=
  match d with
  | [] => [(k, v)]
  | (k', v') :: d' => if String.eqb k' k then (k, v) :: d' else (k', v') :: dict_set d' k v
  end.

Definition result_cells (result : option DomainResult) (pending_domain : option string)
    (retrying : bool) : list (string * string) :=
  match result with
  | None =>
      [("domain", or_blank pending_domain); ("status", "pending"); ("retrying", bool_str retrying)]
  | Some r =>
      fold_left (λ cells n, dict_set cells n (or_blank (dict_get (r_socials r) n))) SOCIAL_FIELDS
      [ ("domain", r_domain r); ("final_domain", or_blank (r_final_domain r));
        ("status", status_str (r_status r)); ("best_email", or_blank (r_best_email r));
        ("best_email_source", source_str (r_best_email_source r));
        ("confidence", match r_confidence r with None => "" | Some q => format3 q end);
        ("needs_review", bool_str (r_needs_review r));
        ("business_emails", join ", " (r_business_emails r));
        ("all_emails", join ", " (map out_email (r_all_emails r)));
        ("phones", join ", " (r_phones r));
        ("contact_form_url", or_blank (r_contact_form_url r));
        ("mx_provider", or_blank (r_mx_provider r));
        ("site_status", or_blank (r_site_status r));
        ("pages_fetched", join ", " (r_pages_fetched r));
        ("error_reason", or_blank (r_error_reason r)); ("retrying", bool_str retrying)]
  end.

Definition FORMULA : list string := ["="; "+"; "-"; "@"; String (ascii_of_nat 9) ""; String cr ""].

Definition csv_safe (value : string) : string :=
  if startswith_any value FORMULA then "'" +:+ value else value.

Definition output_header (source_columns : list string) : list string :=
  map csv_safe source_columns ++ map (λ f, EX_PREFIX +:+ f) RESULT_FIELDS.

Definition output_row (source_columns : list string) (raw_row : list (string * string))
    (result : option DomainResult) (pending_domain : option string) (retrying : bool)
    : list string :=
  let cells := result_cells result pending_domain retrying in
  map (λ c, csv_safe (or_blank (dict_get raw_row c))) source_columns
  ++ map (λ f, csv_safe (or_blank (dict_get cells f))) RESULT_FIELDS.

(** ** Creating a job *)

(** [seq[i:i + n] for i in range(0, len(seq), n)], with the list's length as fuel. *)
Fixpoint chunks_fuel {A} (fuel : nat) (l : list A) (n : nat) : list (list A) :=
  match fuel, l with
  | O, _ | _, [] => []
  | S fuel', _ => take n l :: chunks_fuel fuel' (drop n l) n
  end.
Definition chunks {A} (l : list A) (n : nat) : list (list A) := chunks_fuel (length l) l n.

Definition item_row (job_id : uuid) (it : PreparedItem) : JobItem := {|
  ji_job_id := job_id; ji_row_index := p_row_index it; ji_input_value := p_input_value it;
  ji_domain := p_domain it; ji_status := p_status it; ji_reason := p_reason it;
  ji_domain_source := Some (p_domain_source it); ji_raw_row := p_raw_row it
|}.

(** A row of the queue with the table's defaults. *)
Definition new_row (now : instant) (job_id : uuid) (seq : Z) (d : string) : JobDomain := {|
  jd_job_id := job_id; jd_domain := d; jd_seq := seq; jd_state := st_queued; jd_attempts := 0;
  jd_available_at := now; jd_claimed_by := None; jd_heartbeat_at := None; jd_finished_at := None;
  jd_from_cache := false; jd_jina_tokens := 0; jd_status := None; jd_result := None;
  jd_needs_review := false; jd_typesafe_called := false; jd_has_phone := false;
  jd_has_form := false; jd_has_linkedin := false; jd_requeued_at := None
|}.

Fixpoint rows_from (now : instant) (job_id : uuid) (seq : Z) (ds : list string) : list JobDomain :=
  match ds with
  | [] => []
  | d :: ds' => new_row now job_id seq d :: rows_from now job_id (seq + 1) ds'
  end.

(** The insert loop: [seq] starts at 0 and advances by each chunk's length. *)
Fixpoint insert_chunks (now : instant) (job_id : uuid) (seq : Z) (cs : list (list string))
    : list JobDomain :=
  match cs with
  | [] => []
  | chunk :: cs' =>
      rows_from now job_id seq chunk
      ++ insert_chunks now job_id (seq + Z.of_nat (length chunk)) cs'
  end.

Record NewJob := mkNewJob {
  n_source_columns : list string;
  n_filename : option string;
  n_website_column : option string;
  n_webhook_url : option string;
  n_fresh : bool;
  n_owner_id : option uuid;
  n_idempotency_key : option string;
  n_idempotency_fingerprint : option string
}.

Definition job_row (now : instant) (job_id : uuid) (total : Z) (status : JobStatus)
    (finished_at : option instant) (a : NewJob) : Job := {|
  j_id := job_id; j_created_at := now; j_finished_at := finished_at; j_status := status;
  j_total := total; j_done_count := 0; j_webhook_url := n_webhook_url a;
  j_filename := n_filename a; j_columns := n_source_columns a;
  j_website_column := n_website_column a; j_pause_reason := None; j_paused_at := None;
  j_started_at := None; j_paused_seconds := 0; j_idempotency_key := n_idempotency_key a;
  j_idempotency_fingerprint := n_idempotency_fingerprint a; j_owner_id := n_owner_id a;
  j_fresh := n_fresh a
|}.

(** A cached answer the new job would reuse. *)
Definition cached_domain (cfg : Settings) (now : instant) (ds : list string) (d : Domain) : bool :=
  mem (d_domain d) ds
  && match d_finished_at d with Some f => Z.leb (cache_cutoff cfg now) f | None => false end
  && match d_status d with Some s => negb (bool_decide (s = fetch_failed)) | None => false end.

(** Returns (job, domains_to_run, cached_domains). *)
Definition create_job (cfg : Settings) (db : DB) (now : instant) (job_id : uuid)
    (items : list PreparedItem) (a : NewJob) : (Job * list string * list string) * DB :=
  let ds := unique_domains items in
  let cached := match ds with
                | [] => []
                | _ => if n_fresh a then []
                       else map d_domain (keep (cached_domain cfg now ds) (domains db))
                end in
  let total := Z.of_nat (length items) in
  let job := match ds with
             | [] => job_row now job_id total job_done (Some now) a
             | _ => job_row now job_id total job_queued None a
             end in
  ((job, keep (λ d, negb (mem d cached)) ds, cached),
   {| jobs := jobs db ++ [job];
      job_items := job_items db ++ concat (map (map (item_row job_id)) (chunks items 2000));
      domains := fold_left (λ t d, ensure_domain now d t) (concat (chunks ds 1000)) (domains db);
      job_domains := job_domains db ++ insert_chunks now job_id 0 (chunks ds 1000) |}).

(** ** Counts *)

Record Counts := mkCounts {
  k_total : Z; k_invalid_rows : Z; k_empty_rows : Z;
  k_by_status : list (Status * Z);
  k_needs_review : Z; k_typesafe_calls : Z; k_tokens_per_domain : Z;
  k_phones : Z; k_contact_forms : Z; k_linkedin : Z;
  k_unique_domains : Z; k_done : Z; k_running : Z; k_retrying : Z; k_failed : Z; k_found : Z;
  k_cached : Z; k_jina_tokens : Z; k_hit_rate_so_far : Q
}.

Definition ALL_STATUSES : list Status :=
  [invalid_input; fetch_failed; parked_or_for_sale; no_business_email; found; form_only;
   no_contact_info].

Definition zcount {A} (p : A → bool) (l : list A) : Z := Z.of_nat (count p l).

Definition done_with (s : Status) (r : JobDomain) : bool :=
  state_is st_done r && null_eq (jd_status r) s.

(** [SELECT status, count( * ) ... GROUP BY status]: one entry per status that occurs. *)
Definition BY_STATUS (rows : list JobDomain) : list (Status * Z) :=
  keep (λ p, Z.ltb 0 (snd p)) (map (λ s, (s, zcount (done_with s) rows)) ALL_STATUSES).

Definition sum_tokens (rows : list JobDomain) : Z :=
  foldr (λ r acc, (jd_jina_tokens r + acc)%Z) 0%Z rows.

Definition job_counts (db : DB) (job_id : uuid) : Counts :=
  let items := keep (λ it, bool_decide (ji_job_id it = job_id)) (job_items db) in
  let rows := keep (of_job job_id) (job_domains db) in
  let n p := zcount p rows in
  let done := n (state_is st_done) in
  let fetched := n (λ r, state_is st_done r && negb (jd_from_cache r)
                         && Z.ltb 0 (jd_jina_tokens r)) in
  {| k_total := Z.of_nat (length items);
     k_invalid_rows := zcount (λ it, null_eq (ji_status it) invalid_input) items;
     k_empty_rows := zcount (λ it, null_eq (ji_reason it) "empty") items;
     k_by_status := BY_STATUS rows;
     k_needs_review := n jd_needs_review;
     k_typesafe_calls := n jd_typesafe_called;
     k_tokens_per_domain :=
       if Z.eqb fetched 0 then 0%Z
       else round_half_even (inject_Z (sum_tokens rows) / inject_Z fetched);
     k_phones := n jd_has_phone; k_contact_forms := n jd_has_form; k_linkedin := n jd_has_linkedin;
     k_unique_domains := Z.of_nat (length rows);
     k_done := done;
     k_running := n (state_is st_running);
     k_retrying := n (λ r, state_is st_queued r && Z.ltb 0 (jd_attempts r));
     k_failed := n (done_with fetch_failed);
     k_found := n (done_with found);
     k_cached := n jd_from_cache;
     k_jina_tokens := sum_tokens rows;
     k_hit_rate_so_far :=
       if Z.eqb done 0 then 0 else inject_Z (n (done_with found)) / inject_Z done |}.

(** ** Streaming a download *)

(** The result of an input row that never reached the queue. *)
Definition invalid_result (it : JobItem) : DomainResult :=
  let d := match ji_domain it with
           | Some d => if nonempty d then d else ""
           | None => ""
           end in
  let d := if nonempty d then d
           else let v := str_take 255 (ji_input_value it) in if nonempty v then v else "-" in
  let r := blank_result d invalid_input in
  {| r_domain := r_domain r; r_final_domain := None; r_status := invalid_input;
     r_best_email := None; r_best_email_source := None; r_confidence := None;
     r_needs_review := false; r_business_emails := []; r_all_emails := []; r_phones := [];
     r_socials := []; r_contact_form_url := None; r_mx_provider := None; r_site_status := None;
     r_pages_fetched := []; r_jina_tokens := 0; r_typesafe_called := false;
     r_typesafe_error := false; r_error_reason := ji_reason it |}.

(** The outer join of an input row with the job's queue row. *)
Definition joined (db : DB) (it : JobItem) : option JobDomain :=
  match ji_domain it with
  | Some d => find_row jd_key (ji_job_id it, d) (job_domains db)
  | None => None
  end.

(** The stored document, when the row is done and has one. *)
Definition finished_raw (row : option JobDomain) : option Stored :=
  match row with
  | Some r =>
      if state_is st_done r
      then match jd_result r with
           | Some raw => if stored_truthy raw then Some raw else None
           | None => None
           end
      else None
  | None => None
  end.

(** The bounded cache of parsed results, least recently used first. *)
Abbreviation parsed_cache := (list (string * option DomainResult)).

Definition move_to_end (k : string) (d : parsed_cache) : parsed_cache :=
  keep (λ p, negb (String.eqb (fst p) k)) d ++ keep (λ p, String.eqb (fst p) k) d.

Definition remember (k : string) (v : option DomainResult) (d : parsed_cache) : parsed_cache :=
  let d' := dict_set d k v in
  if Nat.ltb PARSED_CACHE (length d') then tail d' else d'.

Definition parse_cached (parsed : parsed_cache) (k : string) (raw : Stored)
    : option DomainResult * parsed_cache :=
  match dict_get parsed k with
  | Some r => (r, move_to_end k parsed)
  | None => let r := model_validate raw in (r, remember k r parsed)
  end.

Definition or_invalid (it : JobItem) (result : option DomainResult) : option DomainResult :=
  match result with
  | Some r => Some r
  | None => if null_eq (ji_status it) invalid_input then Some (invalid_result it) else None
  end.

Definition is_retrying (result : option DomainResult) (row : option JobDomain) : bool :=
  is_null result
  && match row with Some r => state_is st_queued r && Z.ltb 0 (jd_attempts r) | None => false end.

(** (raw_row, result, pending_domain, retrying) *)
Definition StreamRow : Type :=
  (list (string * string) * option DomainResult * option string * bool)%type.

Definition stream_row (parsed : parsed_cache) (db : DB) (it : JobItem) : StreamRow * parsed_cache :=
  let row := joined db it in
  let '(result, parsed') :=
    match finished_raw row, ji_domain it with
    | Some raw, Some d => parse_cached parsed d raw
    | _, _ => (None, parsed)
    end in
  let result := or_invalid it result in
  ((ji_raw_row it, result, ji_domain it, is_retrying result row), parsed').

Fixpoint stream_loop (parsed : parsed_cache) (db : DB) (items : list JobItem) : list StreamRow :=
  match items with
  | [] => []
  | it :: rest => let '(out, parsed') := stream_row parsed db it in out :: stream_loop parsed' db rest
  end.

Definition job_items_of (db : DB) (job_id : uuid) : list JobItem :=
  order_by cmp_index (keep (λ it, bool_decide (ji_job_id it = job_id)) (job_items db)).

Definition stream_rows (db : DB) (job_id : uuid) : list StreamRow :=
  stream_loop [] db (job_items_of db job_id).

(** The whole download after its byte order mark: the header line and one line per input
    row. *)
Definition results_csv (db : DB) (job : Job) : list string :=
  let columns := match j_columns job with [] => ["website"] | cs => cs end in
  csv_line (output_header columns)
  :: map (λ '(raw_row, result, pending, retrying),
            csv_line (output_row columns raw_row result pending retrying))
         (stream_rows db (j_id job)).

(** ** The specification of a download: each row parsed on its own *)

Definition spec_row (db : DB) (it : JobItem) : StreamRow :=
  let row := joined db it in
  let result := or_invalid it (finished_raw row ≫= model_validate) in
  (ji_raw_row it, result, ji_domain it, is_retrying result row).

(** ** Lemmas *)

Section unique.
Implicit Types items : list PreparedItem.

Definition usable (it : PreparedItem) (d : string) : Prop := p_domain it = Some d ∧ d ≠ "".

Lemma unique_loop_spec items seen out :
  NoDup out → (∀ d, d ∈ seen ↔ d ∈ out) →
  NoDup (unique_loop seen out items) ∧
  (∀ d, d ∈ unique_loop seen out items ↔ d ∈ out ∨ ∃ it, it ∈ items ∧ usable it d) ∧
  out `prefix_of` unique_loop seen out items.
Proof.
  revert seen out. induction items as [|it items IH]; intros seen out Hn Hs; cbn.
  { split; [done|]. split; [set_solver|done]. }
  destruct (p_domain it) as [d|] eqn:Ed.
  - destruct (nonempty d && negb (mem d seen)) eqn:E.
    + bool_to_prop. apply mem_false in H0. unfold nonempty in H. bool_to_prop.
      destruct (IH (d :: seen) (out ++ [d])) as (I1 & I2 & I3).
      * apply NoDup_app. split; [done|]. split; [|by apply NoDup_singleton]. set_solver.
      * set_solver.
      * split; [done|]. split; [|by eapply prefix_app_l].
        intros x. rewrite I2. unfold usable. split.
        -- intros [[?|Hx]%elem_of_app|(it0 & ? & ?)]; [by left| |by right; exists it0; set_solver].
           apply list_elem_of_singleton in Hx as ->. right. exists it. set_solver.
        -- intros [?|(it0 & Hin & Hu)]; [by left; set_solver|].
           apply elem_of_cons in Hin as [->|Hin]; [|by right; exists it0].
           left. destruct Hu. assert (x = d) as -> by congruence. set_solver.
    + destruct (IH seen out Hn Hs) as (I1 & I2 & I3). split; [done|]. split; [|done].
      intros x. rewrite I2. split.
      * intros [?|(it0 & ? & ?)]; [by left|by right; exists it0; set_solver].
      * intros [?|(it0 & Hin & Hu)]; [by left|].
        apply elem_of_cons in Hin as [->|Hin]; [|by right; exists it0].
        left. destruct Hu as [Hu1 Hu2]. assert (x = d) as -> by congruence.
        apply Hs. apply andb_false_iff in E as [E|E]; unfold nonempty in E; bool_to_prop; [done|].
        by apply mem_true.
  - destruct (IH seen out Hn Hs) as (I1 & I2 & I3). split; [done|]. split; [|done].
    intros x. rewrite I2. split.
    + intros [?|(it0 & ? & ?)]; [by left|by right; exists it0; set_solver].
    + intros [?|(it0 & Hin & [Hu1 Hu2])]; [by left|].
      apply elem_of_cons in Hin as [->|Hin]; [congruence|by right; exists it0].
Qed.

Lemma NoDup_unique_domains items : NoDup (unique_domains items).
Proof. by apply unique_loop_spec; [constructor|]. Qed.

Lemma elem_of_unique_domains items d :
  d ∈ unique_domains items ↔ ∃ it, it ∈ items ∧ usable it d.
Proof.
  unfold unique_domains. destruct (unique_loop_spec items [] []) as (_ & -> & _); [constructor|done|].
  set_solver.
Qed.
End unique.
