(* ===== verification/JobsProps.v ===== *)
(** * Properties of jobs

    Creation keeps the queue's invariant and queues each domain once in input order; the
    download is the specification's whatever the bounded cache does, keeps its columns,
    and holds no cell a spreadsheet would run as a formula. *)

From Stdlib Require Import ZArith QArith Lia Ascii.
From stdpp Require Import base strings pretty option sets list.
From S2P Require Import Prelude PyStr Csv Sql Models Queue QueueInv Jobs.

(** ** Chunks *)

Lemma concat_chunks_fuel {A} fuel (l : list A) n :
  (0 < n)%nat → (length l ≤ fuel)%nat → concat (chunks_fuel fuel l n) = l.
Proof.
  intros Hn. revert l. induction fuel as [|fuel IH]; intros l Hl.
  - by destruct l; [|cbn in Hl; lia].
  - destruct l as [|x l]; [done|]. cbn [chunks_fuel concat].
    rewrite IH; [apply take_drop|]. rewrite length_drop. cbn in *. lia.
Qed.

Lemma concat_chunks {A} (l : list A) n : (0 < n)%nat → concat (chunks l n) = l.
Proof. intros Hn. by apply concat_chunks_fuel. Qed.

Lemma chunks_fuel_bound {A} fuel (l : list A) n c :
  c ∈ chunks_fuel fuel l n → (length c ≤ n)%nat.
Proof.
  revert l. induction fuel as [|fuel IH]; intros l; cbn; [by destruct l; set_solver|].
  destruct l; [set_solver|]. intros [->|H]%elem_of_cons; [|by eapply IH].
  rewrite length_take. lia.
Qed.

Lemma rows_from_app now j seq l k :
  rows_from now j seq (l ++ k) = rows_from now j seq l ++ rows_from now j (seq + Z.of_nat (length l)) k.
Proof.
  revert seq. induction l as [|d l IH]; intros seq; cbn [app rows_from length].
  - by rewrite Z.add_0_r.
  - rewrite IH. cbn. do 2 f_equal. f_equal. lia.
Qed.

Lemma insert_chunks_concat now j seq cs :
  insert_chunks now j seq cs = rows_from now j seq (concat cs).
Proof.
  revert seq. induction cs as [|c cs IH]; intros seq; cbn; [done|].
  by rewrite IH, rows_from_app.
Qed.

Lemma rows_from_lookup now j seq ds i d :
  ds !! i = Some d → rows_from now j seq ds !! i = Some (new_row now j (seq + Z.of_nat i) d).
Proof.
  revert seq i. induction ds as [|x ds IH]; intros seq [|i]; cbn; try done.
  - intros [= ->]. by rewrite Z.add_0_r.
  - intros H. rewrite (IH _ _ H). do 2 f_equal. lia.
Qed.

Lemma elem_of_rows_from now j seq ds r :
  r ∈ rows_from now j seq ds → ∃ k d, d ∈ ds ∧ r = new_row now j k d.
Proof.
  revert seq. induction ds as [|d ds IH]; intros seq; cbn; [set_solver|].
  intros [->|H]%elem_of_cons; [exists seq, d; set_solver|].
  destruct (IH _ H) as (k & d' & ? & ->). exists k, d'. set_solver.
Qed.

Lemma keys_rows_from now j seq ds : map jd_key (rows_from now j seq ds) = map (pair j) ds.
Proof. revert seq. induction ds as [|d ds IH]; intros seq; cbn; [done|]. by rewrite IH. Qed.

(** ** Creation keeps the invariant *)

Lemma ensure_domains_ok issued db now ds :
  db_ok issued db →
  db_ok issued (with_domains db (fold_left (λ t d, ensure_domain now d t) ds (domains db))).
Proof.
  revert db. induction ds as [|d ds IH]; intros db H; cbn; [by destruct db|].
  apply (IH (with_domains db (ensure_domain now d (domains db)))). by apply ensure_domain_ok.
Qed.

(** Rows of a job that did not exist before. *)
Lemma db_ok_new_job issued db now job items ds :
  db_ok issued db → NoDup ds → (∀ j, j ∈ jobs db → j_id j ≠ j_id job) →
  (j_status job = job_done → ds = []) →
  db_ok issued {| jobs := jobs db ++ [job]; job_items := items; domains := domains db;
                  job_domains := job_domains db ++ rows_from now (j_id job) 0 ds |}.
Proof.
  intros H Hn Hfresh Hdone.
  assert (∀ r, r ∈ job_domains db → jd_job_id r ≠ j_id job) as Hold.
  { intros r Hr E. destruct (db_fk _ _ H r Hr) as (j & Hj & Ej). apply (Hfresh j Hj). congruence. }
  split; cbn; try apply H.
  - apply Forall_app. split; [apply H|]. apply Forall_forall.
    intros r (k & d & _ & ->)%elem_of_rows_from. by split.
  - rewrite map_app, keys_rows_from. apply NoDup_app. split; [apply H|]. split.
    + intros k (r & <- & Hr)%list_elem_of_In%in_map_iff Hk. apply list_elem_of_In in Hr.
      apply list_elem_of_In, in_map_iff in Hk as (d & E & _). unfold jd_key in E.
      apply (Hold r Hr). congruence.
    + apply NoDup_ListNoDup, Finite.Injective_map_NoDup; [by intros ? ? [= ->]|].
      by apply NoDup_ListNoDup.
  - rewrite map_app. apply NoDup_app. split; [apply H|]. split; [|by apply NoDup_singleton].
    intros k (j & <- & Hj)%list_elem_of_In%in_map_iff Hk%list_elem_of_singleton.
    by apply (Hfresh j); [apply list_elem_of_In|].
  - intros r [Hr|Hr]%elem_of_app.
    + destruct (db_fk _ _ H r Hr) as (j & Hj & E). exists j. set_solver.
    + apply elem_of_rows_from in Hr as (k & d & _ & ->). exists job. set_solver.
  - intros r1 r2 k H1 H2 E1 E2.
    apply elem_of_app in H1 as [H1|(?&?&_&->)%elem_of_rows_from]; [|done].
    apply elem_of_app in H2 as [H2|(?&?&_&->)%elem_of_rows_from]; [|done].
    by apply (db_tokens_unique _ _ H r1 r2 k).
  - pose proof (db_tokens_in _ _ H) as [T1 T2]. split; [|done]. cbn. intros r t Hr E.
    apply elem_of_app in Hr as [Hr|(?&?&_&->)%elem_of_rows_from]; [|done]. by apply (T1 r).
  - intros j r Hj Hs Hr Hid.
    apply elem_of_app in Hj as [Hj|Hj], Hr as [Hr|Hr].
    + by apply (db_done _ _ H j r).
    + apply elem_of_rows_from in Hr as (?&?&_&->). by destruct (Hfresh j Hj).
    + apply list_elem_of_singleton in Hj as ->. by destruct (Hold r Hr).
    + apply list_elem_of_singleton in Hj as ->. rewrite Hdone in Hr by done. set_solver.
Qed.

Lemma create_job_ok cfg issued db now job_id items a :
  db_ok issued db → (∀ j, j ∈ jobs db → j_id j ≠ job_id) →
  db_ok issued (create_job cfg db now job_id items a).2.
Proof.
  intros H Hf. unfold create_job. cbn.
  set (ds := unique_domains items).
  rewrite insert_chunks_concat, !concat_chunks by lia.
  pose proof (ensure_domains_ok issued db now ds H) as H1.
  pose proof (NoDup_unique_domains items) as Hn. fold ds in Hn.
  destruct ds as [|d ds'] eqn:Eds; [|rewrite <- Eds in *].
  - apply (db_ok_new_job issued _ now
             (job_row now job_id (Z.of_nat (length items)) job_done (Some now) a)
             (job_items db ++ concat (map (map (item_row job_id)) (chunks items 2000))) [] H1);
      [constructor|done|done].
  - apply (db_ok_new_job issued _ now
             (job_row now job_id (Z.of_nat (length items)) job_queued None a)
             (job_items db ++ concat (map (map (item_row job_id)) (chunks items 2000))) ds H1);
      [done|done|done].
Qed.

(** ** The bounded cache never changes a download *)

Lemma dict_get_set {V} (d : list (string * V)) k v j :
  dict_get (dict_set d k v) j = if String.eqb k j then Some v else dict_get d j.
Proof.
  unfold dict_get. induction d as [|[k' v'] d IH]; cbn.
  - by destruct (String.eqb k j).
  - destruct (String.eqb_spec k' k) as [->|Hne]; cbn.
    + by destruct (String.eqb k j).
    + destruct (String.eqb_spec k' j) as [->|]; cbn; [|exact IH].
      by destruct (String.eqb_spec k j) as [->|].
Qed.

Lemma dict_get_elem {V} (d : list (string * V)) k v : dict_get d k = Some v → (k, v) ∈ d.
Proof.
  unfold dict_get. destruct (keep _ d) as [|[k' v'] l] eqn:E; cbn; [done|]. intros [= ->].
  assert ((k', v) ∈ keep (λ p, String.eqb p.1 k) d) as [? Hk]%elem_of_keep by (rewrite E; set_solver).
  cbn in Hk. by apply String.eqb_eq in Hk as ->.
Qed.

Lemma elem_of_dict_set {V} (d : list (string * V)) k v p :
  p ∈ dict_set d k v → p ∈ d ∨ p = (k, v).
Proof.
  induction d as [|[k' v'] d IH]; cbn; [set_solver|]. break; [set_solver|].
  intros [->|H]%elem_of_cons; [set_solver|]. destruct (IH H); set_solver.
Qed.

Lemma elem_of_tail {A} (l : list A) x : x ∈ tail l → x ∈ l.
Proof. destruct l; set_solver. Qed.

Lemma elem_of_remember k v d p : p ∈ remember k v d → p ∈ d ∨ p = (k, v).
Proof. unfold remember. break; [intros H%elem_of_tail|]; by apply elem_of_dict_set. Qed.

Lemma elem_of_move_to_end k d p : p ∈ move_to_end k d → p ∈ d.
Proof. unfold move_to_end. by intros [[? _]%elem_of_keep|[? _]%elem_of_keep]%elem_of_app. Qed.

(** Every entry of the cache is what parsing the row's document again would give. *)
Definition cache_sound (db : DB) (job_id : uuid) (parsed : parsed_cache) : Prop :=
  ∀ k v, (k, v) ∈ parsed → ∀ raw,
    finished_raw (find_row jd_key (job_id, k) (job_domains db)) = Some raw → v = model_validate raw.

Lemma parse_cached_sound db job_id parsed k raw :
  cache_sound db job_id parsed →
  finished_raw (find_row jd_key (job_id, k) (job_domains db)) = Some raw →
  (parse_cached parsed k raw).1 = model_validate raw ∧
  cache_sound db job_id (parse_cached parsed k raw).2.
Proof.
  intros Hs Hr. unfold parse_cached. destruct (dict_get parsed k) as [v|] eqn:E; cbn.
  - split; [by apply (Hs k); [apply dict_get_elem|]|].
    intros k' v' Hin%elem_of_move_to_end. by apply Hs.
  - split; [done|]. intros k' v' [Hin|[= -> ->]]%elem_of_remember raw' Hr'; [by apply (Hs k')|].
    congruence.
Qed.

Lemma stream_row_sound db job_id parsed it :
  ji_job_id it = job_id → cache_sound db job_id parsed →
  (stream_row parsed db it).1 = spec_row db it ∧
  cache_sound db job_id (stream_row parsed db it).2.
Proof.
  intros Hj Hs. unfold stream_row, spec_row, joined. rewrite Hj.
  destruct (ji_domain it) as [d|] eqn:Ed; [|done].
  destruct (finished_raw (find_row jd_key (job_id, d) (job_domains db))) as [raw|] eqn:Er; [|done].
  destruct (parse_cached_sound db job_id parsed d raw Hs Er) as [E1 E2].
  destruct (parse_cached parsed d raw) as [res parsed'] eqn:Ep. cbn in *. subst res. done.
Qed.

Lemma stream_loop_sound db job_id items parsed :
  (∀ it, it ∈ items → ji_job_id it = job_id) → cache_sound db job_id parsed →
  stream_loop parsed db items = map (spec_row db) items.
Proof.
  revert parsed. induction items as [|it items IH]; intros parsed Hj Hs; [done|]. cbn.
  destruct (stream_row_sound db job_id parsed it ltac:(set_solver) Hs) as [E1 E2].
  destruct (stream_row parsed db it) as [out parsed']. cbn in *. subst.
  rewrite (IH parsed'); [done|set_solver|done].
Qed.

Lemma job_items_of_job db job_id it : it ∈ job_items_of db job_id → ji_job_id it = job_id.
Proof. intros [_ H]%elem_of_sort_by%elem_of_keep. by apply bool_decide_eq_true in H. Qed.

(** The download does not depend on the bounded cache of parsed results: whatever it holds
    or evicts, [stream_rows] gives every input row, in row order, exactly the row obtained by
    parsing the job's own stored result for it alone. *)
Lemma stream_rows_spec db job_id :
  stream_rows db job_id = map (spec_row db) (job_items_of db job_id).
Proof.
  apply stream_loop_sound with job_id; [apply job_items_of_job|]. unfold cache_sound. set_solver.
Qed.

(** ** Cells *)

Lemma csv_safe_ok v : startswith_any (csv_safe v) FORMULA = false.
Proof. unfold csv_safe. by destruct (startswith_any v FORMULA) eqn:E. Qed.

Lemma has_char_cr_csv_safe v : has_char cr (csv_safe v) = has_char cr v.
Proof. unfold csv_safe. by break. Qed.

(** Every line of a download has the header's width, and no cell of it, from the
    upload or from a fetched page, starts with a character a spreadsheet runs as a
    formula (the result columns' own names cannot either). *)
Theorem download_cells_safe (cols : list string) (raw : list (string * string))
    (res : option DomainResult) (pending : option string) (retrying : bool) :
  length (output_row cols raw res pending retrying) = length (output_header cols) ∧
  Forall (λ c, startswith_any c FORMULA = false) (output_row cols raw res pending retrying) ∧
  Forall (λ c, startswith_any c FORMULA = false) (output_header cols).
Proof.
  unfold output_row, output_header. split; [by rewrite !length_app, !length_map|].
  rewrite !Forall_app. repeat split; apply Forall_forall;
    intros c (x & <- & Hx)%list_elem_of_In%in_map_iff; try apply csv_safe_ok.
  apply list_elem_of_In in Hx. by repeat (apply elem_of_cons in Hx as [->|Hx]; [done|]); set_solver.
Qed.

Definition no_cr (v : string) : bool := negb (has_char cr v).

(** A downloaded line reads back (comma, doubled quotes) as exactly the cells that were
    written, including cells with commas, quotes and line feeds, for any cells without a
    bare carriage return. *)
Theorem csv_line_roundtrip (values : list string) (H : all no_cr values = true) :
  read_records comma (csv_line values) = [values].
Proof.
  unfold read_records. change reader0 with (mkReader START_RECORD [] [] "").
  rewrite read_csv_line; [done|]. intros x Hx. unfold all in H. rewrite forallb_forall in H.
  apply negb_true_iff, H. by apply list_elem_of_In.
Qed.

Definition sample_cells : list string :=
  ["a,b"; String quote "x"; ""; String lf "y"; csv_safe "=1+1"].

Lemma csv_line_roundtrip_witness :
  all no_cr sample_cells = true ∧ read_records comma (csv_line sample_cells) = [sample_cells].
Proof. split; [reflexivity|]. apply (csv_line_roundtrip sample_cells). reflexivity. Defined.

(** ** What creation queues *)

Lemma of_job_rows_from now j seq ds : keep (of_job j) (rows_from now j seq ds) = rows_from now j seq ds.
Proof.
  apply keep_all. intros r (k & d & _ & ->)%elem_of_rows_from. by apply bool_decide_eq_true.
Qed.

Lemma cached_sub cfg now ds (t : list Domain) :
  NoDup (map d_domain t) →
  NoDup (map d_domain (keep (cached_domain cfg now ds) t)) ∧
  ∀ d, d ∈ map d_domain (keep (cached_domain cfg now ds) t) → d ∈ ds.
Proof.
  intros Hn. split.
  - induction t as [|x t IH]; [done|]. cbn in *. apply NoDup_cons in Hn as [Hx Hn].
    break; [|by apply IH]. cbn. constructor; [|by apply IH].
    intros (y & E & Hy)%list_elem_of_In%in_map_iff. apply list_elem_of_In, elem_of_keep in Hy as [Hy _].
    apply Hx. rewrite <- E. by apply list_elem_of_In, in_map, list_elem_of_In.
  - intros d (y & <- & Hy)%list_elem_of_In%in_map_iff.
    apply list_elem_of_In, elem_of_keep in Hy as [_ Hc]. unfold cached_domain in Hc. bool_to_prop.
    by apply mem_true.
Qed.

Lemma length_keep_not_in (l k : list string) :
  NoDup l → NoDup k → k ⊆ l → (length (keep (λ d, negb (mem d k)) l) + length k = length l)%nat.
Proof.
  intros Hl Hk Hsub.
  assert (l ≡ₚ keep (λ d, negb (mem d k)) l ++ k) as HP.
  { apply NoDup_Permutation; [done| |].
    - apply NoDup_app. split; [by apply NoDup_keep|]. split; [|done].
      intros x [_ H]%elem_of_keep. apply negb_true_iff in H. by apply mem_false in H.
    - intros x. rewrite elem_of_app, elem_of_keep, negb_true_iff, mem_false.
      destruct (decide (x ∈ k)); set_solver. }
  rewrite HP at 2. by rewrite length_app.
Qed.

Lemma create_job_rows cfg issued db now job_id items a :
  db_ok issued db → find_row j_id job_id (jobs db) = None →
  keep (of_job job_id) (job_domains (create_job cfg db now job_id items a).2)
  = rows_from now job_id 0 (unique_domains items).
Proof.
  intros Hok Hfresh. unfold create_job. cbn. rewrite insert_chunks_concat, concat_chunks by lia.
  rewrite keep_app, of_job_rows_from, keep_none; [done|]. intros r Hr.
  apply bool_decide_eq_false. intros E. destruct (db_fk _ _ Hok r Hr) as (j & Hj & Ej).
  apply (proj1 (find_row_None _ _ _) Hfresh j Hj). congruence.
Qed.

Lemma create_job_splits cfg issued db now job_id items a :
  db_ok issued db →
  let '((_, to_run, cached), _) := create_job cfg db now job_id items a in
  (length to_run + length cached = length (unique_domains items))%nat.
Proof.
  intros Hok. unfold create_job. cbn.
  pose proof (NoDup_unique_domains items) as Hn. destruct (unique_domains items) as [|d ds]; [done|].
  destruct (cached_sub cfg now (d :: ds) (domains db) (db_domain_keys _ _ Hok)) as [Hc1 Hc2].
  destruct (n_fresh a); apply length_keep_not_in; try done; [constructor|set_solver].
Qed.

(** Creating a job with a new id queues each distinct domain of the input exactly once,
    in input order, numbered from 0, and touches no other job's rows; the domains reported
    as to run and as cached together are all of them, counted once. *)
Theorem create_job_queues (cfg : Settings) (issued : list string) (db : DB) (now : instant)
    (job_id : uuid) (items : list PreparedItem) (a : NewJob)
    (Hok : db_ok issued db) (Hfresh : find_row j_id job_id (jobs db) = None) :
  let '((_, to_run, cached), db') := create_job cfg db now job_id items a in
  job_domains db' = job_domains db ++ rows_from now job_id 0 (unique_domains items) ∧
  keep (of_job job_id) (job_domains db') = rows_from now job_id 0 (unique_domains items) ∧
  NoDup (unique_domains items) ∧
  (∀ d, d ∈ unique_domains items ↔ ∃ it, it ∈ items ∧ p_domain it = Some d ∧ d ≠ "") ∧
  (length to_run + length cached = length (unique_domains items))%nat.
Proof.
  pose proof (create_job_rows cfg issued db now job_id items a Hok Hfresh) as Hr.
  pose proof (create_job_splits cfg issued db now job_id items a Hok) as Hl.
  unfold create_job in *. cbn in Hr, Hl |- *.
  split; [by rewrite insert_chunks_concat, concat_chunks by lia|]. split; [done|].
  split; [apply NoDup_unique_domains|]. split; [apply elem_of_unique_domains|done].
Qed.

Lemma create_job_queues_witness :
  let it d := {| p_row_index := 0; p_input_value := d; p_domain := Some d; p_status := None;
                 p_reason := None; p_domain_source := "website"; p_raw_row := [] |} in
  let a := {| n_source_columns := ["website"]; n_filename := None; n_website_column := None;
              n_webhook_url := None; n_fresh := false; n_owner_id := None;
              n_idempotency_key := None; n_idempotency_fingerprint := None |} in
  let r := create_job default_settings empty_db 0 3%N [it "b.com"; it "a.com"; it "b.com"] a in
  job_domains r.2 = rows_from 0 3%N 0 ["b.com"; "a.com"].
Proof.
  intros it a r.
  exact (proj1 (create_job_queues default_settings [] empty_db 0 3%N [it "b.com"; it "a.com"; it "b.com"] a
                  (db_ok_empty []) eq_refl)).
Defined.
