(* ===== verification/CsvRow.v ===== *)
(** * The CSV row of [src/app/schemas.py]

    [to_csv_row] writes one result under [CSV_COLUMNS]; the downloads of [Jobs] write the
    same cells after the columns of the upload. *)

From Stdlib Require Import ZArith Ascii String Lia.
From stdpp Require Import base strings pretty option sets list.
From S2P Require Import Prelude PyStr Sql Models Queue Csv Jobs JobsProps.

Definition SOCIAL_NETWORKS : list string := ["facebook"; "instagram"; "linkedin"; "x"; "youtube"; "tiktok"; "yelp"].

Definition CSV_COLUMNS : list string :=
  ["row_index"; "input_value"; "domain"; "final_domain"; "status"; "best_email"; "best_email_source"; "confidence";
   "needs_review"; "business_emails"; "all_emails"; "phones"; "contact_form_url"; "facebook"; "instagram"; "linkedin";
   "x"; "youtube"; "tiktok"; "yelp"; "mx_provider"; "site_status"; "pages_fetched"; "error_reason"].

Definition FORMULA_PREFIXES : list string := ["="; "+"; "-"; "@"; String "009" ""; String "013" ""].
Definition schema_csv_safe (value : string) : string :=
  if startswith_any value FORMULA_PREFIXES then "'" +:+ value else value.

Definition csv_cells (row_index : Z) (input_value : string) (result : option DomainResult) (domain : option string)
    : list (string * string) :=
  match result with
  | None =>
      [("row_index", pretty row_index); ("input_value", input_value); ("domain", or_blank domain); ("status", "pending")]
  | Some r =>
      fold_left (λ row n, dict_set row n (default "" (dict_get (r_socials r) n))) SOCIAL_NETWORKS
      [ ("row_index", pretty row_index); ("input_value", input_value); ("domain", r_domain r);
        ("final_domain", or_blank (r_final_domain r)); ("status", status_str (r_status r));
        ("best_email", or_blank (r_best_email r)); ("best_email_source", source_str (r_best_email_source r));
        ("confidence", match r_confidence r with None => "" | Some q => format3 q end);
        ("needs_review", bool_str (r_needs_review r)); ("business_emails", join ", " (r_business_emails r));
        ("all_emails", join ", " (map out_email (r_all_emails r))); ("phones", join ", " (r_phones r));
        ("contact_form_url", or_blank (r_contact_form_url r)); ("mx_provider", or_blank (r_mx_provider r));
        ("site_status", or_blank (r_site_status r)); ("pages_fetched", join ", " (r_pages_fetched r));
        ("error_reason", or_blank (r_error_reason r)) ]
  end.

Definition to_csv_row (row_index : Z) (input_value : string) (result : option DomainResult) (domain : option string) : list string :=
  let row := csv_cells row_index input_value result domain in
  map (λ col, schema_csv_safe (default "" (dict_get row col))) CSV_COLUMNS.

(** The row agrees with a download's: the first two cells are the position and the input, and
    the other twenty-two are the result cells of [output_row] under the same names. *)
Lemma to_csv_row_matches_download i v result domain retrying :
  to_csv_row i v result domain =
  csv_safe (pretty i) :: csv_safe v ::
  take 22 (output_row [] [] result domain retrying).
Proof.
  destruct result as [r|]; unfold to_csv_row, output_row, schema_csv_safe, csv_safe;
    change FORMULA_PREFIXES with FORMULA; [|reflexivity].
  reflexivity.
Qed.

Lemma to_csv_row_cells i v result domain :
  length (to_csv_row i v result domain) = 24 ∧
  Forall (λ cell, startswith_any cell FORMULA = false) (to_csv_row i v result domain).
Proof.
  split; [done|]. unfold to_csv_row. change schema_csv_safe with csv_safe. apply Forall_fmap, Forall_true. intros col. apply csv_safe_ok.
Qed.
