(* ===== verification/Transitions.v ===== *)
(** * Operator transitions of a job ([src/app/main.py])

    Resume, cancel, retry and the resume a newly saved provider key triggers.  A handler
    returns its response or the error code it raises, with the database it leaves. *)

From Stdlib Require Import ZArith Lia.
From stdpp Require Import base strings option sets list.
From S2P Require Import Prelude PyStr Sql Models Queue QueueInv QueueProps.

Definition ACTIVE_STATUSES : list JobStatus := [job_queued; job_running; job_paused].

(** What a handler answers: a value or the code of the [ApiError] it raises. *)
Inductive Answer (A : Type) := Ok (a : A) | Err (code : string).
Arguments Ok {A} a.
Arguments Err {A} code.

(** The pause a job has been in, once it had started. *)
Definition pause_length (now : instant) (j : Job) : Z :=
  match j_started_at j, j_paused_at j with
  | Some s, Some p => now - Z.max p s
  | _, _ => 0
  end.

Definition transit (now : instant) (new : JobStatus) (reason : option string) (j : Job) : Job :=
  set_job j new
    (if bool_decide (new = job_cancelled) then Some (coalesce (j_finished_at j) now)
     else j_finished_at j)
    (j_done_count j) reason None (j_started_at j) (j_paused_seconds j + pause_length now j).

(** The new status, or [None] when the job's status was not one of [allowed]. *)
Definition transition (db : DB) (now : instant) (job_id : uuid) (allowed : list JobStatus)
    (new : JobStatus) (reason : option string) : option JobStatus * DB :=
  let p := λ j, bool_decide (j_id j = job_id) && mem (j_status j) allowed in
  (if any p (jobs db) then Some new else None,
   with_jobs db (update_where p (transit now new reason) (jobs db))).

Definition current_status (db : DB) (job_id : uuid) : option JobStatus :=
  j_status <$> find_row j_id job_id (jobs db).

Definition retry_job (db : DB) (now : instant) (job_id : uuid) : Answer (nat * option JobStatus) * DB :=
  match current_status db job_id with
  | Some job_paused | Some job_cancelled => (Err "job_not_retryable", db)
  | _ =>
      let '(requeued, db') := requeue_failed db now job_id in
      (Ok (requeued, current_status db' job_id), db')
  end.

Definition resume_job (db : DB) (now : instant) (job_id : uuid) : Answer (option JobStatus) * DB :=
  let '(moved, db1) := transition db now job_id [job_paused] job_running None in
  match moved with
  | None => (Err "job_not_paused", db1)
  | Some _ =>
      let '(_, db2) := complete_if_finished db1 now job_id in
      (Ok (current_status db2 job_id), db2)
  end.

Definition cancel_job (db : DB) (now : instant) (job_id : uuid) : Answer JobStatus * DB :=
  let '(moved, db1) := transition db now job_id ACTIVE_STATUSES job_cancelled None in
  match moved with
  | None => (Err "job_already_finished", db1)
  | Some _ => (Ok job_cancelled, db1)
  end.

Definition paused_for (reason : string) (j : Job) : bool :=
  bool_decide (j_status j = job_paused) && null_eq (j_pause_reason j) reason.

Definition resume_row (now : instant) (j : Job) : Job :=
  set_job j job_running (j_finished_at j) (j_done_count j) None None (j_started_at j)
          (j_paused_seconds j + pause_length now j).

Definition complete_each (db : DB) (now : instant) (ids : list uuid) : DB :=
  fold_left (λ d i, (complete_if_finished d now i).2) ids db.

Definition resume_paused_for (db : DB) (now : instant) (reason : string) : nat * DB :=
  let rows := returning (paused_for reason) (jobs db) in
  let db1 := with_jobs db (update_where (paused_for reason) (resume_row now) (jobs db)) in
  (length rows, complete_each db1 now (map j_id rows)).

(** Seconds (here microseconds) a job could run: first claim to finish or now, less its
    pauses; [None] before the first claim. *)
Definition active_seconds (now : instant) (j : Job) : option Z :=
  match j_started_at j with
  | None => None
  | Some s =>
      Some (Z.max 0 (default now (j_finished_at j) - s - j_paused_seconds j
              - match j_paused_at j, j_finished_at j with
                | Some p, None => now - Z.max p s
                | _, _ => 0
                end))
  end.

(** ** The invariant *)

Lemma transition_ok issued db now j allowed new reason :
  new ≠ job_done → db_ok issued db → db_ok issued (transition db now j allowed new reason).2.
Proof. intros Hn. apply db_ok_job_update. by split. Qed.

Lemma retry_job_ok issued db now j : db_ok issued db → db_ok issued (retry_job db now j).2.
Proof.
  intros H. pose proof (requeue_failed_ok issued db now j H) as H1.
  unfold retry_job. destruct (requeue_failed db now j) as [n db'] eqn:E.
  destruct (current_status db j) as [[]|]; done.
Qed.

Lemma resume_job_ok issued db now j : db_ok issued db → db_ok issued (resume_job db now j).2.
Proof.
  intros H. pose proof (transition_ok issued db now j [job_paused] job_running None) as H1.
  unfold resume_job. destruct (transition db now j [job_paused] job_running None) as [m db1].
  specialize (H1 ltac:(done) H). destruct m; [|done].
  pose proof (complete_if_finished_ok issued db1 now j H1) as H2.
  by destruct (complete_if_finished db1 now j).
Qed.

Lemma cancel_job_ok issued db now j : db_ok issued db → db_ok issued (cancel_job db now j).2.
Proof.
  intros H. pose proof (transition_ok issued db now j ACTIVE_STATUSES job_cancelled None) as H1.
  unfold cancel_job. destruct (transition db now j _ _ _) as [m db1].
  specialize (H1 ltac:(done) H). by destruct m.
Qed.

Lemma complete_each_ok issued db now ids : db_ok issued db → db_ok issued (complete_each db now ids).
Proof.
  unfold complete_each. revert db. induction ids as [|i ids IH]; intros db H; [done|].
  cbn. by apply IH, complete_if_finished_ok.
Qed.

Lemma resume_paused_for_ok issued db now reason :
  db_ok issued db → db_ok issued (resume_paused_for db now reason).2.
Proof. intros H. apply complete_each_ok, db_ok_job_update; [|done]. by split. Qed.

(** * Pausing, resuming and cancelling ([src/app/main.py], [src/app/queue.py]) *)

(** The update [pause_active_jobs] makes to an active job. *)
Definition pause_row (now : instant) (reason : string) (j : Job) : Job :=
  set_job j job_paused (j_finished_at j) (j_done_count j) (Some reason) (Some now) (j_started_at j)
          (j_paused_seconds j).

Lemma pause_active_jobs_rows db now reason :
  jobs (pause_active_jobs db now reason) = update_where active (pause_row now reason) (jobs db).
Proof. done. Qed.

Lemma claim_loop_nil locked db now w hexes i ids :
  (∀ j, j ∈ ids → pick_row locked db now j = None) → claim_loop locked db now w hexes i ids = None.
Proof.
  revert i. induction ids as [|j ids IH]; intros i H; [done|]. cbn. unfold CLAIM_FROM_JOB.
  rewrite H by left. apply IH. intros k Hk. apply H. by right.
Qed.

Lemma claim_needs_active locked db now w hexes :
  (∀ j, j ∈ jobs db → active j = false) → claim locked db now w hexes = (None, db).
Proof.
  intros H. unfold claim, PICK_JOBS. rewrite keep_none; [done|].
  intros j Hj. unfold servable. by rewrite H.
Qed.

(** A provider outage stops the queue and a new key restarts it.  After
    [pause_active_jobs] no worker can claim anything, whatever rows are locked; the later
    resume for the same reason wakes every job that was paused for it, so each one with a
    row that is due can be served again. *)
Theorem pause_stops_and_resume_restarts (db : DB) (now now' : instant) (reason : string)
    (locked : JobDomain → bool) (worker : string) (hexes : nat → string) (t : instant) (job : Job)
    (Hjob : job ∈ jobs db) (Hactive : active job = true)
    (Hdue : any (λ r, of_job (j_id job) r && claimable t r) (job_domains db) = true) :
  let paused := pause_active_jobs db now reason in
  claim locked paused t worker hexes = (None, paused) ∧
  ∃ job', job' ∈ jobs (resume_paused_for paused now' reason).2 ∧ j_id job' = j_id job ∧
          servable (resume_paused_for paused now' reason).2 t job' = true.
Proof.
  intros paused. split.
  - apply claim_needs_active. intros j (j0 & _ & ->)%elem_of_update_where.
    destruct (active j0) eqn:E; [done|]. exact E.
  - set (resumed := resume_row now' (pause_row now reason job)).
    set (db1 := with_jobs paused (update_where (paused_for reason) (resume_row now') (jobs paused))).
    assert (resumed ∈ jobs db1) as Hin.
    { apply elem_of_update_where. exists (pause_row now reason job). split.
      - apply elem_of_update_where. exists job. by rewrite Hactive.
      - unfold paused_for, null_eq. cbn. rewrite (bool_decide_true (Some reason = _)) by done. done. }
    assert (∀ ids d, job_domains d = job_domains db → resumed ∈ jobs d →
              job_domains (complete_each d now' ids) = job_domains db ∧ resumed ∈ jobs (complete_each d now' ids)) as Hkeep.
    { intros ids. induction ids as [|i ids IH]; intros d Hd Hr; [done|]. cbn. apply IH; [done|].
      apply elem_of_update_where. exists resumed. split; [done|].
      unfold finished_job. rewrite Hd.
      assert (any (λ r, of_job (j_id resumed) r && unfinished r) (job_domains db) = true) as ->.
      { apply any_true in Hdue as (r & Hr' & [Ho Hc]%andb_true_iff). apply any_true. exists r. split; [done|].
        change (j_id resumed) with (j_id job). rewrite Ho. cbn. apply mem_true.
        apply andb_true_iff in Hc as [Hs%state_is_true _]. rewrite Hs. set_solver. }
      by rewrite !andb_false_r. }
    destruct (Hkeep (map j_id (returning (paused_for reason) (jobs paused))) db1 eq_refl Hin) as [H1 H2].
    exists resumed. split; [exact H2|]. split; [done|].
    unfold servable. change (active resumed) with true.
    change (job_domains (resume_paused_for paused now' reason).2) with
      (job_domains (complete_each db1 now' (map j_id (returning (paused_for reason) (jobs paused))))).
    by rewrite H1.
Qed.

Lemma pause_stops_and_resume_restarts_witness :
  claim (λ _, false) (pause_active_jobs sample_db 40 "jina_account") 41 "w" (λ _, "x") =
    (None, pause_active_jobs sample_db 40 "jina_account") ∧
  ∃ job', j_id job' = 3%N ∧
    servable (resume_paused_for (pause_active_jobs sample_db 40 "jina_account") 50 "jina_account").2 41 job' = true.
Proof.
  destruct (pause_stops_and_resume_restarts sample_db 40 50 "jina_account" (λ _, false) "w" (λ _, "x") 41
              (sample_job 3 (Some 8%N) 30)) as [H1 (job' & _ & H2 & H3)].
  - do 2 right. left.
  - reflexivity.
  - reflexivity.
  - split; [exact H1|]. exists job'. split; [exact H2|exact H3].
Defined.

(** Time spent paused is not counted as running time.  While a started, unfinished job
    is paused its active time stands still, and after it is resumed its active time goes on
    from there: it is what it would have been with the pause cut out of the clock. *)
Theorem paused_time_not_counted (job : Job) (s t1 t t2 now : instant) (reason : string)
    (Hs : j_started_at job = Some s) (Hf : j_finished_at job = None) (Hp : j_paused_at job = None)
    (H1 : (s ≤ t1)%Z) (H2 : (t1 ≤ t)%Z) :
  active_seconds t (pause_row t1 reason job) = active_seconds t1 job ∧
  active_seconds now (transit t2 job_running None (pause_row t1 reason job)) =
    active_seconds (now - (t2 - t1))%Z job.
Proof.
  unfold active_seconds, transit, pause_row, pause_length. cbn.
  rewrite Hs, Hf, Hp. cbn. rewrite bool_decide_false by done. cbn. split; f_equal; lia.
Qed.

Lemma paused_time_not_counted_witness :
  let job := set_job (sample_job 1 None 0) job_running None 0 None None (Some 100%Z) 0 in
  active_seconds 900 (transit 700 job_running None (pause_row 200 "x" job)) = Some 300%Z.
Proof.
  intros job.
  destruct (paused_time_not_counted job 100 200 300 700 900 "x" eq_refl eq_refl eq_refl) as [_ ->];
    [lia|lia|reflexivity].
Defined.
