(* ===== verification/Worker.v ===== *)
(** * The fetch worker ([src/app/worker.py])

    A handler is a program over the database: each [Txn] is one transaction, between two
    of which any other process may run.  [run_prog] runs a handler alone; [System.v]
    interleaves handlers, the background loops and the operators.

    What the handler awaits besides the database is an input of the run: the outcome of
    [process_domain] and whether a forced reload of the provider keys changed the Jina
    key.  A transaction or a reload may fail (a database blip); the exception propagates
    to the nearest [on_error]. *)

From Stdlib Require Import ZArith Lia.
From stdpp Require Import base strings option sets list.
From S2P Require Import Prelude PyStr Sql Models Queue QueueInv QueueProps Jobs Transitions.

Definition ERROR_RETRY_DELAY_S : Z := 30.
Definition MAX_CLAIMS (cfg : Settings) : Z := (max_domain_attempts cfg + 2)%Z.
Definition RETRYABLE_DOMAIN_REASONS : list string := ["circuit_open"].

(** What [process_domain] does: it returns, or raises a provider account error, or some
    other exception. *)
Inductive Outcome := Returned (r : DomainResult) | AccountError | OtherError.

(** What is handed to the webhook sender. *)
Inductive Event :=
  | DomainDone (job_id : uuid) (rows : list Z) (result : DomainResult)
  | JobDone (job_id : uuid) (counts : Counts).

Inductive prog : Type :=
  | Return
  | Raise
  | Txn {T : Type} (f : DB → instant → T * DB) (k : T → prog) (err : prog)
  | ProcessDomain (domain : string) (k : Outcome → prog)
  | ReloadKeys (k : bool → prog) (err : prog)
  | Submit (url : string) (e : Event) (k : prog).

(** ** Combinators *)

(** One transaction whose failure raises. *)
Definition txn {T} (f : DB → instant → T * DB) (k : T → prog) : prog := Txn f k Raise.
Definition exec (f : DB → instant → DB) (k : prog) : prog := txn (λ db now, (tt, f db now)) (λ _, k).
Definition query {T} (f : DB → instant → T) (k : T → prog) : prog := txn (λ db now, (f db now, db)) k.

(** [try: p except Exception: h]. *)
Fixpoint on_error (p h : prog) : prog :=
  match p with
  | Return => Return
  | Raise => h
  | Txn f k err => Txn f (λ x, on_error (k x) h) (on_error err h)
  | ProcessDomain d k => ProcessDomain d (λ o, on_error (k o) h)
  | ReloadKeys k err => ReloadKeys (λ b, on_error (k b) h) (on_error err h)
  | Submit u e k => Submit u e (on_error k h)
  end.

(** ** Handlers *)

Section handlers.
Context (cfg : Settings) (fetch_backend : string).

Definition submit_events (url : string) (c : Claim) (result : DomainResult) (rows : list Z)
    (counts : option Counts) : prog :=
  Submit url (DomainDone (c_job_id c) rows result)
    match counts with
    | Some k => Submit url (JobDone (c_job_id c) k) Return
    | None => Return
    end.

Definition worker_finish (job : option Job) (c : Claim) (result : DomainResult)
    (from_cache write_cache : bool) : prog :=
  txn (λ db now, finish db now c result from_cache write_cache) (λ '(recorded, finished),
  if negb recorded then Return else
  match job with
  | None => Return
  | Some j =>
      match j_webhook_url j with
      | None => Return
      | Some url =>
          if String.eqb url "" then Return else
          query (λ db _, row_indexes db (c_job_id c) (c_domain c)) (λ rows,
          if (finished : bool)
          then query (λ db _, job_counts db (c_job_id c)) (λ counts,
                 submit_events url c result rows (Some counts))
          else submit_events url c result rows None)
      end
  end).

(** The result of a domain that keeps dying. *)
Definition too_many_attempts (c : Claim) : DomainResult :=
  failed_result (c_domain c) "internal_error" None (Some "too_many_attempts").

Definition get_job (c : Claim) (k : option Job → prog) : prog :=
  query (λ db _, find_row j_id (c_job_id c) (jobs db)) k.

Definition read_cache (c : Claim) (job : Job) (k : option DomainResult → prog) : prog :=
  query (λ db now, cached_result cfg db now job (c_domain c) (c_not_before c)) k.

(** A domain handed back because the provider account failed or its key just changed. *)
Definition hand_back (c : Claim) : prog :=
  exec (λ db _, unlock_domain db c)
  (exec (λ db now, requeue db now c 0 false) Return).

Definition after_process (c : Claim) (o : Outcome) : prog :=
  match o with
  | OtherError => Raise
  | AccountError =>
      ReloadKeys (λ changed,
        if changed then hand_back c
        else exec (λ db now, pause_active_jobs db now (fetch_backend +:+ "_account"))
             (hand_back c)) Raise
  | Returned result =>
      if null_any (r_error_reason result) RETRYABLE_DOMAIN_REASONS
         && Z.ltb (c_attempts c) (max_domain_attempts cfg)
      then exec (λ db _, unlock_domain db c)
           (exec (λ db now, requeue db now c (seconds (retry_pass_delay_s cfg)) true) Return)
      else get_job c (λ job, worker_finish job c result false true)
  end.

Definition handle_body (c : Claim) : prog :=
  get_job c (λ j,
  match j with
  | None => Return
  | Some job =>
      read_cache c job (λ cached,
      match cached with
      | Some r => worker_finish (Some job) c r true true
      | None =>
          if Z.ltb (MAX_CLAIMS cfg) (c_attempts c)
          then worker_finish (Some job) c (too_many_attempts c) false false
          else
          txn (λ db now, lock_domain db now c) (λ locked,
          if negb (locked : bool)
          then exec (λ db now, requeue db now c (seconds LOCK_BUSY_DELAY_S) false) Return
          else
          read_cache c job (λ cached2,
          match cached2 with
          | Some r => exec (λ db _, unlock_domain db c) (worker_finish (Some job) c r true true)
          | None => ProcessDomain (c_domain c) (after_process c)
          end))
      end)
  end).

(** Unlock and put the row back; a second failure is left to the reaper. *)
Definition give_back (c : Claim) : prog :=
  on_error
    (exec (λ db _, unlock_domain db c)
     (exec (λ db now, requeue db now c (seconds ERROR_RETRY_DELAY_S) true) Return))
    Return.

Definition handle (c : Claim) : prog := on_error (handle_body c) (give_back c).
End handlers.

(** ** Running one handler alone

    Every transaction succeeds at its instant of [clock], [process_domain] gives
    [outcome], a reload reports [changed].  The database after the run, and the events
    submitted. *)

Fixpoint run_prog (outcome : Outcome) (changed : bool) (clock : nat → instant) (i : nat)
    (p : prog) (db : DB) : DB * list Event :=
  match p with
  | Return | Raise => (db, [])
  | Txn f k _ =>
      let '(x, db') := f db (clock i) in run_prog outcome changed clock (S i) (k x) db'
  | ProcessDomain _ k => run_prog outcome changed clock i (k outcome) db
  | ReloadKeys k _ => run_prog outcome changed clock i (k changed) db
  | Submit _ e k =>
      let '(db', es) := run_prog outcome changed clock i k db in (db', e :: es)
  end.

(** * What one handler does with its claim ([src/app/worker.py]) *)

(** ** A handler whose claim is lost *)

(** Every transaction keeps [I] whatever the handler has seen so far, and nothing is
    submitted, when [process_domain] gives [o]. *)
Fixpoint inert (I : DB → Prop) (o : Outcome) (p : prog) : Prop :=
  match p with
  | Return | Raise => True
  | Txn f k err =>
      (∀ db now, I db → I (f db now).2 ∧ inert I o (k (f db now).1)) ∧ inert I o err
  | ProcessDomain _ k => inert I o (k o)
  | ReloadKeys k err => (∀ b, inert I o (k b)) ∧ inert I o err
  | Submit _ _ _ => False
  end.

Lemma inert_run I o ch clock i p db :
  inert I o p → I db → I (run_prog o ch clock i p db).1 ∧ (run_prog o ch clock i p db).2 = [].
Proof.
  revert i db. induction p as [| |T f k IHk err _|d k IHk|k IHk err _|u e k IHk]; intros i db Hp HI;
    cbn in *; try done; auto.
  - destruct Hp as [Hp _]. destruct (Hp db (clock i) HI) as [H1 H2].
    destruct (f db (clock i)) as [x db']. by apply IHk.
  - apply IHk; [apply Hp|done].
Qed.

Lemma inert_on_error I o p h : inert I o p → inert I o h → inert I o (on_error p h).
Proof.
  intros Hp Hh. induction p as [| |T f k IHk err IHe|d k IHk|k IHk err IHe|u e k IHk]; cbn in *; try done; auto.
  - destruct Hp as [H1 H2]. split; [|auto]. intros db now HI. destruct (H1 db now HI). auto.
  - destruct Hp as [H1 H2]. split; auto.
Qed.

Lemma inert_query I o {T} (f : DB → instant → T) k : (∀ x, inert I o (k x)) → inert I o (query f k).
Proof. intros H. split; [|done]. intros db now HI. by split. Qed.

Lemma inert_exec I o f k : (∀ db now, I db → I (f db now)) → inert I o k → inert I o (exec f k).
Proof. intros H Hk. split; [|done]. intros db now HI. by split; [apply H|]. Qed.

(** The rows and jobs of the database are those given. *)
Definition same_work (rows : list JobDomain) (js : list Job) (db : DB) : Prop :=
  job_domains db = rows ∧ jobs db = js.

Section lost.
Context (cfg : Settings) (be : string) (c : Claim) (rows : list JobDomain) (js : list Job).
Hypothesis Hlost : any (owns c) rows = false.
Let I := same_work rows js.

Lemma inert_requeue o delay ca k : inert I o k → inert I o (exec (λ db now, requeue db now c delay ca) k).
Proof.
  apply inert_exec. intros db now [E1 E2]. unfold requeue. split; cbn; [|done].
  rewrite E1. by apply update_where_none.
Qed.

Lemma inert_unlock o k : inert I o k → inert I o (exec (λ db _, unlock_domain db c) k).
Proof. by apply inert_exec. Qed.

Lemma inert_finish o job res fc wc : inert I o (worker_finish job c res fc wc).
Proof.
  split; [|done]. intros db now [E1 E2]. rewrite finish_unfold, E1, Hlost. by repeat split.
Qed.

Lemma inert_handle o : o ≠ AccountError → inert I o (handle cfg be c).
Proof.
  intros Ho. apply inert_on_error; [|apply inert_on_error; [by apply inert_unlock, inert_requeue|done]].
  apply inert_query. intros [job|]; [|done]. apply inert_query. intros [r|]; [apply inert_finish|].
  destruct (Z.ltb _ _); [apply inert_finish|]. split; [|done]. intros db now [E1 E2].
  split; [by repeat split|]. destruct (negb _); [by apply inert_requeue|].
  apply inert_query. intros [r|]; [apply inert_unlock, inert_finish|]. cbn.
  destruct o as [res| |]; [|done|done]. cbn. destruct (_ && _).
  - by apply inert_unlock, inert_requeue.
  - apply inert_query. intros job'. apply inert_finish.
Qed.
End lost.

(** C9: a handler whose claim was reaped, released or retried away does nothing to the work.
    Whatever [process_domain] returns or raises (a provider account error apart, which
    concerns every job), at whatever instants its transactions run, no row and no job
    changes and no webhook event is sent. *)
Theorem lost_claim_is_inert (cfg : Settings) (backend : string) (c : Claim) (db : DB)
    (outcome : Outcome) (changed : bool) (clock : nat → instant)
    (Hlost : any (owns c) (job_domains db) = false) (Ho : outcome ≠ AccountError) :
  let '(db', events) := run_prog outcome changed clock 0 (handle cfg backend c) db in
  job_domains db' = job_domains db ∧ jobs db' = jobs db ∧ events = [].
Proof.
  destruct (inert_run (same_work (job_domains db) (jobs db)) outcome changed clock 0 (handle cfg backend c) db)
    as [[H1 H2] H3]; [by apply inert_handle|done|].
  by destruct (run_prog _ _ _ _ _ _).
Qed.

Lemma lost_claim_is_inert_witness :
  let c := mkClaim 1%N "a.com" 1 "old|t" None in
  any (owns c) (job_domains sample_claimed) = false ∧
  job_domains (run_prog (Returned sample_result) false (λ _, 9%Z) 0 (handle default_settings "jina" c)
                 sample_claimed).1 = job_domains sample_claimed.
Proof.
  intros c. split; [reflexivity|].
  pose proof (lost_claim_is_inert default_settings "jina" c sample_claimed (Returned sample_result) false
                (λ _, 9%Z) eq_refl) as H.
  destruct (run_prog _ _ _ _ _ _) as [db' es]. by destruct H as (? & _).
Defined.

(** ** A handler that owns its row *)











Section owned.
Context (cfg : Settings) (be : string) (c : Claim) (db : DB) (clock : nat → instant) (issued : list string).
Context (row : JobDomain) (job : Job).
Hypothesis Hok : db_ok issued db.
Hypothesis Hrow : find_row jd_key (c_job_id c, c_domain c) (job_domains db) = Some row.
Hypothesis Howns : owns c row = true.
Hypothesis Hjob : find_row j_id (c_job_id c) (jobs db) = Some job.




End owned.



