(* ===== verification/Frame.v ===== *)
(** * What the operations leave alone

    [frame db db'] relates the database before and after any operation but a claim or a
    retry: no row changes hands, finished rows stay exactly as they are, rows and input
    rows of known jobs neither appear nor vanish. *)

From Stdlib Require Import ZArith Lia.
From stdpp Require Import base strings option sets list.
From S2P Require Import Prelude Sql Models Queue QueueInv Jobs JobsProps Transitions.

Definition items_of (j : uuid) (t : list JobItem) : list JobItem :=
  keep (λ it, bool_decide (ji_job_id it = j)) t.

Definition known (db : DB) (j : uuid) : Prop := ∃ k, k ∈ jobs db ∧ j_id k = j.

(** What never changes about a job: its id, its owner and what identifies its request. *)
Definition job_ident (j : Job) : uuid * option uuid * option string * option string :=
  (j_id j, j_owner_id j, j_idempotency_key j, j_idempotency_fingerprint j).

(** Rows stay: every row is still there under its key, and only unknown jobs get rows; jobs
    are only added, at the end. *)
Record rows_stay (db db' : DB) : Prop := {
  fr_old : ∀ r, r ∈ job_domains db → ∃ r', r' ∈ job_domains db' ∧ jd_key r' = jd_key r;
  fr_new : ∀ r', r' ∈ job_domains db' →
    (∃ r, r ∈ job_domains db ∧ jd_key r = jd_key r') ∨ ¬ known db (jd_job_id r');
  fr_items : ∀ j, known db j → items_of j (job_items db') = items_of j (job_items db);
  fr_jobs : ∀ j, known db j → known db' j;
  fr_new_items : ∀ it, it ∈ job_items db' → it ∈ job_items db ∨ known db' (ji_job_id it);
  fr_ident : map job_ident (jobs db) `prefix_of` map job_ident (jobs db')
}.

(** A claim found afterwards was there before, on the same row. *)
Definition claims_sub (db db' : DB) : Prop :=
  ∀ r' t, r' ∈ job_domains db' → jd_claimed_by r' = Some t →
    ∃ r, r ∈ job_domains db ∧ jd_key r = jd_key r' ∧ jd_claimed_by r = Some t.

(** Finished rows (of the jobs in [js]) are kept as they are. *)
Definition done_kept (js : uuid → Prop) (db db' : DB) : Prop :=
  ∀ r, r ∈ job_domains db → js (jd_job_id r) → jd_state r = st_done → r ∈ job_domains db'.

Record frame (db db' : DB) : Prop := {
  fr_rows : rows_stay db db';
  fr_claims : claims_sub db db';
  fr_done : done_kept (λ _, True) db db'
}.

(** ** Reflexivity and composition *)

Lemma rows_stay_refl db : rows_stay db db.
Proof. split; eauto. Qed.

Lemma rows_stay_trans db1 db2 db3 : rows_stay db1 db2 → rows_stay db2 db3 → rows_stay db1 db3.
Proof.
  intros H1 H2. split.
  - intros r Hr. destruct (fr_old _ _ H1 r Hr) as (r' & Hr' & E).
    destruct (fr_old _ _ H2 r' Hr') as (r'' & ? & ?). exists r''. split; congruence.
  - intros r Hr. destruct (fr_new _ _ H2 r Hr) as [(r' & Hr' & E)|Hn].
    + destruct (fr_new _ _ H1 r' Hr') as [(r0 & ? & ?)|Hn]; [left; exists r0; split; congruence|].
      right. by rewrite <- (jd_key_job _ _ E).
    + right. intros Hk. apply Hn. by apply (fr_jobs _ _ H1).
  - intros j Hj. rewrite (fr_items _ _ H2) by (by apply (fr_jobs _ _ H1)). by apply H1.
  - intros j Hj. by apply (fr_jobs _ _ H2), (fr_jobs _ _ H1).
  - intros it [Hit|Hk]%(fr_new_items _ _ H2); [|by right].
    apply (fr_new_items _ _ H1) in Hit as [Hit|Hk]; [by left|right]. by apply (fr_jobs _ _ H2).
  - etrans; [apply H1|apply H2].
Qed.

Lemma frame_refl db : frame db db.
Proof. split; [apply rows_stay_refl|intros ???; eauto|by intros ?]. Qed.

Lemma frame_trans db1 db2 db3 : frame db1 db2 → frame db2 db3 → frame db1 db3.
Proof.
  intros H1 H2. split.
  - eapply rows_stay_trans; [apply H1|apply H2].
  - intros r t Hr E. destruct (fr_claims _ _ H2 r t Hr E) as (r1 & ? & ? & ?).
    destruct (fr_claims _ _ H1 r1 t) as (r0 & ? & ? & ?); try done. exists r0. split_and!; congruence.
  - intros r Hr _ Hd. apply (fr_done _ _ H2); [|done|done]. by apply (fr_done _ _ H1).
Qed.

#[export] Instance frame_PreOrder : PreOrder frame.
Proof. split; [intros ?; apply frame_refl|intros ???; apply frame_trans]. Qed.

(** ** The updates the operations are made of *)

Lemma known_update db p f j :
  (∀ k, p k = true → j_id (f k) = j_id k) → known db j →
  known (with_jobs db (update_where p f (jobs db))) j.
Proof.
  intros H (k & Hk & <-). exists (if p k then f k else k). split.
  - apply elem_of_update_where. eauto.
  - break; auto.
Qed.

Lemma ident_update p f (t : list Job) :
  (∀ k, p k = true → job_ident (f k) = job_ident k) →
  map job_ident (update_where p f t) = map job_ident t.
Proof.
  intros H. unfold update_where. rewrite map_map. apply map_ext. intros k. destruct (p k) eqn:E; auto.
Qed.

Lemma frame_job_update db p f :
  (∀ k, p k = true → job_ident (f k) = job_ident k) → frame db (with_jobs db (update_where p f (jobs db))).
Proof.
  intros H. split.
  - split; cbn; eauto.
    + intros j. apply known_update. intros k Hk. by injection (H k Hk).
    + by rewrite ident_update.
  - intros r t Hr E. by exists r.
  - by intros r Hr.
Qed.

Lemma frame_domains db t : frame db (with_domains db t).
Proof. split; [split; cbn; eauto|intros r t' Hr E; by exists r|by intros r]. Qed.

Lemma rows_stay_row_update db p f :
  (∀ r, p r = true → jd_key (f r) = jd_key r) →
  rows_stay db (with_job_domains db (update_where p f (job_domains db))).
Proof.
  intros H. split; cbn; try done.
  - intros r Hr. exists (if p r then f r else r). split; [apply elem_of_update_where; eauto|].
    break; auto.
  - intros r (r0 & Hr0 & ->)%elem_of_update_where. left. exists r0. split; [done|].
    break; [symmetry|]; auto.
  - auto.
Qed.

(** ** The operations *)

(** Rows in state running may be rewritten freely as long as no claim is taken. *)
Lemma frame_running_update db p f :
  (∀ r, p r = true → jd_state r = st_running ∧ jd_key (f r) = jd_key r ∧
        (jd_claimed_by (f r) = None ∨ jd_claimed_by (f r) = jd_claimed_by r)) →
  frame db (with_job_domains db (update_where p f (job_domains db))).
Proof.
  intros H. split.
  - apply rows_stay_row_update. intros r Ep. by apply H.
  - intros r t (r0 & Hr0 & ->)%elem_of_update_where E. exists r0. split; [done|].
    destruct (p r0) eqn:Ep; [|done]. destruct (H r0 Ep) as (_ & Hk & [Hc|Hc]); [congruence|].
    split; congruence.
  - intros r Hr _ Hs. apply elem_of_update_where. exists r. split; [done|].
    destruct (p r) eqn:Ep; [|done]. destruct (H r Ep) as (? & _ & _). congruence.
Qed.

Lemma requeue_frame db now c delay ca : frame db (requeue db now c delay ca).
Proof.
  apply frame_running_update. intros r (_ & _ & Hs)%owns_true. split_and!; try done. by left.
Qed.

Lemma reap_frame db now : frame db (reap db now).2.
Proof.
  apply frame_running_update. intros r [Hs _]%andb_true_iff. apply state_is_true in Hs.
  split_and!; try done. by left.
Qed.

Lemma unlock_domain_frame db c : frame db (unlock_domain db c).
Proof. apply frame_domains. Qed.

Lemma lock_domain_frame db now c : frame db (lock_domain db now c).2.
Proof. apply frame_domains. Qed.

Lemma release_worker_frame db now w : frame db (release_worker db now w).
Proof.
  unfold release_worker. etrans; [|apply frame_domains].
  apply frame_running_update. intros r [Hs _]%andb_true_iff. apply state_is_true in Hs.
  split_and!; try done. by left.
Qed.

Lemma heartbeat_frame db now ts : frame db (heartbeat db now ts).
Proof.
  unfold heartbeat. destruct ts; [reflexivity|]. etrans; [|apply frame_domains].
  apply frame_running_update. intros r [Hs _]%andb_true_iff. apply state_is_true in Hs.
  split_and!; try done. by right.
Qed.

Lemma pause_active_jobs_frame db now reason : frame db (pause_active_jobs db now reason).
Proof. by apply frame_job_update. Qed.

Lemma complete_if_finished_frame db now j : frame db (complete_if_finished db now j).2.
Proof. by apply frame_job_update. Qed.

Lemma complete_finished_jobs_frame db now : frame db (complete_finished_jobs db now).2.
Proof. by apply frame_job_update. Qed.

Lemma transition_frame db now j allowed new reason : frame db (transition db now j allowed new reason).2.
Proof. by apply frame_job_update. Qed.

Lemma complete_each_frame db now ids : frame db (complete_each db now ids).
Proof.
  unfold complete_each. revert db. induction ids as [|i ids IH]; intros db; [reflexivity|].
  cbn. etrans; [apply complete_if_finished_frame|apply IH].
Qed.

Lemma resume_paused_for_frame db now reason : frame db (resume_paused_for db now reason).2.
Proof. etrans; [|apply complete_each_frame]. by apply frame_job_update. Qed.

Lemma resume_job_frame db now j : frame db (resume_job db now j).2.
Proof.
  unfold resume_job. pose proof (transition_frame db now j [job_paused] job_running None) as H1.
  destruct (transition _ _ _ _ _ _) as [m db1]. destruct m; [|done].
  pose proof (complete_if_finished_frame db1 now j) as H2.
  destruct (complete_if_finished db1 now j). by etrans.
Qed.

Lemma cancel_job_frame db now j : frame db (cancel_job db now j).2.
Proof.
  unfold cancel_job. pose proof (transition_frame db now j ACTIVE_STATUSES job_cancelled None) as H1.
  destruct (transition _ _ _ _ _ _) as [m db1]. by destruct m.
Qed.

Lemma finish_written_frame db now c res fc wc : frame db (finish_written db now c res fc wc).
Proof.
  unfold finish_written. etrans; [|apply unlock_domain_frame].
  assert (frame db (with_job_domains db
            (update_where (owns c) (record_row now res fc) (job_domains db)))) as H1.
  { apply frame_running_update. intros r (_ & _ & Hs)%owns_true. split_and!; try done. by left. }
  break; [|done]. etrans; [exact H1|apply frame_domains].
Qed.

Lemma finish_frame db now c res fc wc : frame db (finish db now c res fc wc).2.
Proof.
  rewrite finish_unfold. break; [|apply unlock_domain_frame]. cbn [snd].
  etrans; [apply finish_written_frame|apply complete_if_finished_frame].
Qed.

Lemma create_job_frame cfg db now job_id items a :
  ¬ known db job_id → frame db (create_job cfg db now job_id items a).2.
Proof.
  assert (∀ it, it ∈ concat (map (map (item_row job_id)) (chunks items 2000)) →
          ji_job_id it = job_id) as Hi.
  { intros it (l & (c & <- & _)%in_map_iff & (x & <- & _)%in_map_iff)%list_elem_of_In%in_concat. done. }
  intros Hn. unfold create_job. cbn. rewrite insert_chunks_concat. split; [split; cbn| |].
  - intros r Hr. exists r. set_solver.
  - intros r [Hr|(k & d & _ & ->)%elem_of_rows_from]%elem_of_app; [left; by exists r|by right].
  - intros j Hj. unfold items_of. rewrite keep_app.
    rewrite (keep_none _ (concat _)); [by rewrite app_nil_r|].
    intros it Hit. apply bool_decide_eq_false. rewrite (Hi it Hit). by intros ->.
  - intros j (k & Hk & E). exists k. set_solver.
  - intros it [Hit|Hit]%elem_of_app; [by left|right]. rewrite (Hi it Hit).
    eexists. split; [apply elem_of_app; right; by apply list_elem_of_singleton|]. by destruct (unique_domains items).
  - rewrite map_app. by apply prefix_app_r.
  - intros r t [Hr|(k & d & _ & ->)%elem_of_rows_from]%elem_of_app E; [by exists r|done].
  - intros r Hr _ _. cbn. set_solver.
Qed.
