(* ===== verification/System.v ===== *)
(** * The whole system: every interleaving of workers, loops and operators

    A state is the database, the clock, the tokens handed out, the handlers in flight and
    the webhook events submitted.  A step is one transaction of one handler, a failed
    transaction, a handler dying, a new claim, one pass of a background loop, or one
    operator request.  Nothing bounds the number of workers or the order of steps. *)

From Stdlib Require Import ZArith Lia.
From stdpp Require Import base strings option sets list.
From S2P Require Import Prelude PyStr Sql Models Queue QueueInv Jobs JobsProps Transitions Worker Frame.

Record Sys := mkSys {
  s_db : DB;
  s_now : instant;
  s_issued : list string;
  s_procs : list (Claim * prog);
  s_events : list (string * Event)
}.

(** What a step does to the job it names. *)
Inductive Label := Retry (j : uuid) | Other.

Definition sys0 (now : instant) : Sys :=
  {| s_db := empty_db; s_now := now; s_issued := []; s_procs := []; s_events := [] |}.

(** ** Steps of one handler *)

Inductive pstep (now : instant) : DB → prog → DB → prog → list Event → Prop :=
  | ps_txn {T} db (f : DB → instant → T * DB) k err :
      pstep now db (Txn f k err) (f db now).2 (k (f db now).1) []
  | ps_txn_fails {T} db (f : DB → instant → T * DB) k err : pstep now db (Txn f k err) db err []
  | ps_process db d k o : pstep now db (ProcessDomain d k) db (k o) []
  | ps_reload db k err changed : pstep now db (ReloadKeys k err) db (k changed) []
  | ps_reload_fails db k err : pstep now db (ReloadKeys k err) db err []
  | ps_submit db u e k : pstep now db (Submit u e k) db k [e].

(** ** Steps of the system *)

Section system.
Context (cfg : Settings) (fetch_backend : string).

Inductive step : Label → Sys → Sys → Prop :=
  | s_tick s now' :
      (s_now s ≤ now')%Z →
      step Other s (mkSys (s_db s) now' (s_issued s) (s_procs s) (s_events s))
  | s_claim s locked worker hexes c db' :
      (∀ k, new_token worker (hexes k) ∉ s_issued s) →
      claim locked (s_db s) (s_now s) worker hexes = (Some c, db') →
      step Other s (mkSys db' (s_now s) (c_token c :: s_issued s)
                          (s_procs s ++ [(c, handle cfg fetch_backend c)]) (s_events s))
  | s_proc s l c p r db' p' es :
      s_procs s = l ++ (c, p) :: r → pstep (s_now s) (s_db s) p db' p' es →
      step Other s (mkSys db' (s_now s) (s_issued s) (l ++ (c, p') :: r)
                          (s_events s ++ map (pair (c_token c)) es))
  | s_die s l cp r :
      s_procs s = l ++ cp :: r →
      step Other s (mkSys (s_db s) (s_now s) (s_issued s) (l ++ r) (s_events s))
  | s_reap s :
      step Other s (mkSys (reap (s_db s) (s_now s)).2 (s_now s) (s_issued s) (s_procs s) (s_events s))
  | s_sweep s :
      step Other s (mkSys (complete_finished_jobs (s_db s) (s_now s)).2 (s_now s) (s_issued s)
                          (s_procs s) (s_events s))
  | s_beat s tokens :
      step Other s (mkSys (heartbeat (s_db s) (s_now s) tokens) (s_now s) (s_issued s) (s_procs s)
                          (s_events s))
  | s_release s worker :
      step Other s (mkSys (release_worker (s_db s) (s_now s) worker) (s_now s) (s_issued s)
                          (s_procs s) (s_events s))
  | s_resume s j :
      step Other s (mkSys (resume_job (s_db s) (s_now s) j).2 (s_now s) (s_issued s) (s_procs s)
                          (s_events s))
  | s_cancel s j :
      step Other s (mkSys (cancel_job (s_db s) (s_now s) j).2 (s_now s) (s_issued s) (s_procs s)
                          (s_events s))
  | s_resume_for s reason :
      step Other s (mkSys (resume_paused_for (s_db s) (s_now s) reason).2 (s_now s) (s_issued s)
                          (s_procs s) (s_events s))
  | s_retry s j :
      step (Retry j) s (mkSys (retry_job (s_db s) (s_now s) j).2 (s_now s) (s_issued s) (s_procs s)
                              (s_events s))
  | s_create s job_id items a :
      ¬ known (s_db s) job_id →
      step Other s (mkSys (create_job cfg (s_db s) (s_now s) job_id items a).2 (s_now s) (s_issued s)
                          (s_procs s) (s_events s)).

(** Executions, with the labels of their steps. *)
Inductive steps : list Label → Sys → Sys → Prop :=
  | steps_refl s : steps [] s s
  | steps_snoc ls s s1 l s2 : steps ls s s1 → step l s1 s2 → steps (ls ++ [l]) s s2.

Definition reachable (s : Sys) : Prop := ∃ now ls, steps ls (sys0 now) s.

(** ** Handlers only run operations of the queue *)

(** Every transaction of the program keeps the invariant and the frame, whatever tokens
    have been handed out besides the claim's own. *)
Fixpoint safe (c : Claim) (p : prog) : Prop :=
  match p with
  | Return | Raise => True
  | Txn f k err =>
      (∀ issued db now, c_token c ∈ issued → db_ok issued db → db_ok issued (f db now).2) ∧
      (∀ db now, frame db (f db now).2) ∧ (∀ x, safe c (k x)) ∧ safe c err
  | ProcessDomain _ k => ∀ o, safe c (k o)
  | ReloadKeys k err => (∀ b, safe c (k b)) ∧ safe c err
  | Submit _ _ k => safe c k
  end.

Lemma safe_on_error c p h : safe c p → safe c h → safe c (on_error p h).
Proof.
  intros Hp Hh. induction p as [| |T f k IHk err IHe|d k IHk|k IHk err IHe|u e k IHk]; cbn in *; try done.
  - destruct Hp as (? & ? & ? & ?). split_and!; auto.
  - intros o. auto.
  - destruct Hp. split; auto.
  - auto.
Qed.

Lemma safe_query c {T} (f : DB → instant → T) k : (∀ x, safe c (k x)) → safe c (query f k).
Proof. intros H. by split_and!. Qed.

Lemma safe_exec c (f : DB → instant → DB) k :
  (∀ issued db now, c_token c ∈ issued → db_ok issued db → db_ok issued (f db now)) →
  (∀ db now, frame db (f db now)) → safe c k → safe c (exec f k).
Proof. intros H1 H2 H3. by split_and!. Qed.

Lemma safe_unlock c k : safe c k → safe c (exec (λ db _, unlock_domain db c) k).
Proof.
  intros H. apply safe_exec; [|intros; apply unlock_domain_frame|done].
  intros. by apply unlock_domain_ok.
Qed.

Lemma safe_requeue c delay ca k : safe c k → safe c (exec (λ db now, requeue db now c delay ca) k).
Proof.
  intros H. apply safe_exec; [|intros; apply requeue_frame|done]. intros. by apply requeue_ok.
Qed.

Lemma safe_finish c job res fc wc : safe c (worker_finish job c res fc wc).
Proof.
  split_and!; [intros; by apply finish_ok|intros; apply finish_frame| |done].
  intros [rec fin]. cbn. destruct rec; [|done]. cbn.
  destruct job as [j|]; [|done]. destruct (j_webhook_url j) as [url|]; [|done].
  destruct (String.eqb url ""); [done|].
  apply safe_query. intros rows. destruct fin; [|done]. by apply safe_query.
Qed.

Lemma safe_handle c : safe c (handle cfg fetch_backend c).
Proof.
  assert (safe c (hand_back c)) as Hback by (by apply safe_unlock, safe_requeue).
  assert (∀ o, safe c (after_process cfg fetch_backend c o)) as Hafter.
  { intros [r| |]; cbn [after_process]; [| |done].
    - break; [by apply safe_unlock, safe_requeue|].
      apply safe_query. intros j. apply safe_finish.
    - split; [|done]. intros b. break; [done|].
      apply safe_exec; [|intros; apply pause_active_jobs_frame|done].
      intros. by apply pause_active_jobs_ok. }
  apply safe_on_error; [|by apply safe_on_error; [apply safe_unlock, safe_requeue|]].
  apply safe_query. intros [job|]; [|done].
  apply safe_query. intros [r|]; [apply safe_finish|].
  break; [apply safe_finish|].
  split_and!; [intros; by apply lock_domain_ok|intros; apply lock_domain_frame| |done].
  intros locked. break; [by apply safe_requeue|].
  apply safe_query. intros [r|]; [apply safe_unlock, safe_finish|done].
Qed.

(** ** What one step keeps *)

Definition sys_ok (s : Sys) : Prop :=
  db_ok (s_issued s) (s_db s) ∧
  (∀ c p, (c, p) ∈ s_procs s → c_token c ∈ s_issued s ∧ safe c p).

(** Claims with a token handed out before the step were on the same row before it. *)
Definition old_claims_sub (s s' : Sys) : Prop :=
  ∀ r' t, r' ∈ job_domains (s_db s') → jd_claimed_by r' = Some t → t ∈ s_issued s →
    ∃ r, r ∈ job_domains (s_db s) ∧ jd_key r = jd_key r' ∧ jd_claimed_by r = Some t.

Record step_keeps (l : Label) (s s' : Sys) : Prop := {
  sk_ok : sys_ok s';
  sk_issued : s_issued s ⊆ s_issued s';
  sk_rows : rows_stay (s_db s) (s_db s');
  sk_done : done_kept (λ j, l ≠ Retry j) (s_db s) (s_db s');
  sk_claims : old_claims_sub s s'
}.

Lemma keeps_frame l s db' now procs es :
  sys_ok s → db_ok (s_issued s) db' → frame (s_db s) db' →
  (∀ c p, (c, p) ∈ procs → c_token c ∈ s_issued s ∧ safe c p) →
  step_keeps l s (mkSys db' now (s_issued s) procs es).
Proof.
  intros [H1 H2] Hok Hf Hp. split; cbn; try done.
  - apply Hf.
  - intros r Hr _ Hd. by apply (fr_done _ _ Hf).
  - intros r t Hr E _. by apply (fr_claims _ _ Hf).
Qed.

Lemma pstep_keeps now db p db' p' es c issued :
  pstep now db p db' p' es → c_token c ∈ issued → db_ok issued db → safe c p →
  db_ok issued db' ∧ frame db db' ∧ safe c p'.
Proof.
  intros Hs Ht Hok Hp. destruct Hs; cbn in Hp.
  - destruct Hp as (? & ? & ? & ?). split_and!; auto.
  - split_and!; [done|reflexivity|apply Hp].
  - split_and!; [done|reflexivity|apply Hp].
  - split_and!; [done|reflexivity|apply Hp].
  - split_and!; [done|reflexivity|apply Hp].
  - split_and!; [done|reflexivity|apply Hp].
Qed.

Lemma claim_keeps s locked w hexes c db' :
  sys_ok s → (∀ k, new_token w (hexes k) ∉ s_issued s) →
  claim locked (s_db s) (s_now s) w hexes = (Some c, db') →
  step_keeps Other s (mkSys db' (s_now s) (c_token c :: s_issued s)
                            (s_procs s ++ [(c, handle cfg fetch_backend c)]) (s_events s)).
Proof.
  intros [H1 H2] Hf Hc. pose proof (claim_ok _ _ (s_now s) locked w hexes H1 Hf) as Hok.
  rewrite Hc in Hok. apply claim_Some, claim_loop_Some in Hc as (k & pick & _ & Ht & Hp & _ & ->).
  apply pick_row_Some in Hp as (Hr & _ & Hq & _).
  assert (∀ r, r ∈ job_domains (s_db s) → jd_state r = st_done →
          is_row (jd_job_id pick) (jd_domain pick) r = false) as Hnd.
  { intros r Hin Hd. destruct (is_row _ _ r) eqn:E; [|done]. apply is_row_true in E.
    assert (r = pick) as -> by (by apply (key_inj jd_key (job_domains (s_db s))); [apply H1|..]).
    congruence. }
  split; cbn.
  - split; cbn; [done|]. intros c' p [Hin|[= -> ->]%list_elem_of_singleton]%elem_of_app.
    + destruct (H2 c' p Hin). split; [set_solver|done].
    + split; [set_solver|apply safe_handle].
  - set_solver.
  - unfold mark_started.
    eapply rows_stay_trans; [|by apply fr_rows, frame_job_update].
    by apply rows_stay_row_update.
  - intros r Hin _ Hd. cbn. apply elem_of_update_where. exists r. split; [done|]. by rewrite Hnd.
  - intros r t (r0 & Hr0 & ->)%elem_of_update_where E Hold. exists r0. split; [done|].
    destruct (is_row _ _ r0); [|done]. cbn in E. injection E as <-. destruct (Hf k). by rewrite <- Ht.
Qed.

Lemma retry_keeps s j : sys_ok s →
  step_keeps (Retry j) s
    (mkSys (retry_job (s_db s) (s_now s) j).2 (s_now s) (s_issued s) (s_procs s) (s_events s)).
Proof.
  intros [H1 H2]. pose proof (retry_job_ok _ _ (s_now s) j H1) as Hok.
  assert (rows_stay (s_db s) (requeue_failed (s_db s) (s_now s) j).2 ∧
          done_kept (λ k, Retry j ≠ Retry k) (s_db s) (requeue_failed (s_db s) (s_now s) j).2 ∧
          claims_sub (s_db s) (requeue_failed (s_db s) (s_now s) j).2) as (F1 & F2 & F3).
  { unfold requeue_failed. cbn [snd].
    set (db1 := with_job_domains (s_db s) (update_where (retryable_row j) _ _)).
    assert (rows_stay (s_db s) db1 ∧ done_kept (λ k, Retry j ≠ Retry k) (s_db s) db1 ∧
            claims_sub (s_db s) db1) as (G1 & G2 & G3).
    { split_and!.
      - by apply rows_stay_row_update.
      - intros r Hr Hj Hd. apply elem_of_update_where. exists r. split; [done|].
        destruct (retryable_row j r) eqn:E; [|done].
        apply retryable_row_true in E as [E _]. destruct Hj. congruence.
      - intros r t (r0 & Hr0 & ->)%elem_of_update_where. break; [done|]. by exists r0. }
    break; [done|]. split_and!; [|done|done].
    eapply rows_stay_trans; [exact G1|]. by apply fr_rows, frame_job_update. }
  unfold retry_job in *.
  destruct (requeue_failed (s_db s) (s_now s) j) as [n db'] eqn:E. cbn in F1, F2, F3.
  assert (step_keeps (Retry j) s (mkSys (s_db s) (s_now s) (s_issued s) (s_procs s) (s_events s)))
    as Hsame by (apply keeps_frame; [done|done|reflexivity|done]).
  destruct (current_status (s_db s) j) as [[]|]; cbn in *; try done;
    (split; cbn; [done|set_solver|done|done|intros r t Hr Ec _; by apply F3]).
Qed.

Lemma step_keeps_all l s s' : step l s s' → sys_ok s → step_keeps l s s'.
Proof.
  intros Hs Hok. pose proof Hok as [H1 H2]. destruct Hs.
  - apply keeps_frame; [done|done|reflexivity|done].
  - by eapply claim_keeps.
  - destruct (H2 c p) as [Ht Hp]; [rewrite H; set_solver|].
    destruct (pstep_keeps _ _ _ _ _ _ _ _ H0 Ht H1 Hp) as (G1 & G2 & G3).
    apply keeps_frame; try done. intros c' q Hin.
    apply elem_of_app in Hin as [Hin|[[= -> ->]|Hin]%elem_of_cons]; [| done |];
      apply H2; rewrite H; set_solver.
  - apply keeps_frame; [done|done|reflexivity|]. intros c p Hin. apply H2. rewrite H. set_solver.
  - apply keeps_frame; [done|by apply reap_ok|apply reap_frame|done].
  - apply keeps_frame; [done|by apply complete_finished_jobs_ok|apply complete_finished_jobs_frame|done].
  - apply keeps_frame; [done|by apply heartbeat_ok|apply heartbeat_frame|done].
  - apply keeps_frame; [done|by apply release_worker_ok|apply release_worker_frame|done].
  - apply keeps_frame; [done|by apply resume_job_ok|apply resume_job_frame|done].
  - apply keeps_frame; [done|by apply cancel_job_ok|apply cancel_job_frame|done].
  - apply keeps_frame; [done|by apply resume_paused_for_ok|apply resume_paused_for_frame|done].
  - by apply retry_keeps.
  - apply keeps_frame; [done| |by apply create_job_frame|done].
    apply create_job_ok; [done|]. intros k Hk E. apply H. by exists k.
Qed.

Lemma steps_ok ls s s' : steps ls s s' → sys_ok s → sys_ok s'.
Proof. induction 1; [done|]. intros Hok. eapply sk_ok, step_keeps_all; eauto. Qed.

Lemma reachable_sys_ok s : reachable s → sys_ok s.
Proof.
  intros (now & ls & H). apply (steps_ok _ _ _ H). split; [apply db_ok_empty|]. cbn. set_solver.
Qed.
End system.

(** * Properties of every execution *)

(** ** A small execution, to evaluate the theorems at *)

Definition demo_item (i : Z) (d : string) : PreparedItem :=
  {| p_row_index := i; p_input_value := d; p_domain := Some d; p_status := None; p_reason := None;
     p_domain_source := "website"; p_raw_row := [("website", d)] |}.

Definition demo_new : NewJob :=
  {| n_source_columns := ["website"]; n_filename := None; n_website_column := Some "website";
     n_webhook_url := Some "https://example.org/hook"; n_fresh := false; n_owner_id := Some 7%N;
     n_idempotency_key := None; n_idempotency_fingerprint := None |}.

Definition demo_items : list PreparedItem := [demo_item 0 "acme.com"; demo_item 1 "acme.com"].

Definition demo_db : DB := (create_job default_settings empty_db 0 1%N demo_items demo_new).2.
Definition demo_hex (k : nat) : string := match k with O => "a" | _ => "b" end.
Definition demo_claim : option Claim * DB := claim (λ _, false) demo_db 0 "w" demo_hex.

Definition demo_c : Claim := mkClaim 1%N "acme.com" 1 "w|a" None.
Definition demo_running : Sys :=
  mkSys demo_claim.2 0 ["w|a"] [(demo_c, handle default_settings "jina" demo_c)] [].

Definition demo_result : DomainResult := blank_result "acme.com" no_contact_info.
Definition demo_done : DB := (finish demo_claim.2 5 demo_c demo_result false true).2.

Definition demo_created : Sys := mkSys demo_db 0 [] [] [].

Lemma demo_reachable : reachable default_settings "jina" demo_running.
Proof.
  exists 0%Z, ([Other] ++ [Other]). apply steps_snoc with demo_created.
  - apply (steps_snoc _ _ [] _ (sys0 0) Other demo_created); [constructor|].
    apply (s_create _ _ (sys0 0) 1%N demo_items demo_new).
    intros (k & Hk & _). cbn in Hk. set_solver.
  - apply (s_claim _ _ demo_created (λ _, false) "w" demo_hex demo_c demo_claim.2); [|reflexivity].
    cbn. set_solver.
Qed.

(** A handler run alone to its end is an execution of the system. *)
Lemma run_reachable cfg be o ch now c p i db issued es :
  reachable cfg be (mkSys db now issued [(c, p)] es) →
  ∃ p', reachable cfg be
    (mkSys (run_prog o ch (λ _, now) i p db).1 now issued [(c, p')]
           (es ++ map (pair (c_token c)) (run_prog o ch (λ _, now) i p db).2)).
Proof.
  assert (∀ db p db' p' es es', pstep now db p db' p' es' →
            reachable cfg be (mkSys db now issued [(c, p)] es) →
            reachable cfg be (mkSys db' now issued [(c, p')] (es ++ map (pair (c_token c)) es'))) as Hgo.
  { intros db1 p1 db2 p2 es1 es2 Hp (n & ls & Hs). exists n, (ls ++ [Other]).
    eapply steps_snoc; [exact Hs|]. by apply (s_proc _ _ (mkSys db1 now issued [(c, p1)] es1) [] c p1 [] db2 p2 es2). }
  revert i db es. induction p as [| |T f k IHk err _|d k IHk|k IHk err _|u e k IHk];
    intros i db es Hr; cbn.
  - exists Return. by rewrite app_nil_r.
  - exists Raise. by rewrite app_nil_r.
  - destruct (f db now) as [x db'] eqn:E. apply IHk.
    pose proof (Hgo _ _ _ _ es _ (ps_txn now db f k err) Hr) as H. by rewrite E, app_nil_r in H.
  - apply IHk. pose proof (Hgo _ _ _ _ es _ (ps_process now db d k o) Hr) as H.
    by rewrite app_nil_r in H.
  - apply IHk. pose proof (Hgo _ _ _ _ es _ (ps_reload now db k err ch) Hr) as H.
    by rewrite app_nil_r in H.
  - destruct (run_prog o ch (λ _, now) i k db) as [db' es'] eqn:E. cbn.
    pose proof (Hgo _ _ _ _ es _ (ps_submit now db u e k) Hr) as H.
    destruct (IHk i db _ H) as [p' Hp']. rewrite E in Hp'. exists p'. cbn in *.
    by rewrite <- app_assoc in Hp'.
Qed.

Definition demo_after : DB * list Event :=
  run_prog (Returned demo_result) false (λ _, 0%Z) 0 (handle default_settings "jina" demo_c)
    demo_claim.2.

Lemma demo_after_reachable : ∃ p,
  reachable default_settings "jina"
    (mkSys demo_after.1 0 ["w|a"] [(demo_c, p)] (map (pair "w|a") demo_after.2)).
Proof.
  exact (run_reachable _ _ (Returned demo_result) false 0%Z demo_c _ 0 demo_claim.2 _ []
           demo_reachable).
Qed.

Lemma demo_db_ok : db_ok ["w|a"] demo_claim.2.
Proof. apply (reachable_sys_ok _ _ _ demo_reachable). Qed.

(** ** The invariant holds in every reachable state *)

(** C1: in every state that any interleaving of workers, failed transactions, crashes,
    reaping, heartbeats, operators and uploads can reach, the queue is well formed: keys
    are unique, each row has a job, a row is claimed exactly while it is running and by a
    token no other row carries, done rows have their result, attempts are never negative,
    and a job marked done has no queued or running row. *)
Theorem reachable_queue_ok (cfg : Settings) (backend : string) (s : Sys)
    (H : reachable cfg backend s) : db_ok (s_issued s) (s_db s).
Proof. apply (reachable_sys_ok _ _ _ H). Qed.

Lemma reachable_queue_ok_witness :
  db_ok (s_issued demo_running) (s_db demo_running) ∧
  map jd_state (job_domains (s_db demo_running)) = [st_running].
Proof.
  split; [apply (reachable_queue_ok default_settings "jina"), demo_reachable|reflexivity].
Defined.

(** ** A claim records at most once *)

Definition gone (t : string) (db : DB) : Prop :=
  ∀ r, r ∈ job_domains db → jd_claimed_by r ≠ Some t.

Lemma steps_gone cfg be ls s s' t :
  steps cfg be ls s s' → sys_ok s → t ∈ s_issued s → gone t (s_db s) →
  gone t (s_db s') ∧ t ∈ s_issued s'.
Proof.
  induction 1 as [|ls s s1 l s2 H IH Hs]; intros Hok Ht Hg; [done|].
  destruct (IH Hok Ht Hg) as [Hg1 Ht1].
  pose proof (step_keeps_all _ _ _ _ _ Hs (steps_ok _ _ _ _ _ H Hok)) as K.
  split; [|by apply (sk_issued _ _ _ K)].
  intros r Hr E. destruct (sk_claims _ _ _ K r t Hr E Ht1) as (r0 & ? & _ & ?). by apply (Hg1 r0).
Qed.

Lemma gone_no_owner c db : gone (c_token c) db → any (owns c) (job_domains db) = false.
Proof.
  intros Hg. apply any_false. intros r Hr. destruct (owns c r) eqn:E; [|done].
  apply owns_true in E as (_ & E & _). by destruct (Hg r Hr).
Qed.

Lemma finish_not_owner c db now res fc wc :
  gone (c_token c) db → finish db now c res fc wc = ((false, false), unlock_domain db c).
Proof. intros Hg. by rewrite finish_unfold, gone_no_owner. Qed.

Lemma finish_recorded db now c res fc wc b :
  (finish db now c res fc wc).1 = (true, b) → any (owns c) (job_domains db) = true.
Proof. rewrite finish_unfold. by break. Qed.

Lemma finish_rows db now c res fc wc :
  any (owns c) (job_domains db) = true →
  job_domains (finish db now c res fc wc).2 =
  update_where (owns c) (record_row now res fc) (job_domains db).
Proof. intros H. rewrite finish_unfold, H. cbn. unfold finish_written. by break. Qed.

Lemma finish_gone issued db now c res fc wc b :
  db_ok issued db → (finish db now c res fc wc).1 = (true, b) →
  c_token c ∈ issued ∧ gone (c_token c) (finish db now c res fc wc).2.
Proof.
  intros Hok E%finish_recorded. pose proof E as (r & Hr & Ho)%any_true.
  apply owns_true in Ho as (Hk & Hc & Hs). split; [by apply (db_tokens_in _ _ Hok) with r|].
  intros r'. rewrite finish_rows by done. intros (r0 & Hr0 & ->)%elem_of_update_where.
  destruct (owns c r0) eqn:Eo; [done|]. intros Hc0.
  assert (r0 = r) as ->.
  { apply (key_inj jd_key (job_domains db)); try done; [apply Hok|].
    by apply (db_tokens_unique _ _ Hok r0 r (c_token c)). }
  assert (owns c r = true) by (by apply owns_true). congruence.
Qed.

(** C2: a claim records its outcome at most once.  When a [finish] has recorded, every later
    [finish] with the same claim, after any further steps of the whole system and whatever
    result it carries, reports (not recorded, job not done) and writes no row and no job,
    so a stale handler can neither overwrite a result nor send a second webhook. *)
Theorem finish_records_once (cfg : Settings) (backend : string) (s s' : Sys) (ls : list Label)
    (c : Claim) (res : DomainResult) (fc wc b : bool)
    (Hr : reachable cfg backend s)
    (Hrec : (finish (s_db s) (s_now s) c res fc wc).1 = (true, b))
    (Hsteps : steps cfg backend ls
                (mkSys (finish (s_db s) (s_now s) c res fc wc).2 (s_now s) (s_issued s) (s_procs s)
                       (s_events s)) s') :
  ∀ now' res' fc' wc',
    (finish (s_db s') now' c res' fc' wc').1 = (false, false) ∧
    job_domains (finish (s_db s') now' c res' fc' wc').2 = job_domains (s_db s') ∧
    jobs (finish (s_db s') now' c res' fc' wc').2 = jobs (s_db s').
Proof.
  intros now' res' fc' wc'. destruct (reachable_sys_ok _ _ _ Hr) as [Hok Hp].
  destruct (finish_gone _ _ _ _ _ _ _ _ Hok Hrec) as [Ht Hg].
  destruct (steps_gone _ _ _ _ _ (c_token c) Hsteps) as [Hg' _]; try done.
  { split; cbn; [by apply finish_ok|done]. }
  by rewrite finish_not_owner.
Qed.

Lemma finish_records_once_witness :
  (finish (s_db demo_running) 0 demo_c demo_result false true).1 = (true, true) ∧
  (finish (finish (s_db demo_running) 0 demo_c demo_result false true).2 9 demo_c demo_result
          false true).1 = (false, false).
Proof.
  split; [reflexivity|].
  refine (proj1 (finish_records_once default_settings "jina" demo_running _ [] demo_c demo_result
            false true true demo_reachable eq_refl (steps_refl _ _ _) 9 demo_result false true)).
Defined.

(** ** Finished results never change by themselves *)

Lemma frame_find_row (j : uuid) db db' :
  rows_stay db db' → done_kept (λ k, k = j) db db' →
  NoDup (map jd_key (job_domains db)) → NoDup (map jd_key (job_domains db')) → known db j →
  (∀ r, r ∈ job_domains db → jd_job_id r = j → jd_state r = st_done) →
  ∀ d, find_row jd_key (j, d) (job_domains db') = find_row jd_key (j, d) (job_domains db).
Proof.
  intros Hs Hd N N' Hk Hall d.
  destruct (find_row jd_key (j, d) (job_domains db)) as [r|] eqn:E.
  - apply find_row_Some in E as [Hr Ek].
    assert (jd_job_id r = j) as Hj by (unfold jd_key in Ek; congruence).
    rewrite <- Ek. apply find_row_unique; [done|]. apply Hd; auto.
  - apply find_row_None. intros r' Hr' Ek.
    destruct (fr_new _ _ Hs r' Hr') as [(r & Hr & E')|Hn].
    + apply (proj1 (find_row_None _ _ _) E r Hr). congruence.
    + apply Hn. unfold jd_key in Ek. by injection Ek as -> _.
Qed.

Lemma spec_row_same db db' it j :
  ji_job_id it = j →
  (∀ d, find_row jd_key (j, d) (job_domains db') = find_row jd_key (j, d) (job_domains db)) →
  spec_row db' it = spec_row db it.
Proof. intros Hj Hf. unfold spec_row, joined. rewrite Hj. destruct (ji_domain it); by rewrite ?Hf. Qed.

(** The job is known, all its rows are done, and its rows and input rows are those of [db0]. *)
Definition frozen (j : uuid) (db0 db : DB) : Prop :=
  known db j ∧ (∀ r, r ∈ job_domains db → jd_job_id r = j → jd_state r = st_done) ∧
  items_of j (job_items db) = items_of j (job_items db0) ∧
  (∀ d, find_row jd_key (j, d) (job_domains db) = find_row jd_key (j, d) (job_domains db0)).

Lemma step_frozen cfg be l s s' j db0 :
  step cfg be l s s' → sys_ok s → l ≠ Retry j → frozen j db0 (s_db s) → frozen j db0 (s_db s').
Proof.
  intros Hs Hok Hl (Hk & Hd & Hi & Hf). pose proof (step_keeps_all _ _ _ _ _ Hs Hok) as K.
  pose proof (sk_rows _ _ _ K) as Hr. destruct Hok as [Hok _]. destruct (sk_ok _ _ _ K) as [Hok' _].
  assert (∀ d, find_row jd_key (j, d) (job_domains (s_db s')) =
               find_row jd_key (j, d) (job_domains (s_db s))) as Hsame.
  { apply frame_find_row; try done; [|apply Hok|apply Hok'].
    intros r Hin Hid Hst. apply (sk_done _ _ _ K); [done|by rewrite Hid|done]. }
  split_and!.
  - by apply (fr_jobs _ _ Hr).
  - intros r' Hr' Hj. pose proof (find_row_unique jd_key _ r' (db_row_keys _ _ Hok') Hr') as Hu.
    change (jd_key r') with (jd_job_id r', jd_domain r') in Hu. rewrite Hj, Hsame in Hu. apply find_row_Some in Hu as [Hin _]. by apply Hd.
  - rewrite (fr_items _ _ Hr) by done. done.
  - intros d. by rewrite Hsame.
Qed.

Lemma steps_frozen cfg be ls s s' j db0 :
  steps cfg be ls s s' → sys_ok s → Retry j ∉ ls → frozen j db0 (s_db s) → frozen j db0 (s_db s').
Proof.
  induction 1 as [|ls s s1 l s2 H IH Hs]; intros Hok Hl Hf; [done|].
  eapply step_frozen; [exact Hs|by eapply steps_ok|set_solver|]. apply IH; try done. set_solver.
Qed.

(** C7: the download of a finished job never changes.  From any reachable state in which the
    job is done, whatever else happens to the system (other jobs refetching the same
    domains included), as long as nobody retries this job, every input row of its download
    keeps the same result. *)
Theorem finished_download_frozen (cfg : Settings) (backend : string) (s s' : Sys) (ls : list Label)
    (job : Job)
    (Hr : reachable cfg backend s) (Hj : job ∈ jobs (s_db s)) (Hdone : j_status job = job_done)
    (Hsteps : steps cfg backend ls s s') (Hno : Retry (j_id job) ∉ ls) :
  stream_rows (s_db s') (j_id job) = stream_rows (s_db s) (j_id job).
Proof.
  pose proof (reachable_sys_ok _ _ _ Hr) as Hok. destruct Hok as [Hdb Hp] eqn:E. clear E.
  destruct (steps_frozen _ _ _ _ _ (j_id job) (s_db s) Hsteps) as (_ & _ & Hi & Hf); try done.
  { split_and!; try done; [by exists job|]. intros r Hin Hid. by apply (db_done _ _ Hdb job r). }
  unfold stream_rows. rewrite !(stream_loop_sound _ (j_id job)).
  - unfold job_items_of. change (keep _ (job_items ?d)) with (items_of (j_id job) (job_items d)).
    rewrite Hi. apply map_ext_in. intros it Hit. apply spec_row_same with (j_id job); [|done].
    apply list_elem_of_In, elem_of_sort_by, elem_of_keep in Hit as [_ Hit].
    by apply bool_decide_eq_true in Hit.
  - intros it [_ H]%elem_of_sort_by%elem_of_keep. by apply bool_decide_eq_true in H.
  - unfold cache_sound. set_solver.
  - intros it [_ H]%elem_of_sort_by%elem_of_keep. by apply bool_decide_eq_true in H.
  - unfold cache_sound. set_solver.
Qed.

Lemma finished_download_frozen_witness :
  map j_status (jobs demo_after.1) = [job_done] ∧
  stream_rows (reap demo_after.1 0).2 1%N = stream_rows demo_after.1 1%N ∧
  length (stream_rows demo_after.1 1%N) = 2.
Proof.
  split; [vm_compute; reflexivity|split; [|vm_compute; reflexivity]].
  destruct demo_after_reachable as [p Hp].
  destruct (jobs demo_after.1) as [|job rest] eqn:E; [vm_compute in E; discriminate|].
  assert (j_id job = 1%N ∧ j_status job = job_done) as [Hid Hdone].
  { vm_compute in E. injection E as <- _. split; reflexivity. }
  rewrite <- Hid.
  apply (finished_download_frozen default_settings "jina" _
           (mkSys (reap demo_after.1 0).2 0 ["w|a"] [(demo_c, p)] (map (pair "w|a") demo_after.2))
           ([] ++ [Other]) job Hp).
  - change (job ∈ jobs demo_after.1). rewrite E. left.
  - exact Hdone.
  - eapply steps_snoc; [constructor|]. apply (s_reap _ _ (mkSys demo_after.1 _ _ _ _)).
  - set_solver.
Defined.
