(* ===== verification/Lifecycle.v ===== *)
(** * The life of a queue row: an abstract machine and its refinement

    The specification of the queue, without tables: a row is waiting, held by one token, or
    finished with a result.  Every step of the whole system moves each row along an edge of
    this machine, and a row is finished only by the handler that holds it. *)

From Stdlib Require Import ZArith Lia.
From stdpp Require Import base strings option sets list.
From S2P Require Import Prelude Sql Models Queue QueueInv Jobs JobsProps Transitions Worker Frame System.

(** ** The abstract machine *)

Inductive AState := AQueued | ARunning (token : string) | ADone (status : option Status) (result : option Stored).

Definition Key : Type := uuid * string.

(** The edges: [known_job] says the row's job exists already, [fresh] which tokens are new,
    [live] which tokens a handler in flight carries. *)
Inductive edge (l : Label) (known_job : uuid → Prop) (fresh live : string → Prop) (k : Key)
    : option AState → option AState → Prop :=
  | e_stay x : edge l known_job fresh live k x x
  | e_add : ¬ known_job k.1 → edge l known_job fresh live k None (Some AQueued)
  | e_take t : fresh t → edge l known_job fresh live k (Some AQueued) (Some (ARunning t))
  | e_back t : edge l known_job fresh live k (Some (ARunning t)) (Some AQueued)
  | e_record t st res :
      live t → edge l known_job fresh live k (Some (ARunning t)) (Some (ADone (Some st) (Some res)))
  | e_retry res :
      l = Retry k.1 → edge l known_job fresh live k (Some (ADone (Some fetch_failed) res)) (Some AQueued).

(** ** The abstraction *)

Definition abs_row (r : JobDomain) : AState :=
  match jd_state r with
  | st_queued => AQueued
  | st_running => ARunning (default "" (jd_claimed_by r))
  | st_done => ADone (jd_status r) (jd_result r)
  end.

Definition abs (db : DB) (k : Key) : option AState := abs_row <$> find_row jd_key k (job_domains db).

(** ** Moves of single rows *)

Inductive move (l : Label) (fresh live : string → Prop) (r r' : JobDomain) : Prop :=
  | mv_same : abs_row r' = abs_row r → move l fresh live r r'
  | mv_take t : jd_state r = st_queued → abs_row r' = ARunning t → fresh t → move l fresh live r r'
  | mv_back : jd_state r = st_running → jd_state r' = st_queued → move l fresh live r r'
  | mv_record t st res :
      jd_state r = st_running → jd_claimed_by r = Some t → live t →
      abs_row r' = ADone (Some st) (Some res) → move l fresh live r r'
  | mv_retry :
      l = Retry (jd_job_id r) → jd_state r = st_done → jd_status r = Some fetch_failed →
      jd_state r' = st_queued → move l fresh live r r'.

(** No row vanishes; each one has moved or is a new row of a new job. *)
Record moves (l : Label) (fresh live : string → Prop) (db db' : DB) : Prop := {
  ms_old : ∀ r, r ∈ job_domains db → ∃ r', r' ∈ job_domains db' ∧ jd_key r' = jd_key r;
  ms_new : ∀ r', r' ∈ job_domains db' →
    (∃ r, r ∈ job_domains db ∧ jd_key r = jd_key r' ∧ move l fresh live r r') ∨
    (jd_state r' = st_queued ∧ ¬ known db (jd_job_id r'))
}.

Lemma move_mono l fresh live fresh' live' r r' :
  (∀ t, fresh t → fresh' t) → (∀ t, live t → live' t) →
  move l fresh live r r' → move l fresh' live' r r'.
Proof. intros Hf Hl []; eauto using mv_same, mv_take, mv_back, mv_record, mv_retry. Qed.

Lemma moves_mono l fresh live fresh' live' db db' :
  (∀ t, fresh t → fresh' t) → (∀ t, live t → live' t) →
  moves l fresh live db db' → moves l fresh' live' db db'.
Proof.
  intros Hf Hl [H1 H2]. split; [done|]. intros r' Hr'.
  destruct (H2 r' Hr') as [(r & ? & ? & ?)|?]; [left; exists r|by right]. eauto using move_mono.
Qed.

Section single.
Context (l : Label) (fresh live : string → Prop).

Lemma moves_same db db' : job_domains db' = job_domains db → moves l fresh live db db'.
Proof. intros E. split; rewrite E; [by eauto|]. intros r Hr. left. exists r. eauto using mv_same. Qed.

Lemma moves_update db db' p f :
  (∀ r, r ∈ job_domains db → p r = true → jd_key (f r) = jd_key r ∧ move l fresh live r (f r)) →
  job_domains db' = update_where p f (job_domains db) → moves l fresh live db db'.
Proof.
  intros H E. split; rewrite E.
  - intros r Hr. exists (if p r then f r else r). split; [apply elem_of_update_where; eauto|].
    destruct (p r) eqn:Ep; [by apply H|done].
  - intros r' (r & Hr & ->)%elem_of_update_where. left. exists r. split; [done|].
    destruct (p r) eqn:Ep; [|by eauto using mv_same]. by destruct (H r Hr Ep).
Qed.

(** Rows given back by the operations of workers and loops. *)
Lemma requeue_moves db now c delay ca : moves l fresh live db (requeue db now c delay ca).
Proof. eapply moves_update; [|done]. intros r _ (_ & _ & Hs)%owns_true. eauto using mv_back. Qed.

Lemma reap_moves db now : moves l fresh live db (reap db now).2.
Proof.
  eapply moves_update; [|done]. intros r _ [Hs%state_is_true _]%andb_true_iff. eauto using mv_back.
Qed.

Lemma release_worker_moves db now w : moves l fresh live db (release_worker db now w).
Proof.
  eapply moves_update; [|done]. intros r _ [Hs%state_is_true _]%andb_true_iff. eauto using mv_back.
Qed.

Lemma heartbeat_moves db now ts : moves l fresh live db (heartbeat db now ts).
Proof.
  destruct ts as [|t ts]; [by apply moves_same|]. eapply moves_update; [|done].
  intros r _ _. split; [done|]. by apply mv_same.
Qed.

Lemma complete_each_rows db now ids : job_domains (complete_each db now ids) = job_domains db.
Proof. unfold complete_each. revert db. induction ids as [|i ids IH]; intros db; [done|]. cbn. by rewrite IH. Qed.

Lemma resume_job_rows db now j : job_domains (resume_job db now j).2 = job_domains db.
Proof. unfold resume_job, transition. cbn. by break. Qed.

Lemma cancel_job_rows db now j : job_domains (cancel_job db now j).2 = job_domains db.
Proof. unfold cancel_job, transition. cbn. by break. Qed.

Lemma finish_moves db now c res fc wc : live (c_token c) → moves l fresh live db (finish db now c res fc wc).2.
Proof.
  intros Hl. destruct (any (owns c) (job_domains db)) eqn:E.
  - eapply moves_update; [|by apply finish_rows]. intros r _ (_ & Hc & Hs)%owns_true. split; [done|].
    by eapply mv_record.
  - apply moves_same. by rewrite finish_unfold, E.
Qed.

Lemma create_job_moves cfg db now job_id items a :
  ¬ known db job_id → moves l fresh live db (create_job cfg db now job_id items a).2.
Proof.
  intros Hn. unfold create_job. cbn. rewrite insert_chunks_concat. split; cbn.
  - intros r Hr. exists r. set_solver.
  - intros r' [Hr|(i & d & _ & ->)%elem_of_rows_from]%elem_of_app; [left; exists r'; eauto using mv_same|by right].
Qed.
End single.

Lemma retry_moves fresh live db now j : moves (Retry j) fresh live db (retry_job db now j).2.
Proof.
  assert (moves (Retry j) fresh live db (requeue_failed db now j).2) as H.
  { apply (moves_update _ _ _ _ _ (retryable_row j) (λ r, set_queue r st_queued 0 now None None (Some now))).
    - intros r _ E. split; [done|]. destruct (retryable_row_true _ _ E) as [<- Hs].
      apply mv_retry; try done. unfold retryable_row, null_eq in E. by bool_to_prop.
    - unfold requeue_failed. cbn. by break. }
  unfold retry_job. destruct (requeue_failed db now j) as [n db'].
  destruct (current_status db j) as [[]|]; try done; by apply moves_same.
Qed.

(** ** Every transaction of a handler moves rows along the edges *)

Fixpoint each_txn (P : DB → DB → Prop) (p : prog) : Prop :=
  match p with
  | Return | Raise => True
  | Txn f k err => (∀ db now, P db (f db now).2) ∧ (∀ x, each_txn P (k x)) ∧ each_txn P err
  | ProcessDomain _ k => ∀ o, each_txn P (k o)
  | ReloadKeys k err => (∀ b, each_txn P (k b)) ∧ each_txn P err
  | Submit _ _ k => each_txn P k
  end.

(** A handler takes nothing and records only with its own token. *)
Definition by_claim (c : Claim) : DB → DB → Prop := moves Other (λ _, False) (λ t, t = c_token c).

Section handler.
Context (cfg : Settings) (backend : string) (c : Claim).
Let good (p : prog) : Prop := each_txn (by_claim c) p.

Lemma good_on_error p h : good p → good h → good (on_error p h).
Proof.
  intros Hp Hh. unfold good in *. induction p as [| |T f k IHk err IHe|d k IHk|k IHk err IHe|u e k IHk]; cbn in *; try done.
  - destruct Hp as (? & ? & ?). split_and!; auto.
  - intros o. auto.
  - destruct Hp. split; auto.
  - auto.
Qed.

Lemma good_query {T} (f : DB → instant → T) k : (∀ x, good (k x)) → good (query f k).
Proof. intros H. split_and!; [|done|done]. intros db now. by apply moves_same. Qed.

Lemma good_exec f k : (∀ db now, by_claim c db (f db now)) → good k → good (exec f k).
Proof. intros H1 H2. by split_and!. Qed.

Lemma good_unlock k : good k → good (exec (λ db _, unlock_domain db c) k).
Proof. apply good_exec. intros db now. by apply moves_same. Qed.

Lemma good_requeue delay ca k : good k → good (exec (λ db now, requeue db now c delay ca) k).
Proof. apply good_exec. intros db now. apply requeue_moves. Qed.

Lemma good_finish job res fc wc : good (worker_finish job c res fc wc).
Proof.
  split_and!; [intros; by apply finish_moves| |done].
  intros [recorded finished]. cbn. destruct recorded; [|done]. cbn.
  destruct job as [j|]; [|done]. destruct (j_webhook_url j) as [url|]; [|done].
  destruct (String.eqb url ""); [done|].
  apply good_query. intros rows. destruct finished; [|done]. by apply good_query.
Qed.

Lemma good_hand_back : good (hand_back c).
Proof. by apply good_unlock, good_requeue. Qed.

Lemma good_after_process o : good (after_process cfg backend c o).
Proof.
  destruct o as [r| |]; cbn [after_process]; [| |done].
  - break; [by apply good_unlock, good_requeue|]. apply good_query. intros j. apply good_finish.
  - split; [|done]. intros b. break; [apply good_hand_back|].
    apply good_exec; [|apply good_hand_back]. intros db now. by apply moves_same.
Qed.

Lemma good_handle : good (handle cfg backend c).
Proof.
  apply good_on_error; [|by apply good_on_error; [apply good_unlock, good_requeue|]].
  apply good_query. intros [job|]; [|done].
  apply good_query. intros [r|]; [apply good_finish|].
  break; [apply good_finish|].
  split_and!; [intros db now; by apply moves_same| |done].
  intros locked. break; [by apply good_requeue|].
  apply good_query. intros [r|]; [apply good_unlock, good_finish|]. intros o. apply good_after_process.
Qed.
End handler.

(** ** Every step of the system *)

Definition procs_good (s : Sys) : Prop := ∀ c p, (c, p) ∈ s_procs s → each_txn (by_claim c) p.

Definition live_in (s : Sys) (t : string) : Prop := ∃ c p, (c, p) ∈ s_procs s ∧ c_token c = t.
Definition fresh_in (s : Sys) (t : string) : Prop := t ∉ s_issued s.

Lemma pstep_good now db p db' p' es c :
  pstep now db p db' p' es → each_txn (by_claim c) p → by_claim c db db' ∧ each_txn (by_claim c) p'.
Proof.
  intros [] Hp; cbn in Hp; (split; [|by apply Hp || tauto]); try by apply moves_same. by apply Hp.
Qed.

Lemma claim_moves s locked w hexes c db' :
  db_ok (s_issued s) (s_db s) → (∀ k, new_token w (hexes k) ∉ s_issued s) →
  claim locked (s_db s) (s_now s) w hexes = (Some c, db') →
  moves Other (fresh_in s) (live_in s) (s_db s) db'.
Proof.
  intros Hok Hf Hc. apply claim_Some, claim_loop_Some in Hc as (k & pick & _ & Ht & Hp & _ & ->).
  apply pick_row_Some in Hp as (Hr & _ & Hq & _).
  eapply moves_update; [|done]. intros r Hin E%is_row_true. split; [done|].
  assert (r = pick) as -> by (by apply (key_inj jd_key (job_domains (s_db s))); [apply Hok|..]).
  eapply mv_take; [done|done|]. cbn. unfold fresh_in. rewrite Ht. apply Hf.
Qed.

Section refinement.
Context (cfg : Settings) (backend : string).

Lemma step_moves l s s' :
  step cfg backend l s s' → db_ok (s_issued s) (s_db s) → procs_good s →
  moves l (fresh_in s) (live_in s) (s_db s) (s_db s').
Proof.
  intros Hs Hok Hp. destruct Hs; cbn [s_db].
  - by apply moves_same.
  - by eapply claim_moves.
  - assert ((c, p) ∈ s_procs s) as Hin by (rewrite H; set_solver).
    destruct (pstep_good _ _ _ _ _ _ _ H0 (Hp _ _ Hin)) as [Hm _].
    eapply moves_mono; [| |exact Hm]; [done|]. intros t ->. by exists c, p.
  - by apply moves_same.
  - apply reap_moves.
  - by apply moves_same.
  - apply heartbeat_moves.
  - apply release_worker_moves.
  - apply moves_same, resume_job_rows.
  - apply moves_same, cancel_job_rows.
  - apply moves_same. unfold resume_paused_for. cbn. by rewrite complete_each_rows.
  - apply retry_moves.
  - by apply create_job_moves.
Qed.

Lemma step_procs_good l s s' : step cfg backend l s s' → procs_good s → procs_good s'.
Proof.
  intros Hs Hp. destruct Hs; try exact Hp; intros c0 p0; cbn.
  - intros [?|[= -> ->]%list_elem_of_singleton]%elem_of_app; [by apply Hp|apply good_handle].
  - assert ((c, p) ∈ s_procs s) as Hin by (rewrite H; set_solver).
    destruct (pstep_good _ _ _ _ _ _ _ H0 (Hp _ _ Hin)) as [_ Hg].
    intros [?|[[= -> ->]|?]%elem_of_cons]%elem_of_app; [|done|]; apply Hp; rewrite H; set_solver.
  - intros Hin. apply Hp. rewrite H. set_solver.
Qed.

Lemma reachable_procs_good s : reachable cfg backend s → procs_good s.
Proof.
  intros (now & ls & H). remember (sys0 now) as s0 eqn:E.
  induction H as [|ls s s1 l s2 H IH Hs]; [subst; by intros ?? ?%elem_of_nil|].
  eapply step_procs_good; [done|auto].
Qed.

(** ** From moves to edges *)

Lemma abs_row_running r t : row_ok r → jd_claimed_by r = Some t → abs_row r = ARunning t.
Proof. intros Hr E. unfold abs_row. by rewrite (claimed_running r t), E. Qed.

Lemma move_edge l kj fresh live r r' :
  row_ok r → move l fresh live r r' →
  edge l kj fresh live (jd_key r) (Some (abs_row r)) (Some (abs_row r')).
Proof.
  intros Hr []; try (rewrite H; apply e_stay).
  - rewrite H0. unfold abs_row. rewrite H. by apply e_take.
  - unfold abs_row at 2. rewrite H0. unfold abs_row. rewrite H. apply e_back.
  - rewrite H2, (abs_row_running r t) by done. by apply e_record.
  - unfold abs_row. rewrite H0, H1, H2. by apply e_retry.
Qed.

Lemma moves_edges issued l fresh live db db' k :
  db_ok issued db → NoDup (map jd_key (job_domains db')) → moves l fresh live db db' →
  edge l (known db) fresh live k (abs db k) (abs db' k).
Proof.
  intros Hok Hn [H1 H2]. unfold abs.
  destruct (find_row jd_key k (job_domains db)) as [r|] eqn:E.
  - apply find_row_Some in E as [Hr <-]. destruct (H1 r Hr) as (r' & Hr' & Ek).
    rewrite <- Ek, (find_row_unique jd_key _ r') by done. cbn.
    destruct (H2 r' Hr') as [(r0 & Hr0 & Ek0 & Hm)|[_ Hk]].
    + assert (r0 = r) as -> by (apply (key_inj jd_key (job_domains db)); [apply Hok|done|done|congruence]).
      rewrite Ek. apply move_edge; [|done]. pose proof (db_rows _ _ Hok) as Hf.
      rewrite Forall_forall in Hf. by apply Hf.
    + destruct Hk. destruct (db_fk _ _ Hok r Hr) as (j & Hj & Ej). exists j. split; [done|].
      rewrite Ej. symmetry. by apply jd_key_job.
  - destruct (find_row jd_key k (job_domains db')) as [r'|] eqn:E'; [|apply e_stay].
    apply find_row_Some in E' as [Hr' <-]. cbn.
    destruct (H2 r' Hr') as [(r0 & Hr0 & Ek0 & _)|[Hs Hk]].
    + destruct (proj1 (find_row_None _ _ _) E r0 Hr0 Ek0).
    + unfold abs_row. rewrite Hs. by apply e_add.
Qed.
End refinement.

(** C3: the queue implements the life cycle of a row.  In every reachable state, whatever
    step the system makes (a handler's transaction, a claim, a crash, a background loop, an
    operator's request, an upload), each row of each job moves along an edge of the abstract
    machine or stays: rows appear only with a new job, a waiting row is taken only with a
    token never handed out before, a held row is finished only while a handler carrying its
    token is in flight and otherwise only goes back to waiting, and a finished row leaves
    that state only when its own job is retried and it had failed to be fetched. *)
Theorem queue_refines_lifecycle (cfg : Settings) (backend : string) (l : Label) (s s' : Sys) (k : Key)
    (Hr : reachable cfg backend s) (Hstep : step cfg backend l s s') :
  edge l (known (s_db s)) (λ t, t ∉ s_issued s)
       (λ t, ∃ c p, (c, p) ∈ s_procs s ∧ c_token c = t) k
       (abs (s_db s) k) (abs (s_db s') k).
Proof.
  pose proof (reachable_sys_ok _ _ _ Hr) as Hok. pose proof Hok as [Hdb _].
  apply (moves_edges (s_issued s)); [done| |].
  - destruct (sk_ok _ _ _ (step_keeps_all _ _ _ _ _ Hstep Hok)) as [Hdb' _]. apply Hdb'.
  - by apply (step_moves cfg backend), (reachable_procs_good cfg backend).
Qed.

Lemma demo_created_reachable : reachable default_settings "jina" demo_created.
Proof.
  exists 0%Z, ([] ++ [Other]). apply (steps_snoc _ _ [] _ (sys0 0) Other demo_created); [constructor|].
  apply (s_create _ _ (sys0 0) 1%N demo_items demo_new). intros (k & Hk & _). cbn in Hk. set_solver.
Qed.

Lemma queue_refines_lifecycle_witness :
  abs (s_db demo_created) (1%N, "acme.com") = Some AQueued ∧
  abs (s_db demo_running) (1%N, "acme.com") = Some (ARunning "w|a") ∧
  edge Other (known (s_db demo_created)) (λ t, t ∉ s_issued demo_created)
    (λ t, ∃ c p, (c, p) ∈ s_procs demo_created ∧ c_token c = t) (1%N, "acme.com")
    (Some AQueued) (Some (ARunning "w|a")).
Proof.
  split; [reflexivity|]. split; [reflexivity|].
  apply (queue_refines_lifecycle default_settings "jina" Other demo_created demo_running (1%N, "acme.com")
           demo_created_reachable).
  apply (s_claim _ _ demo_created (λ _, false) "w" demo_hex demo_c demo_claim.2); [|reflexivity].
  cbn. set_solver.
Defined.
