(* ===== verification/WorkerLoop.v ===== *)
(** * The worker process ([Worker.run] in [src/app/worker.py])

    The claim loop with its slots, the tasks it spawns, the background loops, the stop
    signal and the drain, as steps of one process; a cluster is any number of such
    processes on one database, with the operators' requests between their steps.  A step
    is what happens between two awaits of the event loop.  The handlers are those of
    [Worker], one transaction per step. *)

From Stdlib Require Import ZArith Ascii Lia.
From stdpp Require Import base strings option sets list.
From S2P Require Import Prelude PyStr Sql Models Queue QueueInv Jobs JobsProps Transitions Worker Frame System.

(** ** One process *)

(** Where [run] stands. *)
Inductive Phase :=
  | Waiting                 (* in [_acquire_or_stop], for a slot or the stop signal *)
  | Granted                 (* the slot is taken, the loop has not resumed yet *)
  | Claiming                (* a slot is held, [queue.claim] runs *)
  | Idling                  (* nothing to claim: asleep for the poll interval *)
  | Draining                (* the tasks are being cancelled *)
  | Closing (given_back : bool)   (* [release_worker] committed, or failed *)
  | Stopped (given_back : bool).
#[export] Instance Phase_eq_dec : EqDecision Phase.
Proof. solve_decision. Defined.

(** A task of [_spawn]: it enters [_live] when it first runs. *)
Record Task := mkTask { t_claim : Claim; t_prog : prog; t_started : bool }.

Record Worker := mkWorker {
  w_id : string;
  w_concurrency : nat;
  w_slots : nat;
  w_phase : Phase;
  w_tasks : list Task;
  w_live : list string;
  w_stopping : bool;
  w_last_claim_at : option instant
}.

(** What the processes share. *)
Record Core := mkCore { k_db : DB; k_now : instant; k_issued : list string; k_events : list (string * Event) }.

Definition token_of (t : Task) : string := c_token (t_claim t).

Definition discard (x : string) (l : list string) : list string := keep (λ y, negb (String.eqb x y)) l.
Definition add (x : string) (l : list string) : list string := if mem x l then l else l ++ [x].

Definition set_phase (w : Worker) (p : Phase) : Worker :=
  mkWorker (w_id w) (w_concurrency w) (w_slots w) p (w_tasks w) (w_live w) (w_stopping w) (w_last_claim_at w).
Definition set_slots (w : Worker) (n : nat) : Worker :=
  mkWorker (w_id w) (w_concurrency w) n (w_phase w) (w_tasks w) (w_live w) (w_stopping w) (w_last_claim_at w).
Definition set_tasks (w : Worker) (ts : list Task) (live : list string) : Worker :=
  mkWorker (w_id w) (w_concurrency w) (w_slots w) (w_phase w) ts live (w_stopping w) (w_last_claim_at w).

Definition acquire (w : Worker) : Worker := set_slots w (pred (w_slots w)).
Definition release (w : Worker) : Worker := set_slots w (S (w_slots w)).

(** [while not self._stopping.is_set()] *)
Definition loop_head (w : Worker) : Worker := set_phase w (if w_stopping w then Draining else Waiting).

Definition new_worker (id : string) (concurrency : nat) : Worker :=
  mkWorker id concurrency concurrency Waiting [] [] false None.

Definition stop (w : Worker) : Worker :=
  mkWorker (w_id w) (w_concurrency w) (w_slots w) (w_phase w) (w_tasks w) (w_live w) true (w_last_claim_at w).

(** [_acquire_or_stop] resumes with the slot: a stop in between gives it back. *)
Definition resume_granted (w : Worker) : Worker :=
  if w_stopping w then set_phase (release w) Draining else set_phase w Claiming.

Definition spawn (cfg : Settings) (backend : string) (w : Worker) (c : Claim) (now : instant) : Worker :=
  loop_head (mkWorker (w_id w) (w_concurrency w) (w_slots w) (w_phase w)
               (w_tasks w ++ [mkTask c (handle cfg backend c) false]) (w_live w) (w_stopping w) (Some now)).

(** No claim, or the claim raised. *)
Definition no_claim (w : Worker) : Worker := set_phase (release w) Idling.

(** [run_one]'s [finally]. *)
Definition task_over (w : Worker) (rest : list Task) (t : Task) : Worker :=
  release (set_tasks w rest (discard (token_of t) (w_live w))).

(** What [health] reports, without the breaker. *)
Definition health (w : Worker) : string * nat * nat * option instant :=
  (w_id w, w_concurrency w, length (w_live w), w_last_claim_at w).

Definition over (p : prog) : bool := match p with Return | Raise => true | _ => false end.
Definition alive (w : Worker) : Prop := ∀ b, w_phase w ≠ Stopped b.

(** [_heartbeat_loop]: the live claims are renewed.  The health it reports and the keys it
    reloads next are [ProviderKeys.report_health] and [KeyRefresh.heartbeat_loop]. *)
Definition beat (w : Worker) (k : Core) : Core :=
  mkCore (heartbeat (k_db k) (k_now k) (w_live w)) (k_now k) (k_issued k) (k_events k).

(** [_reap_loop]: the dead claims are freed, then the finished jobs completed, each in its
    own transaction. *)
Definition reap_dead (k : Core) : Core := mkCore (reap (k_db k) (k_now k)).2 (k_now k) (k_issued k) (k_events k).
Definition sweep (k : Core) : Core :=
  mkCore (complete_finished_jobs (k_db k) (k_now k)).2 (k_now k) (k_issued k) (k_events k).

(** [_drain]'s transaction. *)
Definition give_back (w : Worker) (k : Core) : Core :=
  mkCore (release_worker (k_db k) (k_now k) (w_id w)) (k_now k) (k_issued k) (k_events k).

Section steps.
Context (cfg : Settings) (backend : string).

Inductive wstep : Worker → Core → Worker → Core → Prop :=
  (* the loop *)
  | w_stop w k : wstep w k (stop w) k
  | w_grant w k :
      w_phase w = Waiting → (0 < w_slots w)%nat → wstep w k (set_phase (acquire w) Granted) k
  | w_abandon w k : w_phase w = Waiting → w_stopping w = true → wstep w k (set_phase w Draining) k
  | w_resume w k : w_phase w = Granted → wstep w k (resume_granted w) k
  | w_claim w k locked hexes c db' :
      w_phase w = Claiming → (∀ i, new_token (w_id w) (hexes i) ∉ k_issued k) →
      claim locked (k_db k) (k_now k) (w_id w) hexes = (Some c, db') →
      wstep w k (spawn cfg backend w c (k_now k)) (mkCore db' (k_now k) (c_token c :: k_issued k) (k_events k))
  | w_nothing w k locked hexes db' :
      w_phase w = Claiming → claim locked (k_db k) (k_now k) (w_id w) hexes = (None, db') →
      wstep w k (no_claim w) (mkCore db' (k_now k) (k_issued k) (k_events k))
  | w_claim_fails w k :                           (* [queue.claim] raised: a database blip *)
      w_phase w = Claiming → wstep w k (no_claim w) k
  | w_claim_lost w k locked hexes c db' :        (* committed, but the answer never came *)
      w_phase w = Claiming → (∀ i, new_token (w_id w) (hexes i) ∉ k_issued k) →
      claim locked (k_db k) (k_now k) (w_id w) hexes = (Some c, db') →
      wstep w k (no_claim w) (mkCore db' (k_now k) (c_token c :: k_issued k) (k_events k))
  | w_wake w k : w_phase w = Idling → wstep w k (loop_head w) k
  (* the tasks *)
  | w_start w k l t r :
      w_tasks w = l ++ t :: r → t_started t = false →
      wstep w k (set_tasks w (l ++ mkTask (t_claim t) (t_prog t) true :: r) (add (token_of t) (w_live w))) k
  | w_run w k l t r db' p' es :
      w_tasks w = l ++ t :: r → t_started t = true → pstep (k_now k) (k_db k) (t_prog t) db' p' es →
      wstep w k (set_tasks w (l ++ mkTask (t_claim t) p' true :: r) (w_live w))
                (mkCore db' (k_now k) (k_issued k) (k_events k ++ map (pair (token_of t)) es))
  | w_done w k l t r :
      w_tasks w = l ++ t :: r → t_started t = true → over (t_prog t) = true →
      wstep w k (task_over w (l ++ r) t) k
  (* the drain *)
  | w_cancel w k l t r :
      w_phase w = Draining → w_tasks w = l ++ t :: r → t_started t = true →
      wstep w k (task_over w (l ++ r) t) k
  | w_cancel_early w k l t r :                    (* its coroutine never ran: no [finally] *)
      w_phase w = Draining → w_tasks w = l ++ t :: r → t_started t = false →
      wstep w k (set_tasks w (l ++ r) (w_live w)) k
  | w_release w k :
      w_phase w = Draining → w_tasks w = [] →
      wstep w k (set_phase w (Closing true)) (give_back w k)
  | w_release_fails w k :
      w_phase w = Draining → w_tasks w = [] → wstep w k (set_phase w (Closing false)) k
  | w_close w k b : w_phase w = Closing b → wstep w k (set_phase w (Stopped b)) k
  (* the background loops *)
  | w_beat w k : alive w → wstep w k w (beat w k)
  | w_reap w k : alive w → wstep w k w (reap_dead k)
  | w_sweep w k : alive w → wstep w k w (sweep k).

(** ** The cluster *)

Record Cluster := mkCluster { cl_core : Core; cl_workers : list Worker; cl_ids : list string }.

Definition cluster0 (now : instant) : Cluster := mkCluster (mkCore empty_db now [] []) [] [].

(** A name without LIKE's wildcards and without the bar that ends it in a token. *)
Definition good_id (id : string) : bool := like_plain id && negb (has_char "|" id).

(** The requests of people, and time. *)
Inductive env_step : Label → Core → Core → Prop :=
  | e_tick k now' : (k_now k ≤ now')%Z → env_step Other k (mkCore (k_db k) now' (k_issued k) (k_events k))
  | e_resume k j :
      env_step Other k (mkCore (resume_job (k_db k) (k_now k) j).2 (k_now k) (k_issued k) (k_events k))
  | e_cancel k j :
      env_step Other k (mkCore (cancel_job (k_db k) (k_now k) j).2 (k_now k) (k_issued k) (k_events k))
  | e_resume_for k reason :
      env_step Other k (mkCore (resume_paused_for (k_db k) (k_now k) reason).2 (k_now k) (k_issued k) (k_events k))
  | e_retry k j :
      env_step (Retry j) k (mkCore (retry_job (k_db k) (k_now k) j).2 (k_now k) (k_issued k) (k_events k))
  | e_create k job_id items a :
      ¬ known (k_db k) job_id →
      env_step Other k (mkCore (create_job cfg (k_db k) (k_now k) job_id items a).2 (k_now k) (k_issued k) (k_events k)).

Inductive cstep : Cluster → Cluster → Prop :=
  | c_env l core core' ws ids :
      env_step l core core' → cstep (mkCluster core ws ids) (mkCluster core' ws ids)
  | c_join core ws ids id n :
      id ∉ ids → good_id id = true →
      cstep (mkCluster core ws ids) (mkCluster core (ws ++ [new_worker id n]) (id :: ids))
  | c_step core core' l w w' r ids :
      wstep w core w' core' →
      cstep (mkCluster core (l ++ w :: r) ids) (mkCluster core' (l ++ w' :: r) ids)
  | c_crash core l w r ids :                      (* killed: nothing is handed back *)
      cstep (mkCluster core (l ++ w :: r) ids) (mkCluster core (l ++ r) ids).

Inductive csteps : Cluster → Cluster → Prop :=
  | csteps_refl c : csteps c c
  | csteps_snoc c c1 c2 : csteps c c1 → cstep c1 c2 → csteps c c2.

Definition cluster_reachable (c : Cluster) : Prop := ∃ now, csteps (cluster0 now) c.
End steps.
