(* ===== verification/WorkerLoopProps.v ===== *)
(** * What the worker processes promise *)

From Stdlib Require Import ZArith Ascii Lia.
From stdpp Require Import base strings option sets list.
From S2P Require Import Prelude PyStr Sql Models Queue QueueInv QueueProps Jobs JobsProps Transitions Worker Frame System WorkerLoop.

Section cluster.
Context (cfg : Settings) (backend : string).

#[local] Abbreviation wstep := (wstep cfg backend).
#[local] Abbreviation cstep := (cstep cfg backend).
#[local] Abbreviation csteps := (csteps cfg backend).
#[local] Abbreviation steps := (steps cfg backend).

(** ** The cluster is an instance of the system *)

Definition proc_of (t : Task) : Claim * prog := (t_claim t, t_prog t).
Definition procs_of (w : Worker) : list (Claim * prog) := map proc_of (w_tasks w).
Definition procs (ws : list Worker) : list (Claim * prog) := concat (map procs_of ws).

(** The same database, clock, tokens and events, and the same handlers in some order. *)
Record sim (k : Core) (ps : list (Claim * prog)) (s : Sys) : Prop := {
  sim_db : s_db s = k_db k;
  sim_now : s_now s = k_now k;
  sim_issued : s_issued s = k_issued k;
  sim_events : s_events s = k_events k;
  sim_procs : s_procs s ≡ₚ ps
}.

Lemma sim_perm k ps ps' s : sim k ps s → ps ≡ₚ ps' → sim k ps' s.
Proof. intros [] H. split; try done. by rewrite <- H. Qed.

Lemma one_step l s s' : step cfg backend l s s' → steps [l] s s'.
Proof. intros H. apply (steps_snoc _ _ [] s s l s'); [constructor|done]. Qed.

Lemma steps_app ls1 ls2 s s1 s2 : steps ls1 s s1 → steps ls2 s1 s2 → steps (ls1 ++ ls2) s s2.
Proof. intros H1. induction 1; [by rewrite app_nil_r|]. rewrite app_assoc. by econstructor; [apply IHsteps|]. Qed.

Lemma split_procs k c p ps s :
  sim k ((c, p) :: ps) s → ∃ l r, s_procs s = l ++ (c, p) :: r ∧ l ++ r ≡ₚ ps.
Proof.
  intros [_ _ _ _ Hp]. assert ((c, p) ∈ s_procs s) as Hin by (rewrite Hp; left).
  apply list_elem_of_split in Hin as (l & r & E). exists l, r. split; [done|].
  rewrite E, <- Permutation_middle in Hp. by apply Permutation_cons_inv in Hp.
Qed.

Lemma sim_die k c p ps s : sim k ((c, p) :: ps) s → ∃ ls s', steps ls s s' ∧ sim k ps s'.
Proof.
  intros H. destruct (split_procs _ _ _ _ _ H) as (l & r & E & Hp).
  eexists _, _. split; [apply one_step; eapply s_die; exact E|]. destruct H. by split.
Qed.

Lemma sim_claim k ps s locked id hexes c db' :
  sim k ps s → (∀ i, new_token id (hexes i) ∉ k_issued k) →
  claim locked (k_db k) (k_now k) id hexes = (Some c, db') →
  ∃ ls s', steps ls s s' ∧
    sim (mkCore db' (k_now k) (c_token c :: k_issued k) (k_events k)) ((c, handle cfg backend c) :: ps) s'.
Proof.
  intros [E1 E2 E3 E4 Hp] Hf Hc. rewrite <- E1, <- E2 in Hc. eexists _, _. split.
  - apply one_step. eapply s_claim; [|exact Hc]. by rewrite E3.
  - split; cbn; try done; [by rewrite E3|]. by rewrite Hp, Permutation_app_comm.
Qed.

Lemma sim_stay k ps ps' s : sim k ps s → ps ≡ₚ ps' → ∃ ls s', steps ls s s' ∧ sim k ps' s'.
Proof. intros H Hp. exists [], s. split; [constructor|]. by eapply sim_perm. Qed.

Lemma sim_run k c p ps s db' p' es :
  sim k ((c, p) :: ps) s → pstep (k_now k) (k_db k) p db' p' es →
  ∃ ls s', steps ls s s' ∧
    sim (mkCore db' (k_now k) (k_issued k) (k_events k ++ map (pair (c_token c)) es)) ((c, p') :: ps) s'.
Proof.
  intros H Hs. destruct (split_procs _ _ _ _ _ H) as (l & r & E & Hp). destruct H as [E1 E2 E3 E4 _].
  rewrite <- E1, <- E2 in Hs. eexists _, _. split; [by apply one_step; eapply s_proc|].
  split; cbn; try done; [by rewrite E4|]. by rewrite <- Permutation_middle, Hp.
Qed.

Lemma procs_split l t r rest : map proc_of (l ++ t :: r) ++ rest ≡ₚ proc_of t :: map proc_of (l ++ r) ++ rest.
Proof. rewrite !map_app. cbn. by rewrite <- Permutation_middle. Qed.

(** One step of one process, the others' handlers being [rest]. *)
Lemma wstep_sim w k w' k' rest s :
  wstep w k w' k' → sim k (procs_of w ++ rest) s → ∃ ls s', steps ls s s' ∧ sim k' (procs_of w' ++ rest) s'.
Proof.
  intros Hs H. unfold procs_of in *.
  destruct Hs as [| | | |w k locked hexes c db' Hph Hf Hc|w k locked hexes db' Hph Hc| |w k locked hexes c db' Hph Hf Hc|
    |w k l t r Ht Hn|w k l t r db' p' es Ht Hn Hps|w k l t r Ht Hn Ho|w k l t r Hph Ht Hn|w k l t r Hph Ht Hn
    |w k Hph Ht|w k Hph Ht| |w k Ha|w k Ha|w k Ha];
    try (by apply (sim_stay _ _ _ _ H)).
  - unfold resume_granted. destruct (w_stopping w); by apply (sim_stay _ _ _ _ H).
  - destruct (sim_claim _ _ _ _ _ _ _ _ H Hf Hc) as (ls & s' & ? & Hs'). exists ls, s'. split; [done|].
    eapply sim_perm; [exact Hs'|]. cbn. rewrite map_app, <- app_assoc. cbn. by rewrite <- Permutation_middle.
  - unfold claim in Hc. destruct (claim_loop _ _ _ _ _ _ _) as [[? ?]|]; [done|]. injection Hc as <-.
    destruct k. by apply (sim_stay _ _ _ _ H).
  - destruct (sim_claim _ _ _ _ _ _ _ _ H Hf Hc) as (ls & s' & H1 & Hs').
    destruct (sim_die _ _ _ _ _ Hs') as (ls' & s'' & H2 & Hs''). exists (ls ++ ls'), s''.
    split; [by eapply steps_app|done].
  - apply (sim_stay _ _ _ _ H). cbn. rewrite Ht, !map_app. done.
  - rewrite Ht in H. eapply sim_perm in H; [|apply procs_split].
    destruct (sim_run _ _ _ _ _ _ _ _ H Hps) as (ls & s' & ? & Hs'). exists ls, s'. split; [done|].
    eapply sim_perm; [exact Hs'|]. cbn [set_tasks w_tasks]. by rewrite procs_split.
  - rewrite Ht in H. eapply sim_perm in H; [|apply procs_split]. by apply sim_die in H.
  - rewrite Ht in H. eapply sim_perm in H; [|apply procs_split]. by apply sim_die in H.
  - rewrite Ht in H. eapply sim_perm in H; [|apply procs_split]. by apply sim_die in H.
  - destruct H as [E1 E2 E3 E4 Hp]. eexists _, _. split; [apply one_step, (s_release _ _ s (w_id w))|]. by split; cbn; rewrite ?E1, ?E2.
  - destruct H as [E1 E2 E3 E4 Hp]. eexists _, _. split; [apply one_step, (s_beat _ _ s (w_live w))|]. by split; cbn; rewrite ?E1, ?E2.
  - destruct H as [E1 E2 E3 E4 Hp]. eexists _, _. split; [apply one_step, s_reap|]. by split; cbn; rewrite ?E1, ?E2.
  - destruct H as [E1 E2 E3 E4 Hp]. eexists _, _. split; [apply one_step, s_sweep|]. by split; cbn; rewrite ?E1, ?E2.
Qed.

Lemma env_sim l k k' ps s : env_step cfg l k k' → sim k ps s → ∃ ls s', steps ls s s' ∧ sim k' ps s'.
Proof.
  intros He [E1 E2 E3 E4 Hp]. exists [l]. destruct He as [k now' Hn|k j|k j|k reason|k j|k job_id items a Hk].
  - eexists. split; [apply one_step, (s_tick _ _ s now'); lia|]. by split; cbn.
  - eexists. split; [apply one_step, (s_resume _ _ s j)|]. by split; cbn; rewrite ?E1, ?E2.
  - eexists. split; [apply one_step, (s_cancel _ _ s j)|]. by split; cbn; rewrite ?E1, ?E2.
  - eexists. split; [apply one_step, (s_resume_for _ _ s reason)|]. by split; cbn; rewrite ?E1, ?E2.
  - eexists. split; [apply one_step, (s_retry _ _ s j)|]. by split; cbn; rewrite ?E1, ?E2.
  - eexists. split; [apply one_step, (s_create _ _ s job_id items a); by rewrite E1|]. by split; cbn; rewrite ?E1, ?E2.
Qed.

Lemma procs_middle l w r : procs (l ++ w :: r) ≡ₚ procs_of w ++ procs (l ++ r).
Proof. unfold procs. rewrite !map_app, !concat_app. cbn. by rewrite Permutation_app_swap_app. Qed.

Lemma sim_die_all k ps rest s : sim k (ps ++ rest) s → ∃ ls s', steps ls s s' ∧ sim k rest s'.
Proof.
  revert s. induction ps as [|[c p] ps IH]; intros s H; [by apply (sim_stay _ _ _ _ H)|].
  destruct (sim_die _ _ _ _ _ H) as (ls & s1 & H1 & H2). destruct (IH s1 H2) as (ls' & s2 & H3 & H4).
  exists (ls ++ ls'), s2. split; [by eapply steps_app|done].
Qed.

Lemma cstep_sim c c' s :
  cstep c c' → sim (cl_core c) (procs (cl_workers c)) s →
  ∃ ls s', steps ls s s' ∧ sim (cl_core c') (procs (cl_workers c')) s'.
Proof.
  intros Hs H. destruct Hs as [l core core' ws ids He|core ws ids id n Hid Hg|core core' l w w' r ids Hw|core l w r ids];
    cbn [cl_core cl_workers] in *.
  - by eapply env_sim.
  - apply (sim_stay _ _ _ _ H). unfold procs. rewrite map_app, concat_app. cbn. by rewrite app_nil_r.
  - eapply sim_perm in H; [|apply procs_middle]. destruct (wstep_sim _ _ _ _ _ _ Hw H) as (ls & s' & ? & ?).
    exists ls, s'. split; [done|]. eapply sim_perm; [done|]. by rewrite procs_middle.
  - eapply sim_perm in H; [|apply procs_middle]. by apply sim_die_all in H.
Qed.

(** ** Slots and live claims *)

(** A slot is held between its grant and the claim's end. *)
Definition held (p : Phase) : nat := match p with Granted | Claiming => 1 | _ => 0 end.
Definition draining (p : Phase) : bool := match p with Draining | Closing _ | Stopped _ => true | _ => false end.
Definition closed (p : Phase) : bool := match p with Closing _ | Stopped _ => true | _ => false end.

Definition started_tokens (w : Worker) : list string := map token_of (keep t_started (w_tasks w)).

Record worker_ok (issued : list string) (w : Worker) : Prop := {
  wo_slots : draining (w_phase w) = false → w_slots w + held (w_phase w) + length (w_tasks w) = w_concurrency w;
  wo_bound : w_slots w + length (w_tasks w) ≤ w_concurrency w;
  wo_live : w_live w ≡ₚ started_tokens w;
  wo_tokens : NoDup (map token_of (w_tasks w));
  wo_issued : ∀ t, t ∈ w_tasks w → token_of t ∈ issued;
  wo_closed : closed (w_phase w) = true → w_tasks w = []
}.

Lemma worker_ok_mono issued issued' w : worker_ok issued w → issued ⊆ issued' → worker_ok issued' w.
Proof. intros [] Hs. split; try done. auto. Qed.

Lemma started_split l t r :
  map token_of (keep t_started (l ++ t :: r)) ≡ₚ
  (if t_started t then [token_of t] else []) ++ map token_of (keep t_started (l ++ r)).
Proof.
  rewrite !keep_app, !map_app. unfold keep at 2. cbn [List.filter]. destruct (t_started t); cbn.
  - by rewrite <- Permutation_middle.
  - done.
Qed.

Lemma tokens_split l t r : map token_of (l ++ t :: r) ≡ₚ token_of t :: map token_of (l ++ r).
Proof. rewrite !map_app. cbn. by rewrite <- Permutation_middle. Qed.

Lemma discard_perm x l l' : l ≡ₚ x :: l' → x ∉ l' → discard x l ≡ₚ l'.
Proof.
  intros Hp Hx. unfold discard. rewrite Hp. unfold keep. cbn [List.filter]. rewrite String.eqb_refl. cbn.
  assert (List.filter (λ y, negb (String.eqb x y)) l' = l') as ->; [|done].
  clear Hp. induction l' as [|y l' IH]; cbn; [done|]. apply not_elem_of_cons in Hx as [Hne Hx].
  destruct (String.eqb_spec x y) as [->|]; [done|]. cbn. by rewrite IH.
Qed.

Lemma keep_map_sublist w : started_tokens w `sublist_of` map token_of (w_tasks w).
Proof. unfold started_tokens, keep. induction (w_tasks w) as [|t ts IH]; cbn; [done|]. destruct (t_started t); cbn; by constructor. Qed.

Lemma claim_token locked db now id hexes c db' :
  claim locked db now id hexes = (Some c, db') → ∃ i, c_token c = new_token id (hexes i).
Proof. intros Hc. apply claim_Some, claim_loop_Some in Hc as (k & pick & _ & Ht & _). eauto. Qed.

(** A task leaves: its slot and its token are free again. *)
Lemma task_over_ok issued w l t r :
  worker_ok issued w → w_tasks w = l ++ t :: r → t_started t = true → worker_ok issued (task_over w (l ++ r) t).
Proof.
  intros [S B L T I C] Ht Hst. unfold started_tokens in L. rewrite Ht in *.
  rewrite tokens_split in T. apply NoDup_cons in T as [Hnew T].
  assert (length (l ++ t :: r) = Datatypes.S (length (l ++ r))) as El by (rewrite !length_app; cbn; lia).
  split; cbn [task_over release set_slots set_tasks w_phase w_slots w_tasks w_concurrency w_live] in *.
  - intros Hd. specialize (S Hd). lia.
  - lia.
  - rewrite started_split, Hst in L. apply discard_perm; [exact L|]. intros Hin. apply Hnew.
    apply list_elem_of_fmap in Hin as (x & -> & [Hx _]%elem_of_keep). apply list_elem_of_fmap. eauto.
  - done.
  - intros x Hx. apply I. set_solver.
  - intros Hc%C. by destruct l.
Qed.

(** A step of the loop leaves the tasks alone. *)
Lemma worker_ok_loop issued w w' :
  worker_ok issued w → w_tasks w' = w_tasks w → w_live w' = w_live w →
  (draining (w_phase w') = false → w_slots w' + held (w_phase w') + length (w_tasks w) = w_concurrency w') →
  w_slots w' + length (w_tasks w) ≤ w_concurrency w' → (closed (w_phase w') = true → w_tasks w = []) →
  worker_ok issued w'.
Proof. intros [S B L T I C] Et El Hs Hb Hc. split; unfold started_tokens in *; rewrite ?Et, ?El; auto. Qed.

Lemma loop_head_ok issued w :
  worker_ok issued w → draining (w_phase w) = false → held (w_phase w) = 0 → worker_ok issued (loop_head w).
Proof.
  intros Hok Hd Hh. pose proof Hok as [S B _ _ _ _]. specialize (S Hd).
  apply (worker_ok_loop issued w); try done; unfold loop_head; cbn; destruct (w_stopping w); cbn; intros; lia || done.
Qed.

Lemma no_claim_ok issued w : worker_ok issued w → w_phase w = Claiming → worker_ok issued (no_claim w).
Proof.
  intros Hok Hp. pose proof Hok as [S B _ _ _ _]. rewrite Hp in S. specialize (S eq_refl). cbn in S.
  apply (worker_ok_loop issued w); try done; cbn; intros; lia.
Qed.

Lemma spawn_ok issued w c now :
  worker_ok issued w → w_phase w = Claiming → c_token c ∉ issued →
  worker_ok (c_token c :: issued) (spawn cfg backend w c now).
Proof.
  intros [S B L T I C] Hp Hf. rewrite Hp in S, C. specialize (S eq_refl). cbn in S.
  assert (length (w_tasks w ++ [mkTask c (handle cfg backend c) false]) = Datatypes.S (length (w_tasks w))) as El
    by (rewrite length_app; cbn; lia).
  split; unfold started_tokens; unfold spawn, loop_head; cbn [w_slots w_phase w_tasks w_concurrency w_live set_phase w_stopping]; rewrite ?El.
  - destruct (w_stopping w); cbn; intros; [done|lia].
  - lia.
  - rewrite L. unfold started_tokens. rewrite keep_app, map_app. cbn. by rewrite app_nil_r.
  - rewrite map_app. apply NoDup_app. split; [done|]. split; [|apply NoDup_singleton].
    intros x Hx ->%list_elem_of_singleton. apply Hf. apply list_elem_of_fmap in Hx as (t & E & Ht).
    unfold token_of at 1 in E. cbn in E. rewrite E. by apply I.
  - intros t [Ht| ->%list_elem_of_singleton]%elem_of_app; [right; by apply I|left].
  - destruct (w_stopping w); done.
Qed.

(** Replacing a task by one of the same claim. *)
Lemma replace_task_ok issued w l t r p' started' live' :
  worker_ok issued w → w_tasks w = l ++ t :: r →
  live' ≡ₚ map token_of (keep t_started (l ++ mkTask (t_claim t) p' started' :: r)) →
  worker_ok issued (set_tasks w (l ++ mkTask (t_claim t) p' started' :: r) live').
Proof.
  intros [S B L T I C] Ht Hl. rewrite Ht in *.
  assert (∀ u, length (l ++ u :: r) = Datatypes.S (length (l ++ r))) as El by (intros u; rewrite !length_app; cbn; lia).
  rewrite El in S, B.
  split; cbn [set_tasks w_phase w_slots w_tasks w_concurrency w_live]; rewrite ?El; try done.
  - by rewrite tokens_split in *.
  - intros x Hx. rewrite elem_of_app, elem_of_cons in Hx. destruct Hx as [Hx|[->|Hx]]; [apply I; set_solver| |apply I; set_solver].
    apply (I t). set_solver.
  - intros Hc%C. by destruct l.
Qed.

Lemma add_fresh x l : x ∉ l → add x l = l ++ [x].
Proof. intros Hx. unfold add. by rewrite (proj2 (mem_false x l) Hx). Qed.

Lemma wstep_ok w k w' k' :
  wstep w k w' k' → worker_ok (k_issued k) w → worker_ok (k_issued k') w' ∧ k_issued k ⊆ k_issued k'.
Proof.
  intros Hs Hok. pose proof Hok as [S B L T I C].
  destruct Hs as [w k|w k Hph Hn|w k Hph Hst|w k Hph|w k locked hexes c db' Hph Hf Hc|w k locked hexes db' Hph Hc|w k Hph
    |w k locked hexes c db' Hph Hf Hc|w k Hph
    |w k l t r Ht Hn|w k l t r db' p' es Ht Hn Hps|w k l t r Ht Hn Ho|w k l t r Hph Ht Hn|w k l t r Hph Ht Hn
    |w k Hph Ht|w k Hph Ht|w k b Hph|w k Ha|w k Ha|w k Ha]; cbn [k_issued];
    try (split; [exact Hok|done]); try (rewrite Hph in S, C; cbn in S, C).
  - split; [|done]. by apply (worker_ok_loop _ w).
  - split; [|done]. specialize (S eq_refl). apply (worker_ok_loop _ w); try done; cbn; intros; lia.
  - split; [|done]. by apply (worker_ok_loop _ w).
  - split; [|done]. specialize (S eq_refl). apply (worker_ok_loop _ w); try done; unfold resume_granted; destruct (w_stopping w);
      cbn; intros; lia || done.
  - destruct (claim_token _ _ _ _ _ _ _ Hc) as [i Hi]. split; [|set_solver].
    apply spawn_ok; [done|done|]. rewrite Hi. apply Hf.
  - split; [|done]. by apply no_claim_ok.
  - split; [|done]. by apply no_claim_ok.
  - split; [|set_solver]. apply (worker_ok_mono (k_issued k)); [by apply no_claim_ok|set_solver].
  - split; [|done]. apply loop_head_ok; [done|by rewrite Hph|by rewrite Hph].
  - split; [|done]. apply (replace_task_ok _ w); [done|done|]. rewrite started_split. cbn.
    unfold started_tokens in L. rewrite Ht in *. rewrite tokens_split in T. apply NoDup_cons in T as [Hnew _].
    rewrite started_split, Hn in L. cbn in L. rewrite add_fresh; [rewrite L; apply Permutation_app_comm|].
    rewrite L. intros Hin. apply Hnew. apply list_elem_of_fmap in Hin as (x & -> & [Hx _]%elem_of_keep).
    apply list_elem_of_fmap. eauto.
  - split; [|done]. apply (replace_task_ok _ w); [done|done|]. rewrite L. unfold started_tokens. rewrite Ht, !started_split, Hn. done.
  - split; [|done]. by apply task_over_ok.
  - split; [|done]. by apply task_over_ok.
  - split; [|done]. rewrite Ht in *. assert (length (l ++ t :: r) = Datatypes.S (length (l ++ r))) by (rewrite !length_app; cbn; lia).
    split; cbn; rewrite ?Hph; cbn; try done; [lia| | |set_solver].
    + rewrite L. unfold started_tokens. cbn. rewrite Ht, started_split, Hn. done.
    + rewrite tokens_split in T. by apply NoDup_cons in T as [_ T].
  - split; [|done]. by apply (worker_ok_loop _ w).
  - split; [|done]. by apply (worker_ok_loop _ w).
  - split; [|done]. by apply (worker_ok_loop _ w).
Qed.

(** ** Rows given back stay given back *)

Definition given_back (p : Phase) : bool := match p with Closing b | Stopped b => b | _ => false end.

(** No row is claimed by a token of this worker. *)
Definition holds_nothing (db : DB) (id : string) : Prop :=
  ∀ r t, r ∈ job_domains db → jd_claimed_by r = Some t → String.prefix (id +:+ "|") t = false.

Lemma release_holds_nothing issued db now id :
  db_ok issued db → like_plain id = true → holds_nothing (release_worker db now id) id.
Proof.
  intros Hok Hid r t Hr Et. rewrite (release_worker_own_rows db now id Hid) in Hr.
  apply list_elem_of_fmap in Hr as (r0 & -> & Hr0).
  pose proof (proj1 (Forall_forall _ _) (db_rows _ _ Hok) r0 Hr0) as Hrow.
  destruct (_ && _) eqn:E; [done|]. rewrite Et in E. cbn in E.
  by rewrite (bool_decide_true _ (claimed_running _ _ Hrow Et)) in E.
Qed.

(** Old tokens do not come back. *)
Lemma steps_claims ls s s' :
  steps ls s s' → sys_ok s →
  ∀ r' t, r' ∈ job_domains (s_db s') → jd_claimed_by r' = Some t → t ∈ s_issued s →
    ∃ r, r ∈ job_domains (s_db s) ∧ jd_claimed_by r = Some t.
Proof.
  intros Hs. assert (s_issued s ⊆ s_issued s) as Hsub by done. revert Hsub. generalize (s_issued s) at 1 3.
  intros issued Hsub Hok. induction Hs as [s|ls s s1 l s2 H IH Hst]; [by eauto|].
  intros r' t Hr Et Hin. specialize (IH Hsub Hok).
  assert (sys_ok s1) as Hok1 by (by eapply steps_ok).
  assert (s_issued s ⊆ s_issued s1) as Hs1.
  { clear -H Hok. induction H as [|ls s s1 l s2 H IH Hst]; [done|]. etransitivity; [by apply IH|].
    apply (sk_issued _ _ _ (step_keeps_all _ _ _ _ _ Hst (steps_ok _ _ _ _ _ H Hok))). }
  destruct (sk_claims _ _ _ (step_keeps_all _ _ _ _ _ Hst Hok1) r' t Hr Et ltac:(auto)) as (r & Hr1 & _ & Er).
  by apply (IH r t).
Qed.

(** The prefix of a name ends at the bar. *)
Lemma prefix_bar a b h :
  has_char "|" a = false → has_char "|" b = false → String.prefix (a +:+ "|") (b +:+ "|" +:+ h) = true → a = b.
Proof.
  revert b. induction a as [|x a IH]; intros [|y b] Ha Hb; cbn [String.append String.prefix]; [done| | |].
  - destruct (ascii_dec "|" y) as [<-|]; done.
  - destruct (ascii_dec x "|") as [->|]; done.
  - destruct (ascii_dec x y) as [<-|]; [|done]. intros Hp. cbn [has_char] in Ha, Hb.
    apply orb_false_iff in Ha as [_ Ha]. apply orb_false_iff in Hb as [_ Hb]. f_equal. by apply IH.
Qed.

Record cluster_ok (c : Cluster) : Prop := {
  co_sim : ∃ s, reachable cfg backend s ∧ sim (cl_core c) (procs (cl_workers c)) s;
  co_workers : ∀ w, w ∈ cl_workers c → worker_ok (k_issued (cl_core c)) w;
  co_ids : NoDup (map w_id (cl_workers c));
  co_known : ∀ w, w ∈ cl_workers c → w_id w ∈ cl_ids c ∧ good_id (w_id w) = true;
  co_given : ∀ w, w ∈ cl_workers c → given_back (w_phase w) = true → holds_nothing (k_db (cl_core c)) (w_id w)
}.

Lemma wstep_id w k w' k' : wstep w k w' k' → w_id w' = w_id w.
Proof. destruct 1; try done; unfold resume_granted, spawn, loop_head; by destruct (w_stopping w). Qed.

(** A new token is one of the claiming worker's. *)
Lemma wstep_tokens w k w' k' t :
  wstep w k w' k' → t ∈ k_issued k' → t ∈ k_issued k ∨ ((∃ h, t = new_token (w_id w) h) ∧ given_back (w_phase w') = false).
Proof.
  intros Hs. destruct Hs as [| | | |w k locked hexes c db' Hph Hf Hc| | |w k locked hexes c db' Hph Hf Hc| | | | | | | | | | | | ];
    cbn; try (by left).
  - intros [->|?]%elem_of_cons; [|by left]. right. destruct (claim_token _ _ _ _ _ _ _ Hc) as [i ->].
    split; [by eexists|]. unfold spawn, loop_head. cbn. by destruct (w_stopping w).
  - intros [->|?]%elem_of_cons; [|by left]. right. destruct (claim_token _ _ _ _ _ _ _ Hc) as [i ->].
    split; [by eexists|done].
Qed.

(** The worker's rows after its own step. *)
Lemma wstep_given issued w k w' k' :
  wstep w k w' k' → db_ok issued (k_db k) → like_plain (w_id w) = true → given_back (w_phase w') = true →
  (given_back (w_phase w) = true ∧ k_issued k' = k_issued k) ∨ holds_nothing (k_db k') (w_id w).
Proof.
  intros Hs Hok Hid. destruct Hs as [| | | | | | | | | | | | | |w k Hph Ht|w k Hph Ht|w k b Hph|w k Ha|w k Ha|w k Ha]; cbn;
    unfold resume_granted, spawn, loop_head; try (destruct (w_stopping w); done);
    rewrite ?Hph; try (intros; by left).
  - intros _. right. by eapply release_holds_nothing.
Qed.

Lemma sim_db_ok k ps s : reachable cfg backend s → sim k ps s → db_ok (k_issued k) (k_db k).
Proof. intros Hr [<- _ <- _ _]. apply (reachable_sys_ok _ _ _ Hr). Qed.

Lemma holds_keep k k' ps ps' s s' ls id :
  reachable cfg backend s → sim k ps s → steps ls s s' → sim k' ps' s' → holds_nothing (k_db k) id →
  (∀ t, t ∈ k_issued k' → t ∈ k_issued k ∨ String.prefix (id +:+ "|") t = false) → holds_nothing (k_db k') id.
Proof.
  intros Hr S1 Hs S2 Hh Ht r t Hin Et. pose proof (reachable_sys_ok _ _ _ Hr) as Hok.
  pose proof (steps_ok _ _ _ _ _ Hs Hok) as [Hdb' _]. destruct S1 as [E1 _ E2 _ _], S2 as [E3 _ E4 _ _].
  rewrite E3, E4 in Hdb'. destruct (Ht t) as [Hi|]; [by eapply (proj1 (db_tokens_in _ _ Hdb'))| |done].
  destruct (steps_claims _ _ _ Hs Hok r t) as (r0 & Hr0 & Er0); [by rewrite E3|done|by rewrite E2|].
  rewrite E1 in Hr0. by eapply Hh.
Qed.

Lemma reachable_steps ls s s' : reachable cfg backend s → steps ls s s' → reachable cfg backend s'.
Proof. intros (now & ls0 & H0) H. exists now, (ls0 ++ ls). by eapply steps_app. Qed.

Lemma other_prefix id id' h :
  good_id id = true → good_id id' = true → id ≠ id' → String.prefix (id +:+ "|") (new_token id' h) = false.
Proof.
  unfold good_id, new_token. intros [_ Ha%negb_true_iff]%andb_true_iff [_ Hb%negb_true_iff]%andb_true_iff Hne.
  destruct (String.prefix _ _) eqn:E; [|done]. by apply prefix_bar in E.
Qed.

Lemma cstep_ok c c' : cluster_ok c → cstep c c' → cluster_ok c'.
Proof.
  intros Hok Hs. pose proof Hok as [[s [Hr Hsim]] W Ids Kn G].
  destruct (cstep_sim _ _ _ Hs Hsim) as (ls & s' & Hss & Hsim').
  assert (∃ s, reachable cfg backend s ∧ sim (cl_core c') (procs (cl_workers c')) s) as Hc.
  { exists s'. split; [by eapply reachable_steps|done]. }
  assert (∀ w, w ∈ cl_workers c → given_back (w_phase w) = true →
     (∀ t, t ∈ k_issued (cl_core c') → t ∈ k_issued (cl_core c) ∨ String.prefix (w_id w +:+ "|") t = false) →
     holds_nothing (k_db (cl_core c')) (w_id w)) as Hkeep.
  { intros w Hw Hg Ht. eapply (holds_keep _ _ _ _ s s' ls); eauto. }
  destruct Hs as [l core core' ws ids He|core ws ids id n Hid Hg|core core' l w w' r ids Hw|core l w r ids];
    cbn [cl_core cl_workers cl_ids] in *.
  - assert (k_issued core' = k_issued core) as Ei by (by destruct He).
    split; cbn [cl_core cl_workers cl_ids]; try done; [by rewrite Ei|].
    intros w Hw Hg. apply Hkeep; [done|done|]. rewrite Ei. by left.
  - split; cbn [cl_core cl_workers cl_ids]; [done| | | |].
    + intros w [Hw| ->%list_elem_of_singleton]%elem_of_app; [by apply W|].
      split; cbn; try done; [lia|lia|apply NoDup_nil_2|set_solver].
    + rewrite map_app. apply NoDup_app. split; [done|]. split; [|apply NoDup_singleton].
      intros x Hx ->%list_elem_of_singleton. apply list_elem_of_fmap in Hx as (w & E & Hw).
      apply Hid. cbn in E. rewrite E. by apply Kn.
    + intros w [Hw| ->%list_elem_of_singleton]%elem_of_app; [|by split; [left|]]. destruct (Kn w Hw). split; [by right|done].
    + intros w [Hw| ->%list_elem_of_singleton]%elem_of_app; [by apply G|done].
  - assert (w ∈ l ++ w :: r) as Hin by set_solver. destruct (wstep_ok _ _ _ _ Hw (W w Hin)) as [Hw' Hsub].
    pose proof (wstep_id _ _ _ _ Hw) as Eid. destruct (Kn w Hin) as [_ Hgood].
    split; cbn [cl_core cl_workers cl_ids]; [done| | | |].
    + intros x Hx. rewrite elem_of_app, elem_of_cons in Hx.
      destruct Hx as [Hx|[->|Hx]]; [|done|]; (eapply worker_ok_mono; [apply W; set_solver|done]).
    + rewrite !map_app in *. cbn in *. by rewrite Eid.
    + intros x Hx. rewrite elem_of_app, elem_of_cons in Hx.
      destruct Hx as [Hx|[->|Hx]]; [apply Kn; set_solver|rewrite Eid; by apply Kn|apply Kn; set_solver].
    + assert (∀ x, x ∈ l ++ r → w_id x ≠ w_id w) as Hne.
      { intros x Hx E. rewrite map_app in Ids. cbn in Ids. rewrite <- Permutation_middle, <- map_app in Ids.
        apply NoDup_cons in Ids as [Hnot _]. apply Hnot. apply list_elem_of_fmap. exists x. by split. }
      assert (∀ x, x ∈ l ++ r → x ∈ l ++ w :: r → given_back (w_phase x) = true → holds_nothing (k_db core') (w_id x)) as Hoth.
      { intros x Hx Hx' Hgx. apply Hkeep; [done|done|]. intros t Ht.
        destruct (wstep_tokens _ _ _ _ _ Hw Ht) as [|[[h ->] _]]; [by left|right].
        apply other_prefix; [by apply Kn|done|by apply Hne]. }
      intros x Hx Hgx. rewrite elem_of_app, elem_of_cons in Hx.
      destruct Hx as [Hx|[->|Hx]]; [apply Hoth; [set_solver|set_solver|done]| |apply Hoth; [set_solver|set_solver|done]].
      rewrite Eid. assert (like_plain (w_id w) = true) as Hpl by (by apply andb_true_iff in Hgood as [? _]).
      destruct (wstep_given (k_issued core) _ _ _ _ Hw (sim_db_ok _ _ _ Hr Hsim) Hpl Hgx) as [[Hg Ei]|]; [|done].
      apply Hkeep; [done|done|]. rewrite Ei. by left.
  - split; cbn [cl_core cl_workers cl_ids]; [done| | | |].
    + intros x Hx. apply W. set_solver.
    + rewrite map_app in *. cbn in Ids. rewrite <- Permutation_middle in Ids. by apply NoDup_cons in Ids as [_ ?].
    + intros x Hx. apply Kn. set_solver.
    + intros x Hx. apply G. set_solver.
Qed.

Lemma cluster_reachable_ok c : cluster_reachable cfg backend c → cluster_ok c.
Proof.
  intros [now H]. remember (cluster0 now) as c0 eqn:E. induction H as [c|c c1 c2 H IH Hst]; subst.
  - split; cbn; try set_solver; [|apply NoDup_nil_2]. exists (sys0 now). split; [by exists now, []; constructor|]. by split.
  - eapply cstep_ok; [by apply IH|done].
Qed.

(** ** A stopping worker can always stop *)

(** The steps of winding down, each a step of [wstep] ([wind_wstep]): they wait for no handler, no slot, no poll interval and no
    claim, and [wd_release] alone asks the database for something. *)
Inductive wind : Worker → Core → Worker → Core → Prop :=
  | wd_abandon w k : w_phase w = Waiting → w_stopping w = true → wind w k (set_phase w Draining) k
  | wd_resume w k : w_phase w = Granted → w_stopping w = true → wind w k (resume_granted w) k
  | wd_wake w k : w_phase w = Idling → w_stopping w = true → wind w k (loop_head w) k
  | wd_cancel w k l t r :
      w_phase w = Draining → w_tasks w = l ++ t :: r → t_started t = true → wind w k (task_over w (l ++ r) t) k
  | wd_cancel_early w k l t r :
      w_phase w = Draining → w_tasks w = l ++ t :: r → t_started t = false → wind w k (set_tasks w (l ++ r) (w_live w)) k
  | wd_release w k : w_phase w = Draining → w_tasks w = [] → wind w k (set_phase w (Closing true)) (give_back w k)
  | wd_close w k b : w_phase w = Closing b → wind w k (set_phase w (Stopped b)) k.


Lemma wind_wstep w k w' k' : wind w k w' k' → wstep w k w' k'.
Proof.
  destruct 1; [by apply w_abandon|by apply w_resume|by apply w_wake|by eapply w_cancel|by eapply w_cancel_early|
    by apply w_release|by eapply w_close].
Qed.



End cluster.

(** ** Theorems *)

(** C4: any number of worker processes, with their slots, tasks, background loops, stop signals
    and crashes, only do to the queue what the system of [System] allows.  From matching
    states, whatever a cluster does is a run of the system that ends in matching states:
    the same database, clock, tokens and webhook events, and the same handlers.  So every
    theorem about the system's executions holds of the processes the code starts. *)
Theorem cluster_refines_system (cfg : Settings) (backend : string) (c c' : Cluster) (s : Sys)
    (Hrun : csteps cfg backend c c') (Hsim : sim (cl_core c) (procs (cl_workers c)) s) :
  ∃ ls s', steps cfg backend ls s s' ∧ sim (cl_core c') (procs (cl_workers c')) s'.
Proof.
  induction Hrun as [c|c c1 c2 H IH Hst]; [exists [], s; split; [constructor|done]|].
  destruct (IH Hsim) as (ls & s1 & H1 & S1). destruct (cstep_sim _ _ _ _ _ Hst S1) as (ls' & s2 & H2 & S2).
  exists (ls ++ ls'), s2. split; [by eapply steps_app|done].
Qed.

(** C11: in every reachable cluster each worker keeps to its limit: the free slots, the slot the
    loop holds and the tasks add up to the concurrency, so at most that many handlers run;
    the live tokens, whose rows the heartbeat renews, are exactly those of the running
    handlers, each once and none shared with another handler; and no slot is ever lost
    before the drain. *)
Theorem worker_slots_conserved (cfg : Settings) (backend : string) (c : Cluster) (w : Worker)
    (Hc : cluster_reachable cfg backend c) (Hw : w ∈ cl_workers c) :
  length (w_live w) ≤ w_concurrency w ∧
  (draining (w_phase w) = false → w_slots w + held (w_phase w) + length (w_tasks w) = w_concurrency w) ∧
  NoDup (w_live w) ∧ w_live w ≡ₚ started_tokens w.
Proof.
  destruct (co_workers _ _ _ (cluster_reachable_ok _ _ _ Hc) w Hw) as [S B L T I C].
  assert (NoDup (started_tokens w)) as Hn.
  { eapply sublist_NoDup; [exact T|apply keep_map_sublist]. }
  split_and!; [|done|by rewrite L|done].
  assert (length (w_live w) ≤ length (w_tasks w)); [|lia].
  rewrite L, <- (length_map token_of (w_tasks w)). apply sublist_length, keep_map_sublist.
Qed.

(** The cluster of one worker that has claimed the row of a small job. *)
Definition one_job : Core := mkCore demo_db 0 [] [].
Definition one_claimed : Worker := spawn default_settings "jina" (set_phase (acquire (new_worker "w" 2)) Claiming) demo_c 0.
Definition after_claim : Core := mkCore demo_claim.2 0 ["w|a"] [].
Definition one_running : Worker :=
  set_tasks one_claimed [mkTask demo_c (handle default_settings "jina" demo_c) true] ["w|a"].

Lemma one_running_steps :
  csteps default_settings "jina" (cluster0 0) (mkCluster after_claim [one_running] ["w"]).
Proof.
  eapply csteps_snoc; [eapply csteps_snoc; [eapply csteps_snoc; [eapply csteps_snoc; [eapply csteps_snoc;
    [eapply csteps_snoc; [apply csteps_refl|]|]|]|]|]|].
  - apply (c_env _ _ Other _ one_job). apply (e_create _ (mkCore empty_db 0 [] []) 1%N demo_items demo_new).
    intros (k & Hk & _). cbn in Hk. set_solver.
  - apply (c_join _ _ _ [] [] "w" 2); [set_solver|reflexivity].
  - eapply (c_step _ _ _ _ [] _ _ []). apply w_grant; [reflexivity|cbn; lia].
  - eapply (c_step _ _ _ _ [] _ _ []). by apply w_resume.
  - apply (c_step _ _ _ after_claim [] _ one_claimed []).
    apply (w_claim _ _ _ one_job (λ _, false) demo_hex demo_c demo_claim.2); [reflexivity|cbn; set_solver|reflexivity].
  - apply (c_step _ _ _ after_claim [] _ one_running []).
    by apply (w_start _ _ one_claimed after_claim [] (mkTask demo_c (handle default_settings "jina" demo_c) false) []).
Qed.

Lemma cluster_refines_system_witness :
  ∃ ls s, steps default_settings "jina" ls (sys0 0) s ∧ s_db s = demo_claim.2 ∧ length (s_procs s) = 1.
Proof.
  destruct (cluster_refines_system default_settings "jina" _ _ (sys0 0) one_running_steps) as (ls & s & H1 & H2).
  - by split.
  - exists ls, s. split; [exact H1|]. split; [apply (sim_db _ _ _ H2)|].
    rewrite (sim_procs _ _ _ H2). reflexivity.
Defined.

Lemma worker_slots_conserved_witness :
  w_live one_running = ["w|a"] ∧ length (w_live one_running) ≤ w_concurrency one_running.
Proof.
  split; [reflexivity|].
  apply (worker_slots_conserved default_settings "jina" (mkCluster after_claim [one_running] ["w"]) one_running).
  - exists 0%Z. apply one_running_steps.
  - left.
Defined.


