(* ===== verification/RateLimit.v ===== *)
(** * Token buckets ([src/app/ratelimit.py], lines 16-171)

    The local bucket and the one shared through Redis.  Floats are rationals: the model
    has no rounding.  Each call takes the readings of the monotonic clock it makes, in
    order; [asyncio.sleep] sleeps exactly as long as it is told. *)

From Stdlib Require Import ZArith QArith Qminmax Lqa Lia Qround.
From stdpp Require Import base option list.
From S2P Require Import Prelude.

#[local] Open Scope Q_scope.

Definition Qmin' (x y : Q) : Q := if Qle_bool x y then x else y.
Definition Qmax' (x y : Q) : Q := if Qle_bool x y then y else x.
Definition Qlt_bool (x y : Q) : bool := negb (Qle_bool y x).

Lemma Qle_bool_spec x y : reflect (x <= y) (Qle_bool x y).
Proof. destruct (Qle_bool x y) eqn:E; constructor; [by apply Qle_bool_iff|]. intros H. apply Qle_bool_iff in H. congruence. Qed.

Lemma Qlt_bool_spec x y : reflect (x < y) (Qlt_bool x y).
Proof. unfold Qlt_bool. destruct (Qle_bool_spec y x); constructor; lra. Qed.

(** Case analysis on the rational comparisons of the goal. *)
Ltac qcases :=
  repeat match goal with
  | |- context [Qmin' ?x ?y] => unfold Qmin'
  | |- context [Qmax' ?x ?y] => unfold Qmax'
  | |- context [Qle_bool ?x ?y] => destruct (Qle_bool_spec x y)
  | |- context [Qlt_bool ?x ?y] => destruct (Qlt_bool_spec x y)
  end.

(** ** The local bucket *)

Record TokenBucket := mkBucket {
  tb_rate_per_minute : Z;
  tb_rate : Q;
  tb_capacity : Q;
  tb_tokens : Q;
  tb_updated : Q;
  tb_penalty_factor : Q;
  tb_penalty_until : Q
}.

Definition bucket_capacity (rate_per_minute : Z) (capacity : option Z) : Q :=
  inject_Z (match capacity with Some c => c | None => Z.max 1 (rate_per_minute / 50) end).

Definition new_bucket (now : Q) (rate_per_minute : Z) (capacity : option Z) : TokenBucket := {|
  tb_rate_per_minute := rate_per_minute; tb_rate := inject_Z rate_per_minute / 60;
  tb_capacity := bucket_capacity rate_per_minute capacity;
  tb_tokens := bucket_capacity rate_per_minute capacity; tb_updated := now;
  tb_penalty_factor := 1; tb_penalty_until := 0
|}.

Definition effective_rate (now : Q) (b : TokenBucket) : Q :=
  if Qlt_bool now (tb_penalty_until b) then tb_rate b * tb_penalty_factor b else tb_rate b.

Definition with_tokens (b : TokenBucket) (tokens updated : Q) : TokenBucket := {|
  tb_rate_per_minute := tb_rate_per_minute b; tb_rate := tb_rate b; tb_capacity := tb_capacity b;
  tb_tokens := tokens; tb_updated := updated; tb_penalty_factor := tb_penalty_factor b;
  tb_penalty_until := tb_penalty_until b
|}.

(** [now'] is the second reading of the clock, made by [_effective_rate]. *)
Definition refill (now now' : Q) (b : TokenBucket) : TokenBucket :=
  with_tokens b
    (Qmin' (tb_capacity b) (tb_tokens b + (now - tb_updated b) * effective_rate now' b)) now.

Definition penalty_of (fraction : Q) : Q := Qmax' (1 # 20) (1 - fraction).

Definition penalize (fraction seconds now : Q) (b : TokenBucket) : TokenBucket := {|
  tb_rate_per_minute := tb_rate_per_minute b; tb_rate := tb_rate b; tb_capacity := tb_capacity b;
  tb_tokens := tb_tokens b; tb_updated := tb_updated b; tb_penalty_factor := penalty_of fraction;
  tb_penalty_until := now + seconds
|}.

(** One pass of the [acquire] loop: [None] when the tokens were taken, else the wait. *)
Definition try_acquire (now now' now'' : Q) (n : Z) (b : TokenBucket) : option Q * TokenBucket :=
  let b1 := refill now now' b in
  if Qle_bool (inject_Z n) (tb_tokens b1)
  then (None, with_tokens b1 (tb_tokens b1 - inject_Z n) (tb_updated b1))
  else (Some ((inject_Z n - tb_tokens b1) / Qmax' (effective_rate now'' b1) (1 # 1000000000)), b1).

(** [acquire], alone on the bucket, from instant [now]: the instant it returns at. *)
Fixpoint acquire (fuel : nat) (now : Q) (n : Z) (b : TokenBucket) : option (Q * TokenBucket) :=
  match fuel with
  | O => None
  | S fuel' =>
      match try_acquire now now now n b with
      | (None, b') => Some (now, b')
      | (Some wait, b') => acquire fuel' (now + Qmin' wait 5) n b'
      end
  end.

(** ** The Redis bucket *)

(** The hash at the bucket's key: the fields [t] and [ts], absent when the key has
    expired or was never set. *)
Definition RedisBucket := option (Q * Q).

(** The script, with the penalty factor it reads: the wait ("0" when taken), and the hash. *)
Definition BUCKET_LUA (rate cap now : Q) (n : Z) (factor : option Q) (b : RedisBucket)
    : Q * RedisBucket :=
  let r := rate * default 1 factor in
  let t := default cap (fst <$> b) in
  let ts := default now (snd <$> b) in
  let t1 := if Qlt_bool ts now then Qmin' cap (t + (now - ts) * r) else t in
  let ts1 := if Qlt_bool ts now then now else ts in
  if Qle_bool (inject_Z n) t1
  then (0, Some (t1 - inject_Z n, ts1))
  else ((inject_Z n - t1) / r, Some (t1, ts1)).

(** [RedisTokenBucket.acquire]: the passes of its loop, given what each call of the script
    answers ([None] when Redis fails, which hands over to the local bucket).  Returns
    whether the tokens came from Redis or the local bucket, and the time slept, with
    [jitter] the random number drawn for each sleep. *)
Fixpoint redis_acquire (replies : list (option Q)) (jitter : nat → Q) (i : nat) (slept : Q)
    : option (bool * Q) :=
  match replies with
  | [] => None
  | None :: _ => Some (false, slept)
  | Some wait :: rest =>
      if Qle_bool wait 0 then Some (true, slept)
      else redis_acquire rest jitter (S i) (slept + Qmin' wait 5 * (1 + jitter i * (1 # 5)))
  end.

(** ** The invariant of a bucket *)

Record bucket_ok (b : TokenBucket) : Prop := {
  bo_rate : 1 # 60 <= tb_rate b;
  bo_low : 0 <= tb_tokens b;
  bo_high : tb_tokens b <= tb_capacity b;
  bo_factor : 1 # 20 <= tb_penalty_factor b <= 1
}.

Lemma new_bucket_ok now rpm cap :
  (1 <= rpm)%Z → (0 <= default 1 cap)%Z → bucket_ok (new_bucket now rpm cap).
Proof.
  intros H1 H2. split; cbn; try lra.
  - apply Qle_shift_div_l; [done|]. change ((1 # 60) * 60) with (60 # 60).
    assert (1 <= inject_Z rpm) by (by rewrite (Zle_Qle 1 rpm) in H1). lra.
  - unfold bucket_capacity. change 0 with (inject_Z 0). rewrite <- Zle_Qle. destruct cap; cbn in *; lia.
Qed.

Lemma effective_rate_bounds b now :
  bucket_ok b → tb_rate b * (1 # 20) <= effective_rate now b <= tb_rate b.
Proof. intros [? ? ? ?]. unfold effective_rate. qcases; nra. Qed.

Lemma refill_ok b now now' : bucket_ok b → tb_updated b <= now → bucket_ok (refill now now' b).
Proof.
  intros H Ht. pose proof (effective_rate_bounds b now' H) as Hr. destruct H. split; cbn; try done.
  - assert (0 <= (now - tb_updated b) * effective_rate now' b) by (apply Qmult_le_0_compat; lra). qcases; lra.
  - qcases; lra.
Qed.

Lemma penalty_of_bounds f : 0 <= f → 1 # 20 <= penalty_of f <= 1.
Proof. unfold penalty_of. intros. qcases; lra. Qed.

Lemma penalize_ok b f s now : bucket_ok b → 0 <= f → bucket_ok (penalize f s now b).
Proof. intros [] Hf. split; cbn; try done. by apply penalty_of_bounds. Qed.

Lemma try_acquire_ok b t1 t2 t3 n :
  bucket_ok b → tb_updated b <= t1 → (0 <= n)%Z → bucket_ok (try_acquire t1 t2 t3 n b).2.
Proof.
  intros H Ht Hn. pose proof (refill_ok b t1 t2 H Ht) as Hr. unfold try_acquire.
  cbn zeta. generalize dependent (refill t1 t2 b). intros b1 Hr.
  destruct (Qle_bool_spec (inject_Z n) (tb_tokens b1)); cbn [snd]; [|done].
  assert (0 <= inject_Z n) by (by rewrite (Zle_Qle 0 n) in Hn).
  destruct Hr. split; cbn; try done; lra.
Qed.

(** * What the token buckets promise ([src/app/ratelimit.py]) *)

#[local] Open Scope Q_scope.

(** ** Sequences of calls on one local bucket *)

Inductive BucketOp :=
  | Acquire (t1 t2 t3 : Q) (n : Z)
  | Penalize (fraction seconds t : Q)
  | ReadTokens (t1 t2 : Q).

(** The tokens granted in all, and the bucket left. *)
Fixpoint run_ops (ops : list BucketOp) (b : TokenBucket) : Z * TokenBucket :=
  match ops with
  | [] => (0%Z, b)
  | Acquire t1 t2 t3 n :: rest =>
      let '(w, b1) := try_acquire t1 t2 t3 n b in
      let '(g, b2) := run_ops rest b1 in
      ((match w with None => n + g | Some _ => g end)%Z, b2)
  | Penalize f s t :: rest => run_ops rest (penalize f s t b)
  | ReadTokens t1 t2 :: rest => run_ops rest (refill t1 t2 b)
  end.

(** The clock never goes back and stays below [T]; amounts are not negative. *)
Fixpoint ops_until (t T : Q) (ops : list BucketOp) : Prop :=
  match ops with
  | [] => t <= T
  | Acquire t1 _ _ n :: rest => t <= t1 ∧ (0 <= n)%Z ∧ ops_until t1 T rest
  | Penalize f _ _ :: rest => 0 <= f ∧ ops_until t T rest
  | ReadTokens t1 _ :: rest => t <= t1 ∧ ops_until t1 T rest
  end.

Lemma refill_potential b t1 t2 :
  bucket_ok b → tb_updated b <= t1 →
  tb_tokens (refill t1 t2 b) - tb_rate b * t1 <= tb_tokens b - tb_rate b * tb_updated b.
Proof.
  intros H Ht. pose proof (effective_rate_bounds b t2 H) as [_ Hr]. cbn.
  assert ((t1 - tb_updated b) * effective_rate t2 b <= (t1 - tb_updated b) * tb_rate b) as Hm.
  { rewrite !(Qmult_comm (t1 - tb_updated b)). apply Qmult_le_compat_r; lra. }
  qcases; lra.
Qed.

Lemma try_acquire_potential b t1 t2 t3 n :
  bucket_ok b → tb_updated b <= t1 →
  let '(w, b') := try_acquire t1 t2 t3 n b in
  tb_updated b' = t1 ∧ tb_rate b' = tb_rate b ∧ tb_capacity b' = tb_capacity b ∧
  (match w with None => inject_Z n | Some _ => 0 end) + (tb_tokens b' - tb_rate b * t1)
    <= tb_tokens b - tb_rate b * tb_updated b.
Proof.
  intros H Ht. pose proof (refill_potential b t1 t2 H Ht) as Hp. unfold try_acquire.
  destruct (Qle_bool_spec (inject_Z n) (tb_tokens (refill t1 t2 b))); split_and!; try done; cbn [with_tokens tb_tokens]; lra.
Qed.

Lemma run_ops_bound ops b T :
  bucket_ok b → ops_until (tb_updated b) T ops →
  let '(g, b') := run_ops ops b in
  bucket_ok b' ∧ tb_rate b' = tb_rate b ∧ tb_updated b' <= T ∧
  inject_Z g + (tb_tokens b' - tb_rate b * tb_updated b') <= tb_tokens b - tb_rate b * tb_updated b.
Proof.
  revert b. induction ops as [|[t1 t2 t3 n|f s t|t1 t2] ops IH]; intros b Hok Hops; cbn in *.
  - split_and!; try done. change (inject_Z 0) with 0. lra.
  - destruct Hops as (H1 & H2 & H3).
    pose proof (try_acquire_ok b t1 t2 t3 n Hok H1 H2) as Hok1.
    pose proof (try_acquire_potential b t1 t2 t3 n Hok H1) as Hp.
    destruct (try_acquire t1 t2 t3 n b) as [w b1]. destruct Hp as (E1 & E2 & _ & Hp). cbn in Hok1.
    specialize (IH b1 Hok1). rewrite E1, E2 in IH. specialize (IH H3).
    destruct (run_ops ops b1) as [g b2]. destruct IH as (I1 & I2 & I3 & I4). split_and!; try done.
    destruct w; [lra|]. rewrite inject_Z_plus. lra.
  - destruct Hops as [H1 H2].
    apply (IH (penalize f s t b)); [by apply penalize_ok|done].
  - destruct Hops as [H1 H2]. pose proof (refill_potential b t1 t2 Hok H1) as Hp.
    specialize (IH (refill t1 t2 b) (refill_ok _ _ _ Hok H1) H2).
    destruct (run_ops ops (refill t1 t2 b)) as [g b2]. destruct IH as (I1 & I2 & I3 & I4).
    split_and!; try done. cbn [refill with_tokens tb_rate tb_updated] in I4. cbn [refill with_tokens tb_tokens] in Hp, I4. lra.
Qed.

(** The bucket never grants more than its burst plus its rate.  Over any sequence of
    acquire attempts, penalties and reads, at any clock readings that do not go back, the
    tokens granted from a bucket are at most what it held plus rate times the time that
    passed, hence at most its capacity plus that; and the token count stays between 0 and
    the capacity throughout. *)
Theorem bucket_rate_bound (ops : list BucketOp) (b : TokenBucket) (T : Q)
    (Hok : bucket_ok b) (Hops : ops_until (tb_updated b) T ops) :
  let '(granted, b') := run_ops ops b in
  inject_Z granted <= tb_tokens b + tb_rate b * (T - tb_updated b) ∧
  inject_Z granted <= tb_capacity b + tb_rate b * (T - tb_updated b) ∧
  bucket_ok b'.
Proof.
  pose proof (run_ops_bound ops b T Hok Hops) as H. destruct (run_ops ops b) as [g b'].
  destruct H as (H1 & H2 & H3 & H4).
  assert (0 <= tb_rate b * (T - tb_updated b')) by (apply Qmult_le_0_compat; [destruct Hok|]; lra).
  destruct Hok, H1. split_and!; [lra|lra|by split].
Qed.

Lemma bucket_rate_bound_witness :
  let '(granted, b') := run_ops [Acquire 0 0 0 6; Acquire 1 1 1 6; Penalize (1#4) 60 1; Acquire 2 2 2 6]
                          (new_bucket 0 500 None) in
  granted = 18%Z ∧
  inject_Z granted <= tb_capacity (new_bucket 0 500 None) + tb_rate (new_bucket 0 500 None) * (2 - 0).
Proof.
  pose proof (bucket_rate_bound [Acquire 0 0 0 6; Acquire 1 1 1 6; Penalize (1#4) 60 1; Acquire 2 2 2 6]
    (new_bucket 0 500 None) 2) as H.
  destruct (run_ops _ _) as [g b'] eqn:E.
  assert (g = 18%Z) as -> by (vm_compute in E; congruence). split; [reflexivity|].
  destruct H as (_ & H & _).
  - apply new_bucket_ok; cbn; lia.
  - cbn. split_and!; try lia; lra.
  - exact H.
Defined.

(** ** Waiting *)

Lemma effective_rate_pos b now : bucket_ok b → 1 # 1200 <= effective_rate now b.
Proof. intros H. pose proof (effective_rate_bounds b now H). destruct H. nra. Qed.

(** The rate only recovers while nobody penalizes. *)
Lemma effective_rate_mono b now now' :
  bucket_ok b → now <= now' → effective_rate now b <= effective_rate now' b.
Proof. intros [] Ht. unfold effective_rate. qcases; nra. Qed.

(** A failed pass leaves at least the tokens it saw, and a wait that covers the deficit. *)
Lemma try_acquire_wait b now n w b' :
  bucket_ok b → tb_updated b <= now → try_acquire now now now n b = (Some w, b') →
  b' = refill now now b ∧ tb_tokens b' < inject_Z n ∧ 0 < w ∧
  w * effective_rate now b' == inject_Z n - tb_tokens b'.
Proof.
  intros H Ht. unfold try_acquire. cbn zeta.
  pose proof (effective_rate_pos (refill now now b) now (refill_ok b now now H Ht)) as Hr.
  remember (refill now now b) as b1 eqn:Eb1.
  destruct (Qle_bool_spec (inject_Z n) (tb_tokens b1)) as [|Hlt]; [done|]. intros [= <- <-].
  assert (Qmax' (effective_rate now b1) (1 # 1000000000) = effective_rate now b1) as ->.
  { unfold Qmax'. destruct (Qle_bool_spec (effective_rate now b1) (1 # 1000000000)); [lra|done]. }
  split_and!; [done|lra| |].
  - apply Qlt_shift_div_l; lra.
  - rewrite Qmult_comm. apply Qmult_div_r. lra.
Qed.

(** After sleeping, the next pass finds the deficit covered, or at least 5 seconds' worth
    more tokens than before. *)
Lemma acquire_gains b now n w b' :
  bucket_ok b → tb_updated b <= now → inject_Z n <= tb_capacity b →
  try_acquire now now now n b = (Some w, b') →
  let now' := now + Qmin' w 5 in
  inject_Z n <= tb_tokens (refill now' now' b') ∨
  tb_tokens b' + (1 # 240) <= tb_tokens (refill now' now' b').
Proof.
  intros H Ht Hcap E now'. destruct (try_acquire_wait _ _ _ _ _ H Ht E) as (Eb & Hlt & Hw & Hcov).
  pose proof (refill_ok b now now H Ht) as Hok'. rewrite <- Eb in Hok'.
  assert (tb_updated b' = now ∧ tb_capacity b' = tb_capacity b) as [Eu Ec] by (by rewrite Eb).
  assert (now <= now') as Hle by (unfold now'; qcases; lra).
  pose proof (effective_rate_mono b' now now' Hok' Hle) as Hm.
  pose proof (effective_rate_pos b' now Hok') as Hp. cbn. rewrite Eu, Ec.
  set (e := effective_rate now b') in *. set (e' := effective_rate now' b') in *.
  assert ((now' - now) * e' == Qmin' w 5 * e') as Ex by (unfold now'; ring).
  set (x := (now' - now) * e') in *. clearbody x e e'. 
  destruct (Qle_bool_spec w 5) as [H5|H5].
  - left. assert (Qmin' w 5 = w) as Ew by (unfold Qmin'; by destruct (Qle_bool_spec w 5)).
    rewrite Ew in Ex. assert (w * e <= w * e') by nra. qcases; lra.
  - assert (Qmin' w 5 = 5) as Ew by (unfold Qmin'; by destruct (Qle_bool_spec w 5)).
    rewrite Ew in Ex. unfold Qmin'. destruct (Qle_bool_spec (tb_capacity b) (tb_tokens b' + x)); [left|right]; lra.
Qed.

Lemma acquire_within k b now n :
  bucket_ok b → tb_updated b <= now → inject_Z n <= tb_capacity b → (0 <= n)%Z →
  inject_Z n - tb_tokens (refill now now b) <= inject_Z (Z.of_nat k) * (1 # 240) →
  ∃ t b', acquire (S k) now n b = Some (t, b') ∧ now <= t ∧ bucket_ok b'.
Proof.
  revert b now. induction k as [|k IH]; intros b now H Ht Hcap Hn Hdef.
  - assert (inject_Z n <= tb_tokens (refill now now b)) as Hle by (change (inject_Z (Z.of_nat 0)) with 0 in Hdef; lra).
    pose proof (try_acquire_ok b now now now n H Ht Hn) as Hok. cbn [acquire]. unfold try_acquire in *.
    destruct (Qle_bool_spec (inject_Z n) (tb_tokens (refill now now b))); [|done].
    do 2 eexists. split; [done|]. split; [lra|done].
  - pose proof (try_acquire_ok b now now now n H Ht Hn) as Hok. cbn [acquire].
    destruct (try_acquire now now now n b) as [[w|] b1] eqn:E.
    2:{ do 2 eexists. split; [done|]. split; [lra|done]. }
    destruct (try_acquire_wait _ _ _ _ _ H Ht E) as (Eb & _ & Hw & _).
    pose proof (acquire_gains _ _ _ _ _ H Ht Hcap E) as Hg. cbn zeta in Hg.
    assert (tb_updated b1 = now ∧ tb_capacity b1 = tb_capacity b) as [Eu Ec] by (by rewrite Eb).
    assert (now <= now + Qmin' w 5) as Hle by (qcases; lra).
    destruct (IH b1 (now + Qmin' w 5)) as (t & b' & E' & Ht' & Hok'); try done.
    + by rewrite Eu.
    + by rewrite Ec.
    + rewrite <- Eb in Hdef. rewrite Nat2Z.inj_succ, <- Z.add_1_r, inject_Z_plus in Hdef.
      change (inject_Z 1) with 1 in Hdef.
      assert (0 <= inject_Z (Z.of_nat k)) by (change 0 with (inject_Z 0); rewrite <- Zle_Qle; lia).
      destruct Hg; lra.
    + exists t, b'. split; [done|]. split; [lra|done].
Qed.

(** [acquire] returns.  A task alone on the bucket that asks for no more than the
    capacity always gets its tokens, within 240 passes of the loop per token asked for,
    however empty the bucket and whatever penalty is in force. *)
Theorem acquire_returns (b : TokenBucket) (now : Q) (n : Z)
    (Hok : bucket_ok b) (Ht : tb_updated b <= now) (Hn : (0 <= n)%Z)
    (Hcap : inject_Z n <= tb_capacity b) :
  ∃ t b', acquire (S (Z.to_nat (240 * n))) now n b = Some (t, b') ∧ now <= t ∧ bucket_ok b'.
Proof.
  apply acquire_within; try done. pose proof (bo_low _ (refill_ok b now now Hok Ht)).
  rewrite Z2Nat.id by lia. rewrite inject_Z_mult. change (inject_Z 240) with 240. lra.
Qed.

Lemma acquire_returns_witness :
  ∃ t b', acquire 241 1 1 (penalize (3 # 4) 60 1 (with_tokens (new_bucket 0 60 None) 0 1)) = Some (t, b') ∧
          1 <= t ∧ bucket_ok b'.
Proof.
  apply (acquire_returns (penalize (3 # 4) 60 1 (with_tokens (new_bucket 0 60 None) 0 1)) 1 1).
  - apply penalize_ok; [|lra]. destruct (new_bucket_ok 0 60 None) as [H1 H2 H3 H4]; [lia|cbn; lia|].
    split; [exact H1|cbn; lra| |exact H4]. vm_compute. discriminate.
  - cbn. lra.
  - lia.
  - vm_compute. discriminate.
Defined.

(** ** The bucket shared through Redis *)

(** One call of the script by some process: its clock, the amount, the penalty it reads. *)
Record LuaCall := mkCall { lc_now : Q; lc_n : Z; lc_factor : option Q }.

Fixpoint run_lua (rate cap : Q) (calls : list LuaCall) (b : RedisBucket) : Z * RedisBucket :=
  match calls with
  | [] => (0%Z, b)
  | k :: rest =>
      let '(wait, b1) := BUCKET_LUA rate cap (lc_now k) (lc_n k) (lc_factor k) b in
      let '(g, b2) := run_lua rate cap rest b1 in
      ((if Qle_bool wait 0 then lc_n k + g else g)%Z, b2)
  end.

(** The clocks of the processes need not agree, only stay below [T]. *)
Definition call_ok (T : Q) (k : LuaCall) : Prop :=
  lc_now k <= T ∧ (0 <= lc_n k)%Z ∧ 0 < default 1 (lc_factor k) <= 1.

Lemma lua_step rate cap T k t ts :
  0 < rate → call_ok T k → 0 <= t <= cap → ts <= T →
  let '(wait, b') := BUCKET_LUA rate cap (lc_now k) (lc_n k) (lc_factor k) (Some (t, ts)) in
  ∃ t' ts', b' = Some (t', ts') ∧ 0 <= t' <= cap ∧ ts <= ts' <= T ∧
    (if Qle_bool wait 0 then inject_Z (lc_n k) else 0) + (t' - rate * ts') <= t - rate * ts.
Proof.
  intros Hr (Hnow & Hn & Hf0 & Hf1) [Ht0 Ht1] Hts. unfold BUCKET_LUA. cbn [fmap option_fmap option_map default id fst snd].
  set (f := default 1 (lc_factor k)) in *. set (now := lc_now k) in *. set (n := inject_Z (lc_n k)).
  assert (0 <= n) as Hn' by (unfold n; change 0 with (inject_Z 0); by rewrite <- Zle_Qle).
  set (t1 := if Qlt_bool ts now then Qmin' cap (t + (now - ts) * (rate * f)) else t).
  set (ts1 := if Qlt_bool ts now then now else ts).
  assert (0 <= t1 <= cap ∧ ts <= ts1 <= T ∧ t1 - rate * ts1 <= t - rate * ts) as (H1 & H2 & H3).
  { unfold t1, ts1. destruct (Qlt_bool_spec ts now) as [Hlt|]; [|repeat split; lra].
    assert (0 <= rate * f <= rate) as [Hr0 Hr1] by (clear -Hr Hf0 Hf1; clearbody f; split; nra).
    assert (0 <= (now - ts) * (rate * f)) by (apply Qmult_le_0_compat; lra).
    assert ((now - ts) * (rate * f) <= (now - ts) * rate).
    { rewrite !(Qmult_comm (now - ts)). apply Qmult_le_compat_r; lra. }
    unfold Qmin'. destruct (Qle_bool_spec cap (t + (now - ts) * (rate * f))); repeat split; lra. }
  destruct (Qle_bool_spec n t1) as [Hle|Hgt].
  - cbv iota beta. exists (t1 - n), ts1. split; [done|]. cbn [Qle_bool]. clearbody t1 ts1 n.
    change (Qle_bool 0 0) with true. cbv iota. repeat split; lra.
  - cbv iota beta. exists t1, ts1. split; [done|]. clearbody t1 ts1 n. split; [lra|]. split; [lra|].
    destruct (Qle_bool_spec ((n - t1) / (rate * f)) 0) as [Hw|]; [|lra]. exfalso.
    assert (0 < (n - t1) / (rate * f)) by (apply Qlt_shift_div_l; nra). lra.
Qed.

Lemma run_lua_bound rate cap T calls t ts :
  0 < rate → Forall (call_ok T) calls → 0 <= t <= cap → ts <= T →
  let '(g, b') := run_lua rate cap calls (Some (t, ts)) in
  ∃ t' ts', b' = Some (t', ts') ∧ 0 <= t' <= cap ∧ ts' <= T ∧
    inject_Z g + (t' - rate * ts') <= t - rate * ts.
Proof.
  intros Hr Hcalls. revert t ts. induction Hcalls as [|k calls Hk _ IH]; intros t ts Ht Hts; cbn [run_lua].
  - exists t, ts. change (inject_Z 0) with 0. repeat split; lra.
  - pose proof (lua_step rate cap T k t ts Hr Hk Ht Hts) as Hs.
    destruct (BUCKET_LUA _ _ _ _ _ _) as [w b1]. destruct Hs as (t1 & ts1 & -> & H1 & H2 & H3).
    specialize (IH t1 ts1 H1 ltac:(lra)). destruct (run_lua rate cap calls _) as [g b2].
    destruct IH as (t' & ts' & -> & I1 & I2 & I3). exists t', ts'. split_and!; try done; try lra.
    destruct (Qle_bool w 0); [rewrite inject_Z_plus|]; lra.
Qed.

(** The processes share one rate.  Whatever order the scripts of any number of
    processes run in, and even if their clocks disagree and go back and forth, the tokens
    granted in all are at most the capacity plus rate times the time since the bucket's
    last stamp (the latest clock reading bounding that time). *)
Theorem redis_bucket_rate_bound (rate cap T t ts : Q) (calls : list LuaCall)
    (Hr : 0 < rate) (Hcalls : Forall (call_ok T) calls) (Ht : 0 <= t <= cap) (Hts : ts <= T) :
  inject_Z (run_lua rate cap calls (Some (t, ts))).1 <= cap + rate * (T - ts).
Proof.
  pose proof (run_lua_bound rate cap T calls t ts Hr Hcalls Ht Hts) as H.
  destruct (run_lua rate cap calls _) as [g b']. destruct H as (t' & ts' & -> & H1 & H2 & H3). cbn [fst].
  assert (0 <= rate * (T - ts')) by (apply Qmult_le_0_compat; lra). lra.
Qed.

Lemma redis_bucket_rate_bound_witness :
  inject_Z (run_lua 1 2 [mkCall 1 1 None; mkCall 0 1 (Some (3 # 4)); mkCall 1 1 None] (Some (1, 0))).1
    <= 2 + 1 * (1 - 0).
Proof.
  apply (redis_bucket_rate_bound 1 2 1 1 0); try lra.
  repeat constructor; cbn; try lra; try lia.
Defined.

(** Letting an idle bucket's key expire changes nothing.  After an hour without a call
    the stored bucket would be full again under any penalty the code sets, so the script
    answers and stores exactly what it does for a key that is gone. *)
Theorem redis_expiry_harmless (rpm : Z) (now ts t : Q) (n : Z) (factor : option Q)
    (Hrpm : (1 <= rpm)%Z) (Ht : 0 <= t) (Hidle : ts + 3600 <= now)
    (Hfactor : 1 # 20 <= default 1 factor) :
  BUCKET_LUA (inject_Z rpm / 60) (bucket_capacity rpm None) now n factor (Some (t, ts)) =
  BUCKET_LUA (inject_Z rpm / 60) (bucket_capacity rpm None) now n factor None.
Proof.
  unfold BUCKET_LUA. cbn [fmap option_fmap option_map default id fst snd].
  set (f := default 1 factor) in *. set (cap := bucket_capacity rpm None).
  assert (Qlt_bool ts now = true) as -> by (destruct (Qlt_bool_spec ts now); [done|lra]).
  assert (Qlt_bool now now = false) as -> by (destruct (Qlt_bool_spec now now); [lra|done]).
  assert (Qmin' cap (t + (now - ts) * (inject_Z rpm / 60 * f)) = cap) as ->; [|done].
  unfold Qmin'. destruct (Qle_bool_spec cap (t + (now - ts) * (inject_Z rpm / 60 * f))) as [|Hgt]; [done|].
  exfalso. apply Hgt.
  assert (cap <= inject_Z rpm) as Hcap.
  { unfold cap, bucket_capacity. rewrite <- Zle_Qle.
    assert (rpm / 50 <= rpm)%Z by (apply Z.div_le_upper_bound; lia). lia. }
  assert (0 <= inject_Z rpm) as Hpos by (change 0 with (inject_Z 0); rewrite <- Zle_Qle; lia).
  assert (inject_Z rpm / 60 == inject_Z rpm * (1 # 60)) as E by (unfold Qdiv; done).
  assert (inject_Z rpm * (1 # 60) * (1 # 20) <= inject_Z rpm / 60 * f).
  { rewrite E. rewrite !(Qmult_comm (inject_Z rpm * (1 # 60))). apply Qmult_le_compat_r; lra. }
  assert (3600 * (inject_Z rpm * (1 # 60) * (1 # 20)) <= (now - ts) * (inject_Z rpm / 60 * f)).
  { apply Qle_trans with (3600 * (inject_Z rpm / 60 * f)); [lra|]. apply Qmult_le_compat_r; lra. }
  lra.
Qed.

Lemma redis_expiry_harmless_witness :
  BUCKET_LUA (inject_Z 500 / 60) (bucket_capacity 500 None) 4000 1 (Some (1 # 20)) (Some (0, 10)) =
  BUCKET_LUA (inject_Z 500 / 60) (bucket_capacity 500 None) 4000 1 (Some (1 # 20)) None.
Proof. apply (redis_expiry_harmless 500 4000 10 0 1 (Some (1 # 20))); cbn; [lia|lra|lra|lra]. Defined.
