(* ===== verification/SharedBucket.v ===== *)
(** * The bucket several processes share ([RedisTokenBucket] of [src/app/ratelimit.py])

    Every process has its own local bucket on its own monotonic clock, and all have the same
    two Redis keys.  A request for tokens runs the script with the process's wall clock when
    Redis answers, and falls back to the process's own bucket when it does not; a 429 slows
    the local bucket and, if Redis is reached, every process.  The keys live on the server's
    clock: the bucket's expires an hour after its last use, the penalty's after its seconds,
    and Redis can lose both.  Floats are rationals: there is no rounding. *)

From Stdlib Require Import ZArith QArith Qminmax Qround Lqa Lia String.
From stdpp Require Import base strings option list.
From S2P Require Import Prelude RateLimit.

#[local] Open Scope Q_scope.

(** [RedisTokenBucket.__init__]: the rate and capacity of the script's arguments, the keys,
    and the local bucket. *)
Record RedisTokenBucket := mkRedisTokenBucket {
  rb_rate : Q;
  rb_capacity : Q;
  rb_key : string;
  rb_penalty_key : string;
  rb_fallback : TokenBucket
}.

Definition new_redis_bucket (now : Q) (rate_per_minute : Z) (name : string) (capacity : option Z) : RedisTokenBucket := {|
  rb_rate := inject_Z rate_per_minute / 60;
  rb_capacity := bucket_capacity rate_per_minute capacity;
  rb_key := "ratelimit:" +:+ name +:+ ":bucket";
  rb_penalty_key := "ratelimit:" +:+ name +:+ ":penalty";
  rb_fallback := new_bucket now rate_per_minute capacity
|}.

Definition set_fallback (b : TokenBucket) (rb : RedisTokenBucket) : RedisTokenBucket :=
  mkRedisTokenBucket (rb_rate rb) (rb_capacity rb) (rb_key rb) (rb_penalty_key rb) b.

(** The hash at [_key] and the factor at [_penalty_key], each with the time it expires at;
    the server's clock at its last command; and the processes started so far. *)
Record Shared := mkShared {
  sh_bucket : option (Q * Q * Q);
  sh_penalty : option (Q * Q);
  sh_clock : Q;
  sh_procs : list RedisTokenBucket
}.

(** What the server has at a key at its time [server]. *)
Definition read_key {A} (server : Q) (k : option (A * Q)) : option A :=
  match k with Some (x, until) => if Qlt_bool server until then Some x else None | None => None end.

(** [redis.call('EXPIRE', KEYS[1], 3600)] *)
Definition EXPIRE : Q := 3600.

(** [px=int(seconds * 1000)]; Redis refuses a time that is not positive. *)
Definition px (seconds : Q) : Z := Qfloor (seconds * 1000).

Inductive SharedOp :=
  | Boot (mono : Q)                                            (* a process starts, its clock at [mono] *)
  | TryRedis (i : nat) (now server : Q) (n : Z) (answered : bool)   (* [_try]: the script runs; its answer may be lost *)
  | TryLocal (i : nat) (t1 t2 t3 : Q) (n : Z)                  (* Redis failed: a pass of the fallback *)
  | Slow (i : nat) (fraction seconds now : Q)                  (* [penalize], at once *)
  | SetPenalty (fraction seconds server : Q)                   (* its task's SET, when it reaches Redis *)
  | LoseKeys (server : Q).                                     (* a restart or an eviction *)

Section shared.
Context (rpm : Z) (name : string) (capacity : option Z).

(** The tokens granted, and the state. *)
Definition shared_op (o : SharedOp) (s : Shared) : Z * Shared :=
  match o with
  | Boot mono =>
      (0%Z, mkShared (sh_bucket s) (sh_penalty s) (sh_clock s) (sh_procs s ++ [new_redis_bucket mono rpm name capacity]))
  | TryRedis i now server n answered =>
      match sh_procs s !! i with
      | Some rb =>
          let '(wait, b) := BUCKET_LUA (rb_rate rb) (rb_capacity rb) now n
                              (read_key server (sh_penalty s)) (read_key server (sh_bucket s)) in
          (if answered && Qle_bool wait 0 then n else 0%Z,
           mkShared ((λ x, (x, server + EXPIRE)) <$> b) (sh_penalty s) server (sh_procs s))
      | None => (0%Z, s)
      end
  | TryLocal i t1 t2 t3 n =>
      match sh_procs s !! i with
      | Some rb =>
          let '(w, b') := try_acquire t1 t2 t3 n (rb_fallback rb) in
          (match w with None => n | Some _ => 0%Z end,
           mkShared (sh_bucket s) (sh_penalty s) (sh_clock s) (<[i := set_fallback b' rb]> (sh_procs s)))
      | None => (0%Z, s)
      end
  | Slow i fraction seconds now =>
      (0%Z, mkShared (sh_bucket s) (sh_penalty s) (sh_clock s)
              (alter (λ rb, set_fallback (penalize fraction seconds now (rb_fallback rb)) rb) i (sh_procs s)))
  | SetPenalty fraction seconds server =>
      (0%Z, mkShared (sh_bucket s)
              (if (0 <? px seconds)%Z then Some (penalty_of fraction, server + inject_Z (px seconds) / 1000) else sh_penalty s)
              server (sh_procs s))
  | LoseKeys server => (0%Z, mkShared None None server (sh_procs s))
  end.

Fixpoint run_shared (ops : list SharedOp) (s : Shared) : Z * Shared :=
  match ops with
  | [] => (0%Z, s)
  | o :: rest => let '(g, s1) := shared_op o s in let '(g', s2) := run_shared rest s1 in ((g + g')%Z, s2)
  end.

(** How often Redis loses the keys. *)
Definition losses (ops : list SharedOp) : nat :=
  length (List.filter (λ o, match o with LoseKeys _ => true | _ => false end) ops).

(** ** The clocks *)

(** The server's clock and each process's own do not go back, and the wall clock a process
    passes to the script is within [skew] of the server's. *)
Definition op_ok (skew : Q) (o : SharedOp) (s : Shared) : Prop :=
  match o with
  | Boot _ => True
  | TryRedis _ now server n _ => sh_clock s <= server ∧ server - skew <= now ∧ now <= server + skew ∧ (0 <= n)%Z
  | TryLocal i t1 _ _ n => (0 <= n)%Z ∧ (∀ rb, sh_procs s !! i = Some rb → tb_updated (rb_fallback rb) <= t1)
  | Slow _ fraction _ _ => 0 <= fraction
  | SetPenalty fraction _ server => 0 <= fraction ∧ sh_clock s <= server
  | LoseKeys server => sh_clock s <= server
  end.

(** A stretch of [w_span] seconds, on the server's clock and on each process's. *)
Record Window := mkWindow { w_server : Q; w_local : nat → Q; w_span : Q }.

Definition opens (w : Window) (s : Shared) : Prop :=
  0 <= w_span w ∧ sh_clock s <= w_server w ∧
  ∀ i rb, sh_procs s !! i = Some rb → tb_updated (rb_fallback rb) <= w_local w i.

Definition within (from span t : Q) : Prop := from <= t ∧ t <= from + span.

Definition in_window (w : Window) (o : SharedOp) (s : Shared) : Prop :=
  match o with
  | Boot mono => within (w_local w (length (sh_procs s))) (w_span w) mono
  | TryRedis _ _ server _ _ | SetPenalty _ _ server | LoseKeys server => within (w_server w) (w_span w) server
  | TryLocal i t1 _ _ _ => within (w_local w i) (w_span w) t1
  | Slow _ _ _ _ => True
  end.

(** The condition holds of each operation in the state it meets. *)
Fixpoint along (P : SharedOp → Shared → Prop) (ops : list SharedOp) (s : Shared) : Prop :=
  match ops with [] => True | o :: rest => P o s ∧ along P rest (shared_op o s).2 end.
End shared.

(** ** What a bucket can still give *)

(** What a bucket that held [t] at [ts] holds at [w], or at [ts] when that is later, less
    what its rate will have given it by then. *)
Definition level (rate cap w t ts : Q) : Q := Qmin' cap (t + rate * (Qmax' ts w - ts)) - rate * Qmax' ts w.

Lemma level_after rate cap w t ts : t <= cap → w <= ts → level rate cap w t ts == t - rate * ts.
Proof.
  intros Ht Hw. unfold level. assert (Qmax' ts w == ts) as E by (qcases; lra). set (x := Qmax' ts w) in *. clearbody x.
  assert (rate * (x - ts) == 0) by (rewrite E; ring). assert (rate * x == rate * ts) by (by rewrite E). qcases; lra.
Qed.

Lemma level_top rate cap w t ts : 0 < rate → level rate cap w t ts <= cap - rate * w.
Proof.
  intros Hr. unfold level. assert (w <= Qmax' ts w) as Hm by (qcases; lra).
  assert (rate * w <= rate * Qmax' ts w) by (rewrite !(Qmult_comm rate); apply Qmult_le_compat_r; lra).
  set (x := Qmax' ts w) in *. clearbody x. qcases; lra.
Qed.

Lemma level_bottom rate cap w t ts hi :
  0 < rate → 0 <= t → 0 <= cap → ts <= hi → w <= hi → - (rate * hi) <= level rate cap w t ts.
Proof.
  intros Hr Ht Hc H1 H2. unfold level. assert (Qmax' ts w <= hi ∧ ts <= Qmax' ts w) as [Hm Hm'] by (split; qcases; lra).
  set (x := Qmax' ts w) in *. clearbody x.
  assert (rate * x <= rate * hi) by (rewrite !(Qmult_comm rate); apply Qmult_le_compat_r; lra).
  assert (0 <= rate * (x - ts)) by (apply Qmult_le_0_compat; lra). qcases; lra.
Qed.

(** Refilling at a rate no higher, from the stamp to [now], does not exceed the level. *)
Lemma refill_level rate r cap w t ts now :
  0 <= r → r <= rate → 0 <= t → w <= now → ts <= now →
  Qmin' cap (t + (now - ts) * r) - rate * now <= level rate cap w t ts.
Proof.
  intros Hr0 Hr Ht Hw Hts. unfold level. assert (Qmax' ts w <= now ∧ ts <= Qmax' ts w) as [Hm Hm'] by (split; qcases; lra).
  set (x := Qmax' ts w) in *. clearbody x.
  assert (rate * x <= rate * now) by (rewrite !(Qmult_comm rate); apply Qmult_le_compat_r; lra).
  assert ((now - ts) * r <= rate * (now - ts)) by (rewrite (Qmult_comm rate), !(Qmult_comm (now - ts)); apply Qmult_le_compat_r; lra).
  assert (rate * (x - ts) == rate * x - rate * ts) as E1 by ring.
  assert (rate * (now - ts) == rate * now - rate * ts) as E2 by ring. qcases; lra.
Qed.

(** A full bucket is within the level when the time since the stamp has refilled it. *)
Lemma refilled_level rate cap w t ts now :
  0 < rate → 0 <= t → 0 <= cap → w <= now → ts <= now → cap <= rate * (now - ts) →
  cap - rate * now <= level rate cap w t ts.
Proof.
  intros Hr Ht H0 Hw Hts Hc. unfold level. assert (Qmax' ts w <= now ∧ ts <= Qmax' ts w) as [Hm Hm'] by (split; qcases; lra).
  set (x := Qmax' ts w) in *. clearbody x.
  assert (rate * x <= rate * now) by (rewrite !(Qmult_comm rate); apply Qmult_le_compat_r; lra).
  assert (rate * (x - ts) == rate * x - rate * ts) as E1 by ring.
  assert (rate * (now - ts) == rate * now - rate * ts) as E2 by ring. qcases; lra.
Qed.

(** The script on a bucket it finds, and on none. *)
Lemma lua_level rate cap now n factor w t ts :
  0 < rate → 0 < default 1 factor <= 1 → (0 <= n)%Z → 0 <= t <= cap → w <= now →
  let '(wait, b') := BUCKET_LUA rate cap now n factor (Some (t, ts)) in
  ∃ t' ts', b' = Some (t', ts') ∧ 0 <= t' <= cap ∧ ts' = (if Qlt_bool ts now then now else ts) ∧
    (if Qle_bool wait 0 then inject_Z n else 0) + level rate cap w t' ts' <= level rate cap w t ts.
Proof.
  intros Hr [Hf0 Hf1] Hn [Ht0 Ht1] Hw. unfold BUCKET_LUA. cbn [fmap option_fmap option_map default id fst snd].
  set (f := default 1 factor) in *. assert (0 <= inject_Z n) as Hn' by (change 0 with (inject_Z 0); by rewrite <- Zle_Qle).
  set (n' := inject_Z n) in *. assert (0 < rate * f) as Hrf by (clearbody f; nra).
  assert (rate * f <= rate) as Hrf' by (clearbody f; nra).
  set (t1 := if Qlt_bool ts now then Qmin' cap (t + (now - ts) * (rate * f)) else t).
  set (ts1 := if Qlt_bool ts now then now else ts).
  assert (0 <= t1 <= cap ∧ w <= ts1 ∧ t1 - rate * ts1 <= level rate cap w t ts) as (H1 & H2 & H3).
  { unfold t1, ts1. destruct (Qlt_bool_spec ts now) as [Hlt|Hge].
    - assert (0 <= (now - ts) * (rate * f)) by (apply Qmult_le_0_compat; lra).
      split; [qcases; lra|]. split; [done|]. apply refill_level; lra.
    - split; [done|]. split; [lra|]. pose proof (level_after rate cap w t ts Ht1). lra. }
  clearbody t1 ts1 n'. destruct (Qle_bool_spec n' t1) as [Hle|Hgt].
  - exists (t1 - n'), ts1. split; [done|]. split; [lra|]. split; [done|]. change (Qle_bool 0 0) with true. cbv iota.
    rewrite level_after by lra. lra.
  - exists t1, ts1. split; [done|]. split; [done|]. split; [done|]. rewrite level_after by lra.
    destruct (Qle_bool_spec ((n' - t1) / (rate * f)) 0) as [Hz|]; [|lra]. exfalso.
    assert (0 < (n' - t1) / (rate * f)) by (apply Qlt_shift_div_l; lra). lra.
Qed.

Lemma lua_fresh rate cap now n factor w :
  0 < rate → 0 < default 1 factor → (0 <= n)%Z → 0 <= cap → w <= now →
  let '(wait, b') := BUCKET_LUA rate cap now n factor None in
  ∃ t', b' = Some (t', now) ∧ 0 <= t' <= cap ∧
    (if Qle_bool wait 0 then inject_Z n else 0) + level rate cap w t' now <= cap - rate * now.
Proof.
  intros Hr Hf Hn Hc Hw. unfold BUCKET_LUA. cbn [fmap option_fmap option_map default id fst snd].
  assert (Qlt_bool now now = false) as -> by (destruct (Qlt_bool_spec now now); [lra|done]).
  set (f := default 1 factor) in *. assert (0 <= inject_Z n) as Hn' by (change 0 with (inject_Z 0); by rewrite <- Zle_Qle).
  set (n' := inject_Z n) in *. clearbody n' f. destruct (Qle_bool_spec n' cap) as [Hle|Hgt].
  - exists (cap - n'). split; [done|]. split; [lra|]. change (Qle_bool 0 0) with true. cbv iota. rewrite level_after by lra. lra.
  - exists cap. split; [done|]. split; [lra|]. rewrite level_after by lra.
    destruct (Qle_bool_spec ((n' - cap) / (rate * f)) 0) as [Hz|]; [|lra]. exfalso.
    assert (0 < (n' - cap) / (rate * f)) by (apply Qlt_shift_div_l; nra). lra.
Qed.

(** A pass of the local bucket. *)
Lemma local_level b t1 t2 t3 n w :
  bucket_ok b → tb_updated b <= t1 → (0 <= n)%Z → w <= t1 →
  let '(wt, b') := try_acquire t1 t2 t3 n b in
  (match wt with None => inject_Z n | Some _ => 0 end) + level (tb_rate b) (tb_capacity b) w (tb_tokens b') (tb_updated b')
    <= level (tb_rate b) (tb_capacity b) w (tb_tokens b) (tb_updated b).
Proof.
  intros Hok Ht Hn Hw. pose proof (try_acquire_ok b t1 t2 t3 n Hok Ht Hn) as Hok'.
  pose proof (try_acquire_potential b t1 t2 t3 n Hok Ht) as Hp. pose proof (effective_rate_bounds b t2 Hok) as Hr.
  destruct (try_acquire t1 t2 t3 n b) as [wt b'] eqn:E. destruct Hp as (E1 & E2 & E3 & _). cbn [snd] in Hok'.
  rewrite E1, level_after; [|destruct Hok'; rewrite <- E3; lra|done].
  assert (0 <= effective_rate t2 b) as Hr0 by (pose proof (effective_rate_pos b t2 Hok); lra).
  pose proof (refill_level (tb_rate b) (effective_rate t2 b) (tb_capacity b) w (tb_tokens b) (tb_updated b) t1
    Hr0 ltac:(lra) (bo_low _ Hok) Hw Ht) as Hl.
  unfold try_acquire in E. cbn zeta in E.
  destruct (Qle_bool_spec (inject_Z n) (tb_tokens (refill t1 t2 b))); injection E as <- <-; cbn [refill with_tokens tb_tokens] in *; lra.
Qed.

(** ** The bound *)

Section bound.
Context (rpm : Z) (name : string) (capacity : option Z) (skew : Q).
Abbreviation rate := (inject_Z rpm / 60).
Abbreviation cap := (bucket_capacity rpm capacity).
Abbreviation shared_op := (shared_op rpm name capacity).
Abbreviation run_shared := (run_shared rpm name capacity).
Abbreviation along := (along rpm name capacity).
Context (Hrpm : (1 <= rpm)%Z) (Hcap : (0 <= default 1%Z capacity)%Z) (Hskew : 0 <= skew).
Context (Hhour : cap <= rate * (EXPIRE - 2 * skew)).

Record proc_ok (rb : RedisTokenBucket) : Prop := {
  po_rate : rb_rate rb = rate ∧ tb_rate (rb_fallback rb) = rate;
  po_capacity : rb_capacity rb = cap ∧ tb_capacity (rb_fallback rb) = cap;
  po_fallback : bucket_ok (rb_fallback rb)
}.

Record shared_ok (s : Shared) : Prop := {
  so_bucket : ∀ t ts e, sh_bucket s = Some (t, ts, e) → 0 <= t <= cap ∧ ts <= sh_clock s + skew ∧ ts + EXPIRE <= e + skew;
  so_penalty : ∀ f until, sh_penalty s = Some (f, until) → 0 < f <= 1;
  so_procs : Forall proc_ok (sh_procs s)
}.

Lemma rate_pos : 0 < rate.
Proof. pose proof (bo_rate _ (new_bucket_ok 0 rpm capacity Hrpm Hcap)). cbn in *. lra. Qed.
Lemma cap_pos : 0 <= cap.
Proof. pose proof (bo_low _ (new_bucket_ok 0 rpm capacity Hrpm Hcap)). done. Qed.

Lemma rate_mono x y : x <= y → rate * x <= rate * y.
Proof. intros. pose proof rate_pos. rewrite !(Qmult_comm rate). apply Qmult_le_compat_r; lra. Qed.

Lemma new_proc_ok mono : proc_ok (new_redis_bucket mono rpm name capacity).
Proof. split; [done|done|by apply new_bucket_ok]. Qed.

Lemma read_penalty_ok server s : shared_ok s → 0 < default 1 (read_key server (sh_penalty s)) <= 1.
Proof.
  intros [_ Hp _]. unfold read_key. destruct (sh_penalty s) as [[f until]|] eqn:E; [|cbn; lra].
  destruct (Qlt_bool server until); [|cbn; lra]. exact (Hp _ _ eq_refl).
Qed.

Lemma read_bucket_cases server s :
  read_key server (sh_bucket s) = None ∧ (sh_bucket s = None ∨ ∃ t ts e, sh_bucket s = Some (t, ts, e) ∧ e <= server) ∨
  ∃ t ts e, sh_bucket s = Some (t, ts, e) ∧ read_key server (sh_bucket s) = Some (t, ts).
Proof.
  destruct (sh_bucket s) as [[[t ts] e]|]; [|by left; auto]. cbn. destruct (Qlt_bool_spec server e) as [|Hge].
  - right. by exists t, ts, e.
  - left. split; [done|]. right. exists t, ts, e. split; [done|lra].
Qed.

(** What Redis can still give, seen from the window. *)
Definition redis_level (w : Window) (s : Shared) : Q :=
  match sh_bucket s with
  | Some (t, ts, _) => level rate cap (w_server w - skew) t ts
  | None => cap - rate * (Qmax' (sh_clock s) (w_server w) - skew)
  end.

Lemma try_redis_level w i now server n answered s :
  shared_ok s → op_ok skew (TryRedis i now server n answered) s → w_server w <= server →
  let '(g, s') := shared_op (TryRedis i now server n answered) s in
  shared_ok s' ∧ inject_Z g + redis_level w s' <= redis_level w s.
Proof.
  intros Hs (Hsv & Hlo & Hhi & Hn) Hw. pose proof rate_pos as Hr. pose proof cap_pos as Hc.
  cbn [SharedBucket.shared_op]. destruct (sh_procs s !! i) as [rb|] eqn:Ei; [|split; [done|change (inject_Z 0) with 0; lra]].
  pose proof Hs as [Hb Hp Hl]. rewrite Forall_lookup in Hl. destruct (Hl i rb Ei) as [[-> _] [-> _] _].
  pose proof (read_penalty_ok server s Hs) as Hf. set (f := read_key server (sh_penalty s)) in *.
  assert (w_server w - skew <= now) as Hwn by lra.
  destruct (read_bucket_cases server s) as [[-> Hcase]|(t & ts & e & Eb & ->)].
  - pose proof (lua_fresh rate cap now n f (w_server w - skew) Hr (proj1 Hf) Hn Hc Hwn) as Hlua.
    destruct (BUCKET_LUA _ _ _ _ _ _) as [wait b']. destruct Hlua as (t' & -> & Ht' & Hlua).
    split; [split; [|done|by apply Forall_lookup]|].
    { cbn. intros ? ? ? [= <- <- <-]. split; [done|]. unfold EXPIRE. lra. }
    assert (cap - rate * now <= redis_level w s) as Hfull.
    { unfold redis_level. destruct Hcase as [->|(t & ts & e & Eb & He)].
      - assert (Qmax' (sh_clock s) (w_server w) - skew <= now) as Hm by (qcases; lra). apply rate_mono in Hm. lra.
      - rewrite Eb. destruct (Hb _ _ _ Eb) as (Ht & _ & Hts). assert (EXPIRE - 2 * skew <= now - ts) as Hgap by lra.
        assert (cap <= rate * (now - ts)) as Hg by (apply rate_mono in Hgap; lra).
        apply refilled_level; try lra. apply Qnot_lt_le. intros Hlt.
        assert (rate * (now - ts) == - (rate * (ts - now))) by ring.
        assert (0 < rate * (ts - now)) by (apply Qmult_lt_0_compat; lra). lra. }
    unfold redis_level at 1. cbn [sh_bucket fmap option_fmap option_map]. destruct answered; cbn [andb]; destruct (Qle_bool wait 0); change (inject_Z 0) with 0; try lra.
    assert (0 <= inject_Z n) by (change 0 with (inject_Z 0); by rewrite <- Zle_Qle). lra.
  - destruct (Hb _ _ _ Eb) as (Ht & Hts & _).
    pose proof (lua_level rate cap now n f (w_server w - skew) t ts Hr Hf Hn Ht Hwn) as Hlua.
    destruct (BUCKET_LUA _ _ _ _ _ _) as [wait b']. destruct Hlua as (t' & ts' & -> & Ht' & Ets & Hlua).
    split; [split; [|done|by apply Forall_lookup]|].
    { cbn. intros ? ? ? [= <- <- <-]. rewrite Ets. split; [done|]. unfold EXPIRE. qcases; lra. }
    unfold redis_level. cbn [sh_bucket fmap option_fmap option_map]. rewrite Eb.
    destruct answered; cbn [andb]; destruct (Qle_bool wait 0); change (inject_Z 0) with 0; try lra.
    assert (0 <= inject_Z n) by (change 0 with (inject_Z 0); by rewrite <- Zle_Qle). lra.
Qed.

Lemma lose_level w server s :
  shared_ok s → sh_clock s <= server → w_server w <= server →
  redis_level w (mkShared None None server (sh_procs s)) <= redis_level w s + (cap + 2 * (rate * skew)).
Proof.
  intros [Hb _ _] Hsv Hw. pose proof rate_pos as Hr. pose proof cap_pos as Hc. unfold redis_level. cbn [sh_bucket sh_clock].
  assert (server <= Qmax' server (w_server w)) as Hm by (qcases; lra). set (x := Qmax' server (w_server w)) in *. clearbody x.
  apply rate_mono in Hm. assert (rate * (x - skew) == rate * x - rate * skew) as E by ring.
  assert (0 <= rate * skew) by (apply Qmult_le_0_compat; lra).
  destruct (sh_bucket s) as [[[t ts] e]|] eqn:Eb.
  - destruct (Hb _ _ _ eq_refl) as ([Ht _] & Hts & _).
    assert (- (rate * (server + skew)) <= level rate cap (w_server w - skew) t ts) by (apply level_bottom; lra).
    assert (rate * (server + skew) == rate * server + rate * skew) by ring. lra.
  - assert (Qmax' (sh_clock s) (w_server w) <= server) as Hm' by (qcases; lra).
    set (y := Qmax' (sh_clock s) (w_server w)) in *. clearbody y. apply rate_mono in Hm'.
    assert (rate * (y - skew) == rate * y - rate * skew) by ring. lra.
Qed.

Lemma clock_level w server p ps s :
  sh_clock s <= server → w_server w <= server →
  redis_level w (mkShared (sh_bucket s) p server ps) <= redis_level w s.
Proof.
  intros Hsv Hw. unfold redis_level. cbn [sh_bucket sh_clock]. destruct (sh_bucket s) as [[[t ts] e]|]; [lra|].
  assert (Qmax' (sh_clock s) (w_server w) - skew <= Qmax' server (w_server w) - skew) as Hm by (qcases; lra).
  apply rate_mono in Hm. lra.
Qed.

(** What a process's own bucket can still give, from where the window opens on its clock. *)
Definition proc_level (w : Window) (i : nat) (rb : RedisTokenBucket) : Q :=
  level rate cap (w_local w i) (tb_tokens (rb_fallback rb)) (tb_updated (rb_fallback rb)) + rate * w_local w i.

Fixpoint procs_level (w : Window) (i : nat) (l : list RedisTokenBucket) : Q :=
  match l with [] => 0 | rb :: l' => proc_level w i rb + procs_level w (S i) l' end.

Lemma procs_level_app w k l l' : procs_level w k (l ++ l') == procs_level w k l + procs_level w (k + length l) l'.
Proof.
  revert k. induction l as [|rb l IH]; intros k; cbn [app procs_level length]; [rewrite Nat.add_0_r; lra|].
  rewrite IH, Nat.add_succ_r. cbn [plus Nat.add]. lra.
Qed.

Lemma procs_level_insert w k l i rb rb' :
  l !! i = Some rb → procs_level w k (<[i := rb']> l) == procs_level w k l - proc_level w (k + i) rb + proc_level w (k + i) rb'.
Proof.
  revert k i. induction l as [|x l IH]; intros k [|i] E; try done.
  - injection E as ->. change (<[0%nat := rb']> (rb :: l)) with (rb' :: l). cbn [procs_level]. rewrite Nat.add_0_r. lra.
  - change (<[S i := rb']> (x :: l)) with (x :: <[i := rb']> l). cbn [procs_level]. rewrite (IH (S k) i E).
    rewrite Nat.add_succ_r. cbn [Nat.add]. lra.
Qed.

Lemma proc_level_top w i rb : proc_level w i rb <= cap.
Proof.
  unfold proc_level. pose proof (level_top rate cap (w_local w i) (tb_tokens (rb_fallback rb)) (tb_updated (rb_fallback rb)) rate_pos). lra.
Qed.

Lemma proc_level_bottom w i rb :
  proc_ok rb → 0 <= w_span w → tb_updated (rb_fallback rb) <= w_local w i + w_span w → - (rate * w_span w) <= proc_level w i rb.
Proof.
  intros [_ _ Hok] H0 Hu. unfold proc_level. destruct Hok as [_ Hl _ _].
  assert (- (rate * (w_local w i + w_span w)) <= level rate cap (w_local w i) (tb_tokens (rb_fallback rb)) (tb_updated (rb_fallback rb)))
    by (apply level_bottom; try lra; [apply rate_pos|apply cap_pos]).
  assert (rate * (w_local w i + w_span w) == rate * w_local w i + rate * w_span w) by ring. lra.
Qed.

Lemma procs_bounds w k l :
  (∀ i rb, l !! i = Some rb → - (rate * w_span w) <= proc_level w (k + i) rb) →
  - (inject_Z (Z.of_nat (length l)) * (rate * w_span w)) <= procs_level w k l ∧
  procs_level w k l <= inject_Z (Z.of_nat (length l)) * cap.
Proof.
  revert k. induction l as [|rb l IH]; intros k H; cbn [length procs_level]; [change (inject_Z (Z.of_nat 0)) with 0; lra|].
  rewrite Nat2Z.inj_succ, <- Z.add_1_r, inject_Z_plus. change (inject_Z 1) with 1.
  pose proof (H 0%nat rb eq_refl) as H0. rewrite Nat.add_0_r in H0. pose proof (proc_level_top w k rb) as H1.
  destruct (IH (S k)) as [I1 I2]; [|lra]. intros i x E. specialize (H (S i) x E). by rewrite Nat.add_succ_r in H.
Qed.

Definition total_level (w : Window) (s : Shared) : Q := redis_level w s + procs_level w 0 (sh_procs s).

(** No clock has passed the end of the window. *)
Definition inside (w : Window) (s : Shared) : Prop :=
  sh_clock s <= w_server w + w_span w ∧
  ∀ i rb, sh_procs s !! i = Some rb → tb_updated (rb_fallback rb) <= w_local w i + w_span w.

(** What an operation may add: Redis that forgets, or a process that starts, is a burst. *)
Definition cost (o : SharedOp) : Q :=
  match o with LoseKeys _ => cap + 2 * (rate * skew) | Boot _ => cap | _ => 0 end.

Lemma try_local_level w i t1 t2 t3 n s :
  shared_ok s → op_ok skew (TryLocal i t1 t2 t3 n) s → w_local w i <= t1 →
  let '(g, s') := shared_op (TryLocal i t1 t2 t3 n) s in
  shared_ok s' ∧ inject_Z g + procs_level w 0 (sh_procs s') <= procs_level w 0 (sh_procs s).
Proof.
  intros Hs [Hn Ht] Hw. cbn [SharedBucket.shared_op].
  destruct (sh_procs s !! i) as [rb|] eqn:Ei; [|split; [done|change (inject_Z 0) with 0; lra]].
  destruct Hs as [Hb Hp Hl]. pose proof Hl as Hl'. rewrite Forall_lookup in Hl'. destruct (Hl' i rb Ei) as [[R1 R2] [C1 C2] Hok].
  specialize (Ht rb eq_refl). pose proof (try_acquire_ok (rb_fallback rb) t1 t2 t3 n Hok Ht Hn) as Hok'.
  pose proof (try_acquire_potential (rb_fallback rb) t1 t2 t3 n Hok Ht) as Hpot.
  pose proof (local_level (rb_fallback rb) t1 t2 t3 n (w_local w i) Hok Ht Hn Hw) as Hlev. rewrite R2, C2 in Hlev.
  destruct (try_acquire t1 t2 t3 n (rb_fallback rb)) as [wt b']. cbn [snd] in Hok'. destruct Hpot as (_ & E2 & E3 & _).
  split.
  - split; [done|done|]. cbn. apply Forall_insert; [done|]. split; cbn; [by rewrite E2|by rewrite E3|done].
  - cbn [sh_procs]. rewrite (procs_level_insert _ _ _ _ _ _ Ei). cbn [Nat.add]. unfold proc_level. cbn [set_fallback rb_fallback].
    destruct wt; change (inject_Z 0) with 0; lra.
Qed.

Lemma slow_level w i fraction seconds now s :
  shared_ok s → 0 <= fraction →
  shared_ok (shared_op (Slow i fraction seconds now) s).2 ∧
  procs_level w 0 (sh_procs (shared_op (Slow i fraction seconds now) s).2) == procs_level w 0 (sh_procs s).
Proof.
  intros [Hb Hp Hl] Hf. cbn. split.
  - split; [done|done|]. cbn. apply Forall_alter; [done|]. intros rb _ [R C Hok]. split; [done|done|by apply penalize_ok].
  - generalize 0%nat as k. clear. revert i. induction (sh_procs s) as [|rb l IH]; intros [|i] k; try done.
    cbn. rewrite (IH i (S k)). done.
Qed.

Lemma shared_op_ok o s : shared_ok s → op_ok skew o s → shared_ok (shared_op o s).2.
Proof.
  intros Hs Ho. destruct o as [mono|i now server n a|i t1 t2 t3 n|i fr sec now|fr sec server|server].
  - destruct Hs as [Hb Hp Hl]. split; [done|done|]. apply Forall_app. split; [done|]. by apply Forall_singleton, new_proc_ok.
  - pose proof (try_redis_level (mkWindow server (λ _, 0) 0) i now server n a s Hs Ho ltac:(cbn; lra)) as H.
    by destruct (shared_op _ s) as [g s'], H.
  - pose proof (try_local_level (mkWindow 0 (λ _, t1) 0) i t1 t2 t3 n s Hs Ho ltac:(cbn; lra)) as H.
    by destruct (shared_op _ s) as [g s'], H.
  - by apply (slow_level (mkWindow 0 (λ _, 0) 0)).
  - destruct Hs as [Hb Hp Hl], Ho as [Hf Hsv]. split; cbn [SharedBucket.shared_op snd sh_bucket sh_penalty sh_clock sh_procs]; [|destruct (0 <? px sec)%Z; [|done]|done].
    + intros t ts e E. destruct (Hb t ts e E) as (? & ? & ?). split; [done|lra].
    + intros f until [= <- _]. destruct (penalty_of_bounds fr Hf). split; lra.
  - destruct Hs as [Hb Hp Hl]. by split.
Qed.

Lemma shared_op_level w o s :
  shared_ok s → op_ok skew o s → in_window w o s → inside w s → 0 <= w_span w →
  let '(g, s') := shared_op o s in
  inside w s' ∧ inject_Z g + total_level w s' <= total_level w s + cost o.
Proof.
  intros Hs Ho Hin [Hi1 Hi2] H0. unfold total_level.
  destruct o as [mono|i now server n a|i t1 t2 t3 n|i fr sec now|fr sec server|server]; cbn [cost].
  - cbn. destruct Hin as [_ Hin]. split; [split; [done|]|].
    + intros i rb. cbn. rewrite lookup_app. destruct (sh_procs s !! i) eqn:E; [intros [= <-]; by apply Hi2|].
      apply lookup_ge_None in E. intros E'. apply list_lookup_singleton_Some in E' as [Ek <-]. cbn.
      assert (i = length (sh_procs s)) as -> by lia. done.
    + rewrite procs_level_app. cbn [procs_level Nat.add]. pose proof (proc_level_top w (length (sh_procs s)) (new_redis_bucket mono rpm name capacity)).
      change (inject_Z 0) with 0. unfold redis_level. cbn [sh_bucket sh_clock]. lra.
  - destruct Hin as [Hw1 Hw2]. pose proof (try_redis_level w i now server n a s Hs Ho Hw1) as H. cbn [SharedBucket.shared_op] in *.
    destruct (sh_procs s !! i) as [rb|]; [|split; [done|change (inject_Z 0) with 0; lra]].
    destruct (BUCKET_LUA _ _ _ _ _ _) as [wait b]. destruct H as [_ H]. split; [done|]. cbn [sh_procs]. lra.
  - destruct Hin as [Hw1 Hw2]. pose proof (try_local_level w i t1 t2 t3 n s Hs Ho Hw1) as H. cbn [SharedBucket.shared_op] in *.
    destruct (sh_procs s !! i) as [rb|] eqn:Ei; [|split; [done|change (inject_Z 0) with 0; lra]].
    pose proof Hs as [_ _ Hl]. rewrite Forall_lookup in Hl. destruct (Hl i rb Ei) as [_ _ Hok]. destruct Ho as [Hn Ht].
    pose proof (try_acquire_potential (rb_fallback rb) t1 t2 t3 n Hok (Ht rb Ei)) as Hpot.
    destruct (try_acquire _ _ _ _ _) as [wt b']. destruct Hpot as (E1 & _). destruct H as [_ H]. split; [split; [done|]|].
    + intros j x. cbn. intros [(-> & <- & _)|[_ Hj]]%list_lookup_insert_Some; [cbn; by rewrite E1|by apply Hi2].
    + unfold redis_level in *. cbn [sh_bucket sh_clock] in *. lra.
  - destruct (slow_level w i fr sec now s Hs Ho) as [_ H]. cbn in H |- *. split; [split; [done|]|].
    + intros j x. cbn. rewrite list_lookup_alter. case_decide as Hj; [|apply Hi2]. subst j.
      intros (y & E & ->)%fmap_Some. cbn. by apply Hi2.
    + unfold redis_level. cbn [sh_bucket sh_clock]. change (inject_Z 0) with 0. lra.
  - destruct Hin as [Hw1 Hw2], Ho as [_ Hsv]. cbn [SharedBucket.shared_op]. split; [done|]. change (inject_Z 0) with 0.
    pose proof (clock_level w server (if (0 <? px sec)%Z then Some (penalty_of fr, server + inject_Z (px sec) / 1000) else sh_penalty s)
      (sh_procs s) s Hsv Hw1). cbn [sh_procs]. lra.
  - destruct Hin as [Hw1 Hw2]. cbn [SharedBucket.shared_op]. split; [done|]. change (inject_Z 0) with 0.
    pose proof (lose_level w server s Hs Ho Hw1). cbn [sh_procs]. lra.
Qed.

(** A burst for each process that starts and for each time Redis forgets. *)
Definition starts (s s' : Shared) : Q :=
  (inject_Z (Z.of_nat (length (sh_procs s'))) - inject_Z (Z.of_nat (length (sh_procs s)))) * cap.
Definition forgets (ops : list SharedOp) : Q := inject_Z (Z.of_nat (losses ops)) * (cap + 2 * (rate * skew)).

Lemma cost_counts o s : cost o == starts s (shared_op o s).2 + forgets [o].
Proof.
  unfold starts, forgets.
  assert (losses [o] = match o with LoseKeys _ => 1%nat | _ => 0%nat end) as -> by (by destruct o).
  destruct o as [mono|i now server n a|i t1 t2 t3 n|i fr sec now|fr sec server|server]; cbn [cost SharedBucket.shared_op snd sh_procs].
  1: rewrite length_app; cbn [length]; rewrite Nat2Z.inj_add, inject_Z_plus.
  2,3: destruct (sh_procs s !! i); [destruct (BUCKET_LUA _ _ _ _ _ _) || destruct (try_acquire _ _ _ _ _)|]; cbn [snd sh_procs];
       rewrite ?length_insert.
  6: rewrite length_alter.
  all: change (inject_Z (Z.of_nat 0)) with 0; change (inject_Z (Z.of_nat 1)) with 1; ring.
Qed.

Lemma run_shared_ok ops s : shared_ok s → along (op_ok skew) ops s → shared_ok (run_shared ops s).2.
Proof.
  revert s. induction ops as [|o ops IH]; intros s Hs; cbn [SharedBucket.run_shared SharedBucket.along]; [done|]. intros [Ho Hops].
  pose proof (shared_op_ok o s Hs Ho) as H1. destruct (shared_op o s) as [g s1]. specialize (IH s1 H1 Hops).
  by destruct (run_shared ops s1) as [g' s2].
Qed.

Lemma run_shared_level w ops s :
  0 <= w_span w → shared_ok s → inside w s → along (op_ok skew) ops s → along (in_window w) ops s →
  let '(g, s') := run_shared ops s in
  inside w s' ∧ inject_Z g + total_level w s' <= total_level w s + starts s s' + forgets ops.
Proof.
  intros H0. revert s. induction ops as [|o ops IH]; intros s Hs Hi; cbn [SharedBucket.run_shared SharedBucket.along].
  - intros _ _. split; [done|]. unfold starts, forgets. change (inject_Z 0) with 0. change (inject_Z (Z.of_nat (losses []))) with 0. lra.
  - intros [Ho Hops] [Hw Hws]. pose proof (shared_op_ok o s Hs Ho) as H1. pose proof (cost_counts o s) as Hc.
    pose proof (shared_op_level w o s Hs Ho Hw Hi H0) as H2. destruct (shared_op o s) as [g s1]. cbn [snd] in *. destruct H2 as [I1 L1].
    specialize (IH s1 H1 I1 Hops Hws). destruct (run_shared ops s1) as [g' s2]. destruct IH as [I2 L2]. split; [done|].
    assert (forgets (o :: ops) == forgets [o] + forgets ops) as E.
    { unfold forgets. assert (losses (o :: ops) = losses [o] + losses ops)%nat as -> by (unfold losses; destruct o; done).
      rewrite Nat2Z.inj_add, inject_Z_plus. ring. }
    rewrite E, inject_Z_plus. unfold starts in *. lra.
Qed.

Lemma start_level w s : shared_ok s → opens w s → total_level w s <= cap - rate * (w_server w - skew) + inject_Z (Z.of_nat (length (sh_procs s))) * cap.
Proof.
  intros Hs (H0 & Hc & Hl). unfold total_level.
  assert (redis_level w s <= cap - rate * (w_server w - skew)) as Hr.
  { unfold redis_level. destruct (sh_bucket s) as [[[t ts] e]|]; [apply level_top, rate_pos|].
    assert (w_server w - skew <= Qmax' (sh_clock s) (w_server w) - skew) as Hm by (qcases; lra). apply rate_mono in Hm. lra. }
  destruct (procs_bounds w 0 (sh_procs s)) as [_ Hp]; [|lra]. intros i rb E. destruct Hs as [_ _ Hps]. rewrite Forall_lookup in Hps.
  apply proc_level_bottom; [by eapply Hps|done|]. specialize (Hl i rb E). cbn. lra.
Qed.

Lemma end_level w s :
  0 <= w_span w → shared_ok s → inside w s →
  - (rate * (w_server w + w_span w + skew)) - inject_Z (Z.of_nat (length (sh_procs s))) * (rate * w_span w) <= total_level w s.
Proof.
  intros H0 Hs [Hi Hl]. unfold total_level.
  assert (- (rate * (w_server w + w_span w + skew)) <= redis_level w s) as Hr.
  { unfold redis_level. destruct (sh_bucket s) as [[[t ts] e]|] eqn:E.
    - destruct Hs as [Hb _ _]. destruct (Hb _ _ _ E) as (? & ? & _). pose proof rate_pos. apply level_bottom; lra.
    - assert (Qmax' (sh_clock s) (w_server w) - skew <= w_server w + w_span w + skew) as Hm by (qcases; lra). apply rate_mono in Hm.
      pose proof cap_pos. lra. }
  destruct (procs_bounds w 0 (sh_procs s)) as [Hp _]; [|lra]. intros i rb E. destruct Hs as [_ _ Hps]. rewrite Forall_lookup in Hps.
  apply proc_level_bottom; [by eapply Hps|done|]. cbn. by apply Hl.
Qed.

Lemma window_bound w s ops :
  shared_ok s → opens w s → along (op_ok skew) ops s → along (in_window w) ops s →
  let '(granted, s') := run_shared ops s in
  inject_Z granted <= inject_Z (Z.of_nat (S (losses ops))) * (cap + 2 * (rate * skew)) + rate * w_span w
                      + inject_Z (Z.of_nat (length (sh_procs s'))) * (cap + rate * w_span w).
Proof.
  intros Hs Ho Hops Hw. pose proof (start_level w s Hs Ho) as Hst. destruct Ho as (H0 & Hc & Hl).
  assert (inside w s) as Hi by (split; [lra|]; intros i rb E; specialize (Hl i rb E); lra).
  pose proof (run_shared_ok ops s Hs Hops) as Hs'. pose proof (run_shared_level w ops s H0 Hs Hi Hops Hw) as Hrun.
  destruct (run_shared ops s) as [g s']. cbn [snd] in Hs'. destruct Hrun as [Hi' Hrun]. pose proof (end_level w s' H0 Hs' Hi') as He.
  unfold starts, forgets in Hrun. rewrite Nat2Z.inj_succ, <- Z.add_1_r, inject_Z_plus. change (inject_Z 1) with 1.
  assert (rate * (w_server w - skew) == rate * w_server w - rate * skew) by ring.
  assert (rate * (w_server w + w_span w + skew) == rate * w_server w + rate * w_span w + rate * skew) by ring.
  set (n := inject_Z (Z.of_nat (length (sh_procs s')))) in *. set (k := inject_Z (Z.of_nat (losses ops))) in *.
  assert (n * (cap + rate * w_span w) == n * cap + n * (rate * w_span w)) by ring. lra.
Qed.
End bound.

(** No key in Redis and no process yet. *)
Definition empty_shared (clock : Q) : Shared := mkShared None None clock [].

(** The capacity the program uses is refilled well within the hour. *)
Lemma default_refills rpm skew :
  (1 <= rpm)%Z → skew <= 1770 → bucket_capacity rpm None <= inject_Z rpm / 60 * (EXPIRE - 2 * skew).
Proof.
  intros Hrpm Hs. unfold bucket_capacity, EXPIRE.
  assert (inject_Z (Z.max 1 (rpm / 50)) <= inject_Z rpm) as Hle.
  { rewrite <- Zle_Qle. assert (rpm / 50 <= rpm)%Z by (apply Z.div_le_upper_bound; lia). lia. }
  assert (0 <= inject_Z rpm) by (change 0 with (inject_Z 0); rewrite <- Zle_Qle; lia).
  assert (inject_Z rpm / 60 * 60 <= inject_Z rpm / 60 * (3600 - 2 * skew)) as Hm.
  { rewrite !(Qmult_comm (inject_Z rpm / 60)). apply Qmult_le_compat_r; [lra|]. unfold Qdiv. apply Qmult_le_0_compat; [done|]. unfold Qle; cbn; lia. }
  assert (inject_Z rpm / 60 * 60 == inject_Z rpm) by (field). lra.
Qed.

(** C34: the processes share one rate, in every stretch of time.  Take any run from empty
    keys - processes starting, scripts and fallback passes in any order, Redis failing for
    any of them, answers lost, penalties that do or do not reach it, keys expiring after
    their hour and Redis losing them - with wall clocks within [skew] of the server's and no
    server or monotonic clock going back, and any stretch of it that lasts [span] seconds on
    the server's clock and on each process's own.  If the capacity is refilled in an hour
    less twice the skew, as the default is for any skew up to 29 minutes, the tokens granted in the stretch to all
    processes together are at most a burst and the rate over [span], a further burst for
    each time Redis lost the keys in the stretch (each of these bursts with the rate over
    twice the skew), and a burst and the rate over [span] for each process's own bucket. *)
Theorem shared_bucket_bound rpm name capacity skew clock before during w :
  let rate := inject_Z rpm / 60 in
  let cap := bucket_capacity rpm capacity in
  let s := (run_shared rpm name capacity before (empty_shared clock)).2 in
  (1 <= rpm)%Z → (0 <= default 1%Z capacity)%Z → 0 <= skew → cap <= rate * (EXPIRE - 2 * skew) →
  along rpm name capacity (op_ok skew) before (empty_shared clock) → opens w s →
  along rpm name capacity (op_ok skew) during s → along rpm name capacity (in_window w) during s →
  let '(granted, s') := run_shared rpm name capacity during s in
  inject_Z granted <= inject_Z (Z.of_nat (S (losses during))) * (cap + 2 * (rate * skew)) + rate * w_span w
                      + inject_Z (Z.of_nat (length (sh_procs s'))) * (cap + rate * w_span w).
Proof.
  intros rate cap s Hrpm Hcap Hskew Hhour Hb Ho Hops Hw. apply window_bound; try done. by apply run_shared_ok.
Qed.

(** An idle hour, a full burst from the new key, a loss and the fallback of a process that
    starts in the window. *)
Lemma shared_bucket_bound_witness :
  let before := [Boot 0; TryRedis 0 100 100 2 true; SetPenalty (1 # 4) 60 100; Slow 0 (1 # 4) 60 0] in
  let during := [TryRedis 0 4000 4000 2 true; Boot 7; LoseKeys 4001; TryRedis 1 4002 4001 2 false; TryLocal 1 8 8 8 2] in
  let w := mkWindow 4000 (λ i, if (i =? 0)%nat then 3900 else 7) 1 in
  let s := (run_shared 60 "jina" (Some 2%Z) before (empty_shared 0)).2 in
  (run_shared 60 "jina" (Some 2%Z) during s).1 = 4%Z ∧
  let '(granted, s') := run_shared 60 "jina" (Some 2%Z) during s in
  inject_Z granted <= inject_Z 2 * (bucket_capacity 60 (Some 2%Z) + 2 * (inject_Z 60 / 60 * 1)) + inject_Z 60 / 60 * 1
                      + inject_Z (Z.of_nat (length (sh_procs s'))) * (bucket_capacity 60 (Some 2%Z) + inject_Z 60 / 60 * 1).
Proof.
  intros before during w s. split; [vm_compute; reflexivity|].
  apply (shared_bucket_bound 60 "jina" (Some 2%Z) 1 0 before during w); try (vm_compute; discriminate).
  - vm_compute. repeat split; try discriminate.
  - split; [vm_compute; discriminate|]. split; [vm_compute; discriminate|].
    intros [|[|i]] rb E; vm_compute in E; try discriminate E. injection E as <-. vm_compute. discriminate.
  - vm_compute. repeat split; try discriminate. intros rb [= <-]. vm_compute. discriminate.
  - vm_compute. repeat split; discriminate.
Defined.
