(* ===== verification/Breaker.v ===== *)
(** * The circuit breaker and the fetch gate ([src/app/ratelimit.py], lines 174-394) *)

From Stdlib Require Import ZArith QArith Lqa Lia.
From stdpp Require Import base strings option gmap list.
From S2P Require Import Prelude RateLimit.

(** ** The circuit breaker *)

Record BreakerConfig := mkBreakerConfig {
  window : nat;
  threshold : Q;
  open_seconds : Q;
  max_open_seconds : Q;
  probes : nat;
  probes_needed : nat;
  min_samples : nat;
  recovery_multiple : Q
}.

Definition default_breaker : BreakerConfig := {|
  window := 200; threshold := 3 # 10; open_seconds := 60; max_open_seconds := 300; probes := 5;
  probes_needed := 3; min_samples := 20; recovery_multiple := 4
|}.

Inductive BreakerState := closed | open | half_open.
#[export] Instance BreakerState_eq_dec : EqDecision BreakerState.
Proof. solve_decision. Defined.

(** [failure_reasons] and [last_open_reasons] count by reason, as dicts do. *)
Record Breaker := mkBreaker {
  outcomes : list bool;
  state_field : BreakerState;
  opened_at : Q;
  closed_at : Q;
  open_for : Q;
  consecutive_opens : nat;
  probe_results : list bool;
  probes_admitted : nat;
  opened_count : nat;
  failure_reasons : gmap string nat;
  last_open_reasons : gmap string nat
}.

Definition new_breaker : Breaker := {|
  outcomes := []; state_field := closed; opened_at := 0; closed_at := 0; open_for := 0;
  consecutive_opens := 0; probe_results := []; probes_admitted := 0; opened_count := 0;
  failure_reasons := ∅; last_open_reasons := ∅
|}.

(** The largest exponent whose power of two is a finite float. *)
Definition FLOAT_MAX_EXP : nat := 1024.

(** What a call raises, if anything: the breaker refusing the call, with the seconds it
    asks to wait, or Python failing to turn [2 ** n] into a float. *)
Inductive Raised := CircuitOpen (retry_in : Q) | OverflowError.

Section breaker.
Context (cfg : BreakerConfig).

(** The [state] property: reading it may turn an open breaker half open. *)
Definition state (now : Q) (b : Breaker) : Breaker :=
  if bool_decide (state_field b = open) && Qle_bool (open_for b) (now - opened_at b)
  then {| outcomes := outcomes b; state_field := half_open; opened_at := opened_at b;
          closed_at := closed_at b; open_for := open_for b;
          consecutive_opens := consecutive_opens b; probe_results := []; probes_admitted := 0;
          opened_count := opened_count b; failure_reasons := failure_reasons b;
          last_open_reasons := last_open_reasons b |}
  else b.

Definition seconds_until_close (now : Q) (b : Breaker) : Q * Breaker :=
  let b1 := state now b in
  match state_field b1 with
  | open => (Qmax' 0 (open_for b1 - (now - opened_at b1)), b1)
  | _ => (0%Q, b1)
  end.

Definition count_probe (b : Breaker) : Breaker := {|
  outcomes := outcomes b; state_field := state_field b; opened_at := opened_at b;
  closed_at := closed_at b; open_for := open_for b; consecutive_opens := consecutive_opens b;
  probe_results := probe_results b; probes_admitted := S (probes_admitted b);
  opened_count := opened_count b; failure_reasons := failure_reasons b;
  last_open_reasons := last_open_reasons b
|}.

Definition check (now : Q) (b : Breaker) : option Raised * Breaker :=
  let b1 := state now b in
  match state_field b1 with
  | open => (Some (CircuitOpen (open_for b1 - (now - opened_at b1))), b1)
  | half_open =>
      if (probes cfg <=? probes_admitted b1)%nat then (Some (CircuitOpen 1), b1)
      else (None, count_probe b1)
  | closed => (None, b1)
  end.

Definition recovered (now : Q) (b : Breaker) : bool :=
  negb (Qeq_bool (closed_at b) 0) && Qlt_bool (open_seconds cfg * recovery_multiple cfg) (now - closed_at b).

Definition escalated (n : nat) : Q :=
  Qmin' (open_seconds cfg * inject_Z (2 ^ Z.of_nat n)) (max_open_seconds cfg).

(** When [2 ** n] does not fit a float the assignment to [_open_for] raises, with the
    streak possibly reset and nothing else done. *)
Definition open_breaker (now : Q) (b : Breaker) : option Raised * Breaker :=
  let n := if recovered now b then 0%nat else consecutive_opens b in
  if (FLOAT_MAX_EXP <=? n)%nat
  then (Some OverflowError,
        {| outcomes := outcomes b; state_field := state_field b; opened_at := opened_at b;
           closed_at := closed_at b; open_for := open_for b; consecutive_opens := n;
           probe_results := probe_results b; probes_admitted := probes_admitted b;
           opened_count := opened_count b; failure_reasons := failure_reasons b;
           last_open_reasons := last_open_reasons b |})
  else (None,
        {| outcomes := []; state_field := open; opened_at := now; closed_at := closed_at b;
           open_for := escalated n; consecutive_opens := S n; probe_results := [];
           probes_admitted := 0; opened_count := S (opened_count b); failure_reasons := ∅;
           last_open_reasons := failure_reasons b |}).

Definition close_breaker (now : Q) (b : Breaker) : Breaker := {|
  outcomes := []; state_field := closed; opened_at := opened_at b; closed_at := now;
  open_for := open_for b; consecutive_opens := consecutive_opens b; probe_results := [];
  probes_admitted := probes_admitted b; opened_count := opened_count b;
  failure_reasons := failure_reasons b; last_open_reasons := last_open_reasons b
|}.

Definition note_reason (ok : bool) (reason : string) (b : Breaker) : Breaker :=
  if negb ok && negb (String.eqb reason "")
  then {| outcomes := outcomes b; state_field := state_field b; opened_at := opened_at b;
          closed_at := closed_at b; open_for := open_for b;
          consecutive_opens := consecutive_opens b; probe_results := probe_results b;
          probes_admitted := probes_admitted b; opened_count := opened_count b;
          failure_reasons :=
            <[reason := S (default 0%nat (failure_reasons b !! reason))]> (failure_reasons b);
          last_open_reasons := last_open_reasons b |}
  else b.

Definition with_probe (b : Breaker) (rs : list bool) : Breaker := {|
  outcomes := outcomes b; state_field := state_field b; opened_at := opened_at b;
  closed_at := closed_at b; open_for := open_for b; consecutive_opens := consecutive_opens b;
  probe_results := rs; probes_admitted := probes_admitted b; opened_count := opened_count b;
  failure_reasons := failure_reasons b; last_open_reasons := last_open_reasons b
|}.

Definition with_outcomes (b : Breaker) (os : list bool) : Breaker := {|
  outcomes := os; state_field := state_field b; opened_at := opened_at b;
  closed_at := closed_at b; open_for := open_for b; consecutive_opens := consecutive_opens b;
  probe_results := probe_results b; probes_admitted := probes_admitted b;
  opened_count := opened_count b; failure_reasons := failure_reasons b;
  last_open_reasons := last_open_reasons b
|}.

(** The last [window] outcomes: [popleft] until the deque fits. *)
Definition trim (os : list bool) : list bool := drop (length os - window cfg) os.

Definition failing (os : list bool) : bool :=
  Qlt_bool (threshold cfg) (inject_Z (Z.of_nat (count negb os)) / inject_Z (Z.of_nat (length os))).

Definition record (now : Q) (ok : bool) (reason : string) (b : Breaker) : option Raised * Breaker :=
  let b1 := state now (note_reason ok reason b) in
  match state_field b1 with
  | half_open =>
      let b2 := with_probe b1 (probe_results b1 ++ [ok]) in
      if (probes cfg <=? length (probe_results b2))%nat
      then if (probes_needed cfg <=? count (λ r, r) (probe_results b2))%nat
           then (None, close_breaker now b2) else open_breaker now b2
      else (None, b2)
  | _ =>
      let b2 := with_outcomes b1 (trim (outcomes b1 ++ [ok])) in
      if (length (outcomes b2) <? min_samples cfg)%nat then (None, b2)
      else if failing (outcomes b2) then open_breaker now b2 else (None, b2)
  end.
End breaker.

(** ** Waiting for the breaker in a slot *)

Definition MAX_BREAKER_WAIT_S : Q := 30.

(** One pass of the loop that opens [__aenter__], given the random number drawn: the call
    may go on, or sleeps, or gives up. *)
Inductive EnterStep := GoOn | Nap (seconds : Q) | GiveUp (e : Raised).

Definition enter_step (r : option Raised) (random waited : Q) : EnterStep :=
  match r with
  | None => GoOn
  | Some (CircuitOpen retry_in) =>
      let nap := (Qmin' (Qmax' retry_in (1 # 2)) 5 * (1 + random * (1 # 2)))%Q in
      if Qlt_bool MAX_BREAKER_WAIT_S (waited + nap) then GiveUp (CircuitOpen retry_in) else Nap nap
  | Some e => GiveUp e
  end.

(** The whole loop; [answers] gives what [check] says at each pass. *)
Fixpoint enter_loop (fuel : nat) (answers : nat → option Raised) (random : nat → Q) (i : nat)
    (waited : Q) : option (option Raised * Q) :=
  match fuel with
  | O => None
  | S fuel' =>
      match enter_step (answers i) (random i) waited with
      | GoOn => Some (None, waited)
      | GiveUp e => Some (Some e, waited)
      | Nap s => enter_loop fuel' answers random (S i) (waited + s)
      end
  end.

(** ** The slots of the gate

    [asyncio.Semaphore.release] hands the unit straight to the first waiter, so a
    semaphore's value counts the units nobody holds.  The dict of per-domain semaphores is
    shared by all tasks; a task waits when the value is 0. *)

Record Gate := mkGate {
  g_global : nat;
  g_per_domain : gmap string nat
}.

Section gate.
Context (global_limit per_domain_limit : nat).

Definition new_gate : Gate := {| g_global := global_limit; g_per_domain := ∅ |}.

(** [_domain_sem]: the domain's semaphore, made on first use. *)
Definition domain_sem (d : string) (g : Gate) : nat * Gate :=
  match g_per_domain g !! d with
  | Some v => (v, g)
  | None => (per_domain_limit, {| g_global := g_global g;
                                  g_per_domain := <[d := per_domain_limit]> (g_per_domain g) |})
  end.

Definition set_sem (d : string) (v : nat) (g : Gate) : Gate :=
  {| g_global := g_global g; g_per_domain := <[d := v]> (g_per_domain g) |}.

(** [None]: the task waits. *)
Definition acquire_global (g : Gate) : option Gate :=
  match g_global g with
  | O => None
  | S n => Some {| g_global := n; g_per_domain := g_per_domain g |}
  end.

Definition release_global (g : Gate) : Gate :=
  {| g_global := S (g_global g); g_per_domain := g_per_domain g |}.

(** A waiting task has made the semaphore all the same. *)
Definition acquire_domain (d : string) (g : Gate) : bool * Gate :=
  match domain_sem d g with
  | (O, g1) => (false, g1)
  | (S v, g1) => (true, set_sem d v g1)
  end.

Definition release_sem (d : string) (g : Gate) : Gate :=
  let '(v, g1) := domain_sem d g in set_sem d (S v) g1.

(** [release_domain]: forget the semaphore of a domain nobody is fetching from. *)
Definition release_domain (d : string) (g : Gate) : Gate :=
  match g_per_domain g !! d with
  | Some v => if (v =? per_domain_limit)%nat
              then {| g_global := g_global g; g_per_domain := delete d (g_per_domain g) |} else g
  | None => g
  end.

(** What a task holds, between the awaits of [__aenter__] and [__aexit__]. *)
Inductive Holds := HoldsGlobal (d : string) | HoldsBoth (d : string).

(** One step of one task on the gate.  [gs_exit] is both [__aexit__] and the bucket's
    [acquire] raising in [__aenter__]: the two units are given back in the same way. *)
Inductive gate_step : Gate * list Holds → Gate * list Holds → Prop :=
  | gs_enter g g' hs d : acquire_global g = Some g' → gate_step (g, hs) (g', HoldsGlobal d :: hs)
  | gs_domain g g' l d r :
      acquire_domain d g = (true, g') →
      gate_step (g, l ++ HoldsGlobal d :: r) (g', l ++ HoldsBoth d :: r)
  | gs_wait g g' l d r :
      acquire_domain d g = (false, g') →
      gate_step (g, l ++ HoldsGlobal d :: r) (g', l ++ HoldsGlobal d :: r)
  | gs_cancelled g l d r :
      gate_step (g, l ++ HoldsGlobal d :: r) (release_global g, l ++ r)
  | gs_exit g l d r :
      gate_step (g, l ++ HoldsBoth d :: r) (release_global (release_sem d g), l ++ r)
  | gs_release g hs d : gate_step (g, hs) (release_domain d g, hs).
End gate.

(** * What the breaker and the gate promise ([src/app/ratelimit.py]) *)

(** ** Half open *)

Section half_open.
Context (cfg : BreakerConfig).

Fixpoint run_checks (ts : list Q) (b : Breaker) : nat * Breaker :=
  match ts with
  | [] => (0%nat, b)
  | t :: rest =>
      let '(r, b1) := check cfg t b in
      let '(n, b2) := run_checks rest b1 in
      (match r with None => S n | Some _ => n end, b2)
  end.
End half_open.

Lemma state_not_open now b : state_field b ≠ open → state now b = b.
Proof. intros H. unfold state. by rewrite bool_decide_false. Qed.

(** A half-open breaker lets through exactly its quota of probes.  However many callers
    check and at whatever times, exactly the first [probes] (less those already admitted)
    get through while no probe has reported back, and the state stays half open.  Time alone
    never gives a slot back, so a probe that is cancelled before it reports keeps one
    for good. *)
Theorem half_open_admits_quota (cfg : BreakerConfig) (ts : list Q) (b : Breaker)
    (Hhalf : state_field b = half_open) :
  let '(admitted, b') := run_checks cfg ts b in
  admitted = Nat.min (length ts) (probes cfg - probes_admitted b) ∧
  state_field b' = half_open ∧ probe_results b' = probe_results b ∧
  probes_admitted b' = (probes_admitted b + admitted)%nat.
Proof.
  revert b Hhalf. induction ts as [|t ts IH]; intros b Hb; cbn [run_checks length]; [split_and!; try done; lia|].
  unfold check. rewrite state_not_open by (by rewrite Hb). rewrite Hb.
  destruct (Nat.leb_spec (probes cfg) (probes_admitted b)).
  - specialize (IH b Hb). destruct (run_checks cfg ts b) as [n b']. destruct IH as (-> & ? & ? & ?).
    split_and!; try done; lia.
  - specialize (IH (count_probe b) Hb). destruct (run_checks cfg ts (count_probe b)) as [n b'].
    cbn in IH. destruct IH as (-> & ? & ? & ?). split_and!; try done; lia.
Qed.

(** A breaker that has just turned half open. *)
Definition half_open_breaker : Breaker :=
  state 100 (mkBreaker [] open 0 0 60 1 [] 0 1 ∅ ∅).

Lemma half_open_admits_quota_witness :
  (run_checks default_breaker (replicate 50 100%Q) half_open_breaker).1 = 5%nat ∧
  (run_checks default_breaker [101; 10000; 1000000000]%Q
     (run_checks default_breaker (replicate 50 100%Q) half_open_breaker).2).1 = 0%nat.
Proof.
  pose proof (half_open_admits_quota default_breaker (replicate 50 100%Q) half_open_breaker eq_refl) as H.
  destruct (run_checks _ _ _) as [n b'] eqn:E. destruct H as (-> & Hh & _ & Ha). split; [reflexivity|].
  pose proof (half_open_admits_quota default_breaker [101; 10000; 1000000000]%Q b' Hh) as H'.
  cbn [snd]. destruct (run_checks _ _ b') as [n' b'']. destruct H' as (-> & _). cbn [fst].
  rewrite Ha. reflexivity.
Defined.

(** ** Tripping *)

(** Outcomes recorded one after the other, while nothing raises. *)
Fixpoint run_records (cfg : BreakerConfig) (now : Q) (oks : list bool) (b : Breaker) : Breaker :=
  match oks with
  | [] => b
  | ok :: rest => run_records cfg now rest (record cfg now ok "" b).2
  end.

Definition last_of (n : nat) (l : list bool) : list bool := drop (length l - n) l.

(** The last outcomes say the provider fails. *)
Definition trips (cfg : BreakerConfig) (os : list bool) : bool :=
  (min_samples cfg <=? length (last_of (window cfg) os))%nat && failing cfg (last_of (window cfg) os).

Lemma last_of_snoc n l x : last_of n (last_of n l ++ [x]) = last_of n (l ++ [x]).
Proof.
  unfold last_of. rewrite !length_app, length_drop. cbn.
  destruct (decide (n ≤ length l)%nat) as [Hle|Hgt].
  - replace (length l - (length l - n) + 1 - n)%nat with 1%nat by lia.
    replace (length l + 1 - n)%nat with (length l - n + 1)%nat by lia.
    rewrite <- drop_drop. f_equal. rewrite drop_app_le by lia. done.
  - replace (length l - n)%nat with 0%nat by lia. by rewrite drop_0, Nat.sub_0_r.
Qed.

Lemma length_last_of n l : length (last_of n l) = Nat.min n (length l).
Proof. unfold last_of. rewrite length_drop. lia. Qed.

Lemma record_closed cfg now ok b past :
  state_field b = closed → outcomes b = last_of (window cfg) past →
  record cfg now ok "" b =
  let b2 := with_outcomes b (last_of (window cfg) (past ++ [ok])) in
  if trips cfg (past ++ [ok]) then open_breaker cfg now b2 else (None, b2).
Proof.
  intros Hc Ho. unfold record, note_reason. cbn [String.eqb negb]. rewrite andb_false_r.
  rewrite state_not_open by (by rewrite Hc). rewrite Hc. cbn [outcomes with_outcomes].
  assert (trim cfg (outcomes b ++ [ok]) = last_of (window cfg) (past ++ [ok])) as ->.
  { rewrite Ho. apply last_of_snoc. }
  unfold trips. cbn zeta. set (os := last_of _ _).
  destruct (Nat.ltb_spec (length os) (min_samples cfg)), (Nat.leb_spec (min_samples cfg) (length os));
    cbn [andb]; try lia; done.
Qed.

(** The streak [_open] escalates from. *)
Definition streak (cfg : BreakerConfig) (now : Q) (b : Breaker) : nat :=
  if recovered cfg now b then 0%nat else consecutive_opens b.

Definition opened (cfg : BreakerConfig) (now : Q) (b : Breaker) : Breaker := {|
  outcomes := []; state_field := open; opened_at := now; closed_at := closed_at b;
  open_for := escalated cfg (streak cfg now b); consecutive_opens := S (streak cfg now b);
  probe_results := []; probes_admitted := 0; opened_count := S (opened_count b);
  failure_reasons := ∅; last_open_reasons := failure_reasons b |}.

Lemma open_breaker_fits cfg now b :
  (consecutive_opens b < FLOAT_MAX_EXP)%nat → open_breaker cfg now b = (None, opened cfg now b).
Proof.
  intros H. unfold open_breaker. fold (streak cfg now b).
  assert (streak cfg now b < FLOAT_MAX_EXP)%nat.
  { unfold streak. destruct (recovered cfg now b); [|done]. unfold FLOAT_MAX_EXP. lia. }
  destruct (Nat.leb_spec FLOAT_MAX_EXP (streak cfg now b)); [lia|done].
Qed.

(** A closed breaker opens exactly when it should.  Recording outcomes from a fresh
    breaker leaves it closed if and only if no prefix of them trips it, where a prefix
    trips it when its last [window] outcomes number at least [min_samples] and more than
    [threshold] of them failed. *)
Theorem closed_until_tripped (cfg : BreakerConfig) (now : Q) (oks : list bool) :
  (∀ n, (n ≤ length oks)%nat → state_field (run_records cfg now (take n oks) new_breaker) = closed)
  ↔ ∀ n, (1 ≤ n ≤ length oks)%nat → trips cfg (take n oks) = false.
Proof.
  assert (∀ oks past b,
    state_field b = closed → outcomes b = last_of (window cfg) past →
    (consecutive_opens b < FLOAT_MAX_EXP)%nat →
    (∀ n, (n ≤ length oks)%nat → state_field (run_records cfg now (take n oks) b) = closed)
    ↔ ∀ n, (1 ≤ n ≤ length oks)%nat → trips cfg (past ++ take n oks) = false) as Hgen.
  { clear oks. induction oks as [|ok oks IH]; intros past b Hc Ho Hk.
    - split; intros H n Hn; cbn in Hn; [lia|]. by destruct n.
    - pose proof (record_closed cfg now ok b past Hc Ho) as Hr. cbn zeta in Hr.
      destruct (trips cfg (past ++ [ok])) eqn:Et.
      + split; intros H.
        * specialize (H 1%nat ltac:(cbn; lia)). cbn [take run_records] in H. rewrite take_0, Hr in H. exfalso.
          cbn [run_records] in H.
          by rewrite open_breaker_fits in H.
        * exfalso. specialize (H 1%nat ltac:(cbn; lia)). cbn [take] in H. rewrite take_0 in H. congruence.
      + specialize (IH (past ++ [ok]) (record cfg now ok "" b).2). rewrite Hr in IH. cbn [snd] in IH.
        specialize (IH Hc eq_refl Hk). split; intros H n Hn.
        * destruct n as [|n]; [lia|]. cbn in Hn. cbn [take].
          destruct (decide (n = 0%nat)) as [->|]; [by rewrite take_0|].
          rewrite (cons_middle ok), app_assoc. apply IH; [|lia]. intros m Hm.
          specialize (H (S m) ltac:(cbn; lia)). cbn [take run_records] in H. by rewrite Hr in H.
        * destruct n as [|n]; [done|]. cbn in Hn. cbn [take run_records]. rewrite Hr. apply IH; [|lia].
          intros m Hm. rewrite <- app_assoc. by apply (H (S m)); cbn; lia. }
  apply (Hgen oks [] new_breaker); try done. cbn. unfold FLOAT_MAX_EXP. lia.
Qed.

(** ** Failed probes and escalation *)

(** One round: the window runs out, the probes report, the breaker decides. *)
Definition probe_round (cfg : BreakerConfig) (now : Q) (oks : list bool) (b : Breaker) : Breaker :=
  run_records cfg now oks (state now b).

Lemma records_half_open cfg now oks b :
  state_field b = half_open → (length (probe_results b) + length oks < probes cfg)%nat →
  run_records cfg now oks b = with_probe b (probe_results b ++ oks).
Proof.
  revert b. induction oks as [|ok oks IH]; intros b Hb Hlen; cbn [run_records].
  { rewrite app_nil_r. by destruct b. }
  cbn [length] in Hlen. unfold record, note_reason. cbn [String.eqb negb]. rewrite andb_false_r.
  rewrite state_not_open by (by rewrite Hb). rewrite Hb. cbn [probe_results with_probe].
  rewrite length_app. cbn [length].
  destruct (Nat.leb_spec (probes cfg) (length (probe_results b) + 1)); [lia|]. cbn [snd].
  rewrite IH; [|done|cbn; rewrite length_app; cbn; lia]. cbn. by rewrite <- app_assoc.
Qed.

Lemma record_last_probe cfg now ok b :
  state_field b = half_open → (S (length (probe_results b)) = probes cfg)%nat →
  (record cfg now ok "" b).2 =
  let b2 := with_probe b (probe_results b ++ [ok]) in
  if (probes_needed cfg <=? count (λ r, r) (probe_results b ++ [ok]))%nat then close_breaker now b2
  else (open_breaker cfg now b2).2.
Proof.
  intros Hb Hlen. unfold record, note_reason. cbn [String.eqb negb]. rewrite andb_false_r.
  rewrite state_not_open by (by rewrite Hb). rewrite Hb. cbn [probe_results with_probe].
  rewrite length_app. cbn [length].
  destruct (Nat.leb_spec (probes cfg) (length (probe_results b) + 1)); [|lia]. by break.
Qed.

Lemma run_records_app cfg now l k b : run_records cfg now (l ++ k) b = run_records cfg now k (run_records cfg now l b).
Proof. revert b. induction l as [|x l IH]; intros b; [done|]. cbn. apply IH. Qed.

(** Recovery and escalation.  Once an open breaker's window has run out and its probes
    have all reported, it closes exactly when at least [probes_needed] succeeded; otherwise
    it opens again at once, for a window twice as long as the streak of opens so far asks
    for, up to [max_open_seconds], unless it had been closed long enough in between to
    start the streak over.  (Streaks below the range of a float.) *)
Theorem probe_round_decides (cfg : BreakerConfig) (now : Q) (oks : list bool) (b : Breaker)
    (Hopen : state_field b = open) (Helapsed : (open_for b <= now - opened_at b)%Q)
    (Hprobes : length oks = probes cfg) (Hpos : (1 ≤ probes cfg)%nat)
    (Hstreak : (consecutive_opens b < FLOAT_MAX_EXP)%nat) :
  let b' := probe_round cfg now oks b in
  if (probes_needed cfg <=? count (λ r, r) oks)%nat
  then state_field b' = closed ∧ closed_at b' = now ∧ consecutive_opens b' = consecutive_opens b
  else state_field b' = open ∧ opened_at b' = now ∧
       let n := if recovered cfg now b then 0%nat else consecutive_opens b in
       open_for b' = Qmin' (open_seconds cfg * inject_Z (2 ^ Z.of_nat n)) (max_open_seconds cfg) ∧
       consecutive_opens b' = S n ∧ opened_count b' = S (opened_count b).
Proof.
  intros b'. unfold b', probe_round. clear b'.
  assert (∃ h, state now b = h ∧ state_field h = half_open ∧ probe_results h = [] ∧ closed_at h = closed_at b ∧
            consecutive_opens h = consecutive_opens b ∧ opened_count h = opened_count b) as (h & -> & Hh & Hp & Hca & Hco & Hoc).
  { eexists. split; [done|]. unfold state. rewrite bool_decide_true by done.
    destruct (Qle_bool_spec (open_for b) (now - opened_at b)); [done|lra]. }
  destruct oks as [|ok' oks'] using rev_ind; [cbn in Hprobes; lia|]. clear IHoks'.
  rewrite length_app in Hprobes. cbn in Hprobes.
  rewrite run_records_app, (records_half_open cfg now oks' h); [|done|rewrite Hp; cbn; lia]. rewrite Hp. cbn [app run_records].
  rewrite record_last_probe; [|done|cbn; lia]. cbn [probe_results with_probe].
  destruct (Nat.leb _ _); [by cbn; rewrite Hco|]. rewrite open_breaker_fits by (cbn; by rewrite Hco).
  assert (recovered cfg now (with_probe (with_probe h oks') (oks' ++ [ok'])) = recovered cfg now b) as Hrec.
  { unfold recovered. cbn. by rewrite Hca. }
  unfold opened, streak. rewrite Hrec. cbn. rewrite Hco, Hoc. by split_and!.
Qed.

Lemma probe_round_decides_witness :
  let b := mkBreaker [] open 0 0 60 1 [] 0 1 ∅ ∅ in
  open_for (probe_round default_breaker 60 [true; false; true; false; false] b) == 120 ∧
  state_field (probe_round default_breaker 60 [true; false; true; true; false] b) = closed.
Proof.
  intros b. split.
  - destruct (probe_round_decides default_breaker 60 [true; false; true; false; false] b) as (_ & _ & E & _);
      [reflexivity|cbn; lra|reflexivity|cbn; lia|cbn; unfold FLOAT_MAX_EXP; lia|]. cbn zeta in E. rewrite E. reflexivity.
  - destruct (probe_round_decides default_breaker 60 [true; false; true; true; false] b) as (E & _);
      [reflexivity|cbn; lra|reflexivity|cbn; lia|cbn; unfold FLOAT_MAX_EXP; lia|]. exact E.
Defined.

(** A long enough outage makes the breaker itself raise.  When the streak of opens has
    reached 1024 with no recovery in between, [2 ** streak] no longer fits a float, so
    opening raises OverflowError, leaves the breaker as it was and goes on doing so. *)
Theorem open_overflows (cfg : BreakerConfig) (now : Q) (b : Breaker)
    (Hstreak : (FLOAT_MAX_EXP ≤ consecutive_opens b)%nat) (Hrec : recovered cfg now b = false) :
  open_breaker cfg now b = (Some OverflowError, b).
Proof.
  unfold open_breaker. rewrite Hrec. destruct (Nat.leb_spec FLOAT_MAX_EXP (consecutive_opens b)); [|lia].
  by destruct b.
Qed.

Lemma open_overflows_witness :
  let b := mkBreaker [] half_open 0 0 300 1024 [] 0 1024 ∅ ∅ in
  open_breaker default_breaker 9 b = (Some OverflowError, b).
Proof. intros b. apply (open_overflows default_breaker 9 b); [apply Nat.le_refl|reflexivity]. Defined.

(** ** Waiting for the breaker *)

Lemma nap_bounds retry_in r : (0 <= r <= 1 → 1 # 2 <= Qmin' (Qmax' retry_in (1 # 2)) 5 * (1 + r * (1 # 2)))%Q.
Proof. intros [H0 H1]. assert (1 # 2 <= Qmin' (Qmax' retry_in (1 # 2)) 5)%Q by (qcases; lra). nra. Qed.

Lemma enter_loop_within k answers random i waited :
  (∀ j, 0 <= random j <= 1)%Q → (waited <= 30)%Q → (30 - waited < inject_Z (Z.of_nat k) * (1 # 2))%Q →
  ∃ r w, enter_loop k answers random i waited = Some (r, w) ∧ (waited <= w <= 30)%Q.
Proof.
  intros Hr. revert i waited. induction k as [|k IH]; intros i waited H30 Hk.
  { change (inject_Z (Z.of_nat 0)) with 0%Q in Hk. lra. }
  cbn [enter_loop]. unfold enter_step.
  destruct (answers i) as [[retry_in|]|]; [|do 2 eexists; split; [done|lra]..].
  pose proof (nap_bounds retry_in (random i) (Hr i)) as Hn. set (nap := (Qmin' _ _ * _)%Q) in *. clearbody nap.
  destruct (Qlt_bool_spec MAX_BREAKER_WAIT_S (waited + nap)) as [|Hle]; [do 2 eexists; split; [done|lra]|].
  unfold MAX_BREAKER_WAIT_S in Hle.
  destruct (IH (S i) (waited + nap)%Q) as (r & w & -> & Hw); [lra| |].
  - rewrite Nat2Z.inj_succ, <- Z.add_1_r, inject_Z_plus in Hk. change (inject_Z 1) with 1%Q in Hk. lra.
  - do 2 eexists. split; [done|]. lra.
Qed.

(** A slot never blocks on the breaker for longer than its cap.  Whatever the breaker
    answers at each check and whatever the jitter, the wait loop ends after at most 61
    checks, with the call let through or [CircuitOpen] raised, having slept no more than
    [MAX_BREAKER_WAIT_S] seconds. *)
Theorem breaker_wait_bounded (answers : nat → option Raised) (random : nat → Q)
    (Hr : ∀ j, (0 <= random j <= 1)%Q) :
  ∃ r w, enter_loop 61 answers random 0 0 = Some (r, w) ∧ (0 <= w <= MAX_BREAKER_WAIT_S)%Q.
Proof. apply enter_loop_within; [done|lra|]. change (inject_Z (Z.of_nat 61)) with 61%Q. lra. Qed.

Lemma breaker_wait_bounded_witness :
  ∃ r w, enter_loop 61 (λ _, Some (CircuitOpen 1)) (λ _, 0%Q) 0 0 = Some (r, w) ∧
         (0 <= w <= MAX_BREAKER_WAIT_S)%Q.
Proof. apply (breaker_wait_bounded (λ _, Some (CircuitOpen 1)) (λ _, 0%Q)). intros _. lra. Defined.

(** ** The gate *)

#[local] Arguments count : simpl never.

Section gate_props.
Context (G P : nat).

Definition at_domain (d : string) (h : Holds) : bool :=
  match h with HoldsBoth d' => bool_decide (d' = d) | HoldsGlobal _ => false end.

(** The value of a domain's semaphore, made or not yet. *)
Definition sem_value (d : string) (g : Gate) : nat := default P (g_per_domain g !! d).

(** Every unit is either free or held by a task. *)
Definition gate_inv (s : Gate * list Holds) : Prop :=
  (g_global s.1 + length s.2 = G)%nat ∧
  ∀ d, (sem_value d s.1 + count (at_domain d) s.2 = P)%nat.

Lemma domain_sem_value d g : (domain_sem P d g).1 = sem_value d g ∧
  g_global (domain_sem P d g).2 = g_global g ∧ ∀ d', sem_value d' (domain_sem P d g).2 = sem_value d' g.
Proof.
  unfold domain_sem, sem_value. destruct (g_per_domain g !! d) eqn:E; cbn; [done|].
  split_and!; try done. intros d'. destruct (decide (d = d')) as [->|].
  - by rewrite lookup_insert_eq, E.
  - by rewrite lookup_insert_ne.
Qed.

Lemma set_sem_value d v g d' : sem_value d' (set_sem d v g) = if bool_decide (d = d') then v else sem_value d' g.
Proof.
  unfold sem_value, set_sem. cbn. destruct (decide (d = d')) as [->|].
  - by rewrite lookup_insert_eq, bool_decide_true.
  - by rewrite lookup_insert_ne, bool_decide_false.
Qed.

Lemma acquire_domain_value d g b g' :
  acquire_domain P d g = (b, g') →
  g_global g' = g_global g ∧ (b = true → (0 < sem_value d g)%nat) ∧
  ∀ d', sem_value d' g' = (sem_value d' g - if b && bool_decide (d = d') then 1 else 0)%nat.
Proof.
  destruct (domain_sem_value d g) as (E1 & E2 & E3). unfold acquire_domain.
  destruct (domain_sem P d g) as [[|v] g1]; cbn in E1, E2, E3; intros [= <- <-]; cbn; (split; [done|]).
  - split; [done|]. intros d'. by rewrite E3, Nat.sub_0_r.
  - split; [intros; lia|]. intros d'. rewrite set_sem_value, E3.
    destruct (decide (d = d')) as [<-|]; [rewrite bool_decide_true by done; lia|].
    rewrite bool_decide_false by done. lia.
Qed.

Lemma release_sem_value d g : g_global (release_sem P d g) = g_global g ∧
  ∀ d', sem_value d' (release_sem P d g) = (sem_value d' g + if bool_decide (d = d') then 1 else 0)%nat.
Proof.
  destruct (domain_sem_value d g) as (E1 & E2 & E3). unfold release_sem.
  destruct (domain_sem P d g) as [v g1]. cbn in E1, E2, E3. split; [done|]. intros d'.
  rewrite set_sem_value, E3. destruct (decide (d = d')) as [<-|]; [rewrite bool_decide_true by done; lia|].
  rewrite bool_decide_false by done. lia.
Qed.

Lemma release_domain_value d g : g_global (release_domain P d g) = g_global g ∧
  ∀ d', sem_value d' (release_domain P d g) = sem_value d' g.
Proof.
  unfold release_domain. destruct (g_per_domain g !! d) as [v|] eqn:E; [|done].
  destruct (Nat.eqb_spec v P) as [->|]; [|done]. split; [done|]. intros d'. unfold sem_value. cbn.
  destruct (decide (d = d')) as [<-|]; [by rewrite lookup_delete_eq, E|by rewrite lookup_delete_ne].
Qed.

Lemma count_app {A} (p : A → bool) l k : count p (l ++ k) = (count p l + count p k)%nat.
Proof. unfold count. by rewrite keep_app, length_app. Qed.

Lemma count_cons {A} (p : A → bool) x l : count p (x :: l) = ((if p x then 1 else 0) + count p l)%nat.
Proof. unfold count, keep. cbn. by destruct (p x). Qed.

Lemma gate_step_inv s s' : gate_step P s s' → gate_inv s → gate_inv s'.
Proof.
  intros Hs [Hg Hd]. destruct Hs as [g g' hs d E|g g' l d r E|g g' l d r E|g l d r|g l d r|g hs d]; cbn in Hg, Hd.
  - unfold acquire_global in E. destruct (g_global g) as [|n] eqn:En; [done|]. injection E as <-.
    split; cbn; [lia|]. intros d'. rewrite count_cons. apply Hd.
  - destruct (acquire_domain_value _ _ _ _ E) as (E1 & E2 & E3). specialize (E2 eq_refl). split; cbn.
    + rewrite length_app in *. cbn in *. lia.
    + intros d'. pose proof (Hd d') as H1. specialize (Hd d). rewrite E3.
      rewrite !count_app, !count_cons in *. cbn [at_domain andb] in *.
      destruct (decide (d = d')) as [<-|]; [rewrite bool_decide_true by done|rewrite bool_decide_false by done]; lia.
  - destruct (acquire_domain_value _ _ _ _ E) as (E1 & _ & E3). split; cbn; [lia|].
    intros d'. rewrite E3. cbn. rewrite Nat.sub_0_r. apply Hd.
  - split; cbn; [rewrite length_app in *; cbn in *; lia|]. intros d'. specialize (Hd d').
    rewrite !count_app, count_cons in *. exact Hd.
  - destruct (release_sem_value d g) as [E1 E2]. split; cbn.
    + rewrite length_app in *. cbn in *. lia.
    + intros d'. specialize (Hd d'). change (sem_value d' (release_global ?x)) with (sem_value d' x). rewrite E2.
      rewrite !count_app, count_cons in *. cbn [at_domain] in *. destruct (bool_decide (d = d')); lia.
  - destruct (release_domain_value d g) as [E1 E2]. split; cbn; [lia|]. intros d'. rewrite E2. apply Hd.
Qed.
End gate_props.

(** The gate keeps its limits and loses no slot.  In every state any interleaving of
    tasks entering, waiting, being cancelled, leaving and forgetting domains can reach, at
    most [global_concurrency] tasks hold a slot and at most [per_domain_concurrency] hold
    one of the same domain; and when nobody holds anything every slot is free again. *)
Theorem gate_limits (G P : nat) (s : Gate * list Holds)
    (Hr : rtc (gate_step P) (new_gate G, []) s) :
  (length s.2 ≤ G)%nat ∧ (∀ d, count (at_domain d) s.2 ≤ P)%nat ∧
  (s.2 = [] → g_global s.1 = G ∧ ∀ d, default P (g_per_domain s.1 !! d) = P).
Proof.
  assert (gate_inv G P s) as [Hg Hd].
  { revert Hr. apply rtc_ind_r; [|intros; by eapply gate_step_inv].
    split; cbn; [lia|]. intros d. unfold sem_value. cbn. rewrite lookup_empty. cbn. apply Nat.add_0_r. }
  split_and!.
  - lia.
  - intros d. specialize (Hd d). lia.
  - intros E. rewrite E in *. cbn in *. split; [lia|]. intros d. specialize (Hd d). unfold sem_value in Hd. by rewrite Nat.add_0_r in Hd.
Qed.

Lemma gate_limits_witness :
  ∃ g, rtc (gate_step 2) (new_gate 3, []) (g, [HoldsBoth "a.com"]) ∧
       (count (at_domain "a.com") [HoldsBoth "a.com"] ≤ 2)%nat.
Proof.
  assert (∃ g, rtc (gate_step 2) (new_gate 3, []) (g, [HoldsBoth "a.com"])) as [g Hg].
  { eexists. eapply rtc_l; [eapply (gs_enter 2 (new_gate 3) _ [] "a.com"); reflexivity|].
    eapply rtc_l; [eapply (gs_domain 2 _ _ [] "a.com" []); reflexivity|]. apply rtc_refl. }
  exists g. split; [exact Hg|]. exact (proj1 (proj2 (gate_limits 3 2 _ Hg)) "a.com").
Defined.
