(* ===== verification/Regex.v ===== *)
(** * Python's [re] on the patterns the pipeline uses

    A backtracking matcher with Python's priorities: alternatives left to right, greedy
    repetition longest first.  The patterns have no groups that are read back, so a match
    is its end.  A pass of a star that consumes nothing is not repeated.

    The matcher sees the character before the current position, for lookbehind and [^]. *)

From Stdlib Require Import NArith Ascii String Lia.
From stdpp Require Import base strings option list.
From S2P Require Import Prelude PyStr.

Inductive re :=
  | Eps
  | Chr (p : ascii → bool)
  | Seq (a b : re)
  | Alt (a b : re)
  | Star (a : re)
  | Bos                          (* [^] without MULTILINE *)
  | Eos                          (* [$] without MULTILINE: the end, or before a last newline *)
  | NotBehind (p : ascii → bool) (* [(?<!\[..\])] *)
  | NotAhead (p : ascii → bool)  (* [(?!\[..\])] *)
  | WordB.                       (* [\b] *)

Definition is_newline (c : ascii) : bool := Ascii.eqb c "010"%char.

Definition at_end (s : string) : bool :=
  match s with
  | EmptyString => true
  | String c EmptyString => is_newline c
  | _ => false
  end.

Definition no_char (p : ascii → bool) (c : option ascii) : bool :=
  match c with Some x => negb (p x) | None => true end.

Definition head_char (s : string) : option ascii :=
  match s with EmptyString => None | String c _ => Some c end.

(** A word character ([\w]) of Latin-1. *)
Definition is_word (c : ascii) : bool := is_alnum c || Ascii.eqb c "_".

Definition word_at (c : option ascii) : bool := match c with Some x => is_word x | None => false end.

(** A word starts or ends between the two characters. *)
Definition boundary (before after : option ascii) : bool := xorb (word_at before) (word_at after).

(** A position: the character before it and the rest of the subject. *)
Definition pos : Type := option ascii * string.

Section matcher.
Context {A : Type}.

(** A starred pattern, given how its body matches: one more pass first, as long as each
    pass consumes something; [n] bounds the passes by the length of the subject. *)
Fixpoint star_loop (body : pos → (pos → option A) → option A) (k : pos → option A) (n : nat) (p : pos)
    : option A :=
  match n with
  | O => k p
  | S n' =>
      match body p (λ p', if (String.length p'.2 <? String.length p.2)%nat then star_loop body k n' p' else None) with
      | Some x => Some x
      | None => k p
      end
  end.

(** [m r p k]: match [r] at [p] and go on with [k]; the first way that succeeds. *)
Fixpoint m (r : re) (p : pos) (k : pos → option A) : option A :=
  match r with
  | Eps => k p
  | Chr f =>
      match p.2 with
      | String c s => if f c then k (Some c, s) else None
      | EmptyString => None
      end
  | Seq a b => m a p (λ p', m b p' k)
  | Alt a b => match m a p k with Some x => Some x | None => m b p k end
  | Star a => star_loop (m a) k (String.length p.2) p
  | Bos => match p.1 with None => k p | Some _ => None end
  | Eos => if at_end p.2 then k p else None
  | NotBehind f => if no_char f p.1 then k p else None
  | NotAhead f => if no_char f (head_char p.2) then k p else None
  | WordB => if boundary p.1 (head_char p.2) then k p else None
  end.
End matcher.

(** [re.match] at a position: the position after the match. *)
Definition match_at (r : re) (p : pos) : option pos := m r p Some.

(** [pattern.match(s)] as a truth value. *)
Definition re_match (r : re) (s : string) : bool := if match_at r (None, s) then true else false.

(** [pattern.search(s)]: the first position it matches at. *)
Fixpoint search_from (r : re) (prev : option ascii) (s : string) : bool :=
  match match_at r (prev, s) with
  | Some _ => true
  | None => match s with EmptyString => false | String c s' => search_from r (Some c) s' end
  end.
Definition re_search (r : re) (s : string) : bool := search_from r None s.

Definition last_char (prev : option ascii) (s : string) : option ascii :=
  match str_rev s with EmptyString => prev | String c _ => Some c end.

(** [pattern.finditer(s)] for patterns that never match the empty string: the matches,
    leftmost first, each search starting where the last match ended. *)
Fixpoint finditer (fuel : nat) (r : re) (prev : option ascii) (s : string) : list string :=
  match fuel with
  | O => []
  | S fuel' =>
      match match_at r (prev, s) with
      | Some (prev', rest) =>
          if (String.length rest <? String.length s)%nat
          then str_take (String.length s - String.length rest) s :: finditer fuel' r prev' rest
          else match s with EmptyString => [] | String c s' => finditer fuel' r (Some c) s' end
      | None => match s with EmptyString => [] | String c s' => finditer fuel' r (Some c) s' end
      end
  end.
Definition re_findall (r : re) (s : string) : list string := finditer (S (String.length s)) r None s.

(** [pattern.split(s)] for patterns that never match the empty string. *)
Fixpoint split_loop (fuel : nat) (r : re) (prev : option ascii) (acc : string) (s : string) : list string :=
  match fuel with
  | O => [str_rev acc +:+ s]
  | S fuel' =>
      match s with
      | EmptyString => [str_rev acc]
      | String c s' =>
          match match_at r (prev, s) with
          | Some (prev', rest) =>
              if (String.length rest <? String.length s)%nat
              then str_rev acc :: split_loop fuel' r prev' "" rest
              else split_loop fuel' r (Some c) (String c acc) s'
          | None => split_loop fuel' r (Some c) (String c acc) s'
          end
      end
  end.
Definition re_split (r : re) (s : string) : list string := split_loop (S (String.length s)) r None "" s.

(** [pattern.sub(by, s)] for patterns that never match the empty string. *)
Definition re_sub (r : re) (by_ : string) (s : string) : string := join by_ (re_split r s).

(** ** Building patterns *)

Fixpoint lit (s : string) : re :=
  match s with EmptyString => Eps | String c s' => Seq (Chr (Ascii.eqb c)) (lit s') end.

(** [(?i)]: letters match either case. *)
Definition ci (c d : ascii) : bool := Ascii.eqb (lower_char c) (lower_char d).
Fixpoint lit_ci (s : string) : re :=
  match s with EmptyString => Eps | String c s' => Seq (Chr (ci c)) (lit_ci s') end.

Definition opt (r : re) : re := Alt r Eps.
Definition plus (r : re) : re := Seq r (Star r).
Fixpoint rep (n : nat) (r : re) : re := match n with O => Eps | S n' => Seq r (rep n' r) end.
(** At most [n] times, greedily. *)
Fixpoint upto (n : nat) (r : re) : re := match n with O => Eps | S n' => opt (Seq r (upto n' r)) end.
Definition between_times (lo hi : nat) (r : re) : re := Seq (rep lo r) (upto (hi - lo) r).
Fixpoint alts (rs : list re) : re := match rs with [] => Chr (λ _, false) | [r] => r | r :: rs' => Alt r (alts rs') end.
Fixpoint seqs (rs : list re) : re := match rs with [] => Eps | [r] => r | r :: rs' => Seq r (seqs rs') end.

(** ** What a pattern means *)

Inductive matches : re → pos → pos → Prop :=
  | mt_eps p : matches Eps p p
  | mt_chr f q c s : f c = true → matches (Chr f) (q, String c s) (Some c, s)
  | mt_seq a b p p1 p2 : matches a p p1 → matches b p1 p2 → matches (Seq a b) p p2
  | mt_alt_l a b p p1 : matches a p p1 → matches (Alt a b) p p1
  | mt_alt_r a b p p1 : matches b p p1 → matches (Alt a b) p p1
  | mt_star_nil a p : matches (Star a) p p
  | mt_star_cons a p p1 p2 :
      matches a p p1 → matches (Star a) p1 p2 → matches (Star a) p p2
  | mt_bos s : matches Bos (None, s) (None, s)
  | mt_eos q s : at_end s = true → matches Eos (q, s) (q, s)
  | mt_not_behind f q s : no_char f q = true → matches (NotBehind f) (q, s) (q, s)
  | mt_not_ahead f q s : no_char f (head_char s) = true → matches (NotAhead f) (q, s) (q, s)
  | mt_word_b q s : boundary q (head_char s) = true → matches WordB (q, s) (q, s).
#[export] Hint Constructors matches : ee.

(** ** The matcher finds a match exactly when there is one *)

Lemma matches_shorter r p p' : matches r p p' → (String.length p'.2 ≤ String.length p.2)%nat.
Proof. induction 1; cbn; lia. Qed.

(** Each result comes from a match of the pattern. *)
Lemma m_sound {A} r p (k : pos → option A) x :
  m r p k = Some x → ∃ p', matches r p p' ∧ k p' = Some x.
Proof.
  revert p k x. induction r as [|f|a IHa b IHb|a IHa b IHb|a IHa| | |f|f|]; intros p k x H; cbn in H.
  - eauto with ee.
  - destruct p as [q [|c s]]; [done|]. cbn in H. destruct (f c) eqn:E; [|done]. eauto with ee.
  - apply IHa in H as (p1 & H1 & H). apply IHb in H as (p2 & H2 & H). eauto with ee.
  - destruct (m a p k) eqn:E.
    + injection H as <-. apply IHa in E as (p1 & ? & ?). eauto with ee.
    + apply IHb in H as (p1 & ? & ?). eauto with ee.
  - assert (∀ n p, star_loop (m a) k n p = Some x → ∃ p', matches (Star a) p p' ∧ k p' = Some x) as Hgo.
    { intros n. clear p H. induction n as [|n IHn]; intros p H; cbn [star_loop] in H; [eauto with ee|].
      destruct (m a p _) as [y|] eqn:E; [|eauto with ee]. injection H as ->.
      apply IHa in E as (p1 & H1 & E). cbn beta in E. break_in E; [|done].
      apply IHn in E as (p2 & H2 & ?). eauto with ee. }
    by eapply Hgo.
  - destruct p as [[q|] s]; [done|]. eauto with ee.
  - destruct p as [q s]. cbn in H. destruct (at_end s) eqn:E; [|done]. eauto with ee.
  - destruct p as [q s]. cbn in H. destruct (no_char f q) eqn:E; [|done]. eauto with ee.
  - destruct p as [q s]. cbn in H. destruct (no_char f (head_char s)) eqn:E; [|done]. eauto with ee.
  - destruct p as [q s]. cbn in H. destruct (boundary q (head_char s)) eqn:E; [|done]. eauto with ee.
Qed.

(** A match that consumes nothing stays where it is. *)
Lemma matches_same r p p' : matches r p p' → String.length p'.2 = String.length p.2 → p' = p.
Proof.
  induction 1 as [| |a b p p1 p2 H1 IH1 H2 IH2| | | |a p p1 p2 H1 IH1 H2 IH2| | | | |]; cbn; intros E; auto; try lia.
  - apply matches_shorter in H1, H2. rewrite IH2, IH1 by lia. done.
  - apply matches_shorter in H1, H2. rewrite IH2, IH1 by lia. done.
Qed.

(** A starred match ends where it starts, or starts with a pass that consumes something. *)
Lemma star_inv a p p' :
  matches (Star a) p p' → p' = p ∨
  ∃ p1, matches a p p1 ∧ (String.length p1.2 < String.length p.2)%nat ∧ matches (Star a) p1 p'.
Proof.
  remember (Star a) as r eqn:Er.
  induction 1 as [| | | | | |a0 p p1 p2 H1 _ H2 IH2| | | | |]; try discriminate; [by left|]. injection Er as ->.
  pose proof (matches_shorter _ _ _ H1).
  destruct (decide (String.length p1.2 = String.length p.2)) as [E|]; [|right; exists p1; split_and!; try done; lia].
  apply (matches_same _ _ _ H1) in E as ->. by apply IH2.
Qed.

(** Every match whose continuation succeeds is found, or another one is. *)
Lemma m_complete {A} r p p' (k : pos → option A) :
  matches r p p' → is_Some (k p') → is_Some (m r p k).
Proof.
  revert p p' k. induction r as [|f|a IHa b IHb|a IHa b IHb|a IHa| | |f|f|]; intros p p' k H Hk.
  - by inversion H; subst.
  - inversion H as [|? ? ? ? Hf| | | | | | | | | |]; subst. cbn. by rewrite Hf.
  - inversion H; subst. cbn. eapply IHa; [done|]. by eapply IHb.
  - cbn. destruct (m a p k) eqn:E; [done|]. inversion H; subst; [|by eapply IHb].
    eapply IHa in Hk; [|done]. rewrite E in Hk. by destruct Hk.
  - cbn [m]. remember (String.length p.2) as n eqn:En. apply eq_sym, Nat.eq_le_incl in En.
    revert p En H. induction n as [|n IHn]; intros p Hn H.
    + cbn. apply star_inv in H as [->|(p1 & _ & ? & _)]; [done|lia].
    + cbn [star_loop]. destruct (m a p _) eqn:E; [done|].
      apply star_inv in H as [->|(p1 & H1 & Hlt & H2)]; [done|].
      assert (is_Some (m a p (λ p'0, if (String.length p'0.2 <? String.length p.2)%nat
                                    then star_loop (m a) k n p'0 else None))) as Hs.
      { eapply IHa; [done|]. cbn beta. destruct (Nat.ltb_spec (String.length p1.2) (String.length p.2)); [|lia].
        apply IHn; [lia|done]. }
      rewrite E in Hs. by destruct Hs.
  - by inversion H; subst.
  - inversion H as [| | | | | | | |? ? He| | |]; subst. cbn. by rewrite He.
  - inversion H as [| | | | | | | | |? ? ? He| |]; subst. cbn. by rewrite He.
  - inversion H as [| | | | | | | | | |? ? ? He|]; subst. cbn. by rewrite He.
  - inversion H as [| | | | | | | | | | |? ? He]; subst. cbn. by rewrite He.
Qed.

Lemma re_match_iff r s : re_match r s = true ↔ ∃ p, matches r (None, s) p.
Proof.
  unfold re_match, match_at. split.
  - destruct (m r (None, s) Some) as [p|] eqn:E; [|done]. intros _. apply m_sound in E as (p' & ? & _). eauto.
  - intros [p Hp]. destruct (m_complete r _ _ (@Some pos) Hp) as [x ->]; [by eexists|done].
Qed.

(** ** What a match consumes *)

(** Every character class of the pattern is within [q]. *)
Fixpoint within (q : ascii → bool) (r : re) : Prop :=
  match r with
  | Chr f => ∀ c, f c = true → q c = true
  | Seq a b | Alt a b => within q a ∧ within q b
  | Star a => within q a
  | _ => True
  end.

Lemma matches_consumed q r p p' :
  within q r → matches r p p' → ∃ s, p.2 = s +:+ p'.2 ∧ str_all q s = true.
Proof.
  intros Hw H. induction H as [|f x c s Hf|a b p p1 p2 _ IH1 _ IH2|a b p p1 _ IH|a b p p1 _ IH| |a p p1 p2 _ IH1 _ IH2| | | | |];
    cbn in *; try (by exists "").
  - exists (String c ""). cbn. by rewrite (Hw c Hf).
  - destruct IH1 as (s1 & E1 & H1); [apply Hw|]. destruct IH2 as (s2 & E2 & H2); [apply Hw|].
    exists (s1 +:+ s2). rewrite str_all_app, H1, H2, app_assoc_str, <- E2. done.
  - apply IH, Hw.
  - apply IH, Hw.
  - destruct IH1 as (s1 & E1 & H1); [done|]. destruct IH2 as (s2 & E2 & H2); [done|].
    exists (s1 +:+ s2). rewrite str_all_app, H1, H2, app_assoc_str, <- E2. done.
Qed.

Lemma within_upto q n r : within q r → within q (upto n r).
Proof. intros H. induction n; cbn; auto. Qed.

Lemma within_rep q n r : within q r → within q (rep n r).
Proof. intros H. induction n; cbn; auto. Qed.

(** ** Texts a pattern accepts *)

Lemma seq_inv a b p p' : matches (Seq a b) p p' → ∃ p1, matches a p p1 ∧ matches b p1 p'.
Proof. inversion 1; subst. eauto. Qed.

Lemma alt_inv a b p p' : matches (Alt a b) p p' → matches a p p' ∨ matches b p p'.
Proof. inversion 1; subst; auto. Qed.

Lemma matches_lit_ci w p p' : matches (lit_ci w) p p' → ∃ s, p.2 = s +:+ p'.2 ∧ lower s = lower w.
Proof.
  revert p. induction w as [|c w IH]; intros p Hm; cbn in Hm; inversion Hm; subst; [by exists ""|].
  match goal with Hc : matches (Chr _) _ _ |- _ => inversion Hc; subst end.
  match goal with Hr : matches (lit_ci w) _ _ |- _ => apply IH in Hr as (u & E & Es) end. cbn in E.
  match goal with Hd : ci c ?d = true |- _ => exists (String d u); unfold ci in Hd; apply Ascii.eqb_eq in Hd;
    unfold lower in *; cbn; rewrite Hd, Es, E end. done.
Qed.

Lemma lit_ci_accepts w q u r : lower u = lower w → ∃ q', matches (lit_ci w) (q, u +:+ r) (q', r).
Proof.
  revert q u. induction w as [|c w IH]; intros q [|d u] E; cbn in E; try discriminate; [by exists q; constructor|].
  injection E as Ec E. destruct (IH (Some d) u E) as [q' Hm]. exists q'.
  eapply mt_seq; [|exact Hm]. constructor. unfold ci. by rewrite Ec, Ascii.eqb_refl.
Qed.

Lemma star_accepts f q u r : str_all f u = true → ∃ q', matches (Star (Chr f)) (q, u +:+ r) (q', r).
Proof.
  revert q. induction u as [|c u IH]; intros q Hu; [exists q; constructor|].
  cbn in Hu. apply andb_true_iff in Hu as [Hc Hu]. destruct (IH (Some c) Hu) as [q' Hm].
  exists q'. eapply mt_star_cons; [by constructor|exact Hm].
Qed.

Lemma plus_accepts f q u r :
  u ≠ "" → str_all f u = true → ∃ q', matches (plus (Chr f)) (q, u +:+ r) (q', r).
Proof.
  destruct u as [|c u]; [done|]. intros _ Hu. cbn in Hu. apply andb_true_iff in Hu as [Hc Hu].
  destruct (star_accepts f (Some c) u r Hu) as [q' Hm]. exists q'. eapply mt_seq; [by constructor|exact Hm].
Qed.

Lemma rep_accepts f q u r :
  str_all f u = true → ∃ q', matches (rep (String.length u) (Chr f)) (q, u +:+ r) (q', r).
Proof.
  revert q. induction u as [|c u IH]; intros q Hu; [exists q; constructor|].
  cbn in Hu. apply andb_true_iff in Hu as [Hc Hu]. destruct (IH (Some c) Hu) as [q' Hm].
  exists q'. eapply mt_seq; [by constructor|exact Hm].
Qed.
