(* ===== verification/Groups.v ===== *)
(** * Groups of a regular expression

    [re.findall] and [re.sub] with a function, for patterns whose groups are read back.  A
    pattern is given as the list of its consecutive segments, so that a group is the text
    one of them took; the matcher is that of [Regex], and backtracks across segments. *)

From Stdlib Require Import NArith Ascii String Lia.
From stdpp Require Import base strings option sets list.
From S2P Require Import Prelude PyStr Regex.

(** What was consumed between two positions. *)
Definition taken (p p' : pos) : string := str_take (String.length p.2 - String.length p'.2) p.2.

(** The texts the segments take, and where the match ends. *)
Fixpoint m_segs (rs : list re) (p : pos) : option (list string * pos) :=
  match rs with
  | [] => Some ([], p)
  | r :: rs' =>
      m r p (λ p', match m_segs rs' p' with Some (l, e) => Some (taken p p' :: l, e) | None => None end)
  end.

(** The subject cut into its matches, leftmost first, and the characters between them. *)
Inductive piece := Plain (c : ascii) | Hit (groups : list string).

(** For patterns that never match the empty string. *)
Fixpoint pieces_from (fuel : nat) (rs : list re) (prev : option ascii) (s : string) : list piece :=
  match fuel with
  | O => []
  | S fuel' =>
      let step := match s with
                  | EmptyString => []
                  | String c s' => Plain c :: pieces_from fuel' rs (Some c) s'
                  end in
      match m_segs rs (prev, s) with
      | Some (l, (prev', rest)) =>
          if (String.length rest <? String.length s)%nat then Hit l :: pieces_from fuel' rs prev' rest else step
      | None => step
      end
  end.
Definition pieces (rs : list re) (s : string) : list piece := pieces_from (S (String.length s)) rs None s.

Definition piece_text (p : piece) : string :=
  match p with Plain c => String c "" | Hit l => String.concat "" l end.

Definition hit (p : piece) : option (list string) := match p with Plain _ => None | Hit l => Some l end.

(** The groups of every match, in order. *)
Definition hits (rs : list re) (s : string) : list (list string) := omap hit (pieces rs s).

(** [pattern.findall(s)] for a pattern with one group, the segment [i]. *)
Definition findall_group (i : nat) (rs : list re) (s : string) : list string := map (λ l, nth i l "") (hits rs s).

(** [pattern.sub(f, s)]. *)
Definition sub_with (f : list string → string) (rs : list re) (s : string) : string :=
  String.concat "" (map (λ p, match p with Plain c => String c "" | Hit l => f l end) (pieces rs s)).

(** ** Patterns *)

(** [r{0,n}?]: as few passes as possible.  With [n] the length of the subject this is [r*?]
    for an [r] that always consumes something. *)
Fixpoint upto_lazy (n : nat) (r : re) : re :=
  match n with O => Eps | S n' => Alt Eps (Seq r (upto_lazy n' r)) end.

(** [^] with MULTILINE. *)
Definition Bol : re := NotBehind (λ c, negb (is_newline c)).

Definition any_char : re := Chr (λ _, true).
Definition spaces : re := Star (Chr is_space).
Definition spaces1 : re := plus (Chr is_space).

(** ** What a match took *)

Inductive segs_match : list re → pos → list string → pos → Prop :=
  | sm_nil p : segs_match [] p [] p
  | sm_cons r rs p p1 p2 x l :
      matches r p p1 → p.2 = x +:+ p1.2 → segs_match rs p1 l p2 → segs_match (r :: rs) p (x :: l) p2.
#[export] Hint Constructors segs_match : ee.

Lemma within_true r : within (λ _, true) r.
Proof. induction r; cbn; auto. Qed.

Lemma length_append_str a b : String.length (a +:+ b) = (String.length a + String.length b)%nat.
Proof. induction a as [|c a IH]; cbn; [done|]. by rewrite IH. Qed.

Lemma matches_suffix r p p' : matches r p p' → p.2 = taken p p' +:+ p'.2.
Proof.
  intros Hm. destruct (matches_consumed _ _ _ _ (within_true r) Hm) as (s & E & _).
  unfold taken. rewrite E, length_append_str, Nat.add_sub. f_equal. clear.
  induction s as [|c s IH]; cbn; [by destruct p'.2|]. by f_equal.
Qed.

Lemma m_segs_sound rs p l e : m_segs rs p = Some (l, e) → segs_match rs p l e.
Proof.
  revert p l e. induction rs as [|r rs IH]; intros p l e H; cbn in H.
  - injection H as <- <-. constructor.
  - apply m_sound in H as (p1 & Hm & H). destruct (m_segs rs p1) as [[l' e']|] eqn:E; [|done].
    injection H as <- <-. econstructor; [done|by apply matches_suffix in Hm|by apply IH].
Qed.

Lemma concat_cons_str x l : String.concat "" (x :: l) = x +:+ String.concat "" l.
Proof. destruct l; cbn; [by rewrite app_nil_str|done]. Qed.

Lemma concat_app_str l k : String.concat "" (l ++ k) = String.concat "" l +:+ String.concat "" k.
Proof.
  induction l as [|x l IH]; [done|]. cbn [app]. rewrite !concat_cons_str, IH. by rewrite app_assoc_str.
Qed.

Lemma segs_match_text rs p l e : segs_match rs p l e → p.2 = String.concat "" l +:+ e.2.
Proof.
  induction 1 as [|r rs p p1 p2 x l Hm Hx _ IH]; [done|].
  by rewrite concat_cons_str, Hx, IH, app_assoc_str.
Qed.

(** The pieces put together are the subject: [sub] with the identity changes nothing. *)
Lemma pieces_from_text fuel rs prev s :
  (String.length s < fuel)%nat → String.concat "" (map piece_text (pieces_from fuel rs prev s)) = s.
Proof.
  revert prev s. induction fuel as [|fuel IH]; intros prev s Hf; [lia|]. cbn [pieces_from].
  assert (String.concat "" (map piece_text
            match s with EmptyString => [] | String c s' => Plain c :: pieces_from fuel rs (Some c) s' end) = s) as Hstep.
  { destruct s as [|c s']; [done|]. cbn [map]. rewrite concat_cons_str, IH; [done|]. cbn in Hf. lia. }
  destruct (m_segs rs (prev, s)) as [[l [prev' rest]]|] eqn:E; [|done].
  destruct (Nat.ltb_spec (String.length rest) (String.length s)); [|done].
  cbn [map]. rewrite concat_cons_str, IH by lia.
  apply m_segs_sound, segs_match_text in E. done.
Qed.

Lemma pieces_text rs s : String.concat "" (map piece_text (pieces rs s)) = s.
Proof. apply pieces_from_text. lia. Qed.

(** Every match is one of the pattern, at its place in the subject. *)
Lemma pieces_from_hit fuel rs prev s l :
  Hit l ∈ pieces_from fuel rs prev s →
  ∃ a q b e, s = a +:+ b ∧ segs_match rs (q, b) l e.
Proof.
  revert prev s. induction fuel as [|fuel IH]; intros prev s H; cbn [pieces_from] in H; [set_solver|].
  assert (Hit l ∈ match s with EmptyString => [] | String c s' => Plain c :: pieces_from fuel rs (Some c) s' end →
          ∃ a q b e, s = a +:+ b ∧ segs_match rs (q, b) l e) as Hstep.
  { destruct s as [|c s']; [set_solver|]. intros [?|Hin]%elem_of_cons; [done|].
    apply IH in Hin as (a & q & b & e & -> & Hs). exists (String c a), q, b, e. split; [reflexivity|exact Hs]. }
  destruct (m_segs rs (prev, s)) as [[l' [prev' rest]]|] eqn:E; [|by apply Hstep].
  destruct (Nat.ltb_spec (String.length rest) (String.length s)); [|by apply Hstep].
  apply m_segs_sound in E. apply elem_of_cons in H as [[= ->]|Hin]; [by exists "", prev, s, (prev', rest)|].
  apply IH in Hin as (a & q & b & e & -> & Hs). apply segs_match_text in E. cbn in E.
  exists (String.concat "" l' +:+ a), q, b, e. by rewrite app_assoc_str.
Qed.

Lemma hits_match rs s l :
  l ∈ hits rs s → ∃ a q b e, s = a +:+ b ∧ segs_match rs (q, b) l e.
Proof.
  intros ([c|g] & Hp & Hh)%list_elem_of_omap; [done|]. injection Hh as ->. by eapply pieces_from_hit.
Qed.

(** A group is a substring of the subject. *)
Lemma hits_contains rs s l x : l ∈ hits rs s → x ∈ l → contains s x = true.
Proof.
  intros (a & q & b & e & -> & Hs%segs_match_text)%hits_match (l1 & l2 & ->)%list_elem_of_split. cbn in Hs.
  rewrite concat_app_str, concat_cons_str in Hs. apply contains_spec.
  exists (a +:+ String.concat "" l1), (String.concat "" l2 +:+ e.2). by rewrite Hs, !app_assoc_str.
Qed.

(** Nothing to find: nothing is replaced. *)
Lemma sub_with_none f rs s : hits rs s = [] → sub_with f rs s = s.
Proof.
  intros H. unfold sub_with. rewrite <- (pieces_text rs s) at 2. f_equal. apply map_ext_in.
  intros [c|l] Hin; [done|]. exfalso.
  assert (l ∈ hits rs s) as Hl by (apply list_elem_of_omap; exists (Hit l); split; [by apply list_elem_of_In|done]).
  rewrite H in Hl. set_solver.
Qed.

(** [r*?] and [r*] match the same texts. *)
Lemma upto_lazy_star n r p p' :
  (String.length p.2 ≤ n)%nat → matches (upto_lazy n r) p p' ↔ matches (Star r) p p'.
Proof.
  intros Hn. split.
  - clear Hn. revert p. induction n as [|n IH]; intros p H; cbn in H; [inversion H; subst; auto with ee|].
    inversion H as [| | |? ? ? ? H1|? ? ? ? H1| | | | | | |]; subst.
    + inversion H1; subst. auto with ee.
    + inversion H1; subst. eauto with ee.
  - revert p Hn. induction n as [|n IH]; intros p Hn H;
      apply star_inv in H as [->|(p1 & H1 & Hlt & H2)]; cbn; eauto with ee; [lia|].
    apply mt_alt_r. econstructor; [done|]. apply IH; [lia|done].
Qed.
