(* ===== verification/Url.v ===== *)
(** * Python's [urllib.parse.urlsplit] on the strings of the pipeline

    Strings of Latin-1 code points, for which the NFKC check of the host never refuses
    anything.  Whether a bracketed host is an IPv6 literal is left to the class [IpLiteral]
    ([ipaddress.ip_address]). *)

From Stdlib Require Import ZArith NArith Ascii String Lia.
From stdpp Require Import base strings option list.
From S2P Require Import Prelude PyStr Regex.

Class IpLiteral := is_ipv6 : string → bool.

Record SplitResult := mkSplit {
  u_scheme : string;
  u_netloc : string;
  u_path : string;
  u_query : string;
  u_fragment : string
}.

Definition is_c0_or_space (c : ascii) : bool := between 0 32 c.
Definition is_scheme_char (c : ascii) : bool :=
  is_lower (lower_char c) && between 0 127 c || is_digit09 c || in_set "+-." c.

Fixpoint str_filter (p : ascii → bool) (s : string) : string :=
  match s with
  | EmptyString => ""
  | String c s' => if p c then String c (str_filter p s') else str_filter p s'
  end.

(** Up to the first character [p] holds of, and the rest from it on. *)
Fixpoint span (p : ascii → bool) (s : string) : string * string :=
  match s with
  | EmptyString => ("", "")
  | String c s' => if p c then ("", s) else let '(a, b) := span p s' in (String c a, b)
  end.

(** [url.partition(sep)] keeping only both sides: the second is empty without [sep]. *)
Definition cut (c : ascii) (s : string) : string * string :=
  match partition_at c s with Some p => p | None => (s, "") end.

Definition is_ascii_alpha (c : ascii) : bool := is_lower (lower_char c) && between 0 127 c.

(** The scheme, lower-cased, and what follows the colon; no scheme leaves the URL whole. *)
Definition split_scheme (url : string) : string * string :=
  match partition_at ":" url with
  | Some (String c s, rest) =>
      if is_ascii_alpha c && str_all is_scheme_char (String c s) then (lower (String c s), rest) else ("", url)
  | _ => ("", url)
  end.

(** [\Av\[a-fA-F0-9\]+\..+\Z] *)
Definition IPVFUTURE : re :=
  seqs [Chr (Ascii.eqb "v"); plus (Chr (λ c, is_digit09 c || between 97 102 (lower_char c))); lit ".";
        plus (Chr (λ c, negb (is_newline c)))].

Definition matches_to_end (r : re) (s : string) : bool :=
  if m r (None, s) (λ p, match p.2 with EmptyString => Some tt | _ => None end) then true else false.

Section urlsplit.
Context `{IpLiteral}.

Definition bracketed_ok (netloc : string) : bool :=
  let host := (cut "]" (cut "[" netloc).2).1 in
  if startswith host "v" then matches_to_end IPVFUTURE host else is_ipv6 host.

(** [None]: ValueError. *)
Definition urlsplit (url : string) : option SplitResult :=
  let url := str_filter (λ c, negb (in_set (String "009" (String "010" (String "013" ""))) c))
                        (lstrip_by is_c0_or_space url) in
  let '(scheme, url) := split_scheme url in
  let '(netloc, url) := if startswith url "//" then span (in_set "/?#") (str_drop 2 url) else ("", url) in
  let open_br := has_char "[" netloc in
  let close_br := has_char "]" netloc in
  if negb (Bool.eqb open_br close_br) then None
  else if open_br && negb (bracketed_ok netloc) then None
  else
    let '(url, fragment) := cut "#" url in
    let '(path, query) := cut "?" url in
    Some (mkSplit scheme netloc path query fragment).
End urlsplit.

Definition hostinfo (u : SplitResult) : string * string :=
  let info := snd (rpartition "@" (u_netloc u)) in
  match partition_at "[" info with
  | Some (_, bracketed) => let '(host, port) := cut "]" bracketed in (host, (cut ":" port).2)
  | None => cut ":" info
  end.

(** [parts.hostname or ""]: lower-cased up to a zone. *)
Definition hostname (u : SplitResult) : string :=
  let host := (hostinfo u).1 in
  match partition_at "%" host with
  | Some (h, zone) => lower h +:+ "%" +:+ zone
  | None => lower host
  end.

(** [parts.port]: [Some None] without a port, [None] when it raises ValueError. *)
Definition port (u : SplitResult) : option (option Z) :=
  let p := (hostinfo u).2 in
  if negb (nonempty p) then Some None
  else if str_all is_digit09 p
  then let n := fold_left (λ acc c, acc * 10 + (Z.of_N (N_of_ascii c) - 48))%Z (list_ascii_of_string p) 0%Z in
       if (n <=? 65535)%Z then Some (Some n) else None
  else None.

Definition USES_NETLOC : list string :=
  [""; "ftp"; "http"; "gopher"; "nntp"; "telnet"; "imap"; "wais"; "file"; "mms"; "https"; "shttp"; "snews";
   "prospero"; "rtsp"; "rtsps"; "rtspu"; "rsync"; "svn"; "svn+ssh"; "sftp"; "nfs"; "git"; "git+ssh"; "ws";
   "wss"; "itms-services"].

Definition urlunsplit (u : SplitResult) : string :=
  let url := u_path u in
  let url1 :=
    if nonempty (u_netloc u) || (nonempty (u_scheme u) && mem (u_scheme u) USES_NETLOC && negb (startswith url "//"))
    then "//" +:+ u_netloc u +:+ (if nonempty url && negb (startswith url "/") then "/" +:+ url else url)
    else url in
  let url2 := if nonempty (u_scheme u) then u_scheme u +:+ ":" +:+ url1 else url1 in
  let url3 := if nonempty (u_query u) then url2 +:+ "?" +:+ u_query u else url2 in
  if nonempty (u_fragment u) then url3 +:+ "#" +:+ u_fragment u else url3.
