(* ===== verification/UrlJoin.v ===== *)
(** * Python's [urllib.parse.urljoin] and [urldefrag]

    How a link of a page becomes an absolute URL. *)

From Stdlib Require Import ZArith NArith Ascii String Lia.
From stdpp Require Import base strings option sets list.
From S2P Require Import Prelude PyStr Regex Url.

Definition USES_RELATIVE : list string :=
  [""; "ftp"; "http"; "gopher"; "nntp"; "imap"; "wais"; "file"; "https"; "shttp"; "mms"; "prospero"; "rtsp";
   "rtsps"; "rtspu"; "sftp"; "svn"; "svn+ssh"; "ws"; "wss"].
Definition USES_PARAMS : list string :=
  [""; "ftp"; "hdl"; "prospero"; "http"; "imap"; "https"; "shttp"; "rtsp"; "rtsps"; "rtspu"; "sip"; "sips";
   "mms"; "sftp"; "tel"].

(** [ParseResult]: a [SplitResult] whose path has lost its last segment's parameters. *)
Record ParseResult := mkParse { p_split : SplitResult; p_params : string }.

Definition set_path (u : SplitResult) (path : string) : SplitResult :=
  mkSplit (u_scheme u) (u_netloc u) path (u_query u) (u_fragment u).

(** [_splitparams]: at the first semicolon after the last slash. *)
Definition splitparams (path : string) : string * string :=
  match rpartition_at "/" path with
  | Some (front, last) =>
      match partition_at ";" last with
      | Some (a, b) => (front +:+ "/" +:+ a, b)
      | None => (path, "")
      end
  | None => match partition_at ";" path with Some p => p | None => (path, "") end
  end.

Section urljoin.
Context `{IpLiteral}.

(** [urlparse(url, scheme)]: the scheme is the default of a URL without one. *)
Definition urlparse (url scheme : string) : option ParseResult :=
  u ← urlsplit url;
  let u := mkSplit (if nonempty (u_scheme u) then u_scheme u else scheme) (u_netloc u) (u_path u) (u_query u)
                   (u_fragment u) in
  Some (if mem (u_scheme u) USES_PARAMS && has_char ";" (u_path u)
        then let '(path, params) := splitparams (u_path u) in mkParse (set_path u path) params
        else mkParse u "").

Definition urlunparse (p : ParseResult) : string :=
  let u := p_split p in
  urlunsplit (if nonempty (p_params p) then set_path u (u_path u +:+ ";" +:+ p_params p) else u).

(** Dot segments, resolved from left to right. *)
Definition resolve_segment (resolved : list string) (seg : string) : list string :=
  if String.eqb seg ".." then removelast resolved
  else if String.eqb seg "." then resolved
  else resolved ++ [seg].

(** Empty segments inside the list would double slashes. *)
Definition drop_inner_empty (l : list string) : list string :=
  match l with
  | [] => []
  | [x] => [x]
  | x :: rest => x :: keep nonempty (removelast rest) ++ [List.last rest ""]
  end.

Definition join_paths (bpath path : string) : string :=
  let base_parts := split_char "/" bpath in
  let base_parts := if nonempty (List.last base_parts "") then removelast base_parts else base_parts in
  let segments := if startswith path "/" then split_char "/" path
                  else drop_inner_empty (base_parts ++ split_char "/" path) in
  let resolved := fold_left resolve_segment segments [] in
  let last := List.last segments "" in
  let resolved := if String.eqb last "." || String.eqb last ".." then resolved ++ [""] else resolved in
  let s := join "/" resolved in
  if nonempty s then s else "/".

(** [None]: ValueError. *)
Definition urljoin (base url : string) : option string :=
  if negb (nonempty base) then Some url
  else if negb (nonempty url) then Some base
  else
    b ← urlparse base "";
    u ← urlparse url (u_scheme (p_split b));
    let scheme := u_scheme (p_split u) in
    if negb (String.eqb scheme (u_scheme (p_split b))) || negb (mem scheme USES_RELATIVE) then Some url
    else if mem scheme USES_NETLOC && nonempty (u_netloc (p_split u)) then Some (urlunparse u)
    else
      let s := p_split u in
      let netloc := if mem scheme USES_NETLOC then u_netloc (p_split b) else u_netloc s in
      if negb (nonempty (u_path s)) && negb (nonempty (p_params u))
      then Some (urlunparse (mkParse (mkSplit scheme netloc (u_path (p_split b))
                   (if nonempty (u_query s) then u_query s else u_query (p_split b)) (u_fragment s)) (p_params b)))
      else Some (urlunparse (mkParse (mkSplit scheme netloc (join_paths (u_path (p_split b)) (u_path s))
                   (u_query s) (u_fragment s)) (p_params u))).

(** [urldefrag(url)\[0\]]. *)
Definition urldefrag (url : string) : option string :=
  if has_char "#" url
  then p ← urlparse url "";
       let u := p_split p in
       Some (urlunparse (mkParse (mkSplit (u_scheme u) (u_netloc u) (u_path u) (u_query u) "") (p_params p)))
  else Some url.
End urljoin.
