(* ===== verification/Emails.v ===== *)
(** * Email candidates ([src/app/pipeline/extract/emails.py], [patterns.py], [cloudflare.py])

    What is accepted as an address, how the finds of a page become candidates and how the
    pages' candidates are merged.  The public-suffix library is the class [Tld]; what the
    HTML parser finds on a page, in the order the code looks, is an argument. *)

From Stdlib Require Import ZArith NArith Ascii String Lia Sorted.
From stdpp Require Import base strings option sets list.
From S2P Require Import Prelude PyStr Models Regex.

(** [tldextract]: the parts of a host.  [registered_domain] is empty when the host has no
    registrable domain, [suffix] when it has no known suffix. *)
Class Tld := {
  tld_domain : string → string;
  tld_suffix : string → string;
  tld_registered_domain : string → string
}.

(** ** Patterns *)

Definition is_az (c : ascii) : bool := is_lower (lower_char c).
Definition is_alnum_ascii (c : ascii) : bool := is_az c || is_digit09 c.
Definition is_local_char (c : ascii) : bool := is_alnum_ascii c || in_set "._%+-" c.
Definition is_host_char (c : ascii) : bool := is_alnum_ascii c || Ascii.eqb c "-".

(** [\[a-z0-9\](?:\[..\]{0,62}\[a-z0-9\])?], [(?:\[a-z0-9\](?:\[a-z0-9-\]*\[a-z0-9\])?\.)+\[a-z\]{2,24}] *)
Definition LOCAL_RE : re :=
  Seq (Chr is_alnum_ascii) (opt (Seq (upto 62 (Chr is_local_char)) (Chr is_alnum_ascii))).
Definition LABEL_RE : re :=
  Seq (Chr is_alnum_ascii) (opt (Seq (Star (Chr is_host_char)) (Chr is_alnum_ascii))).
Definition HOST_RE : re :=
  Seq (plus (Seq LABEL_RE (lit "."))) (between_times 2 24 (Chr is_az)).

Definition EMAIL : re :=
  seqs [NotBehind (λ c, is_local_char c || Ascii.eqb c "@"); LOCAL_RE; lit "@"; HOST_RE;
        NotAhead is_host_char].

Definition EMAIL_FULL : re := seqs [Bos; LOCAL_RE; lit "@"; HOST_RE; Eos].

(** [EMAIL_FULL.fullmatch]: the match must also reach the very end. *)
Definition fullmatch (r : re) (s : string) : bool :=
  if m r (None, s) (λ p, match p.2 with EmptyString => Some tt | _ => None end) then true else false.

Definition TRAILING : string := ".,;:!?)]}>'" +:+ String "034"%char "".

Definition clean (email : string) : string := lower (strip_chars TRAILING (strip email)).

(** ** Accepting an address *)

Definition TRIM_TARGETS : list string :=
  ["com"; "net"; "org"; "edu"; "gov"; "mil"; "int"; "io"; "co"; "us"; "biz"; "info"].

Definition ASSET_TAIL : re :=
  seqs [lit ".";
        alts (map lit_ci ["png"; "jpg"; "jpeg"; "gif"; "webp"; "svg"; "bmp"; "ico"; "css"; "js"; "json";
                          "woff"; "woff2"; "ttf"; "eot"; "mp4"; "webm"; "avif"; "tif"; "tiff"]);
        Eos].

Definition GLUED_SENTENCE : re :=
  seqs [Bos; plus (Chr (λ c, negb (is_newline c))); lit "."; alts (map lit TRIM_TARGETS); lit ".";
        Chr is_upper; plus (Chr is_lower); Eos].

(** The first group of the pattern ends at the last dot, since nothing after it has one. *)
Definition unglue_sentence (raw : string) : string :=
  let s := strip_chars TRAILING (strip raw) in
  if re_match GLUED_SENTENCE s then fst (rpartition "." s) else raw.

Definition version_like (domain : string) : bool :=
  let body := removelast (split_char "." domain) in
  (2 <=? length body)%nat && any isdigit body.

(** [t in front of the last label], when glued text of two letters or more follows it. *)
Definition glued_tail (last target : string) : bool :=
  let tail := str_drop (String.length target) last in
  startswith last target && (2 <=? String.length tail)%nat && isalpha tail.

Section accept.
Context `{Tld}.

Fixpoint trim_to (local : string) (front : list string) (last : string) (targets : list string) : option string :=
  match targets with
  | [] => None
  | t :: rest =>
      let candidate := join "." (front ++ [t]) in
      if glued_tail last t && nonempty (tld_suffix candidate)
      then Some (local +:+ "@" +:+ candidate)
      else trim_to local front last rest
  end.

Definition fix_tld (email : string) : option string :=
  match rpartition_at "@" email with
  | None => None                              (* no "@": the local part is empty *)
  | Some (local, domain) =>
      if negb (nonempty local) || negb (nonempty domain) then None
      else if re_search ASSET_TAIL domain || version_like domain then None
      else if nonempty (tld_suffix domain) then Some email
      else
        let labels := split_char "." domain in
        trim_to local (removelast labels) (lower (List.last labels "")) TRIM_TARGETS
  end.

Definition accept (raw : string) : option string :=
  let email := clean (unglue_sentence raw) in
  if negb (nonempty email) || negb (fullmatch EMAIL_FULL email) then None else fix_tld email.
End accept.

(** ** Candidates *)

Definition METHOD_PRECEDENCE : list ExtractionMethod := [mailto; jsonld; cloudflare; text; attribute; script].

(** [_RANK]: the position in the precedence. *)
Definition method_rank (x : ExtractionMethod) : nat :=
  match x with mailto => 0 | jsonld => 1 | cloudflare => 2 | text => 3 | attribute => 4 | script => 5 end.

Record EmailCandidate := mkCandidate {
  email : string;
  method : ExtractionMethod;
  source_urls : list string;
  context : string;
  order : Z
}.

Definition with_method (c : EmailCandidate) (x : ExtractionMethod) : EmailCandidate :=
  mkCandidate (email c) x (source_urls c) (context c) (order c).

(** A dict from address to candidate keeps insertion order; [upsert] changes the entry in
    place or appends a new one. *)
Definition upsert (f : EmailCandidate → EmailCandidate) (fresh : EmailCandidate)
    (found : list EmailCandidate) : list EmailCandidate :=
  if any (λ c, String.eqb (email c) (email fresh)) found
  then map (λ c, if String.eqb (email c) (email fresh) then f c else c) found
  else found ++ [fresh].

Definition better_method (x : ExtractionMethod) (c : EmailCandidate) : EmailCandidate :=
  if (method_rank x <? method_rank (method c))%nat then with_method c x else c.

Section page.
Context `{Tld}.

(** [add]: one raw find on the page at [url]; the counter is the number of entries. *)
Definition add (url : string) (cf_emails : list string) (found : list EmailCandidate)
    (raw : string * ExtractionMethod) : list EmailCandidate :=
  match accept raw.1 with
  | None => found
  | Some e =>
      let x := if mem e cf_emails && mem raw.2 [text; mailto; attribute; script] then cloudflare else raw.2 in
      upsert (better_method x)
        {| email := e; method := x; source_urls := [url]; context := ""; order := Z.of_nat (S (length found)) |}
        found
  end.

Definition cmp_order (a b : EmailCandidate) : comparison := Z.compare (order a) (order b).

(** [extract_page] from the raw finds in the order the code makes them (mailto links,
    JSON-LD, its broken bodies, text, attributes, scripts) and the contexts of addresses. *)
Definition extract_finds (url : string) (cf_emails : list string) (finds : list (string * ExtractionMethod))
    (context_for : string → string) : list EmailCandidate :=
  map (λ c, mkCandidate (email c) (method c) (source_urls c) (context_for (email c)) (order c))
      (sort_by (λ a b, le_of (cmp_order a b)) (fold_left (add url cf_emails) finds [])).
End page.

(** ** Merging pages *)

Definition add_urls (urls : list string) (known : list string) : list string :=
  fold_left (λ acc u, if mem u acc then acc else acc ++ [u]) urls known.

Definition merge_into (c existing : EmailCandidate) : EmailCandidate :=
  let e1 := mkCandidate (email existing) (method existing) (add_urls (source_urls c) (source_urls existing))
                        (context existing) (order existing) in
  let e2 := better_method (method c) e1 in
  if String.eqb (context e2) "" && negb (String.eqb (context c) "")
  then mkCandidate (email e2) (method e2) (source_urls e2) (context c) (order e2) else e2.

Definition merge_one (page_index : nat) (merged : list EmailCandidate) (c : EmailCandidate) : list EmailCandidate :=
  upsert (merge_into c)
    (mkCandidate (email c) (method c) (source_urls c) (context c) (Z.of_nat page_index * 10000 + order c)) merged.

Fixpoint merge_loop (page_index : nat) (per_page : list (list EmailCandidate)) (merged : list EmailCandidate)
    : list EmailCandidate :=
  match per_page with
  | [] => merged
  | candidates :: rest => merge_loop (S page_index) rest (fold_left (merge_one page_index) candidates merged)
  end.

Definition merge_pages (per_page : list (list EmailCandidate)) : list EmailCandidate :=
  sort_by (λ a b, le_of (cmp_order a b)) (merge_loop 0 per_page []).

(** ** Cloudflare's protected addresses ([cloudflare.py]) *)

Definition hex_digit (c : ascii) : option N :=
  let n := N_of_ascii c in
  if between 48 57 c then Some (n - 48)%N
  else if between 97 102 c then Some (n - 87)%N
  else if between 65 70 c then Some (n - 55)%N
  else None.

(** The hexadecimal pairs of the string, [int(hexstr\[i:i+2\], 16)] each.  The patterns that
    call this only pass whole pairs of hexadecimal digits. *)
Fixpoint hex_bytes (s : string) : option (list N) :=
  match s with
  | EmptyString => Some []
  | String a (String b s') =>
      match hex_digit a, hex_digit b, hex_bytes s' with
      | Some x, Some y, Some rest => Some ((16 * x + y)%N :: rest)
      | _, _, _ => None
      end
  | String _ EmptyString => None
  end.

Fixpoint chars (l : list N) : string :=
  match l with [] => "" | n :: l' => String (ascii_of_N n) (chars l') end.

Definition decode_cf (hexstr : string) : option string :=
  match hex_bytes hexstr with
  | Some (key :: rest) =>
      let out := strip (chars (map (λ b, N.lxor b key) rest)) in
      if fullmatch EMAIL_FULL out then Some (lower out) else None
  | _ => None
  end.

(** * What the extraction of addresses promises ([src/app/pipeline/extract]) *)

(** ** No fabricated address *)

Lemma rpartition_fst_contains c s : contains s (fst (rpartition c s)) = true.
Proof.
  unfold rpartition. destruct (rpartition_at c s) as [[a b]|] eqn:E.
  - apply rpartition_at_Some in E as [E _]. by eapply contains_app_l.
  - apply contains_spec. by exists "", s.
Qed.

Lemma unglue_sentence_contains raw : contains raw (unglue_sentence raw) = true.
Proof.
  unfold unglue_sentence. break; [|apply contains_refl].
  apply (contains_trans raw (strip raw)); [apply contains_strip_by|].
  eapply contains_trans; [apply contains_strip_by|]. apply rpartition_fst_contains.
Qed.

Lemma clean_contains s : contains (lower s) (clean s) = true.
Proof.
  unfold clean. apply contains_lower.
  eapply contains_trans; [apply contains_strip_by|]. apply contains_strip_by.
Qed.

Lemma lower_fixed_app a b : lower (a +:+ b) = a +:+ b → lower a = a ∧ lower b = b.
Proof.
  rewrite lower_app. revert b. induction a as [|c a IH]; intros b H; [done|].
  cbn in H. injection H as Hc H. apply IH in H as [Ha Hb]. split; [|done].
  change (lower (String c a)) with (String (lower_char c) (lower a)). by rewrite Hc, Ha.
Qed.

Section fix_tld.
Context `{Tld}.

Lemma trim_to_Some local front last targets e :
  trim_to local front last targets = Some e →
  ∃ t, startswith last t = true ∧ e = local +:+ "@" +:+ join "." (front ++ [t]).
Proof.
  induction targets as [|t ts IH]; cbn; [done|]. destruct (_ && _) eqn:E; [|auto].
  intros [= <-]. exists t. split; [|done]. apply andb_true_iff in E as [E _]. unfold glued_tail in E.
  apply andb_true_iff in E as [E _]. by apply andb_true_iff in E as [E _].
Qed.

(** A trimmed address is a prefix of the address it came from. *)
Lemma fix_tld_prefix email e :
  lower email = email → fix_tld email = Some e → ∃ rest, email = e +:+ rest.
Proof.
  intros Hlow. unfold fix_tld. destruct (rpartition_at "@" email) as [[local domain]|] eqn:E; [|done].
  apply rpartition_at_Some in E as [E _]. do 3 (break; [try done|]).
  { intros [= <-]. exists "". by rewrite app_nil_str. }
  intros (t & Ht & ->)%trim_to_Some. subst email.
  change (String "@" domain) with ("@" +:+ domain) in *.
  pose proof (join_split_on "." domain) as Hj. pose proof (split_on_nonempty (Ascii.eqb ".") domain) as Hne.
  change (split_on _ domain) with (split_char "." domain) in Hne.
  destruct (exists_last Hne) as (front & last & Es). rewrite Es in *.
  rewrite removelast_last, List.last_last in *.
  assert (lower last = last) as Hl.
  { apply lower_fixed_app in Hlow as [_ Hlow]. apply lower_fixed_app in Hlow as [_ Hlow].
    rewrite <- Hj, join_snoc in Hlow. destruct front; [done|]. apply lower_fixed_app in Hlow as [_ Hlow].
    by apply lower_fixed_app in Hlow as [_ Hlow]. }
  rewrite Hl in Ht. unfold startswith in Ht. apply prefix_spec in Ht as [tail ->].
  exists tail. rewrite <- Hj, !join_snoc, !app_assoc_str. destruct front; [done|]. by rewrite !app_assoc_str.
Qed.
End fix_tld.

(** No accepted address is made up.  Whatever text the extraction passes on, and whatever
    the public-suffix list says, an accepted address is lower case, occurs in that text
    (letter case aside), and the whole of what was cleaned up had the shape of an address. *)
Theorem accepted_address_occurs `{Tld} (raw e : string) (Hacc : accept raw = Some e) :
  contains (lower raw) e = true ∧ fullmatch EMAIL_FULL (clean (unglue_sentence raw)) = true ∧
  startswith (clean (unglue_sentence raw)) e = true.
Proof.
  unfold accept in Hacc. destruct (_ || _) eqn:E; [done|]. apply orb_false_iff in E as [_ E%negb_false_iff].
  assert (lower (clean (unglue_sentence raw)) = clean (unglue_sentence raw)) as Hl by (apply lower_idemp).
  destruct (fix_tld_prefix _ _ Hl Hacc) as [rest Hr]. split_and!; [|done|].
  - apply (contains_trans _ (clean (unglue_sentence raw))); [|by eapply contains_app_l].
    eapply contains_trans; [apply contains_lower, unglue_sentence_contains|]. apply clean_contains.
  - rewrite Hr. unfold startswith. apply prefix_app.
Qed.

(** A suffix list that knows [com] and [uk]. *)
#[export] Instance sample_tld : Tld := {|
  tld_domain h := match rev (split_char "." h) with _ :: d :: _ => d | _ => "" end;
  tld_suffix h := let last := List.last (split_char "." h) "" in
                  if mem last ["com"; "uk"; "org"] then last else "";
  tld_registered_domain h := match rev (split_char "." h) with s :: d :: _ => d +:+ "." +:+ s | _ => "" end
|}.

Lemma accepted_address_occurs_witness :
  accept " Info@Acme.comCall " = Some "info@acme.com" ∧
  contains (lower " Info@Acme.comCall ") "info@acme.com" = true.
Proof.
  assert (accept " Info@Acme.comCall " = Some "info@acme.com") as E by (vm_compute; reflexivity).
  split; [exact E|]. exact (proj1 (accepted_address_occurs " Info@Acme.comCall " "info@acme.com" E)).
Defined.

(** ** Merging the pages' candidates *)

(** What a merged entry must say about the occurrences of its address. *)
Record entry_ok (occ : list EmailCandidate) (x : EmailCandidate) : Prop := {
  eo_urls : ∀ u, u ∈ source_urls x ↔ ∃ c, c ∈ occ ∧ email c = email x ∧ u ∈ source_urls c;
  eo_method : ∃ c, c ∈ occ ∧ email c = email x ∧ method c = method x;
  eo_best : ∀ c, c ∈ occ → email c = email x → (method_rank (method x) ≤ method_rank (method c))%nat
}.

Record merged_ok (occ merged : list EmailCandidate) : Prop := {
  mo_nodup : NoDup (map email merged);
  mo_emails : ∀ e, e ∈ map email merged ↔ ∃ c, c ∈ occ ∧ email c = e;
  mo_entries : ∀ x, x ∈ merged → entry_ok occ x
}.

Lemma elem_of_map {A B} (f : A → B) l y : y ∈ map f l ↔ ∃ x, x ∈ l ∧ y = f x.
Proof. rewrite list_elem_of_In, in_map_iff. setoid_rewrite list_elem_of_In. naive_solver. Qed.

Lemma elem_of_add_urls urls known u : u ∈ add_urls urls known ↔ u ∈ known ∨ u ∈ urls.
Proof.
  unfold add_urls. revert known. induction urls as [|v urls IH]; intros known; cbn; [set_solver|].
  rewrite IH. destruct (mem v known) eqn:E; [apply mem_true in E|]; set_solver.
Qed.

Lemma merge_into_email c x : email (merge_into c x) = email x.
Proof. unfold merge_into, better_method. by repeat break. Qed.

Lemma merge_into_urls c x : source_urls (merge_into c x) = add_urls (source_urls c) (source_urls x).
Proof. unfold merge_into, better_method. by repeat break. Qed.

Lemma merge_into_method c x :
  method (merge_into c x) =
  if (method_rank (method c) <? method_rank (method x))%nat then method c else method x.
Proof. unfold merge_into, better_method. cbn. by repeat break. Qed.

Lemma entry_ok_merge occ c x :
  entry_ok occ x → email c = email x → entry_ok (occ ++ [c]) (merge_into c x).
Proof.
  intros [Hu (c0 & Hc0 & He0 & Hm0) Hb] E. split; rewrite merge_into_email.
  - intros u. rewrite merge_into_urls, elem_of_add_urls, Hu. setoid_rewrite elem_of_app.
    setoid_rewrite list_elem_of_singleton. naive_solver.
  - rewrite merge_into_method. destruct (Nat.ltb _ _); [exists c|exists c0]; rewrite elem_of_app, ?list_elem_of_singleton; auto.
  - intros d [Hd|Hd%list_elem_of_singleton]%elem_of_app Hde; rewrite merge_into_method.
    + specialize (Hb d Hd Hde). destruct (Nat.ltb_spec (method_rank (method c)) (method_rank (method x))); lia.
    + subst d. destruct (Nat.ltb_spec (method_rank (method c)) (method_rank (method x))); lia.
Qed.

Lemma entry_ok_other occ c x : entry_ok occ x → email c ≠ email x → entry_ok (occ ++ [c]) x.
Proof.
  intros [Hu (c0 & Hc0 & He0 & Hm0) Hb] E. split.
  - intros u. rewrite Hu. setoid_rewrite elem_of_app. setoid_rewrite list_elem_of_singleton. naive_solver.
  - exists c0. rewrite elem_of_app. auto.
  - intros d [Hd|Hd%list_elem_of_singleton]%elem_of_app Hde; [by apply Hb|congruence].
Qed.

Lemma upsert_update f fresh l :
  (∀ c, email (f c) = email c) → any (λ c, String.eqb (email c) (email fresh)) l = true →
  map email (upsert f fresh l) = map email l ∧
  ∀ y, y ∈ upsert f fresh l → ∃ x, x ∈ l ∧ y = if String.eqb (email x) (email fresh) then f x else x.
Proof.
  intros Hf Ha. unfold upsert. rewrite Ha. split.
  - rewrite map_map. apply map_ext. intros c. by break.
  - intros y (x & Hx & ->)%elem_of_map. eauto.
Qed.

Lemma merge_one_ok i occ merged c : merged_ok occ merged → merged_ok (occ ++ [c]) (merge_one i merged c).
Proof.
  intros [Hn He Hx]. unfold merge_one. set (fresh := mkCandidate _ _ _ _ _).
  destruct (any (λ x, String.eqb (email x) (email fresh)) merged) eqn:Ea.
  - destruct (upsert_update (merge_into c) fresh merged (merge_into_email c) Ea) as [Em Hin].
    split.
    + by rewrite Em.
    + intros e. rewrite Em, He. setoid_rewrite elem_of_app. setoid_rewrite list_elem_of_singleton.
      split; [naive_solver|]. intros (d & [Hd|Hd] & Ed); [eauto|]. subst d e.
      apply any_true in Ea as (x & Hxin & Ex%String.eqb_eq). apply He.
      change (email c) with (email fresh). rewrite <- Ex. apply elem_of_map. eauto.
    + intros y (x & Hxin & ->)%Hin. destruct (String.eqb_spec (email x) (email fresh)) as [E|E].
      * by apply entry_ok_merge; [apply Hx|].
      * apply entry_ok_other; [by apply Hx|]. intros E'. by apply E.
  - unfold upsert. rewrite Ea.
    assert (email c ∉ map email merged) as Hnew.
    { intros (x & Hxin & E)%elem_of_map. rewrite any_false in Ea. specialize (Ea x Hxin). cbn in Ea.
      rewrite <- E in Ea. by rewrite String.eqb_refl in Ea. }
    assert (∀ d, d ∈ occ → email d ≠ email c) as Hno by (intros d Hd E; apply Hnew, He; eauto).
    split.
    + rewrite map_app. cbn. apply NoDup_app. split; [done|]. split; [|apply NoDup_singleton].
      intros e Hin ->%list_elem_of_singleton. done.
    + intros e. rewrite map_app, elem_of_app, He. cbn. rewrite list_elem_of_singleton.
      setoid_rewrite elem_of_app. setoid_rewrite list_elem_of_singleton. naive_solver.
    + intros y [Hy|Hy%list_elem_of_singleton]%elem_of_app.
      * apply entry_ok_other; [by apply Hx|]. intros E. apply Hnew. rewrite E. apply elem_of_map. eauto.
      * subst y. split; cbn.
        -- intros u. setoid_rewrite elem_of_app. setoid_rewrite list_elem_of_singleton. naive_solver.
        -- exists c. rewrite elem_of_app, list_elem_of_singleton. auto.
        -- intros d [Hd|Hd%list_elem_of_singleton]%elem_of_app E; [by destruct (Hno d Hd)|]. by subst d.
Qed.

Lemma merge_loop_ok i pp occ merged : merged_ok occ merged → merged_ok (occ ++ concat pp) (merge_loop i pp merged).
Proof.
  revert i occ merged. induction pp as [|page pp IH]; intros i occ merged H; cbn; [by rewrite app_nil_r|].
  rewrite app_assoc. apply IH. revert occ merged H. induction page as [|c page IHp]; intros occ merged H; cbn.
  - by rewrite app_nil_r.
  - rewrite (cons_middle c), app_assoc. apply IHp. by apply merge_one_ok.
Qed.

(** Merging keeps exactly the addresses found, once each, with all their evidence.
    Across any pages there is one merged candidate per address found anywhere, its source
    URLs are exactly those of its occurrences, its method is the most precise any
    occurrence had, and the result is ordered by first appearance. *)
Theorem merge_pages_complete (per_page : list (list EmailCandidate)) :
  NoDup (map email (merge_pages per_page)) ∧
  (∀ e, e ∈ map email (merge_pages per_page) ↔ ∃ c, c ∈ concat per_page ∧ email c = e) ∧
  (∀ x, x ∈ merge_pages per_page → entry_ok (concat per_page) x) ∧
  StronglySorted (λ a b, order a ≤ order b)%Z (merge_pages per_page).
Proof.
  assert (merged_ok [] []) as H0 by (split; [constructor|set_solver|set_solver]).
  pose proof (merge_loop_ok 0 per_page [] [] H0) as [Hn He Hx]. cbn in Hn, He, Hx.
  set (l := merge_loop 0 per_page []) in *.
  assert (merge_pages per_page ≡ₚ l) as HP by apply sort_by_Permutation.
  assert (map email (merge_pages per_page) ≡ₚ map email l) as HE by (by apply Permutation_map).
  split_and!.
  - by rewrite HE.
  - intros e. by rewrite HE.
  - intros x. rewrite HP. apply Hx.
  - eapply StronglySorted_weaken; [|apply (sort_cmp_sorted cmp_order), (CompareOk_on order Z.compare), CompareOk_Z].
    intros a b. unfold cmp_order. by destruct (Z.compare_spec (order a) (order b)); try lia.
Qed.

(** ** Cloudflare's encoding *)

Definition hex_char (n : N) : ascii := ascii_of_N (if (n <? 10)%N then 48 + n else 87 + n)%N.
Definition hex2 (n : N) : string := String (hex_char (n / 16)) (String (hex_char (n mod 16)) "").

(** How a protected address is written: the key, then each byte xored with it. *)
Fixpoint encode_bytes (key : N) (s : string) : string :=
  match s with EmptyString => "" | String c s' => hex2 (N.lxor (N_of_ascii c) key) +:+ encode_bytes key s' end.
Definition encode_cf (key : N) (address : string) : string := hex2 key +:+ encode_bytes key address.

Lemma N_lt_cases (P : N → bool) (n : nat) :
  forallb P (map N.of_nat (seq 0 n)) = true → ∀ k, (k < N.of_nat n)%N → P k = true.
Proof.
  intros H k Hk. rewrite forallb_forall in H. apply H. apply in_map_iff. exists (N.to_nat k). split; [lia|].
  apply in_seq. lia.
Qed.

Lemma hex_digit_char n : (n < 16)%N → hex_digit (hex_char n) = Some n.
Proof.
  intros H. apply (bool_decide_unpack _).
  apply (N_lt_cases (λ n, bool_decide (hex_digit (hex_char n) = Some n)) 16) in H; [by rewrite H|]. by vm_compute.
Qed.

Lemma hex_bytes_hex2 n s : (n < 256)%N → hex_bytes (hex2 n +:+ s) = cons n <$> hex_bytes s.
Proof.
  intros H. unfold hex2. cbn [String.append hex_bytes].
  rewrite !hex_digit_char; [|apply N.mod_lt; lia|apply N.Div0.div_lt_upper_bound; lia].
  destruct (hex_bytes s); [|done]. cbn. by rewrite <- N.div_mod' with (a := n).
Qed.

Lemma lxor_byte a b : (a < 256 → b < 256 → N.lxor a b < 256)%N.
Proof.
  intros Ha Hb. rewrite <- (N.mod_small a (2 ^ 8)), <- (N.mod_small b (2 ^ 8)) by done.
  assert (N.lxor (a mod 2 ^ 8) (b mod 2 ^ 8) = N.lxor (a mod 2 ^ 8) (b mod 2 ^ 8) mod 2 ^ 8)%N as ->; [|by apply N.mod_lt].
  apply N.bits_inj. intros n. destruct (N.lt_ge_cases n 8).
  - by rewrite N.mod_pow2_bits_low.
  - by rewrite N.mod_pow2_bits_high, N.lxor_spec, !N.mod_pow2_bits_high.
Qed.

Lemma hex_bytes_encode key s :
  (key < 256)%N → hex_bytes (encode_bytes key s) = Some (map (λ c, N.lxor (N_of_ascii c) key) (list_ascii_of_string s)).
Proof.
  intros Hk. induction s as [|c s IH]; [done|]. cbn [encode_bytes].
  rewrite hex_bytes_hex2, IH; [done|]. apply lxor_byte; [|done]. apply N_ascii_bounded.
Qed.

Lemma chars_decode key s :
  chars (map (λ b, N.lxor b key) (map (λ c, N.lxor (N_of_ascii c) key) (list_ascii_of_string s))) = s.
Proof.
  induction s as [|c s IH]; [done|]. cbn. rewrite IH, N.lxor_assoc, N.lxor_nilpotent, N.lxor_0_r.
  by rewrite ascii_N_embedding.
Qed.

Lemma fullmatch_iff r s : fullmatch r s = true ↔ ∃ q, matches r (None, s) (q, "").
Proof.
  unfold fullmatch. split.
  - destruct (m r (None, s) _) as [x|] eqn:E; [|done]. intros _. apply m_sound in E as ([q t] & Hm & E).
    destruct t; [|done]. eauto.
  - intros [q Hm]. destruct (m_complete r _ _ (λ p : pos, match p.2 with "" => Some () | _ => None end) Hm) as [x ->]; [by eexists|done].
Qed.

Lemma not_space_char c : is_local_char c || is_host_char c || Ascii.eqb c "@" || Ascii.eqb c "." = true → negb (is_space c) = true.
Proof. destruct c as [[] [] [] [] [] [] [] []]; vm_compute; done. Qed.

Lemma address_not_space e : fullmatch EMAIL_FULL e = true → str_all (λ c, negb (is_space c)) e = true.
Proof.
  intros [q Hm]%fullmatch_iff.
  destruct (matches_consumed (λ c, negb (is_space c)) EMAIL_FULL (None, e) (q, "")) as (s & E & Hs); [|done|].
  - assert (∀ c, is_alnum_ascii c = true → negb (is_space c) = true) as H1.
    { intros c Hc. apply not_space_char. unfold is_local_char. by rewrite Hc. }
    assert (∀ c, is_local_char c = true → negb (is_space c) = true) as H2.
    { intros c Hc. apply not_space_char. by rewrite Hc. }
    assert (∀ c, is_host_char c = true → negb (is_space c) = true) as H3.
    { intros c Hc. apply not_space_char. by rewrite Hc, orb_true_r. }
    assert (∀ c, is_az c = true → negb (is_space c) = true) as H4.
    { intros c Hc. apply H1. unfold is_alnum_ascii. by rewrite Hc. }
    assert (within (λ c, negb (is_space c)) (lit "@") ∧ within (λ c, negb (is_space c)) (lit ".")) as [H5 H6].
    { split; (split; [|done]); intros c Hc%Ascii.eqb_eq; by subst c. }
    unfold EMAIL_FULL, LOCAL_RE, HOST_RE, LABEL_RE, between_times. cbn [seqs within opt plus].
    split_and!; try done; try (apply within_upto); try (apply within_rep); done.
  - cbn in E. rewrite app_nil_str in E. by subst s.
Qed.

(** Decoding undoes Cloudflare's protection.  For every key byte and every lower-case
    address of the accepted shape, decoding its protected form gives the address back. *)
Theorem decode_cf_roundtrip (key : N) (address : string)
    (Hkey : (key < 256)%N) (Hshape : fullmatch EMAIL_FULL address = true) (Hlower : lower address = address) :
  decode_cf (encode_cf key address) = Some address.
Proof.
  unfold decode_cf, encode_cf. rewrite hex_bytes_hex2, hex_bytes_encode by done. cbn [fmap option_fmap option_map].
  rewrite chars_decode. unfold strip. rewrite strip_by_id by (by apply address_not_space).
  by rewrite Hshape, Hlower.
Qed.

Lemma decode_cf_roundtrip_witness :
  encode_cf 66 "jo@acme.com" = "42282d0223212f276c212d2f" ∧
  decode_cf (encode_cf 66 "jo@acme.com") = Some "jo@acme.com".
Proof.
  split; [vm_compute; reflexivity|].
  apply (decode_cf_roundtrip 66 "jo@acme.com"); [lia|vm_compute; reflexivity|reflexivity].
Defined.
