(* ===== verification/FilterRank.v ===== *)
(** * Filtering, ranking, judging and the status of a domain

    [src/app/pipeline/filter_rank.py], [status.py] and the decisions of [typesafe.py].
    The public-suffix library is the class [Tld]; the judging service's answers are an
    argument. *)

From Stdlib Require Import ZArith QArith NArith Ascii String Sorted Lia.
From stdpp Require Import base strings option sets list.
From S2P Require Import Prelude PyStr Models RateLimit Regex Emails.

(** ** Tables ([filter_rank.py]) *)

Definition MAX_CANDIDATES : nat := 50.

Definition ASSET_SUFFIXES : list string :=
  [".png"; ".jpg"; ".jpeg"; ".gif"; ".webp"; ".svg"; ".bmp"; ".ico"; ".css"; ".js";
   ".json"; ".woff"; ".woff2"; ".ttf"; ".eot"; ".mp4"; ".webm"; ".avif"; ".tif"; ".tiff"].

Definition BAD_DOMAINS : list string :=
  ["example.com"; "example.org"; "example.net"; "domain.com"; "yourdomain.com";
   "yoursite.com"; "website.com"; "email.com"; "mysite.com"; "test.com"; "sentry.io";
   "wixpress.com"; "sentry-next.wixpress.com"; "wix.com"; "squarespace.com";
   "godaddysites.com"; "weebly.com"; "wordpress.com"; "shopify.com"; "myshopify.com";
   "sentry.wixpress.com"].

(** [\[-_.\]?] *)
Definition sep : re := opt (Chr (in_set "-_.")).
Definition digits : re := Star (Chr is_digit09).

Definition BAD_LOCAL : re :=
  seqs [Bos;
    alts [Seq (lit_ci "no") (Seq sep (lit_ci "reply"));
          seqs [lit_ci "do"; sep; lit_ci "not"; sep; lit_ci "reply"]; lit_ci "donotreply";
          seqs [lit_ci "mailer"; sep; lit_ci "daemon"]; lit_ci "postmaster";
          lit_ci "hostmaster"; lit_ci "abuse"; Seq (lit_ci "bounce") (opt (lit_ci "s"));
          lit_ci "mailer"; lit_ci "daemon"; lit_ci "cron"; lit_ci "root"; lit_ci "wordpress";
          lit_ci "wp"; lit_ci "newsletter";
          lit_ci "unsubscribe"; Seq (lit_ci "notification") (opt (lit_ci "s")); lit_ci "automated";
          Seq (lit_ci "noreply") digits;
          lit_ci "name"; seqs [lit_ci "your"; sep; lit_ci "name"]; lit_ci "you"; lit_ci "user";
          lit_ci "username"; lit_ci "email"; seqs [lit_ci "your"; sep; lit_ci "email"]; lit_ci "youremail";
          seqs [lit_ci "first"; sep; lit_ci "name"]; seqs [lit_ci "last"; sep; lit_ci "name"];
          seqs [lit_ci "firstname"; sep; lit_ci "lastname"]; seqs [lit_ci "first"; sep; lit_ci "last"];
          seqs [lit_ci "john"; sep; lit_ci "doe"]; seqs [lit_ci "jane"; sep; lit_ci "doe"];
          seqs [lit_ci "john"; sep; lit_ci "smith"]; lit_ci "johndoe"; lit_ci "janedoe"; lit_ci "johnsmith";
          lit_ci "test"; lit_ci "example"; lit_ci "sample"; lit_ci "demo"; lit_ci "placeholder"];
    Seq (opt (Chr (in_set "-_.+"))) digits; Eos].

Definition ROLE_LOCALS : list string :=
  ["info"; "hello"; "contact"; "sales"; "support"; "office"; "admin"; "team"; "service";
   "help"; "inquiries"; "enquiries"; "inquiry"; "enquiry"; "mail"; "reception"; "booking";
   "bookings"; "appointments"; "estimates"; "quotes"; "marketing"; "hr"; "careers"; "jobs";
   "billing"; "accounts"; "privacy"; "legal"; "media"; "press"; "webmaster"].

Definition FREE_LABELS : list string :=
  ["gmail"; "yahoo"; "hotmail"; "outlook"; "aol"; "icloud"; "msn"; "live"; "comcast";
   "att"; "sbcglobal"; "verizon"; "bellsouth"; "me"; "ymail"; "protonmail"; "proton";
   "mail"; "gmx"; "zoho"; "yandex"].

Definition is_hex (c : ascii) : bool := is_digit09 c || between 97 102 (lower_char c).
Definition HEXISH : re := seqs [Bos; rep 12 (Chr is_hex); Star (Chr is_hex); Eos].
Definition DIGITS : re := seqs [Bos; plus (Chr is_digit09); Eos].
Definition SIBLING_MIN_LABEL : nat := 5.

(** ** Ranking *)

Record RankedEmail := mkRanked {
  candidate : EmailCandidate;
  rank : Z;
  own : bool;
  role : bool;
  free : bool
}.

Definition r_email (r : RankedEmail) : string := email (candidate r).

Definition local_and_domain (e : string) : string * string :=
  let '(local, domain) := rpartition "@" e in (lower local, lower domain).

Section ranking.
Context `{Tld}.

(** The reason to drop an address, or [None] to keep it. *)
Definition should_drop (e : string) : option string :=
  if (254 <? String.length e)%nat then Some "too_long"
  else if endswith_any e ASSET_SUFFIXES then Some "asset"
  else
    let '(local, domain) := local_and_domain e in
    if negb (nonempty local) || negb (nonempty domain) then Some "malformed"
    else if (64 <? String.length local)%nat then Some "local_too_long"
    else if mem domain BAD_DOMAINS then Some "bad_domain"
    else
      let root := tld_registered_domain domain in
      if nonempty root && mem root BAD_DOMAINS then Some "bad_domain"
      else if re_match BAD_LOCAL local then Some "bad_local"
      else if re_match HEXISH local || re_match DIGITS local then Some "opaque_local"
      else None.

Definition second_level (domain : string) : string := lower (tld_domain domain).

Definition is_own (email_domain site_domain : string) : bool :=
  if negb (nonempty site_domain) then false
  else
    let site := lower site_domain in
    let host := lower email_domain in
    if String.eqb host site || endswith host ("." +:+ site) then true
    else
      let a := second_level host in
      let b := second_level site in
      if mem a FREE_LABELS then false
      else (SIBLING_MIN_LABEL <=? String.length a)%nat && (SIBLING_MIN_LABEL <=? String.length b)%nat
           && (contains b a || contains a b).

Definition is_free (email_domain : string) : bool := mem (second_level email_domain) FREE_LABELS.

Definition classify (e site_domain : string) : bool * bool * bool * Z :=
  let '(local, domain) := local_and_domain e in
  let own := is_own domain site_domain in
  let role := mem local ROLE_LOCALS in
  let free := is_free domain in
  let rank := if own && negb role then 1%Z
              else if own && role then 2%Z
              else if free then 3%Z else 4%Z in
  (own, role, free, rank).

(** [max(..., default=0)] of the scores of the pages an address was on. *)
Definition max_default (l : list Z) : Z :=
  match l with [] => 0%Z | x :: l' => fold_left Z.max l' x end.

Definition best_page_score (page_scores : list (string * Z)) (r : RankedEmail) : Z :=
  max_default (map (λ u, default 0%Z (dict_get page_scores u)) (source_urls (candidate r))).

Definition precise (r : RankedEmail) : Z :=
  if mem (method (candidate r)) [mailto; jsonld] then 0%Z else 1%Z.

(** The sort key: rank, mailto and JSON-LD first, better page first, first seen, address. *)
Definition cmp_ranked (page_scores : list (string * Z)) (a b : RankedEmail) : comparison :=
  lex (Z.compare (rank a) (rank b))
 (lex (Z.compare (precise a) (precise b))
 (lex (Z.compare (- best_page_score page_scores a) (- best_page_score page_scores b))
 (lex (Z.compare (order (candidate a)) (order (candidate b)))
      (String.compare (r_email a) (r_email b))))).

Definition ranked_of (site_domain : string) (c : EmailCandidate) : RankedEmail :=
  let '(own, role, free, rank) := classify (email c) site_domain in mkRanked c rank own role free.

Definition keeps (c : EmailCandidate) : bool :=
  match should_drop (email c) with None => true | Some _ => false end.

(** A truthy reason drops the candidate; no reason is the empty string. *)
Definition rank_candidates (candidates : list EmailCandidate) (site_domain : string)
    (page_scores : list (string * Z)) : list RankedEmail :=
  take MAX_CANDIDATES
    (sort_by (λ a b, le_of (cmp_ranked page_scores a b))
       (map (ranked_of site_domain) (keep keeps candidates))).

Lemma rank_candidates_length cs site ps : (length (rank_candidates cs site ps) ≤ 50)%nat.
Proof. unfold rank_candidates. rewrite length_take. unfold MAX_CANDIDATES. lia. Qed.
End ranking.

Definition rules_best (ranked : list RankedEmail) : option string := r_email <$> head ranked.

(** ** Status of a domain ([status.py]) *)

Record StatusInputs := mkStatusInputs {
  si_invalid_input : bool;
  si_fetch_failed : bool;
  si_parked : bool;
  si_typesafe_said_none : bool;
  si_best_email : option string;
  si_business_emails : list string;
  si_contact_form_url : option string
}.

Definition assign_status (s : StatusInputs) : Status :=
  if si_invalid_input s then invalid_input
  else if si_fetch_failed s then fetch_failed
  else if si_parked s && negb (str_truthy (si_best_email s)) then parked_or_for_sale
  else if si_typesafe_said_none s
          && negb (negb (bool_decide (si_business_emails s = [])) || str_truthy (si_best_email s))
       then no_business_email
  else if str_truthy (si_best_email s) then found
  else if str_truthy (si_contact_form_url s) then form_only
  else no_contact_info.

(** ** The judgment ([typesafe.py]) *)

Definition MAX_JUDGE_CANDIDATES : nat := 10.

Record Judgment := mkJudgment {
  jg_best_email : option string;
  jg_best_email_source : option BestSource;
  jg_confidence : option FloatVal;
  jg_needs_review : bool;
  jg_business_emails : list string;
  jg_site_status : option string;
  jg_typesafe_called : bool;
  jg_typesafe_error : bool;
  jg_said_none : bool;
  jg_belongs : list (string * FloatVal)
}.

Definition blank_judgment : Judgment := mkJudgment None None None false [] None false false false [].

Definition should_call (ranked : list RankedEmail) : bool :=
  match ranked with
  | [] => false
  | _ => (2 <=? length ranked)%nat || any (λ r, Z.leb 3 (rank r)) ranked
  end.

Definition rules_only (ranked : list RankedEmail) : Judgment :=
  match ranked with
  | [] => blank_judgment
  | r :: _ =>
      mkJudgment (Some (r_email r)) (Some src_rules) None false
        (map r_email (keep (λ r, mem (rank r) [1%Z; 2%Z]) ranked)) None false false false []
  end.

(** The candidates the request asks about: the first ten distinct addresses. *)
Fixpoint pick_distinct (ranked : list RankedEmail) (seen : list string) (n : nat) : list RankedEmail :=
  match n, ranked with
  | O, _ | _, [] => []
  | S n', r :: rest =>
      if mem (lower (r_email r)) seen then pick_distinct rest seen n
      else r :: pick_distinct rest (lower (r_email r) :: seen) n'
  end.

Definition asked_emails (ranked : list RankedEmail) : list string :=
  map (λ r, lower (r_email r)) (pick_distinct ranked [] MAX_JUDGE_CANDIDATES).

(** The service's answers: the choice and its confidence, what it says of each asked
    address (absent or not a number: [None]), and the kind of site. *)
Record Answers := mkAnswers {
  a_choice : option string;
  a_confidence : FloatVal;
  a_noul : nat → option FloatVal;
  a_site : option string
}.

Section judging.
Context (cfg : Settings).

Fixpoint belongs_of (answers : Answers) (i : nat) (emails : list string) : list (string * FloatVal) :=
  match emails with
  | [] => []
  | e :: rest => (e, default (Fin 0) (a_noul answers i)) :: belongs_of answers (S i) rest
  end.

(** [belongs.get(e, d)] on a dict whose keys are distinct. *)
Definition belongs_get (belongs : list (string * FloatVal)) (e : string) (d : FloatVal) : FloatVal :=
  default d (dict_get belongs e).

(** The site status is kept whatever its confidence: both branches of the code's
    conditional are the same. *)
Definition decide_answers (answers : Answers) (emails : list string) (ranked : list RankedEmail) : Judgment :=
  let choice := lower (strip (default "" (a_choice answers))) in
  let confidence := a_confidence answers in
  let belongs := belongs_of answers 0 emails in
  let ok e := float_ge (belongs_get belongs e (Fin 0)) (typesafe_belongs_min cfg) in
  let business := keep ok emails in
  let site := a_site answers in
  let sure := float_ge confidence (typesafe_confidence_min cfg) in
  if mem choice emails && sure && ok choice
  then mkJudgment (Some choice) (Some src_typesafe) (Some confidence) false business site true false false belongs
  else if String.eqb choice "none" && sure
  then mkJudgment None (Some src_typesafe) (Some confidence) false business site true false true belongs
  else
    let fallback := match (λ r, lower (r_email r)) <$> head ranked with
                    | Some f => if float_lt (belongs_get belongs f (Fin 1)) (typesafe_belongs_min cfg)
                                then head business else Some f
                    | None => None
                    end in
    mkJudgment fallback (Some (if str_truthy fallback then src_rules else src_typesafe)) None true business
      site true false false belongs.

(** [judge], given the answer of the service or its failure ([None]). *)
Definition judge (ranked : list RankedEmail) (post : option Answers) : Judgment :=
  if negb (should_call ranked) then rules_only ranked
  else match post with
       | None =>
           let j := rules_only ranked in
           mkJudgment (jg_best_email j) (jg_best_email_source j) (jg_confidence j) (jg_needs_review j)
             (jg_business_emails j) (jg_site_status j) (jg_typesafe_called j) true (jg_said_none j) (jg_belongs j)
       | Some answers => decide_answers answers (asked_emails ranked) ranked
       end.
End judging.

(** * What filtering, ranking and judging promise *)

(** ** Ranking *)

Lemma CompareOk_cmp_ranked ps : CompareOk (cmp_ranked ps).
Proof.
  unfold cmp_ranked.
  apply (CompareOk_lex (λ a b, Z.compare (rank a) (rank b)) (λ a b, lex _ _)); [apply (CompareOk_on rank), CompareOk_Z|].
  apply (CompareOk_lex (λ a b, Z.compare (precise a) (precise b)) (λ a b, lex _ _)); [apply (CompareOk_on precise), CompareOk_Z|].
  apply (CompareOk_lex (λ a b, Z.compare (- best_page_score ps a) (- best_page_score ps b)) (λ a b, lex _ _)).
  { apply (CompareOk_on (λ a, - best_page_score ps a)%Z Z.compare), CompareOk_Z. }
  apply (CompareOk_lex (λ a b, Z.compare (order (candidate a)) (order (candidate b)))
                       (λ a b, String.compare (r_email a) (r_email b))).
  - apply (CompareOk_on (λ a, order (candidate a)) Z.compare), CompareOk_Z.
  - apply (CompareOk_on r_email String.compare), CompareOk_string.
Qed.

Lemma StronglySorted_app_inv {A} (R : A → A → Prop) l k :
  StronglySorted R (l ++ k) → StronglySorted R l ∧ ∀ x y, x ∈ l → y ∈ k → R x y.
Proof.
  induction l as [|a l IH]; cbn; intros H; [split; [constructor|set_solver]|].
  inversion H as [|? ? Hs Hf]; subst. destruct (IH Hs) as [H1 H2]. rewrite Forall_app in Hf. destruct Hf as [Hf1 Hf2].
  split; [by constructor|]. intros x y [->|Hx]%elem_of_cons Hy; [|auto].
  rewrite Forall_forall in Hf2. by apply Hf2.
Qed.

Lemma rank_candidates_in `{Tld} cs site ps r :
  r ∈ rank_candidates cs site ps → candidate r ∈ cs.
Proof.
  unfold rank_candidates. intros (i & Hi%list_elem_of_lookup_2 & _)%elem_of_take.
  apply elem_of_sort_by, elem_of_map in Hi as (c & [Hc _]%elem_of_keep & ->).
  unfold ranked_of. by destruct (classify _ _) as [[[]]].
Qed.

(** Ranking keeps the best candidates.  The result is in the order of the sort key (own
    named people, own role inboxes, free mail, third parties; then precise methods, better
    pages, first appearance), has at most 50 entries, holds only candidates no rule drops,
    and every other such candidate is either in it too or comes after all of it. *)
Theorem rank_candidates_best `{Tld} (candidates : list EmailCandidate) (site : string)
    (page_scores : list (string * Z)) :
  let out := rank_candidates candidates site page_scores in
  StronglySorted (λ a b, cmp_ranked page_scores a b ≠ Gt) out ∧ (length out ≤ 50)%nat ∧
  (∀ r, r ∈ out → ∃ c, c ∈ candidates ∧ should_drop (email c) = None ∧ r = ranked_of site c) ∧
  (∀ c, c ∈ candidates → should_drop (email c) = None →
     ranked_of site c ∈ out ∨
     length out = 50%nat ∧ ∀ r, r ∈ out → cmp_ranked page_scores r (ranked_of site c) ≠ Gt).
Proof.
  intros out. unfold out, rank_candidates.
  set (l := map (ranked_of site) (keep keeps candidates)).
  set (s := sort_by (λ a b, le_of (cmp_ranked page_scores a b)) l).
  pose proof (sort_cmp_sorted (cmp_ranked page_scores) l (CompareOk_cmp_ranked page_scores)) as Hs.
  change (sort_by _ l) with s in Hs. rewrite <- (take_drop MAX_CANDIDATES s) in Hs.
  apply StronglySorted_app_inv in Hs as [Hs1 Hs2].
  assert (∀ r, r ∈ s ↔ ∃ c, c ∈ candidates ∧ should_drop (email c) = None ∧ r = ranked_of site c) as Hin.
  { intros r. unfold s. rewrite elem_of_sort_by. unfold l. rewrite elem_of_map.
    setoid_rewrite elem_of_keep. unfold keeps. split; [intros (c & [Hc Hk] & ->)|intros (c & Hc & Hk & ->)]; exists c.
    - destruct (should_drop (email c)); [done|]. by split_and!.
    - by rewrite Hk. }
  split_and!; [done| | |].
  - rewrite length_take. unfold MAX_CANDIDATES. lia.
  - intros r Hr. apply Hin. by apply elem_of_take in Hr as (i & Hi & _); apply list_elem_of_lookup_2 in Hi.
  - intros c Hc Hk. assert (ranked_of site c ∈ s) as Hr by (apply Hin; eauto).
    rewrite <- (take_drop MAX_CANDIDATES s) in Hr. apply elem_of_app in Hr as [Hr|Hr]; [by left|right]. split.
    + rewrite length_take. assert (0 < length (drop MAX_CANDIDATES s))%nat.
      { destruct (drop MAX_CANDIDATES s); [set_solver|cbn; lia]. }
      rewrite length_drop in *. unfold MAX_CANDIDATES in *. lia.
    + intros r Hr'. by apply Hs2.
Qed.

(** ** Judging *)

Lemma pick_distinct_head ranked r rest n seen :
  ranked = r :: rest → lower (r_email r) ∉ seen → lower (r_email r) ∈ map (λ r, lower (r_email r)) (pick_distinct ranked seen (S n)).
Proof. intros -> H. cbn. apply mem_false in H. rewrite H. left. Qed.

Lemma pick_distinct_sub ranked seen n r : r ∈ pick_distinct ranked seen n → r ∈ ranked.
Proof.
  revert seen n. induction ranked as [|x l IH]; intros seen n; [by destruct n|].
  destruct n as [|n]; cbn; [set_solver|]. destruct (mem _ _); [intros ?%IH; set_solver|].
  intros [->|?%IH]%elem_of_cons; set_solver.
Qed.

Lemma pick_distinct_nodup ranked seen n :
  NoDup (map (λ r, lower (r_email r)) (pick_distinct ranked seen n)) ∧
  ∀ r, r ∈ pick_distinct ranked seen n → lower (r_email r) ∉ seen.
Proof.
  revert seen n. induction ranked as [|x l IH]; intros seen n; [destruct n; (split; [constructor|set_solver])|].
  destruct n as [|n]; cbn; [split; [constructor|set_solver]|]. destruct (mem _ seen) eqn:E; [apply IH|].
  apply mem_false in E. destruct (IH (lower (r_email x) :: seen) n) as [H1 H2]. split.
  - cbn. constructor; [|done]. intros (r & Hr & Er)%elem_of_map. specialize (H2 r Hr). set_solver.
  - intros r [->|Hr]%elem_of_cons; [done|]. specialize (H2 r Hr). set_solver.
Qed.

Lemma dict_get_Some_in {V} (d : list (string * V)) k v : dict_get d k = Some v → (k, v) ∈ d.
Proof.
  unfold dict_get. destruct (keep _ d) as [|[k' v'] l] eqn:E; [done|]. cbn. intros [= ->].
  assert ((k', v) ∈ keep (λ p, String.eqb p.1 k) d) as H by (rewrite E; left).
  apply elem_of_keep in H as [H Hk%String.eqb_eq]. cbn in Hk. by subst.
Qed.

Lemma belongs_of_keys answers i emails : map fst (belongs_of answers i emails) = emails.
Proof. revert i. induction emails as [|e l IH]; intros i; cbn; [done|]. by rewrite IH. Qed.

Lemma dict_get_is_Some {V} (d : list (string * V)) k : k ∈ map fst d → is_Some (dict_get d k).
Proof.
  intros (p & Hp & ->)%elem_of_map. unfold dict_get.
  destruct (keep _ d) as [|x l] eqn:E; [|by eexists].
  apply (keep_nil_inv _ _ E) in Hp. by rewrite String.eqb_refl in Hp.
Qed.

(** For an asked address the default of [belongs.get] does not matter. *)
Lemma belongs_get_asked answers emails e d d' :
  e ∈ emails → belongs_get (belongs_of answers 0 emails) e d = belongs_get (belongs_of answers 0 emails) e d'.
Proof.
  intros He. unfold belongs_get.
  destruct (dict_get_is_Some (belongs_of answers 0 emails) e) as [v ->]; [by rewrite belongs_of_keys|done].
Qed.

(** What is not below the minimum reaches it, unless it is no number. *)
Lemma float_not_lt x m : float_lt x m = false → float_ge x m = true ∨ x = NaN.
Proof. destruct x as [q|[]|]; cbn; try done; [|by left|by right]. intros H%negb_false_iff. by left. Qed.

(** C31: the judging service's rejection is final.  Whatever numbers it gives for the addresses
    it was asked about, infinities and NaN included: the address chosen as best is one of
    those, and its number reaches the minimum, or else is NaN, which Python does not find
    below any minimum, and then the address is the rules' own first choice and is marked for
    review; the business addresses are exactly those whose number reaches the minimum; a
    confidence is reported only for the service's own choice, and then it reaches its
    minimum; and a fallback to the rules is always marked for review. *)
Theorem decide_never_picks_rejected (cfg : Settings) (answers : Answers) (ranked : list RankedEmail)
    (r : RankedEmail) (rest : list RankedEmail) (Hr : ranked = r :: rest) :
  let emails := asked_emails ranked in
  let j := decide_answers cfg answers emails ranked in
  let score e := belongs_get (belongs_of answers 0 emails) e (Fin 0) in
  let passes e := float_ge (score e) (typesafe_belongs_min cfg) = true in
  (∀ e, jg_best_email j = Some e →
     e ∈ emails ∧ (passes e ∨ score e = NaN ∧ e = lower (r_email r) ∧ jg_needs_review j = true)) ∧
  (∀ e, e ∈ jg_business_emails j ↔ e ∈ emails ∧ passes e) ∧
  (∀ q, jg_confidence j = Some q → jg_best_email_source j = Some src_typesafe ∧
        jg_needs_review j = false ∧ float_ge q (typesafe_confidence_min cfg) = true) ∧
  (jg_best_email_source j = Some src_rules → jg_needs_review j = true).
Proof.
  intros emails j score passes. unfold j, decide_answers. clear j.
  set (belongs := belongs_of answers 0 emails) in *. set (choice := lower _).
  set (business := keep _ emails).
  assert (∀ e, e ∈ business ↔ e ∈ emails ∧ passes e) as Hb.
  { intros e. unfold business. by rewrite elem_of_keep. }
  assert (lower (r_email r) ∈ emails) as Hr0.
  { unfold emails, asked_emails. apply (pick_distinct_head ranked r rest 9 [] Hr). set_solver. }
  destruct (mem choice emails && _ && _) eqn:E1.
  { apply andb_true_iff in E1 as [[E1%mem_true E2]%andb_true_iff E3]. cbn. split_and!; [|done| |done].
    - intros e [= <-]. split; [done|]. by left.
    - by intros q [= <-]. }
  destruct (String.eqb choice "none" && _) eqn:E2.
  { apply andb_true_iff in E2 as [_ E2]. cbn. split_and!; [done|done| |done]. by intros q [= <-]. }
  rewrite Hr. cbn [head fmap option_fmap option_map jg_best_email jg_business_emails jg_confidence
                   jg_best_email_source jg_needs_review]. split_and!; [|done|done|done].
  intros e He. destruct (float_lt _ _) eqn:E3.
  - assert (e ∈ business) as [? ?]%Hb by (destruct business; [done|]; injection He as <-; left). eauto.
  - injection He as <-. split; [done|]. unfold passes, score.
    pose proof (belongs_get_asked answers emails _ (Fin 0) (Fin 1) Hr0) as Eg. fold belongs in Eg. rewrite Eg.
    apply float_not_lt in E3 as [E3|E3]; [by left|by right].
Qed.

Definition sample_candidate (e : string) (x : ExtractionMethod) (i : Z) : EmailCandidate :=
  mkCandidate e x ["https://acme.com/"] "" i.

Definition sample_ranked : list RankedEmail :=
  rank_candidates [sample_candidate "info@acme.com" text 1; sample_candidate "dev@pixel.org" mailto 2] "acme.com" [].

Definition sample_answers : Answers :=
  mkAnswers (Some "Dev@Pixel.org ") (Fin (95 # 100)) (λ i, match i with O => Some (Fin (9 # 10)) | _ => Some (Fin (1 # 10)) end) None.

Lemma decide_never_picks_rejected_witness :
  jg_best_email (decide_answers default_settings sample_answers (asked_emails sample_ranked) sample_ranked) =
    Some "info@acme.com" ∧
  "info@acme.com" ∈ asked_emails sample_ranked.
Proof.
  destruct sample_ranked as [|r rest] eqn:E; [vm_compute in E; discriminate|].
  destruct (decide_never_picks_rejected default_settings sample_answers (r :: rest) r rest eq_refl) as (H1 & _).
  assert (jg_best_email (decide_answers default_settings sample_answers (asked_emails (r :: rest)) (r :: rest)) =
          Some "info@acme.com") as Hb.
  { rewrite <- E. vm_compute. reflexivity. }
  split; [exact Hb|]. exact (proj1 (H1 _ Hb)).
Defined.

(** A NaN for the rules' first choice does not keep it from being taken. *)
Example nan_is_not_rejected :
  jg_best_email (decide_answers default_settings (mkAnswers None (Fin 0) (λ _, Some NaN) None)
                   (asked_emails sample_ranked) sample_ranked) = Some "info@acme.com".
Proof. vm_compute. reflexivity. Qed.
