(* ===== verification/Normalize.v ===== *)
(** * Normalising an input cell into a crawl key ([src/app/pipeline/normalize.py])

    Strings are Latin-1 code points.  The IDNA codec is the class [Idna] (only non-ASCII
    hosts reach anything but the identity). *)

From Stdlib Require Import ZArith NArith Ascii String Lia.
From stdpp Require Import base strings option sets list.
From S2P Require Import Prelude PyStr Regex Url Emails.

(** [host.encode("idna").decode("ascii")], [None] when it raises. *)
Class Idna := to_idna : string → option string.

Definition NULL_TOKENS : list string :=
  [""; "-"; "--"; "n/a"; "na"; "none"; "null"; "nil"; "#n/a"; "#na"; "not available"; "unknown"; "tbd"; "."].

Definition SITE_BUILDER_SUFFIXES : list string :=
  ["wixsite.com"; "squarespace.com"; "godaddysites.com"; "weebly.com"; "square.site"; "webflow.io";
   "wordpress.com"; "blogspot.com"; "myshopify.com"; "carrd.co"; "editorx.io"].
Definition PATH_SCOPED_SUFFIXES : list string := ["wixsite.com"].

Definition SOCIAL_HOSTS : list string :=
  ["facebook.com"; "fb.com"; "instagram.com"; "linkedin.com"; "yelp.com"; "g.page"; "business.site";
   "linktr.ee"; "x.com"; "twitter.com"; "youtube.com"; "angi.com"; "homeadvisor.com"; "thumbtack.com";
   "bbb.org"; "nextdoor.com"; "tiktok.com"].
Definition SOCIAL_PATH_HOSTS : list (string * list string) := [("google.com", ["/maps"]); ("goo.gl", ["/maps"])].

Definition FREE_EMAIL_LABELS : list string :=
  ["gmail"; "yahoo"; "hotmail"; "outlook"; "aol"; "icloud"; "msn"; "live"; "comcast"; "att"; "sbcglobal";
   "verizon"; "bellsouth"; "me"; "ymail"; "protonmail"; "mail"].

(** Letters, digits and everything from U+00A1 on. *)
Definition is_high (c : ascii) : bool := between 161 255 c.
Definition is_letter_high (c : ascii) : bool := between 97 122 c || between 65 90 c || is_high c.
Definition is_hostish (c : ascii) : bool := is_letter_high c || is_digit09 c.

Definition SEPARATORS : re :=
  Alt (plus (Chr (in_set (",;|" +:+ String "010" (String "013" (String "009" ""))))))
      (seqs [plus (Chr is_space); lit "/"; plus (Chr is_space)]).

Definition HOSTISH : re :=
  seqs [Chr is_hostish; opt (Seq (Star (Chr (λ c, is_hostish c || in_set "._-" c))) (Chr is_hostish));
        lit "."; between_times 2 24 (Chr is_letter_high)].

Definition IPV4 : re :=
  seqs [Bos; between_times 1 3 (Chr is_digit09); rep 3 (Seq (lit ".") (between_times 1 3 (Chr is_digit09))); Eos].

Definition is_host_lower (c : ascii) : bool := between 97 122 c || is_digit09 c || is_high c.
Definition VALID_HOST : re :=
  seqs [Bos; Chr is_host_lower; opt (Seq (Star (Chr (λ c, is_host_lower c || in_set ".-" c))) (Chr is_host_lower)); Eos].

Definition WWW : re := seqs [Bos; lit "www"; Star (Chr is_digit09); lit "."].

Inductive Source := from_website | from_email.

Record NormalizedInput := mkNormalized {
  nz_domain : option string;
  nz_display : string;
  nz_status : option string;
  nz_reason : option string;
  nz_source : Source;
  nz_notes : list string
}.

Definition nz_ok (n : NormalizedInput) : bool :=
  match nz_domain n, nz_status n with Some _, None => true | _, _ => false end.

Definition invalid (display reason : string) (source : Source) (notes : list string) : NormalizedInput :=
  mkNormalized None display (Some "invalid_input") (Some reason) source notes.

(** Non-empty pieces between separators, or the whole value. *)
Definition fragments (value : string) : list string :=
  let parts := keep nonempty (map strip (re_split SEPARATORS value)) in
  match parts with
  | [] => if nonempty (strip value) then [strip value] else []
  | _ => parts
  end.

Definition TOKEN_TRIM : string :=
  " `()[]{}<>'" +:+ String "009" (String "034" "").

Definition tokens (fragment : string) : list string :=
  let cleaned := strip_chars TOKEN_TRIM fragment in
  (if nonempty cleaned then [cleaned] else []) ++ re_findall HOSTISH fragment.

(** [host == suffix or host.endswith("." + suffix)]. *)
Definition under (host suffix : string) : bool := String.eqb host suffix || endswith host ("." +:+ suffix).

Definition site_builder_suffix (host : string) : option string := head (keep (under host) SITE_BUILDER_SUFFIXES).

Definition is_social (host path : string) : bool :=
  any (under host) SOCIAL_HOSTS
  || any (λ hp, under host hp.1 && any (startswith path) hp.2) SOCIAL_PATH_HOSTS.

(** [_WWW.sub("", host)]: the pattern is anchored, so at most one match, at the start. *)
Definition drop_www (host : string) : string :=
  match match_at WWW (None, host) with Some (_, rest) => rest | None => host end.

Section normalize.
Context `{Tld} `{IpLiteral} `{Idna}.

Definition host_and_path (token : string) : option (string * string) :=
  let candidate := if contains token "//" then token else "http://" +:+ lstrip_chars "/" token in
  match urlsplit candidate with
  | None => None
  | Some parts =>
      let host := rstrip_chars "." (lower (strip (hostname parts))) in
      if negb (nonempty host) || negb (has_char "." host) then None
      else if negb (re_match VALID_HOST host) || contains host ".." then None
      else if any (λ l, negb (nonempty l)) (split_char "." host) then None
      else Some (host, u_path parts)
  end.

(** An encoding error falls back to the host itself when it is ASCII. *)
Definition to_punycode (host : string) : option string :=
  match to_idna host with
  | Some h => Some h
  | None => if isascii host then Some host else None
  end.

Definition registrable (host : string) : string :=
  match site_builder_suffix host with Some _ => host | None => tld_registered_domain host end.

(** One token of a fragment: [None] tries the next. *)
Definition normalize_token (display : string) (notes : list string) (source : Source) (token : string)
    : option NormalizedInput :=
  match host_and_path token with
  | None => None
  | Some (host, path) =>
      if re_match IPV4 host then Some (invalid display "not_a_url" from_website notes)
      else
        match to_punycode (drop_www host) with
        | None => None
        | Some ascii_host =>
            if negb (nonempty ascii_host) || negb (has_char "." ascii_host) then None
            else if is_social ascii_host path then Some (invalid display "social_or_directory" from_website notes)
            else
              match site_builder_suffix ascii_host with
              | Some suffix =>
                  if String.eqb ascii_host suffix
                  then Some (invalid display "social_or_directory" from_website notes)
                  else
                    let first := default "" (head (keep nonempty (split_char "/" path))) in
                    let key := if mem suffix PATH_SCOPED_SUFFIXES && nonempty first
                               then ascii_host +:+ "/" +:+ first else ascii_host in
                    Some (mkNormalized (Some key) display None None source notes)
              | None =>
                  let root := tld_registered_domain ascii_host in
                  if nonempty root then Some (mkNormalized (Some root) display None None source notes) else None
              end
        end
  end.

Fixpoint first_some {A B} (f : A → option B) (l : list A) : option B :=
  match l with [] => None | x :: l' => match f x with Some y => Some y | None => first_some f l' end end.

Definition normalize_fragment (display : string) (notes : list string) (fragment : string)
    : option NormalizedInput :=
  let go source work := first_some (normalize_token display notes source) (tokens work) in
  if has_char "@" fragment && negb (startswith_any (lower fragment) ["http://"; "https://"])
  then
    let '(local, rest) := rpartition "@" fragment in
    if nonempty local && has_char "." rest
    then if mem (tld_domain (rstrip_chars "." (lower (strip rest)))) FREE_EMAIL_LABELS
         then Some (invalid display "free_email_only" from_email notes)
         else go from_email rest
    else go from_website fragment
  else go from_website fragment.

Definition normalize_input (raw : string) : NormalizedInput :=
  let value := strip raw in
  if mem (lower value) NULL_TOKENS then invalid value "empty" from_website []
  else
    match fragments value with
    | [] => invalid value "empty" from_website []
    | frags =>
        let notes := if (1 <? length frags)%nat then ["multiple_values"] else [] in
        match first_some (normalize_fragment value notes) frags with
        | Some r => r
        | None => invalid value "not_a_url" from_website notes
        end
    end.
End normalize.

(** ** From a key back to URLs *)

Definition crawl_url (domain scheme : string) (www : bool) : string :=
  let '(host, path) := cut "/" domain in
  scheme +:+ "://" +:+ (if www then "www." else "") +:+ host +:+ "/" +:+ (if nonempty path then path +:+ "/" else "").

Definition host_of_key (domain : string) : string := (cut "/" domain).1.

(** * What normalisation promises ([src/app/pipeline/normalize.py]) *)

Lemma first_some_Some {A B} (f : A → option B) l y : first_some f l = Some y → ∃ x, x ∈ l ∧ f x = Some y.
Proof.
  induction l as [|a l IH]; cbn; [done|]. destruct (f a) eqn:E; [intros [= ->]; exists a; set_solver|].
  intros (x & ? & ?)%IH. exists x. set_solver.
Qed.

Section outcomes.
Context `{Tld} `{IpLiteral} `{Idna}.

(** A host the pipeline may crawl: it has a dot, it is no social network or directory, and
    it is not the bare root of a site builder. *)
Definition crawlable (host path : string) : Prop :=
  has_char "." host = true ∧ is_social host path = false ∧
  ∀ suffix, site_builder_suffix host = Some suffix → host ≠ suffix.

(** The key of a crawlable host: the full host on a site builder (with the site's path
    segment on the builders that use one), the registrable domain elsewhere. *)
Definition key_of (host path : string) : string :=
  match site_builder_suffix host with
  | Some suffix =>
      let first := default "" (head (keep nonempty (split_char "/" path))) in
      if mem suffix PATH_SCOPED_SUFFIXES && nonempty first then host +:+ "/" +:+ first else host
  | None => tld_registered_domain host
  end.

Definition REASONS : list string := ["empty"; "not_a_url"; "free_email_only"; "social_or_directory"].

(** Either a key with its host, or an invalid input with a reason. *)
Definition outcome_ok (n : NormalizedInput) : Prop :=
  (∃ host path, crawlable host path ∧ nz_domain n = Some (key_of host path) ∧ key_of host path ≠ "" ∧
                nz_status n = None ∧ nz_reason n = None) ∨
  (nz_domain n = None ∧ nz_status n = Some "invalid_input" ∧ ∃ r, nz_reason n = Some r ∧ r ∈ REASONS).

Lemma invalid_outcome d r s notes : r ∈ REASONS → outcome_ok (invalid d r s notes).
Proof. intros Hr. right. cbn. eauto. Qed.

Lemma nonempty_true s : nonempty s = true ↔ s ≠ "".
Proof. unfold nonempty. rewrite negb_true_iff. by destruct (String.eqb_spec s ""). Qed.

Lemma builder_host_nonempty host suffix : site_builder_suffix host = Some suffix → host ≠ "".
Proof. intros Hs ->. by vm_compute in Hs. Qed.

Lemma normalize_token_outcome d notes s t n : normalize_token d notes s t = Some n → outcome_ok n.
Proof.
  unfold normalize_token. destruct (host_and_path t) as [[host path]|]; [|done].
  break; [intros [= <-]; apply invalid_outcome; set_solver|].
  destruct (to_punycode _) as [ah|]; [|done]. break; [done|].
  apply orb_false_iff in Heqb0 as [Hn Hdot%negb_false_iff].
  break; [intros [= <-]; apply invalid_outcome; set_solver|].
  destruct (site_builder_suffix ah) as [suffix|] eqn:Es.
  - destruct (String.eqb_spec ah suffix) as [|Hne]; [intros [= <-]; apply invalid_outcome; set_solver|].
    intros [= <-]. left. exists ah, path. cbn.
    assert (key_of ah path = if mem suffix PATH_SCOPED_SUFFIXES && nonempty (default "" (head (keep nonempty (split_char "/" path))))
      then ah +:+ "/" +:+ default "" (head (keep nonempty (split_char "/" path))) else ah) as Hk by (unfold key_of; by rewrite Es).
    split_and!; try done.
    + repeat (split; [done|]). intros suffix' Hs. rewrite Es in Hs. by injection Hs as <-.
    + by rewrite Hk.
    + rewrite Hk. apply builder_host_nonempty in Es. break; [|done]. by destruct ah.
  - break; [|done]. intros [= <-]. left. exists ah, path. cbn. unfold key_of. rewrite Es.
    split_and!; try done; [|by apply nonempty_true]. repeat (split; [done|]). intros suffix' Hs. congruence.
Qed.

Lemma normalize_fragment_outcome d notes f n : normalize_fragment d notes f = Some n → outcome_ok n.
Proof.
  assert (∀ s w, first_some (normalize_token d notes s) (tokens w) = Some n → outcome_ok n) as Hgo.
  { intros s w (t & _ & Ht)%first_some_Some. by eapply normalize_token_outcome. }
  unfold normalize_fragment. break; [|apply Hgo]. destruct (rpartition "@" f) as [local rest].
  break; [|apply Hgo]. break; [|apply Hgo]. intros [= <-]. apply invalid_outcome. set_solver.
Qed.

Lemma normalize_input_cases (raw : string) : outcome_ok (normalize_input raw).
Proof.
  unfold normalize_input. break; [apply invalid_outcome; set_solver|].
  destruct (fragments (strip raw)) as [|f fs] eqn:E; [apply invalid_outcome; set_solver|].
  destruct (first_some _ _) as [r|] eqn:Er; [|apply invalid_outcome; set_solver].
  apply first_some_Some in Er as (x & _ & Hx). by eapply normalize_fragment_outcome.
Qed.

Lemma nz_ok_domain raw : nz_ok (normalize_input raw) = true ↔ is_Some (nz_domain (normalize_input raw)).
Proof.
  unfold nz_ok. destruct (normalize_input_cases raw) as [(h & p & _ & -> & _ & -> & _)|(-> & _)];
    split; try done; by eexists.
Qed.

Lemma nz_domain_nonempty raw d : nz_domain (normalize_input raw) = Some d → d ≠ "".
Proof.
  destruct (normalize_input_cases raw) as [(h & p & _ & -> & Hne & _)|(-> & _)]; [|done].
  by intros [= <-].
Qed.
End outcomes.

(** Every input cell becomes either one crawl key or one stated reason.  A key always
    comes from a host that has a dot, is no social network or directory and is not the bare
    root of a site builder; on a site builder it keeps the business's full host (so two
    businesses on one builder never share a key), elsewhere it is the registrable domain.
    Anything else is invalid input with one of the documented reasons. *)
Theorem normalize_input_outcome `{Tld} `{IpLiteral} `{Idna} (raw : string) : outcome_ok (normalize_input raw).
Proof. apply normalize_input_cases. Qed.

#[export] Instance sample_ip : IpLiteral := λ _, false.
#[export] Instance sample_idna : Idna := λ h, if isascii h then Some h else None.

(** Two businesses on one site builder keep their own keys. *)
Example builders_do_not_collapse :
  (nz_domain (normalize_input "https://www.bobshvac.squarespace.com/contact"),
   nz_domain (normalize_input "anns-roofing.squarespace.com"),
   nz_domain (normalize_input "user.wixsite.com/site-one"),
   nz_reason (normalize_input "facebook.com/acme"),
   nz_domain (normalize_input "Bob <bob@acme.com>; other")) =
  (Some "bobshvac.squarespace.com", Some "anns-roofing.squarespace.com", Some "user.wixsite.com/site-one",
   Some "social_or_directory", Some "acme.com").
Proof. vm_compute. reflexivity. Qed.
