(* ===== verification/Site.v ===== *)
(** * DNS answers and parked sites ([src/app/pipeline/dns_check.py], [parked.py])

    The resolver's answers and the HTML parser's visible text are arguments. *)

From Stdlib Require Import ZArith NArith Ascii String Lia.
From stdpp Require Import base strings option sets list.
From S2P Require Import Prelude PyStr Url Normalize.

(** ** DNS *)

Record DnsResult := mkDns {
  resolves : bool;
  a_domain : bool;
  a_www : bool;
  mx_provider : string;
  ns_hosts : list string;
  nxdomain : bool;
  dns_error : option string
}.

Definition dns_error_class (d : DnsResult) : option string :=
  if resolves d then None else Some (if nxdomain d then "permanent" else "transient").

Definition classify_mx (mx_hosts : list string) : string :=
  let hs := map (λ h, rstrip_chars "." (lower h)) mx_hosts in
  match hs with
  | [] => "none"
  | _ => if any (λ h, endswith h "google.com" || endswith h "googlemail.com") hs then "google"
         else if any (λ h, endswith h "outlook.com" || contains h "protection.outlook") hs then "microsoft"
         else "other"
  end.

(** An answer of the resolver: the records, or the error's class name. *)
Definition Answer := (list string * option string)%type.

(** What the resolver does with one question: its records as text, or an exception of
    dnspython, by its class. *)
Inductive Resolved := Records (rs : list string) | DnsException (name : string).

Definition query (r : Resolved) : Answer :=
  match r with
  | Records rs => (map (rstrip_chars ".") rs, None)
  | DnsException name => ([], Some name)
  end.

(** A then AAAA, stopping at addresses or NXDOMAIN. *)
Definition any_address (query : string → string → Answer) (name : string) : bool * option string :=
  match query name "A" with
  | (_ :: _, _) => (true, None)
  | ([], Some "NXDOMAIN") => (false, Some "NXDOMAIN")
  | ([], _) =>
      match query name "AAAA" with
      | (_ :: _, _) => (true, None)
      | ([], err) => (false, err)
      end
  end.

Definition is_nxdomain (e : option string) : bool := bool_decide (e = Some "NXDOMAIN").

(** The last word of a record such as "10 mail.example.com". *)
Definition last_word (v : string) : option string := last (keep nonempty (split_on is_space v)).

Definition check_domain (query : string → string → Answer) (domain : string) : DnsResult :=
  let host := host_of_key domain in
  let '(a_dom, e1) := any_address query host in
  let '(a_w, e2) := any_address query ("www." +:+ host) in
  let mx := fst (query host "MX") in
  let ns := fst (query host "NS") in
  let res := a_dom || a_w in
  {| resolves := res; a_domain := a_dom; a_www := a_w;
     mx_provider := classify_mx (omap last_word mx); ns_hosts := map lower ns;
     nxdomain := negb res && is_nxdomain e1 && (bool_decide (e2 = None) || is_nxdomain e2);
     dns_error := if res then None else Some (default "no_address" e1) |}.

(** ** Parked or for sale *)

Definition PARKING_NS_MARKERS : list string :=
  ["sedoparking"; "bodis"; "parkingcrew"; "above.com"; "dan.com"; "afternic"; "hugedomains"; "namebrightdns";
   "parklogic"].
Definition PARKING_HOSTS : list string :=
  ["dan.com"; "afternic.com"; "hugedomains.com"; "sedo.com"; "undeveloped.com"].
Definition PARKING_HOST_PATHS : list (string * list string) := [("godaddy.com", ["/forsale"])].
Definition FOR_SALE_PHRASES : list string :=
  ["this domain is for sale"; "buy this domain"; "domain may be for sale"; "this domain has been registered"].
Definition WEAK_PHRASES : list string := ["parked free"; "future home of"; "coming soon"].
Definition WEAK_MAX_CHARS : nat := 300.

(** A verdict: the signal that says parked, if any. *)
Definition ParkedVerdict := option string.

Definition ns_marker_hit (ns marker : string) : bool :=
  if has_char "." marker then under ns marker else mem marker (split_char "." ns).

Definition check_ns (ns : list string) : ParkedVerdict :=
  if any (λ n, any (ns_marker_hit (rstrip_chars "." (lower n))) PARKING_NS_MARKERS) ns then Some "ns" else None.

(** [None]: [urlsplit] raises; otherwise the verdict. *)
Definition check_final_url `{IpLiteral} (final_url : string) : option ParkedVerdict :=
  match urlsplit final_url with
  | None => None
  | Some u =>
      let host := lower (hostname u) in
      Some (if any (under host) PARKING_HOSTS
               || any (λ hp, under host hp.1 && any (startswith (u_path u)) hp.2) PARKING_HOST_PATHS
            then Some "host" else None)
  end.

Definition check_text (text : string) : ParkedVerdict :=
  let low := lower text in
  if any (contains low) FOR_SALE_PHRASES then Some "phrase"
  else if (String.length text <? WEAK_MAX_CHARS)%nat && any (contains low) WEAK_PHRASES then Some "phrase"
  else None.

(** Any one signal is enough; all three are computed first. *)
Definition is_parked `{IpLiteral} (visible_text : string → string) (ns : list string) (final_url html : string)
    : option ParkedVerdict :=
  let by_url := if nonempty final_url then check_final_url final_url else Some None in
  let by_text := if nonempty html then check_text (visible_text html) else None in
  match by_url with
  | None => None
  | Some v =>
      Some (match check_ns ns with
            | Some s => Some s
            | None => match v with Some s => Some s | None => by_text end
            end)
  end.
