(* ===== verification/Discovery.v ===== *)
(** * Choosing the pages to fetch ([src/app/pipeline/discovery])

    Scoring and selection ([score.py]), the sitemap walk and the whole of stage 3
    ([__init__.py]).  The links the HTML parser finds, the URLs of a sitemap document and
    the fetches are arguments.  [urlsplit] and a URL's port raise ValueError on malformed
    input: [None] is that exception, and nothing in this stage catches it. *)

From Stdlib Require Import ZArith NArith Ascii String Sorted Lia.
From stdpp Require Import base strings option sets list.
From S2P Require Import Prelude PyStr Regex Url UrlJoin Emails FilterRank Normalize.

(** ** Tables *)

Definition TIERS : list (string * Z * list string) :=
  [("contact", 100%Z, ["contact"; "contact-us"; "contactus"; "get-in-touch"; "reach-us"]);
   ("quote", 80%Z, ["quote"; "get-a-quote"; "request-a-quote"; "free-estimate"; "estimate"; "schedule"; "book";
                    "booking"; "appointment"]);
   ("about", 60%Z, ["about"; "about-us"; "our-story"; "team"; "our-team"; "leadership"; "staff";
                    "meet-the-team"; "company"; "who-we-are"]);
   ("legal", 40%Z, ["privacy"; "privacy-policy"; "accessibility"; "terms"; "terms-of-service"; "legal"]);
   ("locations", 20%Z, ["locations"; "location"; "offices"; "careers"; "jobs"])].

Definition ANCHOR_BONUS : Z := 10.

Definition EXCLUDED_SEGMENTS : list string :=
  ["blog"; "news"; "tag"; "tags"; "category"; "categories"; "product"; "products"; "shop"; "cart"; "checkout";
   "account"; "login"; "wp-admin"; "feed"; "rss"; "author"; "search"].
Definition FORBIDDEN_PREFIXES : list string := ["/wp-admin"; "/cart"; "/checkout"; "/account"; "/login"].

Definition ASSET_EXTENSIONS : list string :=
  ["pdf"; "jpg"; "jpeg"; "png"; "gif"; "svg"; "webp"; "bmp"; "ico"; "avif"; "tif"; "tiff"; "zip"; "gz"; "tar";
   "rar"; "7z"; "doc"; "docx"; "xls"; "xlsx"; "ppt"; "pptx"; "rtf"; "mp4"; "mp3"; "wav"; "mov"; "avi"; "webm";
   "css"; "js"; "json"; "xml"; "rss"; "atom"; "woff"; "woff2"; "ttf"; "eot"; "otf"; "csv"; "txt"; "exe"; "dmg";
   "apk"].

Definition YEAR : re := seqs [Bos; Alt (lit "19") (lit "20"); Chr is_digit09; Chr is_digit09; Eos].
Definition TOKEN_SPLIT : re := plus (Chr (in_set "-_")).
Definition INDEX : re :=
  seqs [lit_ci "/index."; alts [Seq (lit_ci "htm") (opt (lit_ci "l")); lit_ci "php";
                                Seq (lit_ci "asp") (opt (lit_ci "x")); lit_ci "jsp"; lit_ci "cfm"; lit_ci "shtml"]; Eos].
Definition WS : re := plus (Chr is_space).

(** A keyword with [\s+] for its spaces; the longest keywords first. *)
Fixpoint spaced (s : string) : re :=
  match s with
  | EmptyString => Eps
  | String c s' => Seq (if Ascii.eqb c " " then WS else Chr (ci c)) (spaced s')
  end.
Definition ANCHOR_RE : re :=
  seqs [WordB;
        alts (map spaced ["accessibility"; "meet the team"; "get in touch"; "locations"; "estimate"; "schedule";
                          "our team"; "contact"; "privacy"; "careers"; "quote"; "about"]);
        WordB].

(** ** Scoring *)

Record ScoredUrl := mkScored {
  su_url : string;
  su_score : Z;
  su_tier : option string;
  su_depth : nat;
  su_anchor : string;
  su_fetch_url : string
}.

Definition target (s : ScoredUrl) : string := if nonempty (su_fetch_url s) then su_fetch_url s else su_url s.

Definition segments (path : string) : list string := keep nonempty (split_char "/" path).
Definition path_tokens (segment : string) : list string := keep nonempty (re_split TOKEN_SPLIT segment).

Definition extension_of (path : string) : option string :=
  match last (segments path) with
  | None => None
  | Some seg =>
      match rpartition_at "." seg with
      | None => None
      | Some (_, e) => let ext := lower e in
                       if isalnum ext && (String.length ext <=? 5)%nat then Some ext else None
      end
  end.

Definition is_excluded (path : string) : bool :=
  let low := lower path in
  if startswith_any low FORBIDDEN_PREFIXES then true
  else if any (λ s, mem s EXCLUDED_SEGMENTS || re_match YEAR s) (segments low) then true
  else match extension_of low with Some e => mem e ASSET_EXTENSIONS | None => false end.

Definition tier_for (path : string) : option string * Z :=
  let segs := map lower (segments path) in
  let toks := concat (map path_tokens segs) in
  match List.find (λ t : string * Z * list string, any (λ k, mem k segs || mem k toks) t.2) TIERS with
  | Some (name, score, _) => (Some name, score)
  | None => (None, 0%Z)
  end.

Definition anchor_matches (anchor : string) : bool :=
  let a := strip (re_sub WS " " (lower anchor)) in nonempty a && re_search ANCHOR_RE a.

(** Decimal digits of a port. *)
Fixpoint digits_of (fuel : nat) (n : Z) (acc : string) : string :=
  match fuel with
  | O => acc
  | S f => let acc' := String (ascii_of_N (48 + Z.to_N (n mod 10))) acc in
           if (n <? 10)%Z then acc' else digits_of f (n / 10) acc'
  end.

Section scoring.
Context `{IpLiteral}.

Definition canonical (url : string) : option string :=
  parts ← urlsplit url;
  p ← port parts;
  let host := lower (hostname parts) in
  let host := if startswith host "www." then str_drop 4 host else host in
  let host := match p with
              | Some n => if (n =? 0)%Z || mem n [80%Z; 443%Z] then host else host +:+ ":" +:+ digits_of 6 n ""
              | None => host
              end in
  let path := lower (re_sub INDEX "/" (if nonempty (u_path parts) then u_path parts else "/")) in
  let path := if (1 <? String.length path)%nat
              then let r := rstrip_chars "/" path in if nonempty r then r else "/" else path in
  Some (urlunsplit (mkSplit "https" host path "" "")).

(** [Some None]: never fetch this URL. *)
Definition score_url (url anchor : string) : option (option ScoredUrl) :=
  parts ← urlsplit url;
  let raw_path := if nonempty (u_path parts) then u_path parts else "/" in
  if is_excluded raw_path then Some None
  else
    let '(tier, base) := tier_for raw_path in
    let total := (base + if anchor_matches anchor then ANCHOR_BONUS else 0)%Z in
    if (total <=? 0)%Z then Some None
    else
      canon ← canonical url;
      cparts ← urlsplit canon;
      Some (Some (mkScored canon total tier (length (segments (u_path cparts))) anchor
        (urlunsplit (mkSplit (u_scheme parts) (u_netloc parts) (u_path parts) (u_query parts) "")))).
End scoring.

(** ** Selecting *)

(** The best candidate of each URL, in order of first appearance, as the dict holds them. *)
Definition keep_best (best : list ScoredUrl) (c : ScoredUrl) : list ScoredUrl :=
  if any (λ p, String.eqb (su_url p) (su_url c)) best
  then map (λ p, if String.eqb (su_url p) (su_url c) then (if (su_score p <? su_score c)%Z then c else p) else p) best
  else best ++ [c].

Definition cmp_scored (a b : ScoredUrl) : comparison :=
  lex (Z.compare (- su_score a) (- su_score b))
 (lex (Nat.compare (su_depth a) (su_depth b))
 (lex (Nat.compare (String.length (su_url a)) (String.length (su_url b)))
      (String.compare (su_url a) (su_url b)))).

Definition in_tier (t : option string) (c : ScoredUrl) : bool := bool_decide (su_tier c = t).

(** The greedy pass: [chosen] so far; [per_tier] counts are those of [chosen]. *)
Fixpoint choose (limit cap : nat) (chosen ordered : list ScoredUrl) : list ScoredUrl :=
  match ordered with
  | [] => chosen
  | c :: rest =>
      if (limit <=? length chosen)%nat then chosen
      else if (cap <=? count (in_tier (su_tier c)) chosen)%nat then choose limit cap chosen rest
      else choose limit cap (chosen ++ [c]) rest
  end.

Definition select (candidates : list ScoredUrl) (limit cap : nat) : list ScoredUrl :=
  choose limit cap [] (sort_by (λ a b, le_of (cmp_scored a b)) (fold_left keep_best candidates [])).

Definition has_tier (candidates : list ScoredUrl) (tier : string) : bool := any (in_tier (Some tier)) candidates.

(** ** Sitemaps *)

Definition FIXED_FALLBACK_PATHS : list string := ["/contact"; "/contact-us"; "/about"; "/about-us"].
Definition MAX_SITEMAP_DOCS : nat := 4.
Definition MIN_SCORED_BEFORE_FALLBACK : nat := 2.
Definition MAX_URLS : nat := 5000.
Definition MAX_CHILDREN : nat := 3.
Definition MAX_DEPTH : nat := 2.

Definition EXCLUDE_CHILD_TOKENS : list string :=
  ["product"; "products"; "post"; "posts"; "blog"; "news"; "image"; "images"; "video"; "videos"; "category";
   "categories"; "tag"; "tags"; "author"; "authors"].

Section walk.
Context `{Tld} `{IpLiteral}.
Context (extract_urls : string → option (list string * bool)).
Context (fetch_text_or_blank : string → string).

Definition same_site (url own : string) : option bool :=
  u ← urlsplit url;
  let host := lower (hostname u) in Some (nonempty host && String.eqb (registrable host) own).

(** [all] over URLs that may raise: the ones of the own site, in order. *)
Fixpoint own_urls (own : string) (urls : list string) : option (list string) :=
  match urls with
  | [] => Some []
  | u :: rest => b ← same_site u own; l ← own_urls own rest; Some (if (b : bool) then u :: l else l)
  end.

Definition last_segment_tokens (url : string) : option (list string) :=
  u ← urlsplit url;
  Some (match last (segments (u_path u)) with
        | None => []
        | Some seg => concat (map path_tokens (split_char "." (lower seg)))
        end).

Fixpoint with_tokens_of (urls : list string) : option (list (string * list string)) :=
  match urls with
  | [] => Some []
  | u :: rest => t ← last_segment_tokens u; l ← with_tokens_of rest; Some ((u, t) :: l)
  end.

Definition order_children (urls : list string) : option (list string) :=
  l ← with_tokens_of urls;
  let kept := keep (λ p : string * list string, negb (any (λ t, mem t EXCLUDE_CHILD_TOKENS) p.2)) l in
  let preferred := map fst (keep (λ p : string * list string, mem "page" p.2) kept) in
  Some (preferred ++ keep (λ u, negb (mem u preferred)) (map fst kept)).

(** Appends the own-site URLs until [MAX_URLS]; the flag says the limit was reached. *)
Fixpoint take_pages (own : string) (urls pages : list string) : option (list string * bool) :=
  match urls with
  | [] => Some (pages, false)
  | u :: rest =>
      b ← same_site u own;
      let pages' := if (b : bool) then pages ++ [u] else pages in
      if (MAX_URLS <=? length pages')%nat then Some (pages', true) else take_pages own rest pages'
  end.

(** What is left to read, what was read, and the pages so far. *)
Record Walk := mkWalk {
  w_texts : list (string * nat);
  w_queue : list (string * nat);
  w_seen : list string;
  w_budget : nat;
  w_pages : list string
}.

(** Reading one document. *)
Definition read_doc (own text : string) (depth : nat) (w : Walk) : option (Walk + list string) :=
  r ← extract_urls text;
  let '(urls, is_index) := r in
  if (is_index : bool) then
    if (MAX_DEPTH <=? depth)%nat then Some (inl w)
    else
      mine ← own_urls own urls;
      children ← order_children mine;
      Some (inl (mkWalk (w_texts w) (w_queue w ++ map (λ c, (c, S depth)) (take MAX_CHILDREN children))
                        (w_seen w) (w_budget w) (w_pages w)))
  else
    r ← take_pages own urls (w_pages w);
    Some (if (r.2 : bool) then inr r.1
          else inl (mkWalk (w_texts w) (w_queue w) (w_seen w) (w_budget w) r.1)).

(** One pass of the [while]: the walk goes on, or ends with the pages. *)
Definition walk_step (own : string) (w : Walk) : option (Walk + list string) :=
  match w_texts w with
  | (text, depth) :: texts =>
      read_doc own text depth (mkWalk texts (w_queue w) (w_seen w) (w_budget w) (w_pages w))
  | [] =>
      match w_queue w with
      | [] => Some (inr (w_pages w))
      | (url, depth) :: queue =>
          match w_budget w with
          | O => Some (inr (w_pages w))
          | S budget =>
              b ← (if mem url (w_seen w) then Some false else same_site url own);
              if negb b then Some (inl (mkWalk [] queue (w_seen w) (S budget) (w_pages w)))
              else
                let w1 := mkWalk [] queue (url :: w_seen w) budget (w_pages w) in
                let text := fetch_text_or_blank url in
                if nonempty text then read_doc own text depth w1 else Some (inl w1)
          end
      end
  end.

Inductive WalkResult := WalkPages (pages : list string) | WalkRaised | WalkOutOfFuel.

Fixpoint walk (fuel : nat) (own : string) (w : Walk) : WalkResult :=
  match fuel with
  | O => WalkOutOfFuel
  | S f =>
      match walk_step own w with
      | None => WalkRaised
      | Some (inr pages) => WalkPages pages
      | Some (inl w') => walk f own w'
      end
  end.

(** Passes that are always enough: each document read adds at most three entries. *)
Definition walk_fuel (w : Walk) : nat :=
  S (4 * length (w_texts w) + length (w_queue w) + 4 * w_budget w).

Definition collect_sitemap_urls (own : string) (seed_texts seed_urls : list string) : WalkResult :=
  let w := mkWalk (map (λ t, (t, 0%nat)) (keep nonempty seed_texts)) (map (λ u, (u, 0%nat)) seed_urls) []
                  MAX_SITEMAP_DOCS [] in
  walk (walk_fuel w) own w.
End walk.

(** ** Stage 3 *)

Section discover.
Context `{Tld} `{IpLiteral}.
Context (extract_urls : string → option (list string * bool)).
Context (fetch_text_or_blank : string → string).

(** The scored ones of a list of URLs with their anchors; any of them may raise. *)
Fixpoint score_all (links : list (string * string)) : option (list ScoredUrl) :=
  match links with
  | [] => Some []
  | (url, anchor) :: rest =>
      s ← score_url url anchor; l ← score_all rest;
      Some (match s with Some c => c :: l | None => l end)
  end.

(** How the pages were found. *)
Record Diag := mkDiag { dg_shortcut : bool; dg_from_links : nat; dg_from_sitemap : nat; dg_fallback : bool }.

Definition PER_TIER_CAP : nat := 2.

(** The fixed paths joined to the site's own scheme and host. *)
Definition fallback_links (final : SplitResult) : option (list (string * string)) :=
  mapM (λ path, (λ u, (u, "")) <$> urljoin (u_scheme final +:+ "://" +:+ u_netloc final +:+ "/") (lstrip_chars "/" path))
       FIXED_FALLBACK_PATHS.

(** [None] when something raises; [links] are the same-site links of the homepage and
    [seed_urls] the sitemaps of robots.txt, which may raise, the latter only when read. *)
Definition discover_pages (final_url : string) (links : option (list (string * string)))
    (seed_urls : option (list string)) (root_sitemap_text : string) (limit : nat) : option (list ScoredUrl * Diag) :=
  final ← urlsplit final_url;
  let own := registrable (lower (hostname final)) in
  links ← links;
  from_links ← score_all links;
  if has_tier from_links "contact" && has_tier from_links "about"
  then Some (select from_links limit PER_TIER_CAP, mkDiag true (length from_links) 0 false)
  else
    seeds ← seed_urls;
    match collect_sitemap_urls extract_urls fetch_text_or_blank own [root_sitemap_text] seeds with
    | WalkPages pages =>
        from_sitemap ← score_all (map (λ u, (u, "")) pages);
        let candidates := from_links ++ from_sitemap in
        let chosen := select candidates limit PER_TIER_CAP in
        if (count (λ c, negb (bool_decide (su_tier c = None))) chosen <? MIN_SCORED_BEFORE_FALLBACK)%nat
        then
          paths ← fallback_links final;
          fallback ← score_all paths;
          Some (select (candidates ++ fallback) limit PER_TIER_CAP,
                mkDiag false (length from_links) (length from_sitemap) true)
        else Some (chosen, mkDiag false (length from_links) (length from_sitemap) false)
    | _ => None
    end.
End discover.

(** * What discovery promises ([src/app/pipeline/discovery]) *)

(** ** Selecting pages *)

Lemma CompareOk_cmp_scored : CompareOk cmp_scored.
Proof.
  unfold cmp_scored.
  apply (CompareOk_lex (λ a b, Z.compare (- su_score a) (- su_score b)) (λ a b, lex _ _)).
  { apply (CompareOk_on (λ a, - su_score a)%Z Z.compare), CompareOk_Z. }
  apply (CompareOk_lex (λ a b, Nat.compare (su_depth a) (su_depth b)) (λ a b, lex _ _)).
  { apply (CompareOk_on su_depth Nat.compare), CompareOk_nat. }
  apply (CompareOk_lex (λ a b, Nat.compare (String.length (su_url a)) (String.length (su_url b)))
                       (λ a b, String.compare (su_url a) (su_url b))).
  - apply (CompareOk_on (λ a, String.length (su_url a)) Nat.compare), CompareOk_nat.
  - apply (CompareOk_on su_url String.compare), CompareOk_string.
Qed.

(** The dict after some candidates: one entry per URL, the best scored of its URL. *)
Record best_ok (cs best : list ScoredUrl) : Prop := {
  bk_nodup : NoDup (map su_url best);
  bk_in : ∀ b, b ∈ best → b ∈ cs ∧ ∀ c, c ∈ cs → su_url c = su_url b → (su_score c ≤ su_score b)%Z;
  bk_all : ∀ c, c ∈ cs → su_url c ∈ map su_url best
}.

Lemma keep_best_ok cs best c : best_ok cs best → best_ok (cs ++ [c]) (keep_best best c).
Proof.
  intros [Hn Hi Ha]. unfold keep_best. destruct (any _ best) eqn:E.
  - set (f := λ p, if String.eqb (su_url p) (su_url c) then (if (su_score p <? su_score c)%Z then c else p) else p).
    assert (∀ p, su_url (f p) = su_url p) as Hf.
    { intros p. unfold f. destruct (String.eqb_spec (su_url p) (su_url c)); [|done]. by break. }
    assert (map su_url (map f best) = map su_url best) as Hm by (rewrite map_map; by apply map_ext).
    split.
    + by rewrite Hm.
    + intros b (p & Hp & ->)%elem_of_map. destruct (Hi p Hp) as [Hpc Hpb]. unfold f.
      destruct (String.eqb_spec (su_url p) (su_url c)) as [Eu|Nu].
      * destruct (Z.ltb_spec (su_score p) (su_score c)); (split; [set_solver|]);
          intros d [Hd|Hd%list_elem_of_singleton]%elem_of_app Ed; try (subst d; lia).
        -- specialize (Hpb d Hd ltac:(congruence)). lia.
        -- by apply Hpb.
      * split; [set_solver|]. intros d [Hd|Hd%list_elem_of_singleton]%elem_of_app Ed; [by apply Hpb|]. subst d. congruence.
    + intros d [Hd|Hd%list_elem_of_singleton]%elem_of_app; rewrite Hm; [by apply Ha|]. subst d.
      apply any_true in E as (p & Hp & Ep%String.eqb_eq). rewrite <- Ep. apply elem_of_map. eauto.
  - assert (su_url c ∉ map su_url best) as Hnew.
    { intros (p & Hp & Ep)%elem_of_map. rewrite any_false in E. specialize (E p Hp). cbn in E.
      rewrite Ep in E. by rewrite String.eqb_refl in E. }
    split.
    + rewrite map_app. apply NoDup_app. split; [done|]. split; [|apply NoDup_singleton].
      intros u Hu ->%list_elem_of_singleton. done.
    + intros b [Hb|Hb%list_elem_of_singleton]%elem_of_app.
      * destruct (Hi b Hb) as [H1 H2]. split; [set_solver|].
        intros d [Hd|Hd%list_elem_of_singleton]%elem_of_app Ed; [by apply H2|]. subst d. exfalso. apply Hnew.
        rewrite Ed. apply elem_of_map. eauto.
      * subst b. split; [set_solver|]. intros d [Hd|Hd%list_elem_of_singleton]%elem_of_app Ed; [|by subst d].
        exfalso. apply Hnew. rewrite <- Ed. by apply Ha.
    + intros d [Hd|Hd%list_elem_of_singleton]%elem_of_app; rewrite map_app, elem_of_app; [left; by apply Ha|].
      right. subst d. left.
Qed.

Lemma fold_keep_best_ok cs : best_ok cs (fold_left keep_best cs []).
Proof.
  assert (∀ pre best, best_ok pre best → best_ok (pre ++ cs) (fold_left keep_best cs best)) as H.
  { induction cs as [|c cs IH]; intros pre best Hb; cbn; [by rewrite app_nil_r|].
    rewrite (cons_middle c), app_assoc. by apply IH, keep_best_ok. }
  apply (H [] []). split; [constructor|set_solver|set_solver].
Qed.

(** The greedy pass takes a sublist within the limits, and leaves out only what they force. *)
Lemma choose_spec limit cap chosen ordered :
  (length chosen ≤ limit)%nat → (∀ t, (count (in_tier t) chosen ≤ cap)%nat) →
  let out := choose limit cap chosen ordered in
  (∃ picked, out = chosen ++ picked ∧ picked `sublist_of` ordered) ∧
  (length out ≤ limit)%nat ∧ (∀ t, (count (in_tier t) out ≤ cap)%nat) ∧
  (∀ c, c ∈ ordered → c ∈ out ∨ length out = limit ∨ count (in_tier (su_tier c)) out = cap).
Proof.
  revert chosen. induction ordered as [|c rest IH]; intros chosen Hl Ht; cbn [choose].
  { split_and!; try done; [|set_solver]. exists []. by rewrite app_nil_r. }
  destruct (Nat.leb_spec limit (length chosen)).
  { split_and!; try done.
    - exists []. rewrite app_nil_r. split; [done|apply sublist_nil_l].
    - intros d _. right. left. lia. }
  destruct (Nat.leb_spec cap (count (in_tier (su_tier c)) chosen)) as [Hc|Hc].
  - destruct (IH chosen Hl Ht) as ((picked & E & Hs) & H1 & H2 & H3). split_and!; try done.
    + exists picked. split; [done|]. by apply sublist_cons.
    + intros d [->|Hd]%elem_of_cons; [|by apply H3]. right. right.
      assert (cap ≤ count (in_tier (su_tier c)) (choose limit cap chosen rest))%nat; [|specialize (H2 (su_tier c)); lia].
      rewrite E. unfold count in *. rewrite keep_app, length_app. lia.
  - destruct (IH (chosen ++ [c])) as ((picked & E & Hs) & H1 & H2 & H3).
    + rewrite length_app. cbn. lia.
    + intros t. unfold count in *. rewrite keep_app, length_app. cbn.
      destruct (in_tier t c) eqn:Et; cbn; [|specialize (Ht t); lia].
      apply bool_decide_eq_true in Et. subst t. lia.
    + split_and!; try done.
      * exists (c :: picked). rewrite E, <- app_assoc. split; [done|]. by apply sublist_skip.
      * intros d [->|Hd]%elem_of_cons; [left; rewrite E; set_solver|by apply H3].
Qed.

Lemma sublist_StronglySorted {A} (R : A → A → Prop) (l k : list A) :
  l `sublist_of` k → StronglySorted R k → StronglySorted R l.
Proof.
  induction 1 as [|x l k Hs IH|x l k Hs IH]; intros H; [constructor| |].
  - inversion H as [|? ? H1 H2]; subst. constructor; [by apply IH|].
    rewrite Forall_forall in *. intros y Hy. apply H2. by eapply sublist_subseteq.
  - inversion H; subst. by apply IH.
Qed.

Lemma sublist_map {A B} (f : A → B) (l k : list A) : l `sublist_of` k → map f l `sublist_of` map f k.
Proof. induction 1; cbn; by constructor. Qed.

(** The pages selected are the best the limits allow.  At most [limit] pages and at most
    [cap] per tier are chosen, no page twice (up to its canonical URL), each by its best
    scored link, in order of score, depth, length and URL; and a candidate page is left out
    only when the limit is reached or its tier is full. *)
Theorem select_within_limits (candidates : list ScoredUrl) (limit cap : nat) :
  let out := select candidates limit cap in
  (length out ≤ limit)%nat ∧ (∀ t, (count (in_tier t) out ≤ cap)%nat) ∧ NoDup (map su_url out) ∧
  StronglySorted (λ a b, cmp_scored a b ≠ Gt) out ∧
  (∀ c, c ∈ out → c ∈ candidates ∧ ∀ d, d ∈ candidates → su_url d = su_url c → (su_score d ≤ su_score c)%Z) ∧
  (∀ c, c ∈ candidates → ∃ b, b ∈ candidates ∧ su_url b = su_url c ∧
     (b ∈ out ∨ length out = limit ∨ count (in_tier (su_tier b)) out = cap)).
Proof.
  intros out. destruct (fold_keep_best_ok candidates) as [Hn Hi Ha].
  set (best := fold_left keep_best candidates []) in *.
  set (ordered := sort_by (λ a b, le_of (cmp_scored a b)) best).
  assert (ordered ≡ₚ best) as HP by apply sort_by_Permutation.
  destruct (choose_spec limit cap [] ordered) as ((picked & E & Hs) & H1 & H2 & H3); [cbn; lia|cbn; lia|].
  change (choose limit cap [] ordered) with out in *. cbn in E. rewrite <- E in Hs. split_and!; try done.
  - eapply sublist_NoDup; [|apply (sublist_map su_url), Hs]. by rewrite HP.
  - eapply sublist_StronglySorted; [exact Hs|]. apply sort_cmp_sorted, CompareOk_cmp_scored.
  - intros c Hc. apply Hi. rewrite <- HP. by eapply sublist_subseteq.
  - intros c Hc. destruct (proj1 (elem_of_map _ _ _) (Ha c Hc)) as (b & Hb & Eb). exists b.
    split; [by apply Hi|]. split; [done|]. apply H3. by rewrite HP.
Qed.

(** ** The sitemap walk *)

Section walk_props.
Context `{Tld} `{IpLiteral} (extract_urls : string → option (list string * bool)) (fetch : string → string).

Definition walk_measure (w : Walk) : nat := 4 * length (w_texts w) + length (w_queue w) + 4 * w_budget w.

Definition pages_ok (own : string) (pages : list string) : Prop :=
  (length pages ≤ MAX_URLS)%nat ∧ Forall (λ u, same_site u own = Some true) pages.

(** While the walk goes on the limit has not been reached. *)
Definition going_ok (own : string) (pages : list string) : Prop := (length pages < MAX_URLS)%nat ∧ pages_ok own pages.

(** A step keeps the pages bounded and of the own site, and comes closer to the end. *)
Definition step_ok (own : string) (bound : nat) (r : option (Walk + list string)) : Prop :=
  match r with
  | None => True
  | Some (inr pages) => pages_ok own pages
  | Some (inl w') => going_ok own (w_pages w') ∧ (walk_measure w' < bound)%nat
  end.

Lemma take_pages_ok own urls pages r :
  going_ok own pages → take_pages own urls pages = Some r →
  if r.2 then pages_ok own r.1 else going_ok own r.1.
Proof.
  revert pages. induction urls as [|u urls IH]; intros pages Hp E; cbn [take_pages] in E; [by injection E as <-|].
  destruct (same_site u own) as [b|] eqn:Es; [|done]. cbn [mbind option_bind] in E.
  assert (pages_ok own (if b then pages ++ [u] else pages)) as Hnew.
  { destruct Hp as [Hlt [Hle Hf]]. destruct b; [|done]. split; [rewrite length_app; cbn; lia|].
    apply Forall_app. split; [done|]. by apply Forall_singleton. }
  destruct (Nat.leb_spec MAX_URLS (length (if b then pages ++ [u] else pages))) as [|Hlt].
  - by injection E as <-.
  - apply IH in E; [done|]. by split.
Qed.

Lemma read_doc_ok own text depth w :
  going_ok own (w_pages w) → step_ok own (walk_measure w + 4) (read_doc extract_urls own text depth w).
Proof.
  intros Hp. unfold read_doc. destruct (extract_urls text) as [[urls []]|]; [| |done]; cbn [mbind option_bind].
  - break; [split; [done|lia]|]. destruct (own_urls own urls) as [mine|]; [|done]. cbn.
    destruct (order_children mine) as [children|]; [|done]. cbn. split; [done|].
    unfold walk_measure. cbn. rewrite length_app, length_map, length_take. unfold MAX_CHILDREN. lia.
  - destruct (take_pages own urls (w_pages w)) as [r|] eqn:E; [|done]. cbn.
    apply take_pages_ok in E; [|done]. destruct r.2; [done|]. split; [done|]. unfold walk_measure. cbn. lia.
Qed.

Lemma walk_step_ok own w :
  going_ok own (w_pages w) → step_ok own (walk_measure w) (walk_step extract_urls fetch own w).
Proof.
  intros Hp. unfold walk_step. destruct (w_texts w) as [|[text depth] texts] eqn:Et.
  - destruct (w_queue w) as [|[url depth] queue] eqn:Eq; [apply Hp|].
    destruct (w_budget w) as [|budget] eqn:Eb; [apply Hp|].
    assert (walk_measure w = 5 + length queue + 4 * budget)%nat as Hm.
    { unfold walk_measure. rewrite Et, Eq, Eb. cbn. lia. }
    destruct (if mem url (w_seen w) then Some false else same_site url own) as [b|]; [|done]. cbn [mbind option_bind].
    destruct b; cbn [negb]; [|split; [done|rewrite Hm; unfold walk_measure; cbn [w_texts w_queue w_budget length]; lia]].
    destruct (nonempty (fetch url)); [|split; [done|rewrite Hm; unfold walk_measure; cbn [w_texts w_queue w_budget length]; lia]].
    pose proof (read_doc_ok own (fetch url) depth (mkWalk [] queue (url :: w_seen w) budget (w_pages w)) Hp) as Hr.
    replace (walk_measure w) with (S (walk_measure (mkWalk [] queue (url :: w_seen w) budget (w_pages w)) + 4));
      [|rewrite Hm; unfold walk_measure; cbn [w_texts w_queue w_budget length]; lia].
    unfold step_ok in *. destruct (read_doc _ _ _ _ _) as [[w'|]|]; [|done|done]. destruct Hr. split; [done|lia].
  - pose proof (read_doc_ok own text depth (mkWalk texts (w_queue w) (w_seen w) (w_budget w) (w_pages w)) Hp) as Hr.
    replace (walk_measure w) with (walk_measure (mkWalk texts (w_queue w) (w_seen w) (w_budget w) (w_pages w)) + 4)%nat;
      [done|]. unfold walk_measure. rewrite Et. cbn. lia.
Qed.

Lemma walk_ok own fuel w :
  going_ok own (w_pages w) → (walk_measure w < fuel)%nat →
  match walk extract_urls fetch fuel own w with
  | WalkPages pages => pages_ok own pages
  | WalkRaised => True
  | WalkOutOfFuel => False
  end.
Proof.
  revert w. induction fuel as [|fuel IH]; intros w Hp Hm; [lia|]. cbn [walk].
  pose proof (walk_step_ok own w Hp) as Hs. destruct (walk_step _ _ _ _) as [[w'|pages]|]; [|done|done].
  destruct Hs as [H1 H2]. apply IH; [done|lia].
Qed.
End walk_props.

(** C25: the sitemap walk ends and stays on the site.  Whatever the documents say and however
    sitemap indexes refer to each other, the walk finishes within its bound, returns at most
    [MAX_URLS] pages, every one of the site's own domain, unless a malformed URL raises. *)
Theorem sitemap_walk_bounded `{Tld} `{IpLiteral} (extract_urls : string → option (list string * bool))
    (fetch : string → string) (own : string) (seed_texts seed_urls : list string) :
  match collect_sitemap_urls extract_urls fetch own seed_texts seed_urls with
  | WalkPages pages => (length pages ≤ MAX_URLS)%nat ∧ Forall (λ u, same_site u own = Some true) pages
  | WalkRaised => True
  | WalkOutOfFuel => False
  end.
Proof.
  unfold collect_sitemap_urls. apply walk_ok; [|unfold walk_fuel, walk_measure; lia].
  unfold going_ok, pages_ok. cbn [w_pages length]. unfold MAX_URLS. split; [lia|]. split; [lia|constructor].
Qed.

(** A malformed URL in a sitemap, or a malformed port in a link that looks like a contact
    page, raises out of discovery. *)
Example malformed_sitemap_url_raises :
  collect_sitemap_urls (λ _, Some (["https://acme.com/contact"; "http://[acme.com/about"], false)) (λ _, "") "acme.com"
    ["<urlset>"] [] = WalkRaised.
Proof. vm_compute. reflexivity. Qed.

Example malformed_port_raises :
  score_url "https://acme.com:https/contact" "" = None ∧
  (∃ s, score_url "https://acme.com/contact" "" = Some (Some s) ∧ su_score s = 100%Z).
Proof. split; [vm_compute; reflexivity|]. eexists. split; vm_compute; reflexivity. Qed.
