(* ===== verification/HtmlScan.v ===== *)
(** * Scanning HTML for blocks ([src/app/pipeline/htmlscan.py]) *)

From Stdlib Require Import ZArith NArith Ascii String Lia.
From stdpp Require Import base strings option list.
From S2P Require Import Prelude PyStr Regex Emails.

Record Block := mkBlock {
  b_start : nat;
  b_body_start : nat;
  b_body_end : nat;
  b_end : nat;
  b_attrs : string
}.

Definition TAG_NAME_END : string := " />" +:+ String "009" (String "013" (String "010" "")).

(** [html\[after\] not in " \t\r\n/>"], for an index inside the document. *)
Definition bad_after (html : string) (after : nat) : bool :=
  match head_char (str_drop after html) with
  | Some c => negb (in_set TAG_NAME_END c)
  | None => false
  end.

(** The scan from [pos].  The position grows with each pass, so the length of the document
    bounds the passes. *)
Fixpoint scan (fuel : nat) (html low open_needle close_needle : string) (pos : nat) : list Block :=
  match fuel with
  | O => []
  | S f =>
      match find_from low open_needle pos with
      | None => []
      | Some start =>
          let after := (start + String.length open_needle)%nat in
          if bad_after html after then scan f html low open_needle close_needle after
          else
            match find_from html ">" after with
            | None => []
            | Some gt =>
                let body_start := S gt in
                let n := String.length html in
                match find_from low close_needle body_start with
                | None => [mkBlock start body_start n n (slice after gt html)]
                | Some close =>
                    let stop := match find_from html ">" (close + String.length close_needle) with
                                | None => n
                                | Some close_gt => S close_gt
                                end in
                    mkBlock start body_start close stop (slice after gt html)
                    :: scan f html low open_needle close_needle stop
                end
            end
      end
  end.

Definition iter_blocks (html tag : string) : list Block :=
  scan (S (String.length html)) html (lower html) ("<" +:+ tag) ("</" +:+ tag) 0.

(** The parts kept, from [last] on. *)
Fixpoint strip_from (html : string) (keep_block : Block → string → bool) (last : nat) (blocks : list Block) : string :=
  match blocks with
  | [] => slice last (String.length html) html
  | b :: rest =>
      slice last (b_start b) html
      +:+ (if keep_block b (slice (b_body_start b) (b_body_end b) html) then slice (b_start b) (b_end b) html else " ")
      +:+ strip_from html keep_block (b_end b) rest
  end.

Definition strip_blocks (html tag : string) (keep_block : Block → string → bool) : string :=
  strip_from html keep_block 0 (iter_blocks html tag).

Definition keep_nothing : Block → string → bool := λ _ _, false.

Definition bodies (html tag : string) : list string :=
  map (λ b, slice (b_body_start b) (b_body_end b) html) (iter_blocks html tag).

(** [@\[a-z0-9-\]+\.\[a-z\]{2,}] *)
Definition EMAILISH : re :=
  seqs [lit "@"; plus (Chr is_host_char); lit "."; rep 2 (Chr is_az); Star (Chr is_az)].

Definition looks_emailish (body : string) : bool := has_char "@" body && re_search EMAILISH body.

(** ** Where a search finds something *)

Lemma find_at_bounds x s i j : find_at x s i = Some j → (i ≤ j)%nat ∧ (j + String.length x ≤ i + String.length s)%nat.
Proof.
  revert i. induction s as [|c s IH]; intros i; cbn [find_at].
  - destruct (String.prefix x "") eqn:E; [|done]. intros [= <-]. destruct x; [cbn; lia|done].
  - destruct (String.prefix x (String c s)) eqn:E.
    + intros [= <-]. apply prefix_spec in E as [t E]. split; [lia|].
      assert (String.length (String c s) = String.length x + String.length t)%nat; [|cbn in *; lia].
      rewrite E. clear. induction x as [|a x IHx]; cbn; [done|]. by rewrite IHx.
    + intros H%IH. cbn [String.length]. lia.
Qed.

Lemma length_str_drop n s : String.length (str_drop n s) = (String.length s - n)%nat.
Proof. revert s. induction n as [|n IH]; intros [|c s]; cbn; try lia. apply IH. Qed.

Lemma find_from_bounds s x start j :
  find_from s x start = Some j → (start ≤ j)%nat ∧ (j + String.length x ≤ String.length s)%nat.
Proof.
  unfold find_from. destruct (Nat.leb_spec start (String.length s)); [|done].
  intros [H1 H2]%find_at_bounds. rewrite length_str_drop in H2. lia.
Qed.

(** ** The blocks are well formed *)

(** From [pos] on, in order, disjoint, inside a document of [n] characters. *)
Fixpoint blocks_ok (n pos : nat) (blocks : list Block) : Prop :=
  match blocks with
  | [] => True
  | b :: rest =>
      (pos ≤ b_start b < b_body_start b)%nat ∧ (b_body_start b ≤ b_body_end b ≤ b_end b)%nat ∧ (b_end b ≤ n)%nat ∧
      blocks_ok n (b_end b) rest
  end.

Lemma blocks_ok_mono n pos pos' blocks : (pos' ≤ pos)%nat → blocks_ok n pos blocks → blocks_ok n pos' blocks.
Proof. destruct blocks; cbn; [done|]. intros ? (? & ? & ? & ?). split_and!; try done; lia. Qed.

Lemma scan_ok fuel html on cn pos :
  on ≠ "" → (pos ≤ String.length html)%nat →
  blocks_ok (String.length html) pos (scan fuel html (lower html) on cn pos).
Proof.
  intros Hon. revert pos. induction fuel as [|f IH]; intros pos Hp; cbn [scan]; [done|].
  destruct (find_from (lower html) on pos) as [start|] eqn:E1; [|done].
  apply find_from_bounds in E1 as [H1 H2]. rewrite length_lower in H2. cbn zeta.
  break; [eapply blocks_ok_mono; [|apply IH]; lia|].
  destruct (find_from html ">" _) as [gt|] eqn:E2; [|done]. apply find_from_bounds in E2 as [H3 H4]. cbn in H4.
  assert (0 < String.length on)%nat by (destruct on; [done|cbn; lia]).
  destruct (find_from (lower html) cn (S gt)) as [close|] eqn:E3; [|cbn; lia].
  apply find_from_bounds in E3 as [H5 H6]. rewrite length_lower in H6.
  destruct (find_from html ">" (close + _)) as [cg|] eqn:E4; cbn.
  - apply find_from_bounds in E4 as [H7 H8]. cbn in H8. split_and!; try lia. apply IH. lia.
  - split_and!; try lia. apply IH. lia.
Qed.

(** More passes than the rest of the document is long change nothing. *)
Lemma scan_fuel f1 f2 html on cn pos :
  on ≠ "" → (String.length html - pos < f1)%nat → (String.length html - pos < f2)%nat →
  scan f1 html (lower html) on cn pos = scan f2 html (lower html) on cn pos.
Proof.
  intros Hon. assert (0 < String.length on)%nat as Hlen by (destruct on; [done|cbn; lia]).
  revert f2 pos. induction f1 as [|f1 IH]; intros f2 pos H1 H2; [lia|]. destruct f2 as [|f2]; [lia|]. cbn [scan].
  destruct (find_from (lower html) on pos) as [start|] eqn:E1; [|done].
  apply find_from_bounds in E1 as [B1 B2]. rewrite length_lower in B2. cbn zeta.
  break; [apply IH; lia|]. destruct (find_from html ">" _) as [gt|] eqn:E2; [|done].
  apply find_from_bounds in E2 as [B3 B4]. cbn in B4.
  destruct (find_from (lower html) cn (S gt)) as [close|] eqn:E3; [|done]. f_equal.
  apply find_from_bounds in E3 as [B5 B6]. rewrite length_lower in B6.
  destruct (find_from html ">" (close + _)) as [cg|] eqn:E4; [apply find_from_bounds in E4 as [B7 B8]|]; apply IH; lia.
Qed.

Lemma str_take_drop n s : str_take n s +:+ str_drop n s = s.
Proof. revert s. induction n as [|n IH]; intros [|c s]; cbn; try done. by rewrite IH. Qed.

Lemma str_take_app_split a b s : str_take a s +:+ str_take b (str_drop a s) = str_take (a + b) s.
Proof. revert s. induction a as [|a IH]; intros [|c s]; cbn; try done; solve [by destruct b | by rewrite IH]. Qed.

Lemma str_drop_drop a b s : str_drop b (str_drop a s) = str_drop (a + b) s.
Proof. revert s. induction a as [|a IH]; intros [|c s]; cbn; try done; solve [by destruct b | apply IH]. Qed.

Lemma slice_app a b c s : (a ≤ b)%nat → (b ≤ c)%nat → slice a b s +:+ slice b c s = slice a c s.
Proof.
  intros H1 H2. unfold slice. replace (c - a)%nat with ((b - a) + (c - b))%nat by lia.
  rewrite <- str_take_app_split, str_drop_drop. by replace (a + (b - a))%nat with b by lia.
Qed.

Lemma length_str_take n s : (String.length (str_take n s) ≤ n)%nat.
Proof. revert n. induction s as [|c s IH]; intros [|n]; cbn; try lia. specialize (IH n). lia. Qed.

Lemma str_take_all n s : (String.length s ≤ n)%nat → str_take n s = s.
Proof. revert s. induction n as [|n IH]; intros [|c s] H; cbn in *; try done; [lia|]. by rewrite IH by lia. Qed.

Lemma slice_all s : slice 0 (String.length s) s = s.
Proof. unfold slice. rewrite Nat.sub_0_r. by apply str_take_all. Qed.

Lemma strip_from_all html last blocks :
  (last ≤ String.length html)%nat → blocks_ok (String.length html) last blocks →
  strip_from html (λ _ _, true) last blocks = slice last (String.length html) html.
Proof.
  revert last. induction blocks as [|b blocks IH]; intros last Hl; cbn [strip_from blocks_ok]; [done|].
  intros (H1 & H2 & H3 & H4). rewrite IH by done.
  rewrite <- app_assoc_str, !slice_app by lia. done.
Qed.

(** The block scanner reads the document once and loses nothing.  For every tag, the
    blocks it reports are in order, disjoint and inside the document, with the body between
    its tags; giving the scan more passes than the document has characters finds the same
    blocks, so it always ends on its own; and the text between and inside the blocks put
    back together is the document. *)
Theorem iter_blocks_partition (html tag : string) :
  blocks_ok (String.length html) 0 (iter_blocks html tag) ∧
  (∀ extra, scan (S (String.length html) + extra) html (lower html) ("<" +:+ tag) ("</" +:+ tag) 0 = iter_blocks html tag) ∧
  strip_blocks html tag (λ _ _, true) = html.
Proof.
  assert (blocks_ok (String.length html) 0 (iter_blocks html tag)) as Hok by (apply scan_ok; [done|lia]).
  split_and!; [done| |].
  - intros extra. apply scan_fuel; [done|lia|lia].
  - unfold strip_blocks. rewrite strip_from_all by (try done; lia). apply slice_all.
Qed.
