(* ===== verification/Fetch.v ===== *)
(** * The fetch layer ([src/app/pipeline/fetch.py])

    How answers are classified, what counts against a provider, the retry loop and the
    hand-followed redirects.  The HTTP client, the name resolution of the address guard and
    the charset decoding are arguments; the byte cap is a setting. *)

From Stdlib Require Import ZArith QArith NArith Ascii String Lia.
From stdpp Require Import base strings option sets list.
From S2P Require Import Prelude PyStr RateLimit Regex Url UrlJoin Emails HtmlScan.

(** ** Errors *)

Inductive ErrorClass := TRANSIENT | PERMANENT | BLOCKED | PROVIDER_ACCOUNT | BUG.
#[export] Instance ErrorClass_eq_dec : EqDecision ErrorClass.
Proof. solve_decision. Defined.

Record FetchError := mkFetchError {
  error_class : ErrorClass;
  fe_reason : string;
  fe_detail : string;
  fe_status : option Z;
  fe_retry_after : option Q;
  fe_provider : bool
}.

Definition retryable (e : FetchError) : bool := bool_decide (error_class e = TRANSIENT).

Record FetchResult := mkFetchResult {
  fr_url : string;
  fr_final_url : string;
  fr_status : Z;
  fr_html : string;
  fr_bytes : nat;
  fr_jina_tokens : option Z
}.

(** ** Classifying statuses *)

Definition BLOCK_TEXT_MARKERS : list string := ["just a moment"; "attention required"; "captcha"; "access denied"].
Definition BLOCK_MARKUP_MARKERS : list string := ["cf-chl"].

(** [<\[^>\]*>] *)
Definition TAG_RE : re := seqs [lit "<"; Star (Chr (λ c, negb (Ascii.eqb c ">"))); lit ">"].

Definition quote_char (c : ascii) : bool := Ascii.eqb c "'" || Ascii.eqb c "034"%char.
Definition JSONLD_RE : re :=
  seqs [lit_ci "type"; Star (Chr is_space); lit "="; Star (Chr is_space); opt (Chr quote_char);
        lit_ci "application/ld+json"].

Definition keep_script (b : Block) (body : string) : bool := re_search JSONLD_RE (b_attrs b) || looks_emailish body.

Definition strip_non_jsonld_scripts (html : string) : string :=
  strip_blocks (strip_blocks (strip_blocks html "script" keep_script) "style" keep_nothing) "svg" keep_nothing.

Definition looks_blocked (status : Z) (html : string) : bool :=
  let head := str_take 8000 html in
  let low := lower head in
  if any (contains low) BLOCK_MARKUP_MARKERS then true
  else
    let shown := lower (re_sub TAG_RE " " (strip_blocks (strip_blocks head "script" keep_nothing) "style" keep_nothing)) in
    if any (contains shown) BLOCK_TEXT_MARKERS then true else (status =? 403)%Z.

Definition is_2xx (status : Z) : bool := (200 <=? status)%Z && (status <? 300)%Z.
Definition is_5xx (status : Z) : bool := (500 <=? status)%Z && (status <=? 599)%Z.

Definition classify_site_status (status : Z) (html : string) : option ErrorClass :=
  if is_2xx status then None
  else if mem status [403; 503]%Z && looks_blocked status html then Some BLOCKED
  else if (status =? 429)%Z || is_5xx status then Some TRANSIENT
  else if (status =? 403)%Z then Some BLOCKED
  else Some PERMANENT.

Definition classify_provider_status (status : Z) : option ErrorClass :=
  if is_2xx status then None
  else if mem status [401; 402]%Z then Some PROVIDER_ACCOUNT
  else if (status =? 403)%Z then Some BLOCKED
  else if (status =? 409)%Z then Some PERMANENT
  else if (status =? 422)%Z then Some PERMANENT
  else if (status =? 429)%Z || is_5xx status then Some TRANSIENT
  else Some PERMANENT.

(** ** Exceptions of the HTTP client *)

Inductive Thrown :=
  | TooManyRedirects
  | ConnectError (message : string)
  | ConnectTimeout
  | PoolTimeout
  | OtherHttpError (name : string)      (* ReadTimeout, ReadError, ... *)
  | NotHttp (text : string).            (* anything else, as "name: message" *)

Definition provider_health (x : Thrown) : bool :=
  match x with ConnectError _ | ConnectTimeout | PoolTimeout => true | _ => false end.

Definition thrown_name (x : Thrown) : string :=
  match x with
  | TooManyRedirects => "TooManyRedirects" | ConnectError _ => "ConnectError"
  | ConnectTimeout => "ConnectTimeout" | PoolTimeout => "PoolTimeout"
  | OtherHttpError n | NotHttp n => n
  end.

Definition transient_error (x : Thrown) (provider : bool) : FetchError :=
  mkFetchError TRANSIENT "homepage" (thrown_name x) None None (provider && provider_health x).

Definition exc_to_fetch_error (x : Thrown) (provider : bool) : FetchError :=
  match x with
  | TooManyRedirects => mkFetchError PERMANENT "redirect_loop" "TooManyRedirects" None None false
  | ConnectError msg =>
      if contains (lower msg) "certificate"
      then mkFetchError PERMANENT "ssl_error" (str_take 120 msg) None None false
      else transient_error x provider
  | NotHttp n => mkFetchError BUG "internal_error" (str_take 200 n) None None false
  | _ => transient_error x provider
  end.

(** ** The retry loop *)

(** One attempt: what [async with slot: fn()] does. *)
Inductive Attempt :=
  | Succeeded (r : FetchResult)
  | Refused                              (* CircuitOpen *)
  | Failed (e : FetchError)
  | Threw (x : Thrown).

Inductive Final := FinalResult (r : FetchResult) | FinalRefused | FinalError (e : FetchError).

Definition RETRY_DELAYS : list Q := [1%Q; 3%Q].

(** What the loop leaves behind: the outcomes reported to the breaker (only when the
    fetcher is backed by a provider) and the sleeps, in order. *)
Record Trace := mkTrace { tr_records : list (bool * string); tr_sleeps : list Q }.

Definition detail_or_reason (e : FetchError) : string := if nonempty (fe_detail e) then fe_detail e else fe_reason e.

(** [e.retry_after or jittered(delay)]: a zero wait counts as none. *)
Definition wait_after (e : FetchError) (delay random : Q) : Q :=
  match fe_retry_after e with
  | Some s => if Qeq_bool s 0 then (delay * (1 + random * (1 # 2)))%Q else s
  | None => (delay * (1 + random * (1 # 2)))%Q
  end.

(** [outcome i] is attempt [i]; [delays] are those still available. *)
Fixpoint retry_loop (provider_backed : bool) (outcome : nat → Attempt) (random : nat → Q) (i : nat)
    (delays : list Q) (t : Trace) : Final * Trace :=
  let note ok why := mkTrace (if provider_backed then tr_records t ++ [(ok, why)] else tr_records t) (tr_sleeps t) in
  match outcome i with
  | Succeeded r => (FinalResult r, note true "")
  | Refused => (FinalRefused, t)
  | Failed e =>
      let t1 := note (negb (fe_provider e)) (detail_or_reason e) in
      match delays with
      | d :: rest =>
          if retryable e
          then retry_loop provider_backed outcome random (S i) rest
                 (mkTrace (tr_records t1) (tr_sleeps t1 ++ [wait_after e d (random i)]))
          else (FinalError e, t1)
      | [] => (FinalError e, t1)
      end
  | Threw x =>
      let e := exc_to_fetch_error x provider_backed in
      let t1 := note (negb (fe_provider e)) (detail_or_reason e) in
      match delays with
      | d :: rest =>
          if retryable e
          then retry_loop provider_backed outcome random (S i) rest
                 (mkTrace (tr_records t1) (tr_sleeps t1 ++ [(d * (1 + random i * (1 # 2)))%Q]))
          else (FinalError e, t1)
      | [] => (FinalError e, t1)
      end
  end.

Definition attempt_with_retries (provider_backed : bool) (outcome : nat → Attempt) (random : nat → Q)
    : Final * Trace :=
  retry_loop provider_backed outcome random 0 RETRY_DELAYS (mkTrace [] []).

(** ** Redirects, guarded hop by hop *)

Definition MAX_REDIRECTS : nat := 5.
Definition REDIRECT_STATUSES : list Z := [301; 302; 303; 307; 308]%Z.

Record Response := mkResponse {
  rs_status : Z;
  rs_location : option string;
  rs_content_type : string;
  rs_chunks : list string
}.

(** What the address guard says: the URL may be requested, or it raises. *)
Inductive Guard := Allowed | PrivateAddress | GuardRaises.

(** How the lookup of a host ends; a name that cannot be encoded is a ValueError. *)
Inductive Resolution := PublicAddresses | PrivateHost | OSErr | ValueErr.

Section guard.
Context `{IpLiteral}.

Definition guard_url (guard_on : bool) (resolve_public : string → Z → Resolution) (url : string) : Guard :=
  if negb guard_on then Allowed
  else
    match urlsplit url with
    | None => GuardRaises
    | Some parts =>
        let host := hostname parts in
        if negb (nonempty host) then Allowed
        else
          match port parts with
          | None => Allowed
          | Some p =>
              let p := match p with
                       | Some n => if (n =? 0)%Z then (if String.eqb (u_scheme parts) "https" then 443 else 80)%Z else n
                       | None => (if String.eqb (u_scheme parts) "https" then 443 else 80)%Z
                       end in
              match resolve_public host p with
              | PublicAddresses => Allowed
              | PrivateHost => PrivateAddress
              | OSErr => Allowed
              | ValueErr => GuardRaises
              end
          end
    end.
End guard.

(** The body up to the byte cap: reading stops with the chunk that reaches it. *)
Fixpoint read_chunks (cap total : nat) (chunks : list string) : string :=
  match chunks with
  | [] => ""
  | c :: rest =>
      let total' := (total + String.length c)%nat in
      if (cap <=? total')%nat then c else c +:+ read_chunks cap total' rest
  end.

Definition read_body (cap : nat) (chunks : list string) : string := str_take cap (read_chunks cap 0 chunks).

Inductive Got :=
  | GotBody (r : Response) (final_url body : string)
  | GotPrivate (url : string)
  | GotValueError                       (* a URL [urlsplit] or [urljoin] refuses *)
  | GotThrown (x : Thrown)              (* the client raised *)
  | GotTooManyRedirects.

(** The hops left; the URLs requested so far with the numbers of their hops, latest first.
    Each hop has its own lookup by the guard and its own answer. *)
Fixpoint raw_get `{IpLiteral} (guard : nat → string → Guard) (stream : nat → string → Response + Thrown) (cap : nat)
    (hops : nat) (url : string) (requested : list (nat * string)) : Got * list (nat * string) :=
  match hops with
  | O => (GotTooManyRedirects, requested)
  | S h =>
      let hop := length requested in
      match guard hop url with
      | PrivateAddress => (GotPrivate url, requested)
      | GuardRaises => (GotValueError, requested)
      | Allowed =>
          match stream hop url with
          | inr x => (GotThrown x, (hop, url) :: requested)
          | inl r =>
              let location := default "" (rs_location r) in
              if mem (rs_status r) REDIRECT_STATUSES && nonempty location
              then match urljoin url location with
                   | Some next => raw_get guard stream cap h next ((hop, url) :: requested)
                   | None => (GotValueError, (hop, url) :: requested)
                   end
              else (GotBody r url (read_body cap (rs_chunks r)), (hop, url) :: requested)
          end
      end
  end.

(** ** What the two backends make of an answer *)

Definition site_error (cls : ErrorClass) (prefix : string) (status : string) (code : Z) : FetchError :=
  mkFetchError cls (if bool_decide (cls = BLOCKED) then "blocked" else "homepage") (prefix +:+ status) (Some code) None false.

(** [HttpxFetcher.get_html], from the answer and its decoded body. *)
Definition httpx_html (url final_url : string) (r : Response) (raw_len : nat) (show : Z → string) (body : string)
    : FetchResult + FetchError :=
  match classify_site_status (rs_status r) body with
  | Some cls => inr (site_error cls "HTTP " (show (rs_status r)) (rs_status r))
  | None =>
      let ctype := lower (rs_content_type r) in
      if nonempty ctype && negb (contains ctype "html") && negb (contains ctype "xml")
      then inr (mkFetchError PERMANENT "not_html" (rs_content_type r) (Some (rs_status r)) None false)
      else if looks_blocked (rs_status r) body
      then inr (mkFetchError BLOCKED "blocked" "challenge page" (Some (rs_status r)) None false)
      else inl (mkFetchResult url final_url (rs_status r) (strip_non_jsonld_scripts body) raw_len None)
  end.

(** [JinaFetcher.get_html]'s reason for a refusal of the reader service. *)
Definition account_or_blocked (cls : ErrorClass) (status : Z) : string :=
  match cls with
  | PROVIDER_ACCOUNT => "jina_account"
  | BLOCKED => "blocked"
  | PERMANENT => if (status =? 409)%Z then "page_too_large" else if (status =? 422)%Z then "not_html" else "homepage"
  | _ => "homepage"
  end.

(** * What the fetch layer promises ([src/app/pipeline/fetch.py]) *)

(** ** Retries *)

(** The error of an attempt, if it ended in one. *)
Definition error_of (provider_backed : bool) (a : Attempt) : option FetchError :=
  match a with
  | Failed e => Some e
  | Threw x => Some (exc_to_fetch_error x provider_backed)
  | Succeeded _ | Refused => None
  end.

(** What an attempt tells the breaker. *)
Definition record_of (provider_backed : bool) (a : Attempt) : list (bool * string) :=
  if negb provider_backed then []
  else match a with
       | Succeeded _ => [(true, "")]
       | Refused => []
       | _ => match error_of provider_backed a with
              | Some e => [(negb (fe_provider e), detail_or_reason e)]
              | None => []
              end
       end.

Definition transient (provider_backed : bool) (a : Attempt) : Prop :=
  ∃ e, error_of provider_backed a = Some e ∧ error_class e = TRANSIENT.

Definition final_of (provider_backed : bool) (a : Attempt) : Final :=
  match a with
  | Succeeded r => FinalResult r
  | Refused => FinalRefused
  | Failed e => FinalError e
  | Threw x => FinalError (exc_to_fetch_error x provider_backed)
  end.

(** The loop from attempt [i] with [n] delays left, having left the trace [t]: it stops at
    attempt [i + k], the first that is not a transient failure or the last allowed. *)
Definition loop_spec (pb : bool) (outcome : nat → Attempt) (i n : nat) (t : Trace) (final : Final) (t' : Trace) : Prop :=
  ∃ k, (k ≤ n)%nat ∧ (∀ j, (j < k)%nat → transient pb (outcome (i + j)%nat)) ∧
    final = final_of pb (outcome (i + k)%nat) ∧
    ((k < n)%nat → ¬ transient pb (outcome (i + k)%nat)) ∧
    tr_records t' = tr_records t ++ concat (map (λ j, record_of pb (outcome (i + j)%nat)) (seq 0 (S k))) ∧
    length (tr_sleeps t') = (length (tr_sleeps t) + k)%nat.

(** Stopping at this attempt. *)
Lemma loop_stops pb outcome i n t :
  (n = 0%nat ∨ ¬ transient pb (outcome i)) →
  loop_spec pb outcome i n t (final_of pb (outcome i)) (mkTrace (tr_records t ++ record_of pb (outcome i)) (tr_sleeps t)).
Proof.
  intros Hn. exists 0%nat. rewrite Nat.add_0_r. split_and!; [lia|lia|done| | |cbn; lia].
  - intros Hlt. destruct Hn; [lia|done].
  - cbn. by rewrite Nat.add_0_r, app_nil_r.
Qed.

(** Going on after a transient failure. *)
Lemma loop_goes_on pb outcome i n t s final t' :
  transient pb (outcome i) →
  loop_spec pb outcome (S i) n (mkTrace (tr_records t ++ record_of pb (outcome i)) (tr_sleeps t ++ [s])) final t' →
  loop_spec pb outcome i (S n) t final t'.
Proof.
  intros Ht (k & H1 & H2 & H3 & H4 & H5 & H6). exists (S k).
  assert (∀ j, (i + S j = S i + j)%nat) as Hs by lia. split_and!; [lia| | | | |].
  - intros [|j] Hj; [by rewrite Nat.add_0_r|]. rewrite Hs. apply H2. lia.
  - by rewrite Hs.
  - intros Hk. rewrite Hs. apply H4. lia.
  - rewrite H5. cbn [tr_records]. change (seq 0 (S (S k))) with (0%nat :: seq 1 (S k)).
    rewrite <- seq_shift, map_cons, map_map. cbn [concat]. rewrite Nat.add_0_r, <- app_assoc.
    do 2 f_equal. f_equal. apply map_ext. intros j. by rewrite Hs.
  - rewrite H6. cbn. rewrite length_app. cbn. lia.
Qed.

Lemma record_of_error pb a e :
  error_of pb a = Some e → record_of pb a = if pb then [(negb (fe_provider e), detail_or_reason e)] else [].
Proof. intros He. unfold record_of. destruct pb; [|done]. cbn. rewrite He. by destruct a. Qed.

Lemma retryable_transient pb a e : error_of pb a = Some e → retryable e = true ↔ transient pb a.
Proof.
  intros He. unfold retryable. rewrite bool_decide_eq_true. split; [intros; by exists e|].
  intros (e' & He' & Hc). congruence.
Qed.

Lemma note_record (pb : bool) (l : list (bool * string)) x : (if pb then l ++ [x] else l) = l ++ (if pb then [x] else []).
Proof. destruct pb; [done|]. by rewrite app_nil_r. Qed.

Lemma retry_loop_spec pb outcome random i delays t :
  loop_spec pb outcome i (length delays) t (retry_loop pb outcome random i delays t).1
    (retry_loop pb outcome random i delays t).2.
Proof.
  revert i t. induction delays as [|d delays IH]; intros i t; cbn [retry_loop length].
  - pose proof (loop_stops pb outcome i 0 t (or_introl eq_refl)) as Hs. unfold record_of, final_of in Hs.
    destruct (outcome i) as [r| |e|x] eqn:Eo; cbn in *; rewrite ?note_record; destruct pb, t; cbn in *; rewrite ?app_nil_r in *; done.
  - pose proof (loop_stops pb outcome i (S (length delays)) t) as Hs.
    destruct (error_of pb (outcome i)) as [e|] eqn:He.
    + pose proof (record_of_error pb _ e He) as Hr. pose proof (retryable_transient pb _ e He) as Ht.
      rewrite Hr in Hs. destruct (outcome i) as [r| |e0|x] eqn:Eo; try discriminate; cbn [error_of final_of] in He, Hs; injection He as He; rewrite He in *;
        cbn [tr_records tr_sleeps]; rewrite note_record;
        (destruct (retryable e) eqn:Er; [|apply Hs; right; rewrite <- Ht; done]).
      all: eapply loop_goes_on; [rewrite Eo; by apply Ht|]; rewrite Eo, Hr; apply IH.
    + assert (¬ transient pb (outcome i)) as Hn by (intros (e & He' & _); congruence).
      specialize (Hs (or_intror Hn)). unfold record_of, final_of in Hs.
      destruct (outcome i) as [r| |e|x] eqn:Eo; try discriminate; destruct pb, t; cbn in *; rewrite ?app_nil_r in *; done.
Qed.

(** Only transient failures are retried, and the breaker hears of every attempt once.
    A fetch makes at most three attempts, goes on after an attempt exactly when it failed
    transiently and attempts remain, ends as its last attempt did, and sleeps once between
    attempts.  A provider-backed fetcher reports each attempt to the breaker exactly once
    (a refusal apart), as a failure only when the error blames the provider; a direct one
    reports nothing. *)
Theorem retries_only_transient (provider_backed : bool) (outcome : nat → Attempt) (random : nat → Q) :
  let '(final, t) := attempt_with_retries provider_backed outcome random in
  ∃ k, (k ≤ 2)%nat ∧ (∀ j, (j < k)%nat → transient provider_backed (outcome j)) ∧
    ((k < 2)%nat → ¬ transient provider_backed (outcome k)) ∧
    final = final_of provider_backed (outcome k) ∧
    tr_records t = concat (map (λ j, record_of provider_backed (outcome j)) (seq 0 (S k))) ∧
    length (tr_sleeps t) = k.
Proof.
  pose proof (retry_loop_spec provider_backed outcome random 0 RETRY_DELAYS (mkTrace [] [])) as H.
  unfold attempt_with_retries. destruct (retry_loop _ _ _ _ _ _) as [final t].
  destruct H as (k & H1 & H2 & H3 & H4 & H5 & H6). cbn in *. exists k. split_and!; done.
Qed.

(** ** Redirects *)

Lemma read_body_cap cap chunks : (String.length (read_body cap chunks) ≤ cap)%nat.
Proof. apply length_str_take. Qed.

(** Every hop of a redirect chain passes the private-address guard.  Whatever the sites
    answer, the client requests only what the guard allowed at that hop, at most one URL per
    hop; a URL the guard calls private is not requested; and a body that comes back is the
    answer to an allowed request, is no redirect, and is no longer than the byte cap. *)
Lemma raw_get_guarded `{IpLiteral} guard stream cap hops url requested :
  Forall (λ '(h, u), guard h u = Allowed) requested →
  let '(got, requested') := raw_get guard stream cap hops url requested in
  Forall (λ '(h, u), guard h u = Allowed) requested' ∧ (length requested' ≤ length requested + hops)%nat ∧
  match got with
  | GotBody r final body =>
      ∃ h, (h, final) ∈ requested' ∧ stream h final = inl r ∧ (String.length body ≤ cap)%nat ∧
      (mem (rs_status r) REDIRECT_STATUSES = false ∨ default "" (rs_location r) = "")
  | GotPrivate u => guard (length requested') u = PrivateAddress
  | _ => True
  end.
Proof.
  revert url requested. induction hops as [|h IH]; intros url requested Hr; cbn [raw_get].
  { split_and!; [done|lia|done]. }
  set (hop := length requested) in *. destruct (guard hop url) eqn:Eg.
  - assert (Forall (λ '(h, u), guard h u = Allowed) ((hop, url) :: requested)) as Hr' by (by constructor).
    destruct (stream hop url) as [r|x] eqn:Es; [|split_and!; cbn; [done|lia|done]].
    destruct (_ && _) eqn:Em.
    + destruct (urljoin _ _) as [next|]; [|split_and!; cbn; [done|lia|done]].
      specialize (IH next ((hop, url) :: requested) Hr'). destruct (raw_get _ _ _ _ _ _) as [got req'].
      destruct IH as (I1 & I2 & I3). split_and!; try done. cbn in I2. lia.
    + apply andb_false_iff in Em. split_and!; cbn; try done; [lia|]. exists hop.
      split_and!; [set_solver|done|apply read_body_cap|].
      destruct Em as [|Em]; [by left|right]. unfold nonempty in Em. by apply negb_false_iff, String.eqb_eq in Em.
  - split_and!; [done|lia|done].
  - split_and!; [done|lia|done].
Qed.
