(* ===== verification/Errors.v ===== *)
(** * The error envelope ([src/app/errors.py])

    The table of codes, the answer each kind of exception becomes, which exceptions count
    as an outage, and the request id every response carries.  A handler that refuses a
    request raises a code with an optional [retry_after]; the texts meant for people are
    arguments.  Header names are lower case, as the server sends them. *)

From Stdlib Require Import ZArith Ascii String Lia.
From stdpp Require Import base strings pretty option sets list.
From S2P Require Import Prelude PyStr Models Regex.

(** ** Codes *)

Definition ERROR_CODES : list (string * Z) := [
  ("invalid_json", 400); ("acting_user_required", 400); ("invalid_acting_user", 400);
  ("missing_api_key", 401); ("invalid_api_key", 401); ("acting_user_not_allowed", 403);
  ("job_not_found", 404); ("not_found", 404); ("method_not_allowed", 405);
  ("job_not_paused", 409); ("job_not_retryable", 409); ("job_already_finished", 409);
  ("file_too_large", 413); ("too_many_rows", 413); ("too_many_columns", 413);
  ("unsupported_file_type", 415); ("validation_error", 422); ("empty_file", 422);
  ("no_rows", 422); ("no_website_column", 422); ("unknown_column", 422);
  ("invalid_webhook_url", 422); ("invalid_file", 422); ("rate_limited", 429);
  ("job_limit_reached", 429); ("invalid_request", 400); ("forbidden", 403);
  ("acting_user_revoked", 403); ("conflict", 409); ("idempotency_conflict", 409);
  ("internal_error", 500); ("provider_quota_exhausted", 503); ("service_unavailable", 503);
  ("busy", 503); ("invalid_provider_key", 422); ("key_rate_limited", 429);
  ("key_store_unavailable", 503)]%Z.

Definition GENERIC_BY_STATUS : list (Z * string) := [
  (400, "invalid_request"); (401, "invalid_api_key"); (403, "forbidden"); (404, "not_found");
  (405, "method_not_allowed"); (409, "conflict"); (413, "file_too_large");
  (415, "unsupported_file_type"); (422, "validation_error"); (429, "rate_limited");
  (500, "internal_error"); (503, "service_unavailable")]%Z.

Definition generic_code (status : Z) : string :=
  default "error" (snd <$> head (keep (λ p, Z.eqb (fst p) status) GENERIC_BY_STATUS)).

(** What a handler raises. *)
Record Fault := mkFault { f_code : string; f_status : option Z; f_retry_after : option Z }.

Definition fault (code : string) : Fault := mkFault code None None.
Definition fault_after (code : string) (retry_after : Z) : Fault := mkFault code None (Some retry_after).

(** What a handler answers. *)
Inductive Reply (A : Type) := Return (a : A) | Raise (e : Fault).
Arguments Return {A} a.
Arguments Raise {A} e.

Definition reply_bind {A B} (r : Reply A) (k : A → Reply B) : Reply B :=
  match r with Return a => k a | Raise e => Raise e end.

(** ** Exceptions *)

(** The classes the handlers tell apart.  [DBAPIError] stands for SQLAlchemy's class and
    the subclasses not named; [AsyncpgConnection] for asyncpg's four connection errors. *)
Inductive ExcClass :=
  | OperationalError | PoolTimeout | ConnectionError | GaiError | DBAPIError
  | AsyncpgConnection | RedisConnectionError | RedisTimeout | OtherError.

#[export] Instance ExcClass_eq_dec : EqDecision ExcClass.
Proof. solve_decision. Defined.

(** [exc.orig] (of a DBAPIError), [exc.__cause__], [exc.connection_invalidated]. *)
Inductive Exc := mkExc (cls : ExcClass) (orig cause : option Exc) (invalidated : bool).

Definition exc_class (e : Exc) : ExcClass := let 'mkExc c _ _ _ := e in c.
Definition exc_orig (e : Exc) : option Exc := let 'mkExc _ o _ _ := e in o.
Definition exc_cause (e : Exc) : option Exc := let 'mkExc _ _ c _ := e in c.
Definition exc_invalidated (e : Exc) : bool := let 'mkExc _ _ _ i := e in i.

Definition isinstance (e : Exc) (cs : list ExcClass) : bool := mem (exc_class e) cs.

Definition is_connection_error (exc : option Exc) : bool :=
  any (λ e, match e with
            | Some x => isinstance x [AsyncpgConnection; ConnectionError]
            | None => false
            end) [exc; exc ≫= exc_cause].

Definition is_dbapi (e : Exc) : bool := isinstance e [DBAPIError; OperationalError].

Definition is_outage (e : Exc) : bool :=
  if isinstance e [OperationalError; PoolTimeout; ConnectionError; GaiError] then true
  else if is_dbapi e && is_connection_error (exc_orig e) then true
  else if is_connection_error (Some e) then true
  else if is_dbapi e && exc_invalidated e then true
  else isinstance e [RedisConnectionError; RedisTimeout].

(** What escapes a handler. *)
Inductive Raised :=
  | RaisedApi (f : Fault) (message : string) (details : list (string * string))
  | RaisedHttp (status : Z) (detail : option string) (headers : list (string * string))
  | RaisedValidation (errors : list (list string * string))
  | RaisedOther (e : Exc).

(** ** Responses *)

Record Body := mkBody {
  b_code : string;
  b_message : string;
  b_retry_after : option Z;
  b_details : list (string * string);
  b_detail : string;
  b_request_id : option string
}.

Record Response := mkResponse {
  rs_status : Z;
  rs_body : Body;
  rs_headers : list (string * string)
}.

Definition error_body (code message : string) (rid : option string)
    (details : list (string * string)) (retry_after : option Z) : Body := {|
  b_code := code; b_message := message; b_retry_after := retry_after; b_details := details;
  b_detail := message; b_request_id := rid
|}.

(** [_response]: the request id is also sent as a header.  The headers passed in hold no
    other one, so the assignment appends. *)
Definition response (status : Z) (body : Body) (headers : list (string * string)) : Response :=
  mkResponse status body
    (headers ++ match b_request_id body with
                | Some rid => if nonempty rid then [("x-request-id", rid)] else []
                | None => []
                end).

(** [status or ERROR_CODES[code][0]]; [None] is the KeyError of an unlisted code. *)
Definition fault_status (f : Fault) : option Z :=
  match f_status f with
  | Some n => if Z.eqb n 0 then dict_get ERROR_CODES (f_code f) else Some n
  | None => dict_get ERROR_CODES (f_code f)
  end.

(** The status and headers [ApiError.__init__] sets. *)
Definition api_error (f : Fault) : option (Z * list (string * string)) :=
  match fault_status f with
  | None => None
  | Some status =>
      Some (status, match f_retry_after f with
                    | Some n => [("retry-after", pretty n)]
                    | None => []
                    end)
  end.

Definition unexpected (rid : option string) (e : Exc) : Response :=
  if is_outage e
  then response 503 (error_body "service_unavailable"
                       "the database or queue is unreachable; try again" rid [] (Some 10%Z))
                [("retry-after", "10")]
  else response 500 (error_body "internal_error"
                       "unexpected error; quote the request_id when reporting it" rid [] None) [].

(** [s.replace("_", " ")] *)
Definition spaced (s : string) : string :=
  str_map (λ c, if Ascii.eqb c "_" then " "%char else c) s.

(** The location of a validation error without the parts that name the body. *)
Definition field_of (loc : list string) : string := join "." (keep (λ p, negb (String.eqb p "body")) loc).

Definition validation (rid : option string) (errs : list (list string * string)) : Response :=
  let details := map (λ '(loc, msg), (field_of loc, msg)) errs in
  let first := default ("", "invalid request") (head details) in
  let message := if nonempty first.1 then first.1 +:+ ": " +:+ first.2 else first.2 in
  response 422 (error_body "validation_error" message rid details None) [].

(** The handlers [install] registers. *)
Definition answer_exception (rid : option string) (r : Raised) : Response :=
  match r with
  | RaisedApi f message details =>
      match api_error f with
      | Some (status, headers) =>
          response status (error_body (f_code f) message rid details (f_retry_after f)) headers
      | None => unexpected rid (mkExc OtherError None None false)
      end
  | RaisedHttp status detail headers =>
      let code := generic_code status in
      response status (error_body code (default (spaced code) detail) rid [] None) headers
  | RaisedValidation errs => validation rid errs
  | RaisedOther e => unexpected rid e
  end.

(** ** The request id *)

Definition is_request_id_char (c : ascii) : bool :=
  is_lower c || is_upper c || is_digit09 c || in_set "_.:-" c.
Definition REQUEST_ID_OK : re := seqs [Bos; between_times 1 64 (Chr is_request_id_char); Eos].

(** The caller's id when it is well formed, else a new one ([fresh] is the random part). *)
Definition request_id (incoming : option string) (fresh : string) : string :=
  let incoming := default "" incoming in
  if re_match REQUEST_ID_OK incoming then incoming else "req_" +:+ str_take 16 fresh.

(** [send_with_id] on the start of a response. *)
Definition send_with_id (rid : string) (headers : list (string * string)) : list (string * string) :=
  keep (λ h, negb (String.eqb (fst h) "x-request-id")) headers ++ [("x-request-id", rid)].

(** The handler of [Exception] runs outside the middlewares, the others inside. *)
Definition inside_middleware (r : Raised) : bool :=
  match r with
  | RaisedApi f _ _ => if fault_status f then true else false
  | RaisedHttp _ _ _ | RaisedValidation _ => true
  | RaisedOther _ => false
  end.

(** A request whose handler raised. *)
Definition failed_request (incoming : option string) (fresh : string) (r : Raised) : Response :=
  let rid := request_id incoming fresh in
  let rs := answer_exception (Some rid) r in
  if inside_middleware r
  then mkResponse (rs_status rs) (rs_body rs) (send_with_id rid (rs_headers rs))
  else rs.

(** ** Properties *)

Definition listed (code : string) : Prop := is_Some (dict_get ERROR_CODES code).

#[global] Instance listed_dec code : Decision (listed code).
Proof. unfold listed. apply _. Defined.

(** Every raised code is in the table. *)
Definition reply_listed {A} (r : Reply A) : Prop :=
  match r with Return _ => True | Raise e => listed (f_code e) end.

Ltac listed := solve [done | by eexists].

Definition ids_of (headers : list (string * string)) : list (string * string) :=
  keep (λ h, String.eqb (fst h) "x-request-id") headers.

Lemma request_id_nonempty incoming fresh : nonempty (request_id incoming fresh) = true.
Proof.
  unfold request_id. destruct (default "" incoming) as [|c s]; [done|].
  destruct (re_match _ _); done.
Qed.

Lemma ids_of_send_with_id rid hs : ids_of (send_with_id rid hs) = [("x-request-id", rid)].
Proof.
  unfold ids_of, send_with_id. rewrite keep_app, keep_keep, keep_none; [done|].
  intros h _. by destruct (String.eqb (fst h) "x-request-id").
Qed.

Definition retry_header (headers : list (string * string)) : option string := dict_get headers "retry-after".

Lemma dict_get_app {V} (d e : list (string * V)) k :
  dict_get (d ++ e) k = match dict_get d k with Some v => Some v | None => dict_get e k end.
Proof.
  unfold dict_get. rewrite keep_app. by destruct (keep (λ p, String.eqb (fst p) k) d).
Qed.

Lemma dict_get_keep {V} (d : list (string * V)) k j :
  k ≠ j → dict_get (keep (λ h, negb (String.eqb (fst h) j)) d) k = dict_get d k.
Proof.
  intros Hne. unfold dict_get. rewrite keep_keep. f_equal. f_equal. apply keep_ext.
  intros h _. destruct (String.eqb_spec (fst h) j) as [->|]; [|done].
  symmetry. by apply String.eqb_neq.
Qed.

Lemma retry_header_response status body hs :
  retry_header (rs_headers (response status body hs)) = retry_header hs.
Proof.
  unfold retry_header, response. cbn [rs_headers]. rewrite dict_get_app.
  destruct (dict_get hs "retry-after"); [done|].
  destruct (b_request_id body) as [r|]; [|done]. by destruct (nonempty r).
Qed.

Lemma retry_header_sent rid hs : retry_header (send_with_id rid hs) = retry_header hs.
Proof.
  unfold retry_header, send_with_id. rewrite dict_get_app, dict_get_keep by done.
  by destruct (dict_get hs "retry-after").
Qed.

Lemma answer_exception_body rid r :
  b_request_id (rs_body (answer_exception rid r)) = rid
  ∧ b_detail (rs_body (answer_exception rid r)) = b_message (rs_body (answer_exception rid r)).
Proof.
  destruct r as [f msg d| | |e]; cbn; try done.
  - by destruct (api_error f) as [[??]|].
  - unfold unexpected. by destruct (is_outage e).
Qed.

Lemma ids_of_unexpected rid e :
  nonempty rid = true → ids_of (rs_headers (unexpected (Some rid) e)) = [("x-request-id", rid)].
Proof. intros H. unfold unexpected. by destruct (is_outage e); cbn; rewrite H. Qed.

(** Whatever escapes a handler, the answer names the request once, in the body and in
    one header, by the caller's own id when that is well formed; a refusal with a listed
    code is answered with that code, the status of the table unless the handler gave one,
    and the same [retry_after] in the body and the header; anything unforeseen is a 503 that
    asks for a retry exactly when a dependency is down, and otherwise a 500. *)
Theorem error_envelope incoming fresh r :
  let rid := request_id incoming fresh in
  let rs := failed_request incoming fresh r in
  b_request_id (rs_body rs) = Some rid ∧
  ids_of (rs_headers rs) = [("x-request-id", rid)] ∧
  b_detail (rs_body rs) = b_message (rs_body rs) ∧
  match r with
  | RaisedApi f _ _ =>
      listed (f_code f) →
      b_code (rs_body rs) = f_code f ∧
      Some (rs_status rs) = fault_status f ∧
      b_retry_after (rs_body rs) = f_retry_after f ∧
      retry_header (rs_headers rs) = pretty <$> f_retry_after f
  | RaisedOther e =>
      (rs_status rs, b_code (rs_body rs), retry_header (rs_headers rs))
      = if is_outage e then (503%Z, "service_unavailable", Some "10")
        else (500%Z, "internal_error", None)
  | RaisedHttp status _ _ => rs_status rs = status
  | RaisedValidation _ => rs_status rs = 422%Z
  end.
Proof.
  intros rid rs. pose proof (answer_exception_body (Some rid) r) as [Hid Hd].
  pose proof (request_id_nonempty incoming fresh) as Hne.
  split; [unfold rs, failed_request; by destruct (inside_middleware r)|]. split.
  { unfold rs, failed_request. destruct (inside_middleware r) eqn:E; [apply ids_of_send_with_id|].
    destruct r as [f msg d| | |e]; try done; [|by apply ids_of_unexpected].
    cbn in E |- *. unfold api_error. destruct (fault_status f); [done|]. by apply ids_of_unexpected. }
  split; [unfold rs, failed_request; by destruct (inside_middleware r)|].
  destruct r as [f msg d|status detail hs|errs|e]; try done.
  - intros [st Hl]. unfold rs, failed_request, inside_middleware, answer_exception, api_error.
    assert (∃ st', fault_status f = Some st') as [st' ->].
    { unfold fault_status. rewrite Hl. destruct (f_status f); [break|]; eauto. }
    cbn [rs_status rs_body rs_headers]. rewrite retry_header_sent, retry_header_response.
    by destruct (f_retry_after f).
  - unfold rs, failed_request, inside_middleware, answer_exception, unexpected.
    destruct (is_outage e); rewrite retry_header_response; done.
Qed.

Lemma error_envelope_witness :
  let rs := failed_request (Some "abc-1") "f00" (RaisedApi (fault_after "rate_limited" 7) "slow down" []) in
  rs_status rs = 429%Z ∧ b_code (rs_body rs) = "rate_limited" ∧ retry_header (rs_headers rs) = Some "7".
Proof.
  intros rs. destruct (error_envelope (Some "abc-1") "f00" (RaisedApi (fault_after "rate_limited" 7) "slow down" []))
    as (_ & _ & _ & H). destruct H as (Hc & Hs & _ & Hr); [by eexists|].
  split; [reflexivity|]. split; [exact Hc|exact Hr].
Defined.
