(* ===== verification/Sha256.v ===== *)
(** * SHA-256 and HMAC

    [hashlib.sha256] and [hmac.new(key, msg, sha256)] as the program uses them: key hashes
    (auth.py), request fingerprints (main.py) and webhook signatures (webhook.py).  Words are
    32-bit numbers with their wrap-around written out, messages lists of bytes. *)

From Stdlib Require Import NArith Ascii String Lia.
From stdpp Require Import base strings option list.
From S2P Require Import Prelude PyStr.

Abbreviation byte := N.

(** [str.encode("utf-8")] on code points below 256. *)
Fixpoint utf8 (s : string) : list byte :=
  match s with
  | EmptyString => []
  | String c s' =>
      if N.ltb (code c) 128 then code c :: utf8 s'
      else (192 + code c / 64)%N :: (128 + code c mod 64)%N :: utf8 s'
  end.

Definition word (x : N) : N := N.land x 0xFFFFFFFF.
Definition add32 (x y : N) : N := word (x + y).
Definition rotr (n x : N) : N := N.lor (N.shiftr x n) (word (N.shiftl x (32 - n))).
Definition not32 (x : N) : N := N.lxor x 0xFFFFFFFF.

Definition Ch (x y z : N) : N := N.lxor (N.land x y) (N.land (not32 x) z).
Definition Maj (x y z : N) : N := N.lxor (N.lxor (N.land x y) (N.land x z)) (N.land y z).
Definition Sigma0 (x : N) : N := N.lxor (N.lxor (rotr 2 x) (rotr 13 x)) (rotr 22 x).
Definition Sigma1 (x : N) : N := N.lxor (N.lxor (rotr 6 x) (rotr 11 x)) (rotr 25 x).
Definition sigma0 (x : N) : N := N.lxor (N.lxor (rotr 7 x) (rotr 18 x)) (N.shiftr x 3).
Definition sigma1 (x : N) : N := N.lxor (N.lxor (rotr 17 x) (rotr 19 x)) (N.shiftr x 10).

(** The constants, from their definition: the first 32 bits of the fractional parts of the
    cube roots of the first 64 primes, and of the square roots of the first eight. *)
Definition is_prime (n : nat) : bool := forallb (λ d, negb (Nat.eqb (n mod d) 0)) (seq 2 (n - 2)).
Definition PRIMES : list N := Eval vm_compute in map N.of_nat (List.filter is_prime (seq 2 310)).

(** The integer cube root, one bit at a time. *)
Fixpoint cbrt (bits : nat) (x r : N) : N :=
  match bits with
  | O => r
  | S b => let r' := (r + 2 ^ N.of_nat b)%N in cbrt b x (if N.leb (r' ^ 3) x then r' else r)
  end.

Definition K : list N := Eval vm_compute in map (λ p, word (cbrt 36 (p * 2 ^ 96) 0)) PRIMES.
Definition H0 : list N := Eval vm_compute in map (λ p, word (N.sqrt (p * 2 ^ 64))) (take 8 PRIMES).

(** The message, a 1 bit, zeros, and its length in bits as 64 bits. *)
Fixpoint be_bytes (n : nat) (x : N) : list byte :=
  match n with O => [] | S n' => be_bytes n' (N.shiftr x 8) ++ [N.land x 255] end.

Definition pad (msg : list byte) : list byte :=
  let zeros := ((119 - length msg mod 64) mod 64)%nat in
  msg ++ [128%N] ++ replicate zeros 0%N ++ be_bytes 8 (8 * N.of_nat (length msg)).

Fixpoint words (fuel : nat) (l : list byte) : list N :=
  match fuel, l with
  | S fuel', a :: b :: c :: d :: l' =>
      (N.shiftl a 24 + N.shiftl b 16 + N.shiftl c 8 + d)%N :: words fuel' l'
  | _, _ => []
  end.

(** The message schedule, latest word first: 48 more words after the block's 16. *)
Fixpoint schedule (n : nat) (w : list N) : list N :=
  match n with
  | O => w
  | S n' =>
      let x := add32 (add32 (sigma1 (nth 1 w 0%N)) (nth 6 w 0%N))
                     (add32 (sigma0 (nth 14 w 0%N)) (nth 15 w 0%N)) in
      schedule n' (x :: w)
  end.

Definition round (s : list N) (kw : N * N) : list N :=
  match s with
  | [a; b; c; d; e; f; g; h] =>
      let t1 := add32 (add32 (add32 h (Sigma1 e)) (Ch e f g)) (add32 kw.1 kw.2) in
      let t2 := add32 (Sigma0 a) (Maj a b c) in
      [add32 t1 t2; a; b; c; add32 d t1; e; f; g]
  | _ => s
  end.

Definition compress (h : list N) (block : list N) : list N :=
  zip_with add32 h (fold_left round (zip K (rev (schedule 48 (rev block)))) h).

Fixpoint blocks (fuel : nat) (h : list N) (w : list N) : list N :=
  match fuel, w with
  | S fuel', _ :: _ => blocks fuel' (compress h (take 16 w)) (drop 16 w)
  | _, _ => h
  end.

Definition sha256 (msg : list byte) : list byte :=
  let w := words (length msg + 128) (pad msg) in
  concat (map (be_bytes 4) (blocks (length w) H0 w)).

Definition hex_digit (n : N) : ascii := ascii_of_N (if N.ltb n 10 then 48 + n else 87 + n).

Fixpoint hex (l : list byte) : string :=
  match l with
  | [] => ""
  | b :: l' => String (hex_digit (N.shiftr b 4)) (String (hex_digit (N.land b 15)) (hex l'))
  end.

Definition hexdigest (msg : list byte) : string := hex (sha256 msg).

Definition hmac_sha256 (key msg : list byte) : list byte :=
  let key := if Nat.ltb 64 (length key) then sha256 key else key in
  let key := key ++ replicate (64 - length key) 0%N in
  sha256 (map (N.lxor 0x5c) key ++ sha256 (map (N.lxor 0x36) key ++ msg)).

(** The published test vectors. *)
Example sha256_abc :
  hexdigest (utf8 "abc") = "ba7816bf8f01cfea414140de5dae2223b00361a396177a9cb410ff61f20015ad".
Proof. vm_compute. reflexivity. Qed.

Example sha256_two_blocks :
  hexdigest (utf8 "abcdbcdecdefdefgefghfghighijhijkijkljklmklmnlmnomnopnopq")
  = "248d6a61d20638b8e5c026930c3e6039a33ce45964ff2167f6ecedd419db06c1".
Proof. vm_compute. reflexivity. Qed.

Example hmac_jefe :
  hex (hmac_sha256 (utf8 "Jefe") (utf8 "what do ya want for nothing?"))
  = "5bdcc146bf60754e6a042426089575c75a003f089d2739839dec58b964ec3843".
Proof. vm_compute. reflexivity. Qed.

(** A digest is 64 lower-case hexadecimal characters. *)
Lemma length_be_bytes n x : length (be_bytes n x) = n.
Proof. revert x. induction n as [|n IH]; intros x; cbn; [done|]. rewrite length_app, IH. cbn. lia. Qed.

Lemma length_round s kw : length s = 8%nat → length (round s kw) = 8%nat.
Proof. destruct s as [|? [|? [|? [|? [|? [|? [|? [|? [|]]]]]]]]]; done. Qed.

Lemma length_compress h b : length h = 8%nat → length (compress h b) = 8%nat.
Proof.
  intros H. unfold compress.
  assert (∀ l s, length s = 8%nat → length (fold_left round l s) = 8%nat) as Hf.
  { induction l as [|kw l IH]; intros s Hs; cbn; [done|]. by apply IH, length_round. }
  rewrite length_zip_with, H, Hf; done.
Qed.

Lemma length_blocks n h w : length h = 8%nat → length (blocks n h w) = 8%nat.
Proof.
  revert h w. induction n as [|n IH]; intros h [|x w] H; cbn; try done. by apply IH, length_compress.
Qed.

Lemma length_sha256 msg : length (sha256 msg) = 32%nat.
Proof.
  unfold sha256. pose proof (length_blocks (length (words (length msg + 128) (pad msg))) H0
    (words (length msg + 128) (pad msg)) eq_refl) as H.
  set (l := blocks _ _ _) in *. clearbody l.
  by destruct l as [|? [|? [|? [|? [|? [|? [|? [|? [|]]]]]]]]].
Qed.

Lemma utf8_bytes s : Forall (λ b, (b < 256)%N) (utf8 s).
Proof.
  induction s as [|c s IH]; cbn; [done|]. pose proof (N_ascii_bounded c) as Hc. unfold code.
  destruct (N.ltb_spec (N_of_ascii c) 128); repeat constructor; try done.
  - assert (N_of_ascii c / 64 < 4)%N by (apply N.Div0.div_lt_upper_bound; lia). lia.
  - assert (N_of_ascii c mod 64 < 64)%N by (apply N.mod_lt; lia). lia.
Qed.
