(* ===== verification/Json.v ===== *)
(** * Python's [json]

    JSON documents and [json.dumps] with [ensure_ascii], as used for webhook bodies, request
    fingerprints and streamed result lines.  A float is given by its [repr]. *)

From Stdlib Require Import ZArith NArith Ascii String Lia.
From stdpp Require Import base strings pretty option sets list.
From S2P Require Import Prelude PyStr.

Inductive json :=
  | JNull
  | JBool (b : bool)
  | JInt (n : Z)
  | JFloat (repr : string)
  | JStr (s : string)
  | JArr (l : list json)
  | JObj (l : list (string * json)).

(** The escapes of [ensure_ascii]: everything outside space to tilde. *)
Definition hex_lower (n : N) : ascii := ascii_of_N (if N.ltb n 10 then 48 + n else 87 + n).

Definition dquote : ascii := "034"%char.
Definition backslash : ascii := "092"%char.

Definition escape_char (c : ascii) : string :=
  if Ascii.eqb c dquote || Ascii.eqb c backslash then String backslash (String c "")
  else if N.eqb (code c) 10 then String backslash "n"
  else if N.eqb (code c) 13 then String backslash "r"
  else if N.eqb (code c) 9 then String backslash "t"
  else if N.eqb (code c) 12 then String backslash "f"
  else if N.eqb (code c) 8 then String backslash "b"
  else if between 32 126 c then String c ""
  else String backslash ("u00" +:+ String (hex_lower (N.shiftr (code c) 4))
                                     (String (hex_lower (N.land (code c) 15)) "")).

Fixpoint escape (s : string) : string :=
  match s with EmptyString => "" | String c s' => escape_char c +:+ escape s' end.

Definition dumps_str (s : string) : string := String dquote (escape s +:+ String dquote "").

(** With [ensure_ascii=False] only control characters, quotes and backslashes are escaped. *)
Definition escape_char_unicode (c : ascii) : string :=
  if N.leb 127 (code c) then String c "" else escape_char c.

Fixpoint escape_unicode (s : string) : string :=
  match s with EmptyString => "" | String c s' => escape_char_unicode c +:+ escape_unicode s' end.

Definition dumps_str_unicode (s : string) : string :=
  String dquote (escape_unicode s +:+ String dquote "").

(** [json.dumps(v, separators=(item, key))], given how strings are written. *)
Fixpoint dumps_with (str : string → string) (item key : string) (v : json) : string :=
  match v with
  | JNull => "null"
  | JBool true => "true"
  | JBool false => "false"
  | JInt n => pretty n
  | JFloat r => r
  | JStr s => str s
  | JArr l => "[" +:+ join item (map (dumps_with str item key) l) +:+ "]"
  | JObj l => "{" +:+ join item (map (λ p, str (fst p) +:+ key +:+ dumps_with str item key (snd p)) l) +:+ "}"
  end.

Definition dumps : json → string := dumps_with dumps_str ", " ": ".
Definition dumps_compact : json → string := dumps_with dumps_str "," ":".
Definition dumps_unicode : json → string := dumps_with dumps_str_unicode ", " ": ".

(** The output is ASCII, so the bytes sent are its characters. *)
Lemma escape_char_ascii c : isascii (escape_char c) = true.
Proof. destruct c as [[] [] [] [] [] [] [] []]; vm_compute; reflexivity. Qed.

Lemma isascii_app a b : isascii (a +:+ b) = isascii a && isascii b.
Proof. apply str_all_app. Qed.

Lemma dumps_str_ascii s : isascii (dumps_str s) = true.
Proof.
  unfold dumps_str. change (isascii (escape s +:+ String dquote "") = true). rewrite isascii_app, andb_true_r.
  induction s as [|c s IH]; [done|]. cbn [escape]. by rewrite isascii_app, escape_char_ascii, IH.
Qed.

(** ** Reading a string literal back *)

Definition unhex (c : ascii) : N :=
  if is_digit09 c then (code c - 48)%N else (code c - 87)%N.

(** The text after the opening quote: the string and what follows the closing one. *)
Fixpoint unescape (s : string) : option (string * string) :=
  match s with
  | EmptyString => None
  | String c s' =>
      if Ascii.eqb c dquote then Some ("", s')
      else if Ascii.eqb c backslash then
        match s' with
        | String "u" (String "0" (String "0" (String a (String b rest)))) =>
            match unescape rest with
            | Some (x, r) => Some (String (ascii_of_N (unhex a * 16 + unhex b)) x, r)
            | None => None
            end
        | String e rest =>
            match unescape rest with
            | Some (x, r) =>
                Some (String (if Ascii.eqb e "n" then "010" else if Ascii.eqb e "r" then "013"
                              else if Ascii.eqb e "t" then "009" else if Ascii.eqb e "f" then "012"
                              else if Ascii.eqb e "b" then "008" else e)%char x, r)
            | None => None
            end
        | EmptyString => None
        end
      else match unescape s' with Some (x, r) => Some (String c x, r) | None => None end
  end.

Lemma unescape_char c t x r :
  unescape t = Some (x, r) → unescape (escape_char c +:+ t) = Some (String c x, r).
Proof.
  intros H. destruct c as [[] [] [] [] [] [] [] []];
    (match goal with |- context [escape_char ?c] =>
       let e := eval vm_compute in (escape_char c) in change (escape_char c) with e end);
    cbn [String.append unescape Ascii.eqb Bool.eqb dquote backslash]; rewrite H; reflexivity.
Qed.

Lemma unescape_escape s r : unescape (escape s +:+ String dquote r) = Some (s, r).
Proof.
  induction s as [|c s IH]; [done|]. cbn [escape]. rewrite app_assoc_str. by apply unescape_char.
Qed.

Lemma dumps_str_inj s t a b : dumps_str s +:+ a = dumps_str t +:+ b → s = t ∧ a = b.
Proof.
  unfold dumps_str. intros H.
  assert (unescape (escape s +:+ String dquote a) = unescape (escape t +:+ String dquote b)) as E.
  { change (String dquote (escape s +:+ String dquote "") +:+ a) with (String dquote ((escape s +:+ String dquote "") +:+ a)) in H.
    change (String dquote (escape t +:+ String dquote "") +:+ b) with (String dquote ((escape t +:+ String dquote "") +:+ b)) in H.
    injection H as H. rewrite !app_assoc_str in H. by f_equal. }
  rewrite !unescape_escape in E. by injection E as -> ->.
Qed.
