(* ===== verification/Ingest.v ===== *)
(** * Uploads ([src/app/ingest.py], [prepare_items] and [prepare_plain] of [src/app/jobs.py])

    From the bytes of an upload to the rows of a job.  The codecs, the delimiter sniffer of
    the csv module and the spreadsheet reader are arguments ([Codecs], [Sheets]); everything
    decided from their answers is here.  Scores are exact rationals; the preview's rounding of
    them to three places is left out. *)

From Stdlib Require Import ZArith NArith QArith Ascii String Lia.
From stdpp Require Import base strings pretty option sets list.
From S2P Require Import Prelude PyStr Sql Csv Regex Models Url Emails Normalize Queue Jobs.

Definition MAX_COLUMNS : N := 500.
Definition MAX_ROWS : N := 50000.
Definition MAX_BYTES : N := 52428800.
Definition SNIFF_BYTES : nat := Nat.mul 200 100.
Definition DELIMITERS : list ascii := [","; ";"; "009"; "|"]%char.
Definition CONTENT_THRESHOLD : Q := 6 # 10.
Definition SAMPLE_SIZE : nat := 200.

Definition HEADER_PRIORITY : list string :=
  ["website"; "websiteurl"; "companywebsite"; "companywebsiteurl"; "companydomain"; "domain"; "url"; "companyurl";
   "homepage"; "web"; "site"; "organizationwebsite"; "businesswebsite"].
Definition EMAIL_HEADERS : list string :=
  ["email"; "emailaddress"; "contactemail"; "workemail"; "primaryemail"; "owneremail"; "publicemail"].

Definition not_at_or_space (c : ascii) : bool := negb (Ascii.eqb c "@") && negb (is_space c).

(** [^\[^@\s\]+@\[^@\s\]+\.\[a-z\]{2,24}$], ignoring case *)
Definition EMAILISH : re :=
  seqs [Bos; plus (Chr not_at_or_space); lit "@"; plus (Chr not_at_or_space); lit ".";
        between_times 2 24 (Chr (λ c, is_lower (lower_char c))); Eos].

Definition ALLOWED_EXTENSIONS : list string := [".csv"; ".tsv"; ".txt"; ".xlsx"; ".xlsm"].

(** A value, the code an [IngestError] carries, or another exception. *)
Inductive Parsed (A : Type) := Fine (a : A) | Failed (code : string) | Escaped.
Arguments Fine {A} a.
Arguments Failed {A} code.
Arguments Escaped {A}.

Record ParsedFile := mkParsedFile {
  pf_headers : list string;
  pf_rows : list (list (string * string));
  pf_had_header : bool;
  pf_delimiter : string;
  pf_encoding : string
}.

(** [(r.get(name) or "").strip()] for every row. *)
Definition column (p : ParsedFile) (name : string) : list string :=
  map (λ r, strip (default "" (dict_get r name))) (pf_rows p).

Inductive Confidence := conf_high | conf_medium | conf_low | conf_none.
Inductive Method := by_header | by_content | by_email | by_none.

#[export] Instance Method_eq_dec : EqDecision Method.
Proof. solve_decision. Defined.

Record ColumnGuess := mkGuess {
  cg_column : option string;
  cg_confidence : Confidence;
  cg_method : Method;
  cg_scores : list (string * Q);
  cg_email_column : option string
}.

Fixpoint str_keep (p : ascii → bool) (s : string) : string :=
  match s with
  | EmptyString => ""
  | String c s' => if p c then String c (str_keep p s') else str_keep p s'
  end.

Definition norm_header (name : string) : string := str_keep is_alnum (lower name).

(** ** Decoding *)

(** [raw.decode(enc)], [None] when it raises; the last resort replaces what it cannot read. *)
Class Codecs := {
  decode_as : string → string → option string;
  decode_replace : string → string;
  sniff : string → option ascii
}.

(** The rows of the first sheet as [str] of each cell, [None] where empty, at most one
    column more than the limit wide, as far as they can be read, and whether reading on
    raises (a sheet with no rows to iterate raises at once); [None] when the workbook does
    not open. *)
Class Sheets := first_sheet : string → option (list (list (option string)) * bool).

Fixpoint first_decoding `{Codecs} (raw : string) (encs : list string) : option (string * string) :=
  match encs with
  | [] => None
  | e :: encs' => match decode_as e raw with Some t => Some (t, e) | None => first_decoding raw encs' end
  end.

Definition bom16 (raw : string) : bool :=
  startswith raw (String "255" (String "254" "")) || startswith raw (String "254" (String "255" "")).

Definition decode `{Codecs} (raw : string) : string * string :=
  let utf16 := if bom16 raw then first_decoding raw ["utf-16"; "utf-16-le"; "utf-16-be"] else None in
  match utf16 with
  | Some r => r
  | None =>
      match first_decoding raw ["utf-8-sig"; "utf-8"; "cp1252"] with
      | Some r => r
      | None => (decode_replace raw, "utf-8/replace")
      end
  end.

Definition first_line (s : string) : string := (span is_line_break s).1.

Definition count_char (c : ascii) (s : string) : nat := count (Ascii.eqb c) (list_ascii_of_string s).

(** [max(DELIMITERS, key=first.count)]: the first of the greatest. *)
Definition most_frequent (first : string) : ascii :=
  fold_left (λ best d, if Nat.ltb (count_char best first) (count_char d first) then d else best)
            (tail DELIMITERS) ","%char.

Definition sniff_delimiter `{Codecs} (txt filename : string) : ascii :=
  if endswith (lower filename) ".tsv" then "009"%char
  else
    let head_ := str_take SNIFF_BYTES txt in
    match sniff head_ with
    | Some d => d
    | None =>
        let first := first_line head_ in
        let best := most_frequent first in
        if Nat.eqb (count_char best first) 0 then ","%char else best
    end.

Definition column_name (i : nat) : string := "column_" +:+ pretty (N.of_nat (i + 1)).

(** [while cells and not cells\[-1\]: cells.pop()] *)
Fixpoint trim_rev (l : list string) : list string :=
  match l with "" :: l' => trim_rev l' | _ => l end.
Definition trim_trailing_blanks (cells : list string) : list string := rev (trim_rev (rev cells)).

Fixpoint to_row_from (i : nat) (headers record : list string) (row : list (string * string)) : list (string * string) :=
  match headers with
  | [] => row
  | h :: hs =>
      to_row_from (S i) hs record
        (dict_set row h (match record !! i with Some c => strip c | None => "" end))
  end.
Definition to_row (headers record : list string) : list (string * string) := to_row_from 0 headers record [].

Definition number_blank (i : nat) (h : string) : string := if nonempty h then h else column_name i.

Section ingest.
Context `{Tld} `{IpLiteral} `{Idna}.

Definition looks_like_header (cells : list string) : bool :=
  let useful := keep (λ c, nonempty (strip c)) cells in
  match useful with
  | [] => true
  | _ => negb (all (λ c, nz_ok (normalize_input c)) useful)
  end.

(** Headers and body of the records read. *)
Definition split_header (first : list string) (records : list (list string)) : bool * list string * list (list string) :=
  if looks_like_header first
  then (true, imap (λ i h, number_blank i (strip h)) first, tail records)
  else (false, imap (λ i _, column_name i) first, records).

Definition too_long_field : N := 131072.

Definition parse_text `{Codecs} (raw filename : string) : Parsed ParsedFile :=
  let '(txt, encoding) := decode raw in
  let delimiter := sniff_delimiter txt filename in
  let records := read_records delimiter txt in
  if any (any (λ f, N.ltb too_long_field (N.of_nat (String.length f)))) records then Failed "invalid_file"
  else
    match records with
    | [] => Failed "empty_file"
    | r0 :: _ =>
        let first := trim_trailing_blanks (map strip r0) in
        if N.ltb MAX_COLUMNS (N.of_nat (length first)) then Failed "too_many_columns"
        else
          let '(had_header, headers, body) := split_header first records in
          if N.ltb MAX_ROWS (N.of_nat (length body)) then Failed "too_many_rows"
          else Fine (mkParsedFile headers (map (to_row headers) body) had_header (String delimiter "") encoding)
    end.

(** The loop over the sheet: the width is the first row's, and it stops two rows past the
    limit.  What reading a row raises is not caught. *)
Fixpoint sheet_records (raises : bool) (rows : list (list (option string))) (width : option nat) (n : N)
    : Parsed (list (list string)) :=
  match rows with
  | [] => if raises then Escaped else Fine []
  | row :: rest =>
      let cells := map (λ c, match c with None => "" | Some s => strip s end) row in
      let cells := match width with None => trim_trailing_blanks cells | Some _ => cells end in
      let w := match width with None => length cells | Some w => w end in
      if is_null width && N.ltb MAX_COLUMNS (N.of_nat w) then Failed "too_many_columns"
      else
        let rec_ := take w cells in
        if N.ltb (MAX_ROWS + 1) (n + 1) then Fine [rec_]
        else match sheet_records raises rest (Some w) (n + 1) with
             | Fine l => Fine (rec_ :: l)
             | Failed c => Failed c
             | Escaped => Escaped
             end
  end.

Definition parse_xlsx `{Sheets} (raw : string) : Parsed ParsedFile :=
  match first_sheet raw with
  | None => Failed "invalid_file"
  | Some (rows, raises) =>
      match sheet_records raises rows None 0 with
      | Failed c => Failed c
      | Escaped => Escaped
      | Fine [] => Failed "empty_file"
      | Fine ((first :: _) as records) =>
          let had_header := looks_like_header first in
          let headers := if had_header then imap number_blank first else imap (λ i _, column_name i) first in
          let body := if had_header then tail records else records in
          if N.ltb MAX_ROWS (N.of_nat (length body)) then Failed "too_many_rows"
          else Fine (mkParsedFile headers (map (to_row headers) body) had_header "," "xlsx")
      end
  end.

(** [name.rsplit("/", 1)[-1]] *)
Definition base_name (name : string) : string := (rpartition "/" name).2.

Definition parse_bytes `{Codecs} `{Sheets} (raw filename : string) : Parsed ParsedFile :=
  if N.ltb MAX_BYTES (N.of_nat (String.length raw)) then Failed "file_too_large"
  else
    let name := lower filename in
    if endswith name ".xls" then Failed "unsupported_file_type"
    else if has_char "." (base_name name) && negb (endswith_any name ALLOWED_EXTENSIONS)
    then Failed "unsupported_file_type"
    else if endswith_any name [".xlsx"; ".xlsm"] then parse_xlsx raw
    else parse_text raw filename.

(** ** Which column holds the website *)

Definition sample (values : list string) : list string :=
  take SAMPLE_SIZE (keep (λ v, nonempty (strip v)) values).

(** The share of the sample a test holds of; 0 of an empty sample. *)
Definition share (p : string → bool) (values : list string) : Q :=
  let s := sample values in
  match s with
  | [] => 0%Q
  | _ => (inject_Z (Z.of_nat (count p s)) / inject_Z (Z.of_nat (length s)))%Q
  end.

Definition is_website_value (v : string) : bool :=
  let n := normalize_input v in
  nz_ok n && match nz_source n with from_website => true | from_email => false end.

Definition score_column : list string → Q := share is_website_value.
Definition score_emails : list string → Q := share (re_match EMAILISH).
Definition social_share : list string → Q :=
  share (λ v, bool_decide (nz_reason (normalize_input v) = Some "social_or_directory")).

(** A dict built from a list of keys, later values replacing earlier ones. *)
Definition dict_of {V} (l : list (string * V)) : list (string * V) :=
  fold_left (λ d kv, dict_set d kv.1 kv.2) l [].

Definition score_of (scores : list (string * Q)) (h : string) : Q := default 0%Q (dict_get scores h).

(** [headers.index(h)] *)
Fixpoint index_of (h : string) (l : list string) : nat :=
  match l with [] => 0 | x :: l' => if String.eqb x h then 0 else S (index_of h l') end.

Definition cmp_columns (p : ParsedFile) (scores : list (string * Q)) (a b : string) : comparison :=
  lex (Qcompare (score_of scores b) (score_of scores a))
      (lex (Qcompare (social_share (column p a)) (social_share (column p b)))
           (Nat.compare (index_of a (pf_headers p)) (index_of b (pf_headers p)))).

(** [max(scores, key=scores.get, default=None)]: the first of the greatest. *)
Definition best_key (scores : list (string * Q)) : option (string * Q) :=
  match scores with
  | [] => None
  | kv :: rest =>
      Some (fold_left (λ best kv, match Qcompare best.2 kv.2 with Lt => kv | _ => best end) rest kv)
  end.

(** The first wanted header that is present. *)
Definition header_match (wants : list string) (normed : list (string * string)) : option string :=
  first_some (λ w, dict_get normed w) wants.

Definition detect_column (p : ParsedFile) : ColumnGuess :=
  let normed := dict_of (map (λ h, (norm_header h, h)) (pf_headers p)) in
  match header_match HEADER_PRIORITY normed with
  | Some col => mkGuess (Some col) conf_high by_header [] None
  | None =>
      let scores := dict_of (map (λ h, (h, score_column (column p h))) (pf_headers p)) in
      let ranked := sort_by (λ a b, le_of (cmp_columns p scores a b)) (pf_headers p) in
      let best := match head ranked with Some b => if nonempty b then Some b else None | None => None end in
      match (match best with
             | Some b => if Qle_bool CONTENT_THRESHOLD (score_of scores b) then Some b else None
             | None => None
             end) with
      | Some b => mkGuess (Some b) conf_medium by_content scores None
      | None =>
          let email_scores := dict_of (map (λ h, (h, score_emails (column p h))) (pf_headers p)) in
          let good h := Qle_bool CONTENT_THRESHOLD (score_of email_scores h) in
          match first_some (λ w, match dict_get normed w with
                                 | Some h => if good h then Some h else None
                                 | None => None
                                 end) EMAIL_HEADERS with
          | Some h => mkGuess None conf_low by_email scores (Some h)
          | None =>
              match best_key email_scores with
              | Some (h, _) =>
                  if nonempty h && good h then mkGuess None conf_low by_email scores (Some h)
                  else mkGuess None conf_none by_none scores None
              | None => mkGuess None conf_none by_none scores None
              end
          end
      end
  end.

(** ** Rows of a job *)

Definition last_at_part (v : string) : string := default "" (last (split_char "@" v)).

Definition set_source (n : NormalizedInput) (s : Source) : NormalizedInput :=
  mkNormalized (nz_domain n) (nz_display n) (nz_status n) (nz_reason n) s (nz_notes n).

Definition derivable (n : NormalizedInput) (v : string) : bool :=
  negb (nz_ok n) && has_char "@" v
  && negb (null_any (nz_reason n) ["free_email_only"; "social_or_directory"]).

Definition normalize_value (derive_from_email : bool) (v : string) : NormalizedInput :=
  let n := normalize_input v in
  if derive_from_email && derivable n v
  then let derived := normalize_input (last_at_part v) in
       if nz_ok derived then set_source derived from_email else n
  else n.

Definition normalize_column (p : ParsedFile) (col : string) (derive_from_email : bool) : list NormalizedInput :=
  map (normalize_value derive_from_email) (column p col).

Definition source_name (s : Source) : string := match s with from_website => "website" | from_email => "email" end.

Definition prepared (i : nat) (value : string) (n : NormalizedInput) (row : list (string * string)) : PreparedItem := {|
  p_row_index := Z.of_nat i;
  p_input_value := value;
  p_domain := nz_domain n;
  p_status := if nz_ok n then None else Some invalid_input;
  p_reason := nz_reason n;
  p_domain_source := source_name (nz_source n);
  p_raw_row := row
|}.

(** [x or y or z] on optional strings. *)
Definition str_or (a b : option string) : option string := if str_truthy a then a else b.

Definition chosen_column (col : option string) (g : ColumnGuess) : option string :=
  str_or col (str_or (cg_column g) (cg_email_column g)).

Definition derives (g : ColumnGuess) (col : option string) : bool :=
  bool_decide (cg_method g = by_email) && bool_decide (col = cg_email_column g).

(** [None]: the ValueError of no column. *)
Definition prepare_items (p : ParsedFile) (g : ColumnGuess) (col : option string) : option (list PreparedItem) :=
  let col := chosen_column col g in
  match col with
  | Some c =>
      if nonempty c then
        let normalized := normalize_column p c (derives g col) in
        Some (imap (λ i rn, prepared i (strip (default "" (dict_get rn.1 c))) rn.2 rn.1)
                   (zip (pf_rows p) normalized))
      else None
  | None => None
  end.

Definition prepare_plain (items : list string) : list PreparedItem :=
  imap (λ i raw, prepared i (strip raw) (normalize_input raw) [("website", strip raw)]) items.

(** ** The preview *)

Record SampleRow := mkSample {
  sm_value : string; sm_domain : option string; sm_ok : bool; sm_reason : option string
}.

Record Preview := mkPreview {
  pv_column : option string;
  pv_derived_from_email : bool;
  pv_detected_column : option string;
  pv_confidence : Confidence;
  pv_method : Method;
  pv_email_column : option string;
  pv_candidates : list (string * Q);
  pv_columns : list string;
  pv_row_count : nat;
  pv_empty_website_count : nat;
  pv_unique_domains : nat;
  pv_duplicate_domains : Z;
  pv_invalid_count : nat;
  pv_samples : list SampleRow;
  pv_free_email_skipped : nat;
  pv_had_header : bool;
  pv_delimiter : string;
  pv_encoding : string
}.

Definition has_reason (r : string) (n : NormalizedInput) : bool := null_eq (nz_reason n) r.

Definition preview (p : ParsedFile) (g : ColumnGuess) (samples : nat) (col : option string) : Preview :=
  let col := chosen_column col g in
  let derive := derives g col in
  let normalized := match col with
                    | Some c => if nonempty c then normalize_column p c derive else []
                    | None => []
                    end in
  let values := match col with Some c => if nonempty c then column p c else [] | None => [] end in
  let domains := omap nz_domain (keep nz_ok normalized) in
  {| pv_column := col;
     pv_derived_from_email := derive;
     pv_detected_column := cg_column g;
     pv_confidence := cg_confidence g;
     pv_method := cg_method g;
     pv_email_column := cg_email_column g;
     pv_candidates := map (λ h, (h, score_of (cg_scores g) h)) (pf_headers p);
     pv_columns := pf_headers p;
     pv_row_count := length (pf_rows p);
     pv_empty_website_count := count (has_reason "empty") normalized;
     pv_unique_domains := length (remove_dups domains);
     pv_duplicate_domains := (Z.of_nat (length domains) - Z.of_nat (length (remove_dups domains)))%Z;
     pv_invalid_count := count (λ n, negb (nz_ok n)) normalized;
     pv_samples := take samples (zip_with (λ raw n, mkSample raw (nz_domain n) (nz_ok n) (nz_reason n))
                                          values normalized);
     pv_free_email_skipped := count (has_reason "free_email_only") normalized;
     pv_had_header := pf_had_header p;
     pv_delimiter := pf_delimiter p;
     pv_encoding := pf_encoding p |}.
End ingest.
