(* ===== verification/IngestProps.v ===== *)
(** * Properties of uploads

    The shape of the rows read from a file, that a file the program wrote reads back, which
    column is chosen, and that the preview describes the job that would be created. *)

From Stdlib Require Import ZArith NArith QArith Ascii String Lia.
From stdpp Require Import base strings pretty option sets list.
From S2P Require Import Prelude PyStr Sql Csv Regex Models Url Emails Normalize Queue Jobs JobsProps Errors Sha256 Ingest.

(** ** Dicts *)

Lemma dict_set_keys {V} (d : list (string * V)) k v j :
  j ∈ map fst (dict_set d k v) ↔ j ∈ map fst d ∨ j = k.
Proof.
  induction d as [|[k' v'] d IH]; cbn; [set_solver|].
  destruct (String.eqb_spec k' k) as [->|]; cbn; rewrite !elem_of_cons; [naive_solver|].
  rewrite IH. naive_solver.
Qed.

Lemma dict_set_NoDup {V} (d : list (string * V)) k v : NoDup (map fst d) → NoDup (map fst (dict_set d k v)).
Proof.
  induction d as [|[k' v'] d IH]; cbn; [intros _; apply NoDup_singleton|]. intros [Hn Hd]%NoDup_cons.
  destruct (String.eqb_spec k' k) as [->|Hne]; cbn; apply NoDup_cons; [done|]. split; [|auto].
  rewrite dict_set_keys. intros [?|?]; done.
Qed.

Lemma dict_set_fresh {V} (d : list (string * V)) k v : k ∉ map fst d → dict_set d k v = d ++ [(k, v)].
Proof.
  induction d as [|[k' v'] d IH]; cbn; [done|]. intros Hk. apply not_elem_of_cons in Hk as [Hne Hk].
  destruct (String.eqb_spec k' k) as [->|]; [done|]. by rewrite IH.
Qed.

(** ** Rows *)

(** The cell in column [i] of a record: without the space around it, empty where the record
    ends before. *)
Definition cell (rec : list string) (i : nat) : string := strip (default "" (rec !! i)).

(** The row of a record under a header: a cell under each name of the header and nothing else;
    a name that stands over several columns has the cell of the last of them. *)
Record row_of (headers rec : list string) (row : list (string * string)) : Prop := {
  row_names : NoDup (map fst row) ∧ ∀ k, k ∈ map fst row ↔ k ∈ headers;
  row_cells : ∀ i h, headers !! i = Some h → h ∉ drop (S i) headers → dict_get row h = Some (cell rec i)
}.

Lemma cell_at rec i : match rec !! i with Some c => strip c | None => "" end = cell rec i.
Proof. unfold cell. by destruct (rec !! i). Qed.

Lemma to_row_from_keys i hs rec row :
  NoDup (map fst row) →
  NoDup (map fst (to_row_from i hs rec row)) ∧ ∀ k, k ∈ map fst (to_row_from i hs rec row) ↔ k ∈ map fst row ∨ k ∈ hs.
Proof.
  revert i row. induction hs as [|h hs IH]; intros i row Hn; cbn [to_row_from]; [split; [done|set_solver]|].
  destruct (IH (S i) (dict_set row h (match rec !! i with Some c => strip c | None => "" end))
              (dict_set_NoDup _ _ _ Hn)) as [H1 H2].
  split; [done|]. intros k. rewrite H2, dict_set_keys, elem_of_cons. tauto.
Qed.

Lemma to_row_from_keeps i hs rec row k : k ∉ hs → dict_get (to_row_from i hs rec row) k = dict_get row k.
Proof.
  revert i row. induction hs as [|h hs IH]; intros i row Hk; cbn [to_row_from]; [done|].
  apply not_elem_of_cons in Hk as [Hne Hk]. rewrite IH by done. rewrite dict_get_set. by destruct (String.eqb_spec h k) as [->|].
Qed.

Lemma to_row_from_cells i hs rec row j h :
  hs !! j = Some h → h ∉ drop (S j) hs → dict_get (to_row_from i hs rec row) h = Some (cell rec (i + j)).
Proof.
  revert i j row. induction hs as [|x hs IH]; intros i [|j] row; cbn [to_row_from drop lookup]; try done; intros Hj Hd.
  - injection Hj as ->. rewrite drop_0 in Hd. rewrite to_row_from_keeps by done.
    by rewrite dict_get_set, String.eqb_refl, cell_at, Nat.add_0_r.
  - rewrite (IH (S i) j) by done. do 2 f_equal. lia.
Qed.

Lemma to_row_of hs rec : row_of hs rec (to_row hs rec).
Proof.
  destruct (to_row_from_keys 0 hs rec [] NoDup_nil_2) as [H1 H2]. split.
  - split; [done|]. intros k. rewrite H2. set_solver.
  - intros i h Hi Hd. exact (to_row_from_cells 0 hs rec [] i h Hi Hd).
Qed.

Lemma row_of_cells hs rec rec' row :
  (∀ i, i < length hs → cell rec i = cell rec' i) → row_of hs rec row → row_of hs rec' row.
Proof.
  intros E [H1 H2]. split; [done|]. intros i h Hi Hd. rewrite (H2 i h Hi Hd), E; [done|]. by eapply lookup_lt_Some.
Qed.

(** With distinct headers every cell is under its own. *)
Lemma to_row_from_zip i hs rec row :
  NoDup hs → (∀ h, h ∈ hs → h ∉ map fst row) → length rec = (i + length hs)%nat →
  to_row_from i hs rec row = row ++ zip hs (map strip (drop i rec)).
Proof.
  revert i row. induction hs as [|h hs IH]; intros i row Hn Hf Hl; cbn [to_row_from]; [by rewrite app_nil_r|].
  apply NoDup_cons in Hn as [Hh Hn]. cbn in Hl.
  destruct (lookup_lt_is_Some_2 rec i ltac:(lia)) as [c Hc]. rewrite Hc.
  rewrite dict_set_fresh by (apply Hf; set_solver).
  rewrite IH; [|done| |lia].
  - rewrite (drop_S rec c i Hc). cbn. by rewrite <- app_assoc.
  - intros x Hx. rewrite map_app. intros [?|Hin]%elem_of_app; [by apply (Hf x); [set_solver|]|].
    apply list_elem_of_singleton in Hin as ->. done.
Qed.

Lemma to_row_zip hs rec :
  NoDup hs → length rec = length hs → to_row hs rec = zip hs (map strip rec).
Proof. intros Hn Hl. unfold to_row. by rewrite (to_row_from_zip 0 hs rec []), drop_0 by set_solver. Qed.

Section files.
Context `{Tld} `{IpLiteral} `{Idna} `{Codecs} `{Sheets}.

(** The records of a file before any of its limits: the lines of a text under the delimiter
    found, the rows of a spreadsheet's first sheet. *)
Definition is_sheet (filename : string) : bool := endswith_any (lower filename) [".xlsx"; ".xlsm"].
Definition source_records (raw filename : string) : list (list string) :=
  if is_sheet filename
  then match first_sheet raw with Some (rows, _) => map (map (default "")) rows | None => [] end
  else read_records (sniff_delimiter (decode raw).1 filename) (decode raw).1.

(** What an accepted file is: within the limits; the header is the first record up to its last
    cell that is not blank, blank names numbered, or numbers alone when that record is itself
    data; and there is one row for each record below, in order. *)
Record file_of (recs : list (list string)) (p : ParsedFile) : Prop := {
  width_ok : (N.of_nat (length (pf_headers p)) ≤ MAX_COLUMNS)%N;
  height_ok : (N.of_nat (length (pf_rows p)) ≤ MAX_ROWS)%N;
  header_read : ∃ r0, head recs = Some r0 ∧
    let first := trim_trailing_blanks (map strip r0) in
    pf_had_header p = looks_like_header first ∧
    pf_headers p = imap (λ i h, if pf_had_header p then number_blank i h else column_name i) first;
  rows_read : Forall2 (row_of (pf_headers p)) (if pf_had_header p then tail recs else recs) (pf_rows p)
}.

Lemma Forall2_map_r {A B} (R : A → B → Prop) (f : A → B) l : (∀ x, x ∈ l → R x (f x)) → Forall2 R l (map f l).
Proof. induction l as [|x l IH]; intros HR; constructor; [apply HR; set_solver|apply IH; set_solver]. Qed.

Lemma trim_strip_id l : Forall (λ h, strip h = h) (trim_trailing_blanks (map strip l)).
Proof.
  unfold trim_trailing_blanks. apply Forall_rev. rewrite <- map_rev. generalize (rev l) as k.
  induction k as [|c k IH]; cbn; [constructor|].
  assert (Forall (λ h, strip h = h) (strip c :: map strip k)) as Hall.
  { constructor; [apply strip_idem|]. apply Forall_fmap, Forall_true. intros x. apply strip_idem. }
  destruct (strip c); [exact IH|exact Hall].
Qed.

Lemma imap_strip_id (f : nat → string → string) l :
  Forall (λ h, strip h = h) l → imap (λ i h, f i (strip h)) l = imap f l.
Proof.
  intros Hl. apply imap_ext. intros i x Hx. rewrite Forall_forall in Hl.
  by rewrite (Hl x) by (by eapply list_elem_of_lookup_2).
Qed.

Lemma parse_text_of raw name p :
  is_sheet name = false → parse_text raw name = Fine p → file_of (source_records raw name) p.
Proof.
  intros Hn. unfold parse_text, source_records. rewrite Hn. destruct (decode raw) as [txt enc]. cbn [fst]. break; [done|].
  destruct (read_records _ txt) as [|r0 rest] eqn:Er; [done|]. break; [done|].
  apply N.ltb_ge in Heqb0. unfold split_header. set (first := trim_trailing_blanks (map strip r0)) in *.
  destruct (looks_like_header first) eqn:El; (break; [done|]); apply N.ltb_ge in Heqb1; intros [= <-].
  - rewrite imap_strip_id by apply trim_strip_id. split; cbn.
    + by rewrite length_imap.
    + by rewrite length_map.
    + by exists r0.
    + apply Forall2_map_r. intros rec _. apply to_row_of.
  - split; cbn.
    + by rewrite length_imap.
    + by rewrite length_map.
    + by exists r0.
    + constructor; [apply to_row_of|]. apply Forall2_map_r. intros rec _. apply to_row_of.
Qed.

(** *** Spreadsheets *)

Definition sheet_cells (row : list (option string)) : list string :=
  map (λ c, match c with None => "" | Some s => strip s end) row.

Lemma sheet_cells_strip row : sheet_cells row = map strip (map (default "") row).
Proof. unfold sheet_cells. rewrite map_map. apply map_ext. by intros [s|]. Qed.

Lemma cell_sheet w row i : i < w → cell (take w (sheet_cells row)) i = cell (map (default "") row) i.
Proof.
  intros Hi. unfold cell. rewrite lookup_take_lt by done. rewrite sheet_cells_strip, !list_lookup_fmap.
  destruct (row !! i) as [c|]; [|done]. cbn. apply strip_idem.
Qed.

(** Below the limit every row was read to the end. *)
Lemma sheet_records_all raises rows w n l :
  sheet_records raises rows (Some w) n = Fine l → (N.of_nat (length l) + n ≤ MAX_ROWS + 1)%N →
  l = map (λ row, take w (sheet_cells row)) rows.
Proof.
  revert n l. induction rows as [|row rows IH]; intros n l; cbn [sheet_records is_null andb].
  { destruct raises; [done|]. by intros [= <-]. }
  destruct (N.ltb_spec (MAX_ROWS + 1) (n + 1)).
  { intros [= <-]. cbn [length]. lia. }
  destruct (sheet_records raises rows (Some w) (n + 1)) as [l'| |] eqn:Er; try done. intros [= <-] Hl.
  cbn [map]. f_equal. apply (IH (n + 1)%N); [done|]. cbn [length] in Hl. lia.
Qed.

Lemma sheet_records_first raises rows l :
  sheet_records raises rows None 0 = Fine l →
  (rows = [] ∧ l = []) ∨
  ∃ row rest l', rows = row :: rest ∧ l = trim_trailing_blanks (sheet_cells row) :: l' ∧
    let w := length (trim_trailing_blanks (sheet_cells row)) in
    (N.of_nat w ≤ MAX_COLUMNS)%N ∧
    ((N.of_nat (length l') ≤ MAX_ROWS)%N → l' = map (λ row, take w (sheet_cells row)) rest).
Proof.
  destruct rows as [|row rest]; cbn [sheet_records].
  { destruct raises; [done|]. intros [= <-]. by left. }
  intros E. right. cbn [is_null andb] in E. fold (sheet_cells row) in E.
  set (cells := trim_trailing_blanks (sheet_cells row)) in *.
  destruct (N.ltb_spec MAX_COLUMNS (N.of_nat (length cells))) as [|Hw]; [done|].
  rewrite take_ge in E by done. change (N.ltb (MAX_ROWS + 1) (0 + 1)) with false in E. cbn [negb] in E.
  destruct (sheet_records raises rest (Some (length cells)) (0 + 1)) as [l'| |] eqn:Er; try done.
  injection E as <-. exists row, rest, l'. split_and!; try done. intros Hl. eapply sheet_records_all; [exact Er|]. lia.
Qed.

Lemma trim_prefix l : trim_trailing_blanks l = take (length (trim_trailing_blanks l)) l.
Proof.
  unfold trim_trailing_blanks. rewrite length_rev. rewrite <- (rev_involutive l) at 3. generalize (rev l) as k.
  induction k as [|c k IH]; [done|]. destruct c as [|a c].
  - cbn [trim_rev rev]. rewrite IH at 1. assert (length (trim_rev k) ≤ length (rev k)) as Hl.
    { rewrite length_rev. clear. induction k as [|[|b d] k IH]; cbn; lia. }
    by rewrite take_app_le.
  - change (trim_rev (String a c :: k)) with (String a c :: k). rewrite take_ge; [done|]. by rewrite length_rev.
Qed.

Lemma parse_xlsx_of raw name p :
  is_sheet name = true → parse_xlsx raw = Fine p → file_of (source_records raw name) p.
Proof.
  intros Hn. unfold parse_xlsx, source_records. rewrite Hn. destruct (first_sheet raw) as [[rows raises]|]; [|done].
  destruct (sheet_records raises rows None 0) as [[|first l']| |] eqn:Er; try done.
  apply sheet_records_first in Er as [[_ ?]|(row & rest & l & -> & [= -> ->] & Hw & Hl)]; [done|].
  cbn [map] in *. set (r0 := map (default "") row). pose proof (sheet_cells_strip row) as Ec. fold r0 in Ec. rewrite Ec in *.
  set (first := trim_trailing_blanks (map strip r0)) in *. cbn [tail]. cbn zeta in *.
  assert (∀ rec rec' hs, length hs = length first → (∀ i, i < length first → cell rec i = cell rec' i) →
            row_of hs rec' (to_row hs rec)) as Hrow.
  { intros rec rec' hs E Hc. eapply row_of_cells; [|apply to_row_of]. by rewrite E. }
  assert (∀ hs, length hs = length first → (N.of_nat (length l) ≤ MAX_ROWS)%N →
            Forall2 (row_of hs) (map (map (default "")) rest) (map (to_row hs) l)) as Hrest.
  { intros hs E Hb. rewrite (Hl Hb), !map_map. clear - Hrow E. induction rest as [|x rest IH]; constructor; [|done].
    apply Hrow; [done|]. intros i Hi. by apply cell_sheet. }
  destruct (looks_like_header first) eqn:El; (break; [done|]); apply N.ltb_ge in Heqb; intros [= <-].
  - split; cbn [pf_headers pf_rows pf_had_header head tail].
    + by rewrite length_imap.
    + by rewrite length_map.
    + by exists r0.
    + apply Hrest; [by rewrite length_imap|done].
  - split; cbn [pf_headers pf_rows pf_had_header head tail].
    + by rewrite length_imap.
    + cbn [map length] in *. by rewrite length_map.
    + by exists r0.
    + cbn [map length] in *. constructor; [|apply Hrest; [by rewrite length_imap|lia]].
      apply Hrow; [by rewrite length_imap|]. intros i Hi. unfold first. rewrite trim_prefix. fold first.
      rewrite <- Ec. by apply cell_sheet.
Qed.

(** What becomes of an upload, whichever kind of file it is. *)
Lemma parse_bytes_cases (raw filename : string) :
  match parse_bytes raw filename with
  | Fine p => file_of (source_records raw filename) p
  | Failed code => listed code
  | Escaped => is_sheet filename = true ∧ ∃ rows, first_sheet raw = Some (rows, true)
  end.
Proof.
  unfold parse_bytes. break; [by eexists|]. break; [by eexists|]. break; [by eexists|].
  fold (is_sheet filename). destruct (is_sheet filename) eqn:Ei.
  - destruct (parse_xlsx raw) as [p|c|] eqn:E; [by eapply parse_xlsx_of| |].
    + unfold parse_xlsx in E. destruct (first_sheet raw) as [[rows raises]|]; [|injection E as <-; by eexists].
      destruct (sheet_records raises rows None 0) as [[|first rest]|c'|] eqn:Er; [injection E as <-; by eexists| | |done].
      * destruct (N.ltb MAX_ROWS _); [|done]. injection E as <-. by eexists.
      * injection E as <-. clear - Er. assert (∀ rows w n, sheet_records raises rows w n = Failed c' → c' = "too_many_columns") as Hc.
        { clear. induction rows as [|row rows IH]; intros w n; cbn [sheet_records]; [by destruct raises|]. break; [by intros [= <-]|].
          destruct (N.ltb (MAX_ROWS + 1) (n + 1)); [done|].
          destruct (sheet_records raises rows _ _) eqn:Es; [done| |done]. intros [= <-]. eauto. }
        rewrite (Hc _ _ _ Er). by eexists.
    + split; [done|]. unfold parse_xlsx in E. destruct (first_sheet raw) as [[rows raises]|]; [|done]. exists rows.
      destruct (sheet_records raises rows None 0) as [[|first rest]|c'|] eqn:Er; try done.
      * by destruct (N.ltb MAX_ROWS _).
      * assert (∀ rows w n, sheet_records raises rows w n = Escaped → raises = true) as Hc; [|by rewrite (Hc _ _ _ Er)].
        clear. induction rows as [|row rows IH]; intros w n; cbn [sheet_records]; [by destruct raises|]. break; [done|].
        destruct (N.ltb (MAX_ROWS + 1) (n + 1)); [done|].
        destruct (sheet_records raises rows _ _) eqn:Es; [done|done|]. intros _. eauto.
  - destruct (parse_text raw filename) as [p|c|] eqn:E; [by eapply parse_text_of| |].
    + unfold parse_text in E. destruct (decode raw) as [txt enc].
      break_in E; [injection E as <-; by eexists|]. break_in E; [injection E as <-; by eexists|].
      break_in E; [injection E as <-; by eexists|]. destruct (split_header _ _) as [[hh hs] body].
      break_in E; [|done]. injection E as <-. by eexists.
    + exfalso. unfold parse_text in E. destruct (decode raw) as [txt enc]. by repeat case_match.
Qed.
End files.

(** C23: a file that is accepted has at most 500 columns and 50,000 rows; its header is the
    first record without the blank cells at its end, blank names numbered (or only numbers,
    when all of that record are websites); and there is one row for each record below, in
    order, with a cell under each name of the header and under no other: the record's cell in
    that column without the space around it, empty where the record is too short, and of the
    last such column where a name repeats.  A file that is refused is refused with one of the
    documented codes; the one other way it can end is a spreadsheet that opens but raises
    while its rows are read, an exception nothing catches. *)
Theorem parse_bytes_typed `{Tld} `{IpLiteral} `{Idna} `{Codecs} `{Sheets} (raw filename : string) :
  match parse_bytes raw filename with
  | Fine p => file_of (source_records raw filename) p
  | Failed code => listed code
  | Escaped => is_sheet filename = true ∧ ∃ rows, first_sheet raw = Some (rows, true)
  end.
Proof. apply parse_bytes_cases. Qed.

(** ** A file the program wrote reads back *)

(** A string of the bytes, and the byte order mark of UTF-8. *)
Definition bytes_str (l : list byte) : string := string_of_list_ascii (map ascii_of_N l).
Definition UTF8_BOM : list byte := [239; 187; 191]%N.

(** Cells that survive the trip: no carriage return, no space around, not over-long. *)
Definition cell_ok (s : string) : Prop :=
  has_char cr s = false ∧ strip s = s ∧ (N.of_nat (String.length s) ≤ too_long_field)%N.

Definition csv_text (lines : list (list string)) : string := foldr (λ l acc, csv_line l +:+ acc) "" lines.

Lemma read_csv_text lines recs :
  Forall (Forall cell_ok) lines →
  read_chars comma (mkReader START_RECORD recs [] "") (csv_text lines) = mkReader START_RECORD (rev lines ++ recs) [] "".
Proof.
  revert recs. induction lines as [|l lines IH]; intros recs H; [done|]. apply Forall_cons in H as [Hl H].
  change (csv_text (l :: lines)) with (csv_line l +:+ csv_text lines). rewrite read_chars_app, read_csv_line.
  - rewrite IH by done. cbn. by rewrite <- app_assoc.
  - intros x Hx. rewrite Forall_forall in Hl. by destruct (Hl x Hx).
Qed.

Lemma read_records_csv_text lines : Forall (Forall cell_ok) lines → read_records comma (csv_text lines) = lines.
Proof.
  intros H. unfold read_records, reader0. rewrite read_csv_text by done. cbn. by rewrite app_nil_r, rev_involutive.
Qed.

Lemma trim_full l : (∀ x, last l = Some x → x ≠ "") → trim_trailing_blanks l = l.
Proof.
  intros H. unfold trim_trailing_blanks. rewrite <- (rev_involutive l) at 2. f_equal.
  destruct (rev l) as [|x k] eqn:E; [done|]. destruct x as [|c s]; [|done].
  assert (l = rev k ++ [""]) as -> by (rewrite <- (rev_involutive l), E; done).
  exfalso. apply (H ""); [apply last_snoc|done].
Qed.

Lemma any_any_false {A} (p : A → bool) ls :
  Forall (Forall (λ x, p x = false)) ls → any (any p) ls = false.
Proof.
  intros H. apply any_false. intros l Hl. apply any_false. rewrite Forall_forall in H. specialize (H l Hl).
  by rewrite Forall_forall in H.
Qed.

Section reupload.
Context `{Tld} `{IpLiteral} `{Idna} `{Codecs} `{Sheets}.

Lemma map_strip_ok l : Forall cell_ok l → map strip l = l.
Proof. induction 1 as [|x l (_ & Hx & _) _ IH]; cbn; [done|]. by rewrite Hx, IH. Qed.

Lemma imap_number_blank l :
  Forall (λ s, s ≠ "" ∧ strip s = s) l → imap (λ i h, number_blank i (strip h)) l = l.
Proof.
  intros Hl. apply list_eq. intros i. rewrite list_lookup_imap. destruct (l !! i) as [x|] eqn:E; [|done]. cbn.
  rewrite Forall_forall in Hl. destruct (Hl x) as [Hx Hs]; [by eapply list_elem_of_lookup_2|].
  unfold number_blank. by rewrite Hs, (proj2 (nonempty_true x) Hx).
Qed.

(** A table the reader takes back as it was written, once decoded and under the comma. *)
Lemma parse_written raw filename enc headers rows :
  decode raw = (csv_text (headers :: rows), enc) →
  sniff_delimiter (csv_text (headers :: rows)) filename = comma →
  Forall cell_ok headers → Forall (Forall cell_ok) rows →
  NoDup headers → Forall (λ h, h ≠ "") headers → looks_like_header headers = true →
  (N.of_nat (length headers) ≤ MAX_COLUMNS)%N → (N.of_nat (length rows) ≤ MAX_ROWS)%N →
  Forall (λ r, length r = length headers) rows →
  parse_text raw filename = Fine (mkParsedFile headers (map (zip headers) rows) true "," enc).
Proof.
  intros Hd Hs Hh Hr Hn Hne Hl Hw Hrows Hlen. unfold parse_text. rewrite Hd, Hs.
  assert (Forall (Forall cell_ok) (headers :: rows)) as Hall by (by constructor).
  rewrite read_records_csv_text by done.
  rewrite any_any_false.
  2:{ eapply Forall_impl; [exact Hall|]. intros l Hl'. eapply Forall_impl; [exact Hl'|].
      intros x (_ & _ & Hx). by apply N.ltb_ge. }
  rewrite map_strip_ok, trim_full by (try done; intros x Hx; rewrite Forall_forall in Hne; apply Hne;
    by apply last_Some_elem_of in Hx).
  rewrite (proj2 (N.ltb_ge _ _) Hw). unfold split_header. rewrite Hl. cbn [tail].
  rewrite (proj2 (N.ltb_ge _ _) Hrows). f_equal.
  assert (imap (λ i h, number_blank i (strip h)) headers = headers) as ->.
  { apply imap_number_blank. apply Forall_forall. intros x Hx. rewrite Forall_forall in Hne, Hh.
    split; [by apply Hne|by apply Hh]. }
  f_equal. apply map_ext_in. intros r Hin%list_elem_of_In.
  rewrite Forall_forall in Hlen, Hr. rewrite to_row_zip by auto. by rewrite map_strip_ok by auto.
Qed.
End reupload.

(** *** The delimiter and the decoding of a table that was written *)

(** What is used of the codecs and of [csv.Sniffer]: decoding UTF-8 undoes encoding, with a
    byte order mark in front or without; a sniffed delimiter is one of those offered and
    occurs in the sample. *)
Class CodecLaws `{Codecs} := {
  utf8_decodes : ∀ t, decode_as "utf-8-sig" (bytes_str (utf8 t)) = Some t;
  utf8_bom_decodes : ∀ t, decode_as "utf-8-sig" (bytes_str (UTF8_BOM ++ utf8 t)) = Some t;
  sniff_offered : ∀ sample d, sniff sample = Some d → d ∈ DELIMITERS ∧ has_char d sample = true
}.

Lemma has_char_take c n s : has_char c (str_take n s) = true → has_char c s = true.
Proof.
  unfold has_char. revert s. induction n as [|n IH]; intros [|d s]; cbn; try done.
  intros [->|Hs]%orb_true_iff; [done|]. rewrite (IH s Hs). apply orb_true_r.
Qed.

Lemma has_char_double c s : has_char c (double_quotes s) = true → c = quote ∨ has_char c s = true.
Proof.
  unfold has_char. induction s as [|d s IH]; cbn; [done|]. destruct (Ascii.eqb_spec d quote) as [->|]; cbn.
  - intros [E%Ascii.eqb_eq|[E%Ascii.eqb_eq|Hs]%orb_true_iff]%orb_true_iff; [by left..|].
    destruct (IH Hs) as [|Hc]; [by left|right]. rewrite Hc. apply orb_true_r.
  - intros [->|Hs]%orb_true_iff; [by right|]. destruct (IH Hs) as [|Hc]; [by left|right]. rewrite Hc. apply orb_true_r.
Qed.

Lemma has_char_one c d : has_char c (String d "") = true → c = d.
Proof. unfold has_char. cbn. rewrite orb_false_r. apply Ascii.eqb_eq. Qed.

Lemma has_char_field c s : has_char c (write_field s) = true → c = quote ∨ has_char c s = true.
Proof.
  unfold write_field, quoted. destruct (str_any needs_quotes s); [|by right].
  change (String quote (double_quotes s +:+ String quote "")) with (String quote "" +:+ double_quotes s +:+ String quote "").
  rewrite !has_char_app. intros [H%has_char_one|[H|H%has_char_one]%orb_true_iff]%orb_true_iff; [by left| |by left].
  by apply has_char_double.
Qed.

Definition structural : list ascii := [comma; quote; lf].

Lemma has_char_join_fields c l :
  has_char c (join (String comma "") (map write_field l)) = true → c ∈ structural ∨ ∃ x, x ∈ l ∧ has_char c x = true.
Proof.
  induction l as [|a l IH]; [done|]. destruct l as [|b l].
  - intros [->|Ha]%has_char_field; [left; set_solver|right]. exists a. set_solver.
  - change (join (String comma "") (map write_field (a :: b :: l)))
      with (write_field a +:+ String comma "" +:+ join (String comma "") (map write_field (b :: l))).
    rewrite !has_char_app. intros [[->|Ha]%has_char_field|[->%has_char_one|H]%orb_true_iff]%orb_true_iff.
    + left. set_solver.
    + right. exists a. set_solver.
    + left. set_solver.
    + destruct (IH H) as [|(x & Hx & Hc)]; [by left|right]. exists x. split; [|done]. set_solver.
Qed.

Lemma has_char_line c l : has_char c (csv_line l) = true → c ∈ structural ∨ ∃ x, x ∈ l ∧ has_char c x = true.
Proof.
  assert (∀ t, (has_char c t = true → c ∈ structural ∨ ∃ x, x ∈ l ∧ has_char c x = true) →
    has_char c (t +:+ String lf "") = true → c ∈ structural ∨ ∃ x, x ∈ l ∧ has_char c x = true) as Hlf.
  { intros t Ht. rewrite has_char_app. intros [H|H%has_char_one]%orb_true_iff; [auto|left; rewrite H; set_solver]. }
  unfold csv_line. destruct l as [|v [|w l]]; apply Hlf.
  - done.
  - destruct (String.eqb_spec v "") as [->|].
    + unfold has_char. cbn. rewrite !orb_false_r. intros [E%Ascii.eqb_eq|E%Ascii.eqb_eq]%orb_true_iff; left; set_solver.
    + intros [->|Hc]%has_char_field; [left; set_solver|right]. exists v. set_solver.
  - apply has_char_join_fields.
Qed.

Lemma has_char_text c lines :
  has_char c (csv_text lines) = true → c ∈ structural ∨ ∃ l x, l ∈ lines ∧ x ∈ l ∧ has_char c x = true.
Proof.
  induction lines as [|l lines IH]; [done|].
  change (csv_text (l :: lines)) with (csv_line l +:+ csv_text lines). rewrite has_char_app.
  intros [[|(x & Hx & Hc)]%has_char_line|H]%orb_true_iff; [by left|right; exists l, x; set_solver|].
  destruct (IH H) as [|(k & x & Hk & Hx)]; [by left|right]. exists k, x. set_solver.
Qed.

(** No other delimiter stands in the table. *)
Definition no_delimiter (s : string) : Prop := ∀ d, d ∈ tail DELIMITERS → has_char d s = false.

Lemma other_delimiters lines d :
  Forall (Forall no_delimiter) lines → d ∈ tail DELIMITERS → has_char d (csv_text lines) = false.
Proof.
  intros Hl Hd. apply not_true_iff_false. intros [Hs|(l & x & Hl' & Hx & Hc)]%has_char_text.
  - revert Hd Hs. cbn. clear. set_unfold. intros [->|[->|[->|[]]]] [|[|[|[]]]]; discriminate.
  - rewrite Forall_forall in Hl. specialize (Hl l Hl'). rewrite Forall_forall in Hl. by rewrite (Hl x Hx d Hd) in Hc.
Qed.

Lemma span_prefix p s : s = (span p s).1 +:+ (span p s).2.
Proof. induction s as [|c s IH]; [done|]. cbn. destruct (p c); [done|]. destruct (span p s). cbn in *. by rewrite IH at 1. Qed.

Lemma count_char_zero c s : has_char c s = false → count_char c s = 0.
Proof.
  unfold has_char, count_char, count. induction s as [|d s IH]; [done|]. cbn. intros [-> Hs]%orb_false_iff.
  by apply IH.
Qed.

Lemma written_delimiter `{CodecLaws} lines filename :
  endswith (lower filename) ".tsv" = false → Forall (Forall no_delimiter) lines →
  sniff_delimiter (csv_text lines) filename = comma.
Proof.
  intros Hn Hl. unfold sniff_delimiter. rewrite Hn. pose proof (other_delimiters lines) as Ho.
  set (t := csv_text lines) in *. pose proof (λ c, has_char_take c SNIFF_BYTES t) as Ht.
  set (h := str_take SNIFF_BYTES t) in *. clearbody h. destruct (sniff h) as [d|] eqn:Es.
  - apply sniff_offered in Es as [Hd Hc%Ht].
    change DELIMITERS with (comma :: tail DELIMITERS) in Hd. apply elem_of_cons in Hd as [->|Hd]; [done|].
    by rewrite (Ho d Hl Hd) in Hc.
  - set (f := first_line h). assert (∀ d, d ∈ tail DELIMITERS → count_char d f = 0) as Hz.
    { intros d Hd. apply count_char_zero, not_true_iff_false. intros Hc.
      assert (has_char d h = true) as Hh%Ht; [|by rewrite (Ho d Hl Hd) in Hh].
      rewrite (span_prefix is_line_break h), has_char_app. fold (first_line h). fold f. by rewrite Hc. }
    assert (most_frequent f = comma) as ->; [|by destruct (Nat.eqb _ _)].
    assert (∀ n, Nat.ltb n 0 = false) as Hn0 by (intros n; apply Nat.ltb_ge; lia).
    unfold most_frequent. cbn [tail DELIMITERS fold_left].
    rewrite (Hz ";"%char), Hn0, (Hz "009"%char), Hn0, (Hz "|"%char), Hn0; [done|repeat constructor..].
Qed.

Lemma utf8_no_bom16 bom t : bom = [] ∨ bom = UTF8_BOM → bom16 (bytes_str (bom ++ utf8 t)) = false.
Proof.
  intros [->| ->]; [|done]. destruct t as [|c t]; [done|]. unfold bom16, startswith. cbn [app utf8].
  pose proof (N_ascii_bounded c) as Hc. fold (code c) in Hc.
  assert (∀ b l, (b < 254)%N → String.prefix (String "255" (String "254" "")) (bytes_str (b :: l))
    || String.prefix (String "254" (String "255" "")) (bytes_str (b :: l)) = false) as Hb.
  { intros b l Hlt. cbn -[ascii_dec]. destruct (ascii_dec "255" (ascii_of_N b)) as [E|_].
    { apply (f_equal N_of_ascii) in E. rewrite N_ascii_embedding in E by lia. vm_compute in E. lia. }
    destruct (ascii_dec "254" (ascii_of_N b)) as [E|_]; [|done].
    apply (f_equal N_of_ascii) in E. rewrite N_ascii_embedding in E by lia. vm_compute in E. lia. }
  destruct (N.ltb_spec (code c) 128); apply Hb; [lia|].
  assert (code c / 64 < 4)%N by (apply N.Div0.div_lt_upper_bound; lia). lia.
Qed.

Lemma written_decodes `{CodecLaws} bom t :
  bom = [] ∨ bom = UTF8_BOM → decode (bytes_str (bom ++ utf8 t)) = (t, "utf-8-sig").
Proof.
  intros Hb. unfold decode. rewrite utf8_no_bom16 by done. cbn [first_decoding].
  destruct Hb as [->| ->]; [cbn [app]; by rewrite utf8_decodes|by rewrite utf8_bom_decodes].
Qed.

(** One suffix of a string is a suffix of the other. *)
Lemma prefix_prefix a b s : String.prefix a s = true → String.prefix b s = true → String.prefix a b || String.prefix b a = true.
Proof.
  revert b s. induction a as [|c a IH]; intros [|d b] [|e s]; cbn; try done.
  destruct (ascii_dec c e) as [->|]; [|done]. destruct (ascii_dec d e) as [->|]; [|done].
  destruct (ascii_dec e e); [apply IH|done].
Qed.

Lemma csv_no_other name ext :
  endswith name ".csv" = true → String.prefix (str_rev ext) "vsc." || String.prefix "vsc." (str_rev ext) = false →
  endswith name ext = false.
Proof.
  unfold endswith. intros H1 H2. apply not_true_iff_false. intros H3.
  pose proof (prefix_prefix _ _ _ H3 H1) as Hp. change (str_rev ".csv") with "vsc." in Hp. congruence.
Qed.

(** C24: a table that was written as a CSV file in UTF-8, with a byte order mark (as downloads
    are) or without, and is uploaded again under a name in .csv, comes back as it was: the
    same columns in the same order, and each row with the same cell under each of them.  The
    table may be any within the limits in which the header is distinct, non-blank names that
    are not all websites, every row is as wide as the header, and no cell has a carriage
    return, space around it, more than 131072 characters, or one of the other delimiters the
    program looks for (semicolon, tab, vertical bar): in a table that has those, the csv
    module's sniffer may take one of them for the delimiter. *)
Theorem upload_roundtrip `{Tld} `{IpLiteral} `{Idna} `{CodecLaws} `{Sheets} (filename : string) (bom : list byte)
    (headers : list string) (rows : list (list string))
    (Hbom : bom = [] ∨ bom = UTF8_BOM) (Hname : endswith (lower filename) ".csv" = true)
    (Hcells : Forall (Forall (λ s, cell_ok s ∧ no_delimiter s)) (headers :: rows))
    (Hdistinct : NoDup headers) (Hnonblank : Forall (λ h, h ≠ "") headers) (Hheader : looks_like_header headers = true)
    (Hwidth : (N.of_nat (length headers) ≤ MAX_COLUMNS)%N) (Hheight : (N.of_nat (length rows) ≤ MAX_ROWS)%N)
    (Hlen : Forall (λ r, length r = length headers) rows)
    (Hsize : (N.of_nat (String.length (bytes_str (bom ++ utf8 (csv_text (headers :: rows))))) ≤ MAX_BYTES)%N) :
  parse_bytes (bytes_str (bom ++ utf8 (csv_text (headers :: rows)))) filename
  = Fine (mkParsedFile headers (map (zip headers) rows) true "," "utf-8-sig").
Proof.
  assert (Forall (Forall cell_ok) (headers :: rows) ∧ Forall (Forall no_delimiter) (headers :: rows)) as [Hc Hd].
  { split; (eapply Forall_impl; [exact Hcells|]; intros l Hl; eapply Forall_impl; [exact Hl|]; naive_solver). }
  apply Forall_cons in Hc as [Hc Hc']. unfold parse_bytes. rewrite (proj2 (N.ltb_ge _ _) Hsize).
  rewrite (csv_no_other _ ".xls" Hname eq_refl).
  assert (endswith_any (lower filename) ALLOWED_EXTENSIONS = true) as ->.
  { apply any_true. exists ".csv". split; [set_solver|done]. }
  assert (endswith_any (lower filename) [".xlsx"; ".xlsm"] = false) as ->.
  { apply any_false. intros x [->|[->|[]%elem_of_nil]%elem_of_cons]%elem_of_cons; by apply csv_no_other. }
  rewrite andb_false_r. apply parse_written; try done.
  - by apply written_decodes.
  - apply written_delimiter; [by apply csv_no_other|done].
Qed.

(** *** A decoder of the code points below 256 *)

Fixpoint utf8_decode (s : string) : option string :=
  match s with
  | EmptyString => Some ""
  | String a s' =>
      if N.ltb (code a) 128 then String a <$> utf8_decode s'
      else match s' with
           | String b s'' =>
               if (N.leb 194 (code a) && N.leb (code a) 195) && (N.leb 128 (code b) && N.ltb (code b) 192)
               then String (ascii_of_N ((code a - 192) * 64 + (code b - 128))) <$> utf8_decode s''
               else None
           | EmptyString => None
           end
  end.

Definition utf8_sig_decode (s : string) : option string :=
  utf8_decode (if startswith s (bytes_str UTF8_BOM) then str_drop 3 s else s).

#[local] Instance utf8_codecs : Codecs := {|
  decode_as := λ enc raw, if String.eqb enc "utf-8-sig" then utf8_sig_decode raw else Some raw;
  decode_replace := id; sniff := λ _, None
|}.
#[local] Instance no_sheets : Sheets := λ _, None.

Lemma utf8_decode_encode t : utf8_decode (bytes_str (utf8 t)) = Some t.
Proof.
  induction t as [|c t IH]; [done|]. cbn [utf8]. pose proof (N_ascii_bounded c) as Hc. fold (code c) in Hc.
  assert (∀ n, (n < 256)%N → code (ascii_of_N n) = n) as Hn by (intros n Hn; unfold code; by apply N_ascii_embedding).
  destruct (N.ltb_spec (code c) 128) as [Hlt|Hge].
  - change (bytes_str (code c :: utf8 t)) with (String (ascii_of_N (code c)) (bytes_str (utf8 t))). cbn [utf8_decode].
    rewrite Hn by lia. rewrite (proj2 (N.ltb_lt _ _) Hlt), IH. cbn. unfold code. by rewrite ascii_N_embedding.
  - assert (code c / 64 = 2 ∨ code c / 64 = 3)%N as Hq.
    { assert (2 ≤ code c / 64)%N by (apply N.div_le_lower_bound; lia).
      assert (code c / 64 < 4)%N by (apply N.Div0.div_lt_upper_bound; lia). lia. }
    assert (code c mod 64 < 64)%N as Hm by (apply N.mod_lt; lia).
    pose proof (N.div_mod (code c) 64 ltac:(lia)) as Hdm.
    set (q := (code c / 64)%N) in *. set (m := (code c mod 64)%N) in *.
    change (bytes_str ((192 + q)%N :: (128 + m)%N :: utf8 t))
      with (String (ascii_of_N (192 + q)) (String (ascii_of_N (128 + m)) (bytes_str (utf8 t)))).
    cbn [utf8_decode]. rewrite !Hn by lia.
    replace (N.ltb (192 + q) 128) with false by (symmetry; apply N.ltb_ge; lia).
    replace (N.leb 194 (192 + q)) with true by (symmetry; apply N.leb_le; lia).
    replace (N.leb (192 + q) 195) with true by (symmetry; apply N.leb_le; lia).
    replace (N.leb 128 (128 + m)) with true by (symmetry; apply N.leb_le; lia).
    replace (N.ltb (128 + m) 192) with true by (symmetry; apply N.ltb_lt; lia).
    cbn [andb]. rewrite IH. cbn. do 2 f_equal.
    replace ((192 + q - 192) * 64 + (128 + m - 128))%N with (code c) by lia. unfold code. by rewrite ascii_N_embedding.
Qed.

#[local] Instance utf8_laws : CodecLaws.
Proof.
  split.
  - intros t. cbn. unfold utf8_sig_decode. replace (startswith _ _) with false; [apply utf8_decode_encode|].
    symmetry. destruct t as [|c t]; [done|]. unfold startswith. cbn [utf8]. pose proof (N_ascii_bounded c) as Hc. fold (code c) in Hc.
    assert (∀ b l, (b < 239)%N → String.prefix (bytes_str UTF8_BOM) (bytes_str (b :: l)) = false) as Hb.
    { intros b l Hlt. cbn -[ascii_dec]. destruct (ascii_dec _ (ascii_of_N b)) as [E|_]; [|done].
      apply (f_equal N_of_ascii) in E. rewrite N_ascii_embedding in E by lia. vm_compute in E. lia. }
    destruct (N.ltb_spec (code c) 128); apply Hb; [lia|].
    assert (code c / 64 < 4)%N by (apply N.Div0.div_lt_upper_bound; lia). lia.
  - intros t. change (utf8_sig_decode (bytes_str (UTF8_BOM ++ utf8 t)) = Some t). unfold utf8_sig_decode.
    assert (∀ l, startswith (bytes_str (UTF8_BOM ++ l)) (bytes_str UTF8_BOM) = true) as -> 
      by (intros l; change (String.prefix "" (bytes_str l) = true); by destruct (bytes_str l)).
    apply utf8_decode_encode.
  - done.
Qed.

Definition example_rows : list (list string) := [["Acme, Inc."; "acme.com"]; [""; "x.org"]].

Lemma upload_roundtrip_witness :
  parse_bytes (bytes_str (UTF8_BOM ++ utf8 (csv_text (["Name"; "Website"] :: example_rows)))) "list.csv"
  = Fine (mkParsedFile ["Name"; "Website"] (map (zip ["Name"; "Website"]) example_rows) true "," "utf-8-sig").
Proof.
  apply (upload_roundtrip "list.csv" UTF8_BOM ["Name"; "Website"] example_rows).
  - right. reflexivity.
  - vm_compute. reflexivity.
  - assert (∀ s, (has_char cr s || negb (String.eqb (strip s) s) || negb (N.leb (N.of_nat (String.length s)) too_long_field)
                  || any (λ d, has_char d s) (tail DELIMITERS)) = false → cell_ok s ∧ no_delimiter s) as Hs.
    { intros s [[[H1 H2%negb_false_iff%String.eqb_eq]%orb_false_iff H3%negb_false_iff%N.leb_le]%orb_false_iff H4]%orb_false_iff.
      split; [by split|]. intros d Hd. by apply (proj1 (any_false _ _) H4). }
    repeat (constructor; [repeat (constructor; [apply Hs; vm_compute; reflexivity|]); constructor|]). constructor.
  - repeat constructor; set_solver.
  - repeat constructor; discriminate.
  - vm_compute. reflexivity.
  - vm_compute. discriminate.
  - vm_compute. discriminate.
  - repeat constructor.
  - vm_compute. discriminate.
Defined.

(** ** The preview describes the job *)

Section preview.
Context `{Tld} `{IpLiteral} `{Idna}.

Lemma normalize_value_ok derive v :
  nz_ok (normalize_value derive v) = true ↔ is_Some (nz_domain (normalize_value derive v)).
Proof.
  unfold normalize_value. break; [|apply nz_ok_domain]. break; [|apply nz_ok_domain]. exact (nz_ok_domain (last_at_part v)).
Qed.

Lemma normalize_value_nonempty derive v d : nz_domain (normalize_value derive v) = Some d → d ≠ "".
Proof.
  unfold normalize_value. break; [|apply nz_domain_nonempty]. break; [|apply nz_domain_nonempty].
  exact (nz_domain_nonempty (last_at_part v) d).
Qed.

Lemma unique_domains_remove_dups items (ds : list string) :
  (∀ d, d ∈ ds ↔ ∃ it, it ∈ items ∧ usable it d) → length (unique_domains items) = length (remove_dups ds).
Proof.
  intros Hd. apply Permutation_length, NoDup_Permutation; [apply NoDup_unique_domains|apply NoDup_remove_dups|].
  intros d. rewrite elem_of_unique_domains, elem_of_remove_dups. by rewrite Hd.
Qed.

Lemma count_fmap {A B} (f : A → B) (p : B → bool) (l : list A) : count p (f <$> l) = count (λ x, p (f x)) l.
Proof. unfold count. induction l as [|x l IH]; [done|]. cbn. destruct (p (f x)); cbn; unfold keep in *; by rewrite ?IH. Qed.

Lemma count_ext {A} (p q : A → bool) l : (∀ x, x ∈ l → p x = q x) → count p l = count q l.
Proof. intros E. unfold count. by rewrite (keep_ext p q l E). Qed.

(** The items of a job, one per row, from the column's values. *)
Lemma prepare_items_spec p g col c items :
  chosen_column col g = Some c → prepare_items p g col = Some items →
  length items = length (pf_rows p) ∧
  (λ it, (p_domain it, p_reason it, p_status it)) <$> items
  = (λ n, (nz_domain n, nz_reason n, if nz_ok n then None else Some invalid_input))
    <$> normalize_column p c (derives g (Some c)).
Proof.
  intros Hc. unfold prepare_items. rewrite Hc. break; [|done]. intros [= <-].
  set (ns := normalize_column p c (derives g (Some c))).
  assert (length ns = length (pf_rows p)) as Hl by (unfold ns, normalize_column, column; by rewrite !length_map).
  split; [rewrite length_imap, length_zip; lia|].
  apply list_eq. intros i. rewrite !list_lookup_fmap, list_lookup_imap, lookup_zip_with.
  destruct (ns !! i) as [n|] eqn:En.
  - destruct (lookup_lt_is_Some_2 (pf_rows p) i) as [r Hr]; [apply lookup_lt_Some in En; lia|]. by rewrite Hr.
  - cbn. destruct (pf_rows p !! i) as [r|] eqn:Er; [|done]. apply lookup_lt_Some in Er.
    apply lookup_ge_None in En. lia.
Qed.

Lemma prepare_items_column p g col items :
  prepare_items p g col = Some items → ∃ c, chosen_column col g = Some c ∧ nonempty c = true.
Proof.
  unfold prepare_items. destruct (chosen_column col g) as [c|]; [|done]. destruct (nonempty c) eqn:E; [|done]. eauto.
Qed.

Lemma prepare_items_count p g col c items (q : option string * option string * option Status → bool) :
  chosen_column col g = Some c → prepare_items p g col = Some items →
  count (λ it, q (p_domain it, p_reason it, p_status it)) items
  = count (λ n, q (nz_domain n, nz_reason n, if nz_ok n then None else Some invalid_input))
          (normalize_column p c (derives g (Some c))).
Proof.
  intros Hc Hi. destruct (prepare_items_spec p g col c items Hc Hi) as [_ E].
  apply (f_equal (count q)) in E. by rewrite !count_fmap in E.
Qed.

Lemma prepare_items_domains p g col c items d :
  chosen_column col g = Some c → prepare_items p g col = Some items →
  d ∈ omap nz_domain (keep nz_ok (normalize_column p c (derives g (Some c)))) ↔ ∃ it, it ∈ items ∧ usable it d.
Proof.
  intros Hc Hi. destruct (prepare_items_spec p g col c items Hc Hi) as [_ E].
  rewrite list_elem_of_omap. unfold usable. split.
  - intros (n & [Hn Hok]%elem_of_keep & Hd).
    assert ((nz_domain n, nz_reason n, if nz_ok n then None else Some invalid_input)
      ∈ (λ it, (p_domain it, p_reason it, p_status it)) <$> items) as Hin.
    { rewrite E. apply list_elem_of_fmap. by exists n. }
    apply list_elem_of_fmap in Hin as (it & Heq & Hit). injection Heq as Hdom _ _. exists it.
    split; [done|]. split; [congruence|].
    unfold normalize_column in Hn. apply list_elem_of_fmap in Hn as (v & -> & _). by eapply normalize_value_nonempty.
  - intros (it & Hit & Hd & _).
    assert ((p_domain it, p_reason it, p_status it) ∈ (λ n, (nz_domain n, nz_reason n, if nz_ok n then None else Some invalid_input))
      <$> normalize_column p c (derives g (Some c))) as Hin.
    { rewrite <- E. apply list_elem_of_fmap. by exists it. }
    apply list_elem_of_fmap in Hin as (n & Heq & Hn). injection Heq as Hdom _ _. exists n.
    split; [|congruence]. apply elem_of_keep. split; [done|].
    unfold normalize_column in Hn. apply list_elem_of_fmap in Hn as (v & -> & _). apply normalize_value_ok.
    rewrite <- Hdom, Hd. by eexists.
Qed.
End preview.

Lemma rows_from_length now j seq ds : length (rows_from now j seq ds) = length ds.
Proof. revert seq. induction ds as [|d ds IH]; intros seq; cbn; [done|]. by rewrite IH. Qed.

Lemma rows_from_domains now j seq ds : map jd_domain (rows_from now j seq ds) = ds.
Proof. revert seq. induction ds as [|d ds IH]; intros seq; cbn; [done|]. by rewrite IH. Qed.

Lemma count_map {A B} (p : B → bool) (f : A → B) l : count p (map f l) = count (λ x, p (f x)) l.
Proof. unfold count, keep. induction l as [|x l IH]; cbn; [done|]. destruct (p (f x)); cbn; by rewrite IH. Qed.

(** C29: the preview of an upload describes the job that the same upload creates, with the
    same column: the job's total and the rows it stores are as many as the preview's rows,
    its queue rows as many as the preview's distinct domains, one per domain, and the rows
    stored as invalid and as empty as many as the preview says. *)
Theorem preview_matches_job `{Tld} `{IpLiteral} `{Idna} (p : ParsedFile) (g : ColumnGuess) samples col items
    cfg db now job_id a :
  prepare_items p g col = Some items →
  let pv := preview p g samples col in
  let '((job, _, _), db') := create_job cfg db now job_id items a in
  ∃ stored queued,
    job_items db' = job_items db ++ stored ∧ job_domains db' = job_domains db ++ queued ∧ jobs db' = jobs db ++ [job] ∧
    j_total job = Z.of_nat (pv_row_count pv) ∧ length stored = pv_row_count pv ∧
    length queued = pv_unique_domains pv ∧ NoDup (map jd_domain queued) ∧
    count (λ it, null_eq (ji_status it) invalid_input) stored = pv_invalid_count pv ∧
    count (λ it, null_eq (ji_reason it) "empty") stored = pv_empty_website_count pv.
Proof.
  intros Hi pv. destruct (prepare_items_column p g col items Hi) as (c & Hc & Hne).
  destruct (prepare_items_spec p g col c items Hc Hi) as [Hlen _].
  unfold create_job. cbn zeta. unfold pv, preview. rewrite Hc, Hne.
  cbn [pv_row_count pv_unique_domains pv_invalid_count pv_empty_website_count jobs job_items job_domains].
  exists (map (item_row job_id) items), (rows_from now job_id 0 (unique_domains items)).
  rewrite <- concat_map, concat_chunks, insert_chunks_concat, concat_chunks by lia.
  rewrite length_map, rows_from_length, !count_map. split_and!; try done.
  - destruct (unique_domains items); cbn; by rewrite Hlen.
  - apply unique_domains_remove_dups. intros d. by apply (prepare_items_domains p g col).
  - rewrite rows_from_domains. apply NoDup_unique_domains.
  - cbn [item_row ji_status]. rewrite (prepare_items_count p g col c items (λ x, null_eq x.2 invalid_input) Hc Hi).
    apply count_ext. intros n _. cbn. by destruct (nz_ok n).
  - exact (prepare_items_count p g col c items (λ x, null_eq x.1.2 "empty") Hc Hi).
Qed.

Definition example_file : ParsedFile :=
  mkParsedFile ["Website"] [[("Website", "acme.com")]; [("Website", "https://www.acme.com/x")]; [("Website", "")]] true "," "utf-8".

Lemma preview_matches_job_witness :
  pv_unique_domains (preview example_file (detect_column example_file) 5 None) = 1%nat ∧
  ∃ items db', prepare_items example_file (detect_column example_file) None = Some items ∧
    (create_job default_settings (mkDB [] [] [] []) 0 1%N items (mkNewJob [] None None None false None None None)).2 = db' ∧
    length (job_domains db') = 1%nat.
Proof.
  split; [vm_compute; reflexivity|].
  destruct (prepare_items example_file (detect_column example_file) None) as [items|] eqn:E;
    [|vm_compute in E; discriminate].
  pose proof (preview_matches_job example_file (detect_column example_file) 5 None items default_settings
    (mkDB [] [] [] []) 0 1%N (mkNewJob [] None None None false None None None) E) as H.
  cbn zeta in H. exists items. destruct (create_job _ _ _ _ _ _) as [[[job x] y] z]. exists z.
  destruct H as (stored & queued & _ & Hq & _ & _ & _ & Hu & _). split; [reflexivity|]. split; [reflexivity|].
  rewrite Hq. cbn [job_domains app]. rewrite Hu. vm_compute. reflexivity.
Defined.

(** ** Which column is chosen *)

Lemma dict_of_lookup {V} (l d : list (string * V)) k v :
  dict_get (fold_left (λ d kv, dict_set d kv.1 kv.2) l d) k = Some v → (k, v) ∈ l ∨ dict_get d k = Some v.
Proof.
  revert d. induction l as [|[k' v'] l IH]; intros d; cbn; [by right|]. intros [Hl|Hd]%IH; [left; set_solver|].
  rewrite dict_get_set in Hd. destruct (String.eqb_spec k' k) as [->|]; [|by right].
  injection Hd as ->. left. set_solver.
Qed.

Lemma dict_of_dom {V} (l d : list (string * V)) k :
  is_Some (dict_get (fold_left (λ d kv, dict_set d kv.1 kv.2) l d) k) ↔ k ∈ map fst l ∨ is_Some (dict_get d k).
Proof.
  revert d. induction l as [|[k' v'] l IH]; intros d; cbn; [set_solver|]. rewrite IH, dict_get_set, elem_of_cons.
  destruct (String.eqb_spec k' k) as [->|]; [|naive_solver]. split; [naive_solver|]. intros _. right. by eexists.
Qed.

Lemma dict_of_None {V} (l : list (string * V)) k : dict_get (dict_of l) k = None ↔ k ∉ map fst l.
Proof.
  rewrite <- not_elem_of_nil with (x := k) || idtac. unfold dict_of.
  pose proof (dict_of_dom l [] k) as Hd. destruct (dict_get _ k) as [v|]; split; try done.
  - intros Hk. destruct (proj1 Hd ltac:(by eexists)) as [?|[? ?]]; done.
  - intros _ Hk. destruct (proj2 Hd (or_introl Hk)) as [? ?]. done.
Qed.

Lemma dict_of_own {V} (f : string → V) hs h :
  h ∈ hs → dict_get (dict_of (map (λ h, (h, f h)) hs)) h = Some (f h).
Proof.
  intros Hh. unfold dict_of. destruct (dict_get _ h) as [v|] eqn:E.
  - apply dict_of_lookup in E as [E|E]; [|done]. apply list_elem_of_fmap in E as (x & [= <- ->] & _). done.
  - exfalso. assert (h ∉ map fst (map (λ h, (h, f h)) hs)) as Hn by (by apply dict_of_None). apply Hn.
    rewrite map_map. apply list_elem_of_fmap. by exists h.
Qed.

Lemma first_some_None {A B} (f : A → option B) l : first_some f l = None ↔ ∀ x, x ∈ l → f x = None.
Proof.
  induction l as [|a l IH]; cbn; [set_solver|]. destruct (f a) eqn:E; [|rewrite IH; set_solver].
  split; [done|]. intros H. rewrite (H a) in E; [done|set_solver].
Qed.

Lemma CompareOk_Q : CompareOk Qcompare.
Proof.
  split.
  - intros x y. symmetry. apply Qcompare_antisym.
  - intros x y z. rewrite <- !Qlt_alt. apply Qlt_trans.
  - intros x y z H%Qeq_alt. by rewrite H.
Qed.

Lemma CompareOk_flip {A} (cmp : A → A → comparison) : CompareOk cmp → CompareOk (λ x y, cmp y x).
Proof.
  intros H. split.
  - intros x y. apply (cmp_flip _ H).
  - intros x y z H1 H2. by apply (cmp_lt_trans _ H z y x).
  - intros x y z E. apply cmp_eq_r; [done|]. rewrite (cmp_flip _ H y x), E. done.
Qed.

Section columns.
Context `{Tld} `{IpLiteral} `{Idna}.

Lemma CompareOk_columns p scores : CompareOk (cmp_columns p scores).
Proof.
  unfold cmp_columns.
  apply (CompareOk_lex (λ a b, Qcompare (score_of scores b) (score_of scores a)) (λ a b, lex _ _)).
  { apply (CompareOk_on (score_of scores) (λ x y, Qcompare y x)), CompareOk_flip, CompareOk_Q. }
  apply (CompareOk_lex (λ a b, Qcompare (social_share (column p a)) (social_share (column p b)))).
  { apply (CompareOk_on (λ a, social_share (column p a)) Qcompare), CompareOk_Q. }
  apply (CompareOk_on (λ a, index_of a (pf_headers p)) Nat.compare), CompareOk_nat.
Qed.

Definition header_named (p : ParsedFile) (w h : string) : Prop := h ∈ pf_headers p ∧ norm_header h = w.

Lemma normed_Some p w h :
  dict_get (dict_of (map (λ h, (norm_header h, h)) (pf_headers p))) w = Some h → header_named p w h.
Proof.
  intros [E|E]%dict_of_lookup; [|done]. apply list_elem_of_fmap in E as (x & [= -> ->] & Hx). done.
Qed.

Lemma normed_None p w :
  dict_get (dict_of (map (λ h, (norm_header h, h)) (pf_headers p))) w = None → ∀ h, ¬ header_named p w h.
Proof.
  intros E%dict_of_None h [Hh Hn]. apply E. rewrite map_map. apply list_elem_of_fmap. by exists h.
Qed.

(** The best column by content has the greatest score. *)
Lemma ranked_head_best p b :
  let scores := dict_of (map (λ h, (h, score_column (column p h))) (pf_headers p)) in
  head (sort_by (λ x y, le_of (cmp_columns p scores x y)) (pf_headers p)) = Some b →
  b ∈ pf_headers p ∧ score_of scores b = score_column (column p b) ∧
  ∀ h, h ∈ pf_headers p → (score_column (column p h) <= score_column (column p b))%Q.
Proof.
  intros scores Hh. destruct (sort_by _ _) as [|x k] eqn:E; [done|]. injection Hh as ->.
  assert (b ∈ pf_headers p) as Hb by (eapply elem_of_sort_by; rewrite E; set_solver).
  assert (∀ h, h ∈ pf_headers p → score_of scores h = score_column (column p h)) as Hs.
  { intros h Hin. unfold score_of, scores. by rewrite (dict_of_own (λ h, score_column (column p h))). }
  split; [done|]. split; [by apply Hs|]. intros h Hin. rewrite <- (Hs b Hb), <- (Hs h Hin).
  pose proof (CompareOk_columns p scores) as Hc.
  destruct (sort_by_head_least (λ x y, le_of (cmp_columns p scores x y))
    (λ x y, CompareOk_total _ x y Hc) (λ x y z, CompareOk_trans _ x y z Hc) b (pf_headers p) k E h Hin) as [Hle| ->].
  2:{ apply Qle_refl. }
  unfold cmp_columns in Hle. apply Qle_alt. intros Hgt. by rewrite Hgt in Hle.
Qed.

(** The first wanted name that is present, and that the earlier ones are not. *)
Lemma header_match_first ws normed col :
  header_match ws normed = Some col →
  ∃ w, w ∈ ws ∧ dict_get normed w = Some col ∧ ∀ w', w' ∈ take (index_of w ws) ws → dict_get normed w' = None.
Proof.
  unfold header_match. induction ws as [|w ws IH]; cbn; [done|]. destruct (dict_get normed w) eqn:E.
  - intros [= ->]. exists w. split; [set_solver|]. split; [done|]. rewrite String.eqb_refl. cbn. set_solver.
  - intros (w1 & Hw1 & Hd & Hall)%IH. exists w1. split; [set_solver|]. split; [done|].
    destruct (String.eqb_spec w w1) as [->|]; [congruence|]. cbn. intros w' [->|Hw']%elem_of_cons; [done|]. by apply Hall.
Qed.

(** A score that passes the threshold is a column's own. *)
Lemma passing_score p (f : list string → Q) h :
  let scores := dict_of (map (λ h, (h, f (column p h))) (pf_headers p)) in
  Qle_bool CONTENT_THRESHOLD (score_of scores h) = true →
  h ∈ pf_headers p ∧ (CONTENT_THRESHOLD <= f (column p h))%Q.
Proof.
  intros scores Hq%Qle_bool_iff. unfold score_of in Hq. destruct (decide (h ∈ pf_headers p)) as [Hin|Hn].
  - split; [done|]. unfold scores in Hq. by rewrite (dict_of_own (λ h, f (column p h))) in Hq.
  - exfalso. assert (dict_get scores h = None) as Hd.
    { apply dict_of_None. rewrite map_map. intros Hx. apply list_elem_of_fmap in Hx as (x & -> & ?). done. }
    rewrite Hd in Hq. vm_compute in Hq. by apply Hq.
Qed.
End columns.

(** The column detected is one of the file's.  A header that names a website wins over
    any contents, the most specific name first; without one, the column chosen by contents
    has the greatest share of websites of all columns, at least three fifths; an email column
    is only ever offered, never chosen, and only when nothing better was found. *)
Theorem detect_column_sound `{Tld} `{IpLiteral} `{Idna} (p : ParsedFile) :
  let g := detect_column p in
  match cg_method g with
  | by_header => ∃ w c, cg_column g = Some c ∧ header_named p w c ∧ w ∈ HEADER_PRIORITY
      ∧ ∀ w', w' ∈ take (index_of w HEADER_PRIORITY) HEADER_PRIORITY → ∀ h, ¬ header_named p w' h
  | by_content => ∃ c, cg_column g = Some c ∧ c ∈ pf_headers p ∧ (CONTENT_THRESHOLD <= score_column (column p c))%Q
      ∧ (∀ h, h ∈ pf_headers p → (score_column (column p h) <= score_column (column p c))%Q)
      ∧ ∀ w h, w ∈ HEADER_PRIORITY → ¬ header_named p w h
  | by_email => cg_column g = None ∧ ∃ c, cg_email_column g = Some c ∧ c ∈ pf_headers p
      ∧ (CONTENT_THRESHOLD <= score_emails (column p c))%Q
  | by_none => cg_column g = None ∧ cg_email_column g = None
  end.
Proof.
  unfold detect_column. cbn zeta. set (normed := dict_of (map (λ h, (norm_header h, h)) (pf_headers p))).
  destruct (header_match HEADER_PRIORITY normed) as [col|] eqn:Em.
  - cbn. destruct (header_match_first _ _ _ Em) as (w & Hw & Hd & Hall).
    exists w, col. split; [done|]. split; [by apply normed_Some|].
    split; [done|]. intros w' Hw'. by apply normed_None, Hall.
  - set (scores := dict_of (map (λ h, (h, score_column (column p h))) (pf_headers p))).
    set (ranked := sort_by _ (pf_headers p)).
    destruct (match match head ranked with Some b => _ | None => None end with Some b => _ | None => None end) as [b|] eqn:Eb.
    + cbn. destruct (head ranked) as [b0|] eqn:Eh; [|done]. destruct (nonempty b0); [|done].
      destruct (Qle_bool CONTENT_THRESHOLD (score_of scores b0)) eqn:Eq; [|done]. injection Eb as <-.
      destruct (ranked_head_best p b0 Eh) as (_ & _ & Hmax). apply (passing_score p score_column) in Eq as [Hb Hge].
      exists b0. repeat (split; [done|]).
      intros w h Hw. unfold header_match in Em. rewrite first_some_None in Em. by apply normed_None, Em.
    + set (es := dict_of (map (λ h, (h, score_emails (column p h))) (pf_headers p))).
      destruct (first_some _ EMAIL_HEADERS) as [h|] eqn:Ef; cbn.
      * split; [done|]. exists h. split; [done|]. apply first_some_Some in Ef as (w & _ & Ew).
        destruct (dict_get normed w) as [h0|] eqn:Ed; [|done].
        destruct (Qle_bool _ (score_of es h0)) eqn:Eq; [|done]. injection Ew as <-.
        by apply (passing_score p score_emails).
      * destruct (best_key es) as [[h s]|] eqn:Ek; [|done].
        destruct (nonempty h && Qle_bool CONTENT_THRESHOLD (score_of es h)) eqn:Eg; [|done].
        apply andb_true_iff in Eg as [_ Eg]. split; [done|]. exists h. split; [done|].
        by apply (passing_score p score_emails).
Qed.

(** Deriving a domain from an email cell never brings back what normalisation refused
    on purpose: an address at a free mail provider or on a social network stays invalid, and
    every derived domain is marked as coming from the email. *)
Theorem derived_never_free_mail `{Tld} `{IpLiteral} `{Idna} (p : ParsedFile) (col : string) (derive : bool) i v n :
  column p col !! i = Some v → normalize_column p col derive !! i = Some n →
  (null_any (nz_reason (normalize_input v)) ["free_email_only"; "social_or_directory"] = true → n = normalize_input v)
  ∧ (nz_ok (normalize_input v) = true → n = normalize_input v)
  ∧ (nz_ok (normalize_input v) = false → nz_ok n = true → nz_source n = from_email ∧ has_char "@" v = true).
Proof.
  intros Hv Hn. unfold normalize_column in Hn. rewrite list_lookup_fmap, Hv in Hn. injection Hn as <-.
  unfold normalize_value, derivable. destruct (nz_ok (normalize_input v)) eqn:Eo; cbn [negb andb].
  - rewrite andb_false_r. split; [done|]. split; [done|]. done.
  - destruct (null_any _ _) eqn:Er; [rewrite andb_false_r, andb_false_r; repeat split; congruence|].
    split; [done|]. split; [done|]. intros _.
    destruct (derive && (has_char "@" v && negb false)) eqn:Ed; [|congruence]. bool_to_prop.
    destruct (nz_ok (normalize_input (last_at_part v))); [|congruence]. done.
Qed.

Lemma derived_never_free_mail_witness :
  ∃ v n, column (mkParsedFile ["Email"] [[("Email", "bob@gmail.com")]] true "," "utf-8") "Email" !! 0 = Some v
    ∧ normalize_column (mkParsedFile ["Email"] [[("Email", "bob@gmail.com")]] true "," "utf-8") "Email" true !! 0 = Some n
    ∧ n = normalize_input v.
Proof.
  eexists _, _. split; [reflexivity|]. split; [reflexivity|].
  apply (proj1 (derived_never_free_mail (mkParsedFile ["Email"] [[("Email", "bob@gmail.com")]] true "," "utf-8")
           "Email" true 0 _ _ eq_refl eq_refl)).
  vm_compute. reflexivity.
Defined.
