(* ===== verification/Html.v ===== *)
(** * What the extractors use of Python's [html] and [urllib], and of the HTML parser

    [html.unescape], [urllib.parse.unquote] and the interface of the parsed page.  A
    character beyond the first 256 is stood in for by one character of the model, given by
    the class [Wide]; the table of named references is the class [Html5]; the parser
    (selectolax) is the class [Dom]. *)

From Stdlib Require Import ZArith NArith Ascii String Lia.
From stdpp Require Import base strings option sets list.
From S2P Require Import Prelude PyStr Regex Groups Emails.

(** The stand-in of a code point above U+00FF. *)
Class Wide := wide : N → ascii.

(** [html.entities.html5]: the text of a name, its semicolon included when it needs one. *)
Class Html5 := html5 : string → option string.

Definition chr `{Wide} (n : N) : ascii := if N.ltb n 256 then ascii_of_N n else wide n.

(** [pattern.sub(f, s)] for an [f] that may raise. *)
Definition sub_opt (f : list string → option string) (rs : list re) (s : string) : option string :=
  String.concat "" <$> mapM (λ p, match p with Plain c => Some (String c "") | Hit l => f l end) (pieces rs s).

(** ** [html.unescape] *)

Section unescape.
Context `{Wide} `{Html5}.

Definition is_hex (c : ascii) : bool := is_digit09 c || between 97 102 (lower_char c).

Definition CHARREF : list re :=
  [lit "&";
   alts [seqs [lit "#"; plus (Chr is_digit09); opt (lit ";")];
         seqs [lit "#"; Chr (in_set "xX"); plus (Chr is_hex); opt (lit ";")];
         Seq (between_times 1 32 (Chr (λ c, negb (in_set (" <&#;" +:+ String "009" (String "010" (String "012" ""))) c))))
             (opt (lit ";"))]].

(** The windows-1252 readings of the C1 controls. *)
Definition CP1252 : list N :=
  [8364; 129; 8218; 402; 8222; 8230; 8224; 8225; 710; 8240; 352; 8249; 338; 141; 381; 143;
   144; 8216; 8217; 8220; 8221; 8226; 8211; 8212; 732; 8482; 353; 8250; 339; 157; 382; 376]%N.

Definition invalid_charref (n : N) : option N :=
  if N.eqb n 0 then Some 65533%N
  else if N.eqb n 13 then Some 13%N
  else if N.leb 128 n && N.leb n 159 then Some (nth (N.to_nat (n - 128)) CP1252 0%N)
  else None.

Definition invalid_codepoint (n : N) : bool :=
  (N.leb 1 n && N.leb n 8) || (N.leb 14 n && N.leb n 31) || (N.leb 127 n && N.leb n 159)
  || (N.leb 64976 n && N.leb n 65007) || N.eqb n 11
  || (N.leb 65534 (N.modulo n 65536) && N.leb n 1114111).

Definition numeric_charref (n : N) : string :=
  match invalid_charref n with
  | Some x => String (chr x) ""
  | None =>
      if (N.leb 55296 n && N.leb n 57343) || N.ltb 1114111 n then String (chr 65533) ""
      else if invalid_codepoint n then ""
      else String (chr n) ""
  end.

Definition digits_value (base : N) (s : string) : N :=
  fold_left (λ acc c, acc * base + default 0 (hex_digit c))%N (list_ascii_of_string s) 0%N.

(** [int(s)] refuses more than 4300 decimal digits. *)
Definition MAX_INT_DIGITS : N := 4300.
Definition str_len (s : string) : N := N.of_nat (String.length s).

(** The longest prefix of two characters or more that is a name. *)
Fixpoint longest_name (n : nat) (s : string) : string :=
  match n with
  | S (S n' as n1) =>
      match html5 (str_take n s) with
      | Some t => t +:+ str_drop n s
      | None => longest_name n1 s
      end
  | _ => "&" +:+ s
  end.

(** [_replace_charref]; [None]: ValueError. *)
Definition replace_charref (groups : list string) : option string :=
  let s := nth 1 groups "" in
  match s with
  | String "#" rest =>
      if startswith_any rest ["x"; "X"]
      then Some (numeric_charref (digits_value 16 (rstrip_chars ";" (str_drop 1 rest))))
      else
        let digits := rstrip_chars ";" rest in
        if N.ltb MAX_INT_DIGITS (str_len digits) then None else Some (numeric_charref (digits_value 10 digits))
  | _ =>
      Some match html5 s with
           | Some t => t
           | None => longest_name (pred (String.length s)) s
           end
  end.

Definition unescape_html (s : string) : option string :=
  if has_char "&" s then sub_opt replace_charref CHARREF s else Some s.
End unescape.

(** ** [urllib.parse.unquote] *)

Section unquote.
Context `{Wide}.

(** [unquote_to_bytes] of an ASCII text. *)
Fixpoint unquote_bytes (s : string) : list N :=
  match s with
  | EmptyString => []
  | String c s' =>
      match s' with
      | String a (String b rest) =>
          match Ascii.eqb c "%", hex_digit a, hex_digit b with
          | true, Some x, Some y => (16 * x + y)%N :: unquote_bytes rest
          | _, _, _ => code c :: unquote_bytes s'
          end
      | _ => code c :: unquote_bytes s'
      end
  end.

Definition is_cont (d : N) : bool := N.leb 128 d && N.leb d 191.

(** The second byte a lead byte of three or four allows. *)
Definition second_of_3 (b d : N) : bool :=
  is_cont d && (if N.eqb b 224 then N.leb 160 d else if N.eqb b 237 then N.leb d 159 else true).
Definition second_of_4 (b d : N) : bool :=
  is_cont d && (if N.eqb b 240 then N.leb 144 d else if N.eqb b 244 then N.leb d 143 else true).

Definition REPLACEMENT : ascii := chr 65533.

(** [bytes.decode("utf-8", errors="replace")]: one replacement per maximal ill-formed part. *)
Fixpoint utf8_replace (bs : list N) : string :=
  match bs with
  | [] => ""
  | b :: r1 =>
      if N.ltb b 128 then String (chr b) (utf8_replace r1)
      else if N.leb 194 b && N.leb b 223 then
        match r1 with
        | d :: r2 => if is_cont d then String (chr ((b - 192) * 64 + (d - 128))) (utf8_replace r2)
                     else String REPLACEMENT (utf8_replace r1)
        | [] => String REPLACEMENT ""
        end
      else if N.leb 224 b && N.leb b 239 then
        match r1 with
        | d :: r2 =>
            if second_of_3 b d then
              match r2 with
              | e :: r3 => if is_cont e then String (chr ((b - 224) * 4096 + (d - 128) * 64 + (e - 128))) (utf8_replace r3)
                           else String REPLACEMENT (utf8_replace r2)
              | [] => String REPLACEMENT ""
              end
            else String REPLACEMENT (utf8_replace r1)
        | [] => String REPLACEMENT ""
        end
      else if N.leb 240 b && N.leb b 244 then
        match r1 with
        | d :: r2 =>
            if second_of_4 b d then
              match r2 with
              | e :: r3 =>
                  if is_cont e then
                    match r3 with
                    | f :: r4 => if is_cont f
                                 then String (chr ((b - 240) * 262144 + (d - 128) * 4096 + (e - 128) * 64 + (f - 128)))
                                             (utf8_replace r4)
                                 else String REPLACEMENT (utf8_replace r3)
                    | [] => String REPLACEMENT ""
                    end
                  else String REPLACEMENT (utf8_replace r2)
              | [] => String REPLACEMENT ""
              end
            else String REPLACEMENT (utf8_replace r1)
        | [] => String REPLACEMENT ""
        end
      else String REPLACEMENT (utf8_replace r1)
  end%N.

Definition is_ascii_char (c : ascii) : bool := between 0 127 c.

(** Runs of ASCII are decoded, the rest is kept; [run] is the current one, reversed. *)
Fixpoint unquote_runs (run s : string) : string :=
  match s with
  | EmptyString => utf8_replace (unquote_bytes (str_rev run))
  | String c s' =>
      if is_ascii_char c then unquote_runs (String c run) s'
      else utf8_replace (unquote_bytes (str_rev run)) +:+ String c (unquote_runs "" s')
  end.

Definition unquote (s : string) : string := if has_char "%" s then unquote_runs "" s else s.
End unquote.

(** ** The parsed page *)

(** [HTMLParser(html)], [None] when it raises; [css] on the tree and below a node, in
    document order; attributes, where an attribute without a value has none; the text of a
    node with a separator; removing and replacing nodes, which changes the tree. *)
Class Dom := {
  dom : Type;
  node : Type;
  parse_html : string → option dom;
  css : dom → string → list node;
  css_in : dom → node → string → list node;
  attributes : dom → node → list (string * option string);
  node_text : dom → node → string → string;
  decompose : node → dom → dom;
  replace_with : node → string → dom → dom;
  body_or_root : dom → option node
}.

Section dom.
Context `{Dom}.

(** [node.attributes.get(name) or ""]. *)
Definition attr (d : dom) (n : node) (name : string) : string :=
  match list_find (λ p : string * option string, p.1 = name) (attributes d n) with
  | Some (_, (_, Some v)) => v
  | _ => ""
  end.

(** [(node.attributes.get("href") or "").strip()] *)
Definition href (d : dom) (n : node) : string := strip (attr d n "href").
End dom.

(** [_WS.sub(" ", s)]. *)
Definition WS1 : re := plus (Chr is_space).
Definition collapse_ws (s : string) : string := re_sub WS1 " " s.

(** ** A small parser, for the examples

    Every tag starts a node that holds the text up to the next tag; node 0 is the root. *)

Module FlatDom.
Record flat := mkFlat { f_id : nat; f_tag : string; f_attrs : list (string * option string); f_text : string }.

Definition unquoted (v : string) : string := strip_chars (String "034" "'") v.

Definition flat_attr (s : string) : string * option string :=
  match partition_at "=" s with Some (k, v) => (k, Some (unquoted v)) | None => (s, None) end.

(** [tag attribute="value" ...>text] *)
Definition flat_node (id : nat) (s : string) : flat :=
  match partition_at ">" s with
  | Some (inside, txt) =>
      let words := keep nonempty (split_char " " inside) in
      mkFlat id (lower (default "" (head words))) (map flat_attr (tail words)) txt
  | None => mkFlat id "" [] s
  end.

Definition flat_parse (html : string) : list flat :=
  imap flat_node (match split_char "<" html with [] => [] | first :: rest => (">" +:+ first) :: rest end).

Definition flat_select (selector : string) (n : flat) : bool :=
  if String.eqb selector "*" then nonempty (f_tag n)
  else if String.eqb selector "a[href]" then String.eqb (f_tag n) "a" && mem "href" (map fst (f_attrs n))
  else String.eqb (f_tag n) selector.

#[export] Instance flat_dom : Dom := {
  dom := list flat;
  node := flat;
  parse_html html := Some (flat_parse html);
  css d selector := keep (flat_select selector) d;
  css_in d n selector := keep (flat_select selector) d;
  attributes d n := f_attrs n;
  node_text d n sep := if Nat.eqb (f_id n) 0 then join sep (map f_text d) else f_text n;
  decompose n d := keep (λ x, negb (Nat.eqb (f_id x) (f_id n))) d;
  replace_with n s d := map (λ x, if Nat.eqb (f_id x) (f_id n) then mkFlat (f_id x) "" [] (s +:+ f_text x) else x) d;
  body_or_root d := head d
}.

#[export] Instance plain_wide : Wide := λ _, "?"%char.
#[export] Instance few_names : Html5 := λ s, if String.eqb s "amp;" then Some "&" else None.
End FlatDom.
