(* ===== verification/SiteDocs.v ===== *)
(** * Robots, sitemap documents and links ([robots.py], [sitemap.py], [links.py] of
    [src/app/pipeline/discovery])

    What stage 3 reads off the site: the sitemaps robots.txt declares, the URLs of a sitemap
    document, and the same-site links of the homepage.  [None] stands for an exception
    (ValueError unless said otherwise). *)

From Stdlib Require Import ZArith NArith Ascii String Lia.
From stdpp Require Import base strings option sets list.
From S2P Require Import Prelude PyStr Regex Groups Url UrlJoin Emails Normalize Discovery HtmlScan Html.

(** ** robots.txt *)

Definition SITEMAP_LINE : list re := [seqs [Bol; spaces; lit_ci "sitemap:"; spaces]; plus (Chr (λ c, negb (is_space c)))].
Definition MAX_SITEMAPS : nat := 5.

Definition HTTP : list string := ["http://"; "https://"].

(** The characters [<>] and both quotes. *)
Definition LOC_QUOTES : string := "<>'" +:+ String "034"%char "".

Section robots.
Context `{Tld} `{IpLiteral}.

(** The loop over the lines found. *)
Fixpoint take_sitemaps (own : string) (limit : nat) (out raws : list string) : option (list string) :=
  match raws with
  | [] => Some out
  | raw :: rest =>
      let url := strip_chars LOC_QUOTES (strip raw) in
      if negb (startswith_any (lower url) HTTP) then take_sitemaps own limit out rest
      else
        u ← urlsplit url;
        let host := lower (hostname u) in
        if negb (nonempty host) || negb (String.eqb (registrable host) own) then take_sitemaps own limit out rest
        else
          let out' := if mem url out then out else out ++ [url] in
          if (limit <=? length out')%nat then Some out' else take_sitemaps own limit out' rest
  end.

Definition looks_like_html (text : string) : bool :=
  startswith_any (lower (str_take 15 (lstrip_by is_space text))) ["<!doctype"; "<html"].

Definition parse_sitemaps (robots_text site_host : string) : option (list string) :=
  if negb (nonempty robots_text) then Some []
  else if looks_like_html robots_text then Some []
  else take_sitemaps (registrable site_host) MAX_SITEMAPS [] (findall_group 1 SITEMAP_LINE robots_text).
End robots.

(** ** Sitemap documents *)

(** [(?:\w+:)?] *)
Definition NS_PREFIX : re := opt (Seq (plus (Chr is_word)) (lit ":")).
Definition not_gt : re := Chr (λ c, negb (Ascii.eqb c ">")).

(** [<(?:\w+:)?loc\[^>\]*>] *)
Definition LOC_OPEN : re := seqs [lit "<"; NS_PREFIX; lit_ci "loc"; Star not_gt; lit ">"].

(** The group takes as little as it can, at most the whole document of length [n]. *)
Definition LOC (n : nat) : list re :=
  [seqs [LOC_OPEN; spaces; opt (lit_ci "<![CDATA[")];
   upto_lazy n any_char;
   seqs [opt (lit "]]>"); spaces; lit "</"; NS_PREFIX; lit_ci "loc"; spaces; lit ">"]].

Definition IS_INDEX : re :=
  seqs [lit "<"; NS_PREFIX; lit_ci "sitemapindex"; Chr (λ c, is_space c || Ascii.eqb c ">")].

(** [gzip.decompress]: the bytes, an OSError, or another exception (a truncated stream is an
    EOFError, a corrupt one a zlib.error). *)
Inductive Gunzipped := GzBytes (bs : list N) | GzOSError | GzOther.
Class Gzip := gunzip : list N → Gunzipped.

(** Bytes, or a str already. *)
Definition maybe_gunzip `{Wide} `{Gzip} (raw : list N + string) : option string :=
  match raw with
  | inr text => Some text
  | inl bs =>
      if bool_decide (take 2 bs = [31; 139]%N)
      then match gunzip bs with
           | GzBytes out => Some (utf8_replace out)
           | GzOSError => Some ""
           | GzOther => None
           end
      else Some (utf8_replace bs)
  end.

Definition is_sitemap_index (text : string) : bool := re_search IS_INDEX (str_take 2048 text).

Section sitemap.
Context `{Wide} `{Html5}.

(** One captured value, entity-decoded; a swallowed opening tag is cut off. *)
Definition loc_value (raw : string) : option string :=
  value ← unescape_html (strip raw);
  if has_char "<" value
  then unescape_html (strip (List.last (re_split LOC_OPEN value) ""))
  else Some value.

Definition good_loc (value : string) : bool :=
  nonempty value && negb (has_char "<" value || has_char ">" value) && startswith_any (lower value) HTTP.

Fixpoint take_locs (out raws : list string) : option (list string) :=
  match raws with
  | [] => Some out
  | raw :: rest =>
      value ← loc_value raw;
      take_locs (if good_loc value && negb (mem value out) then out ++ [value] else out) rest
  end.

Definition parse_locs (text : string) : option (list string) :=
  take_locs [] (findall_group 1 (LOC (String.length text)) text).

Definition parse_plain_text (text : string) : list string :=
  keep (λ line, startswith_any (lower line) HTTP && negb (has_char " " line)) (map strip (splitlines text)).

Definition extract_urls (text : string) : option (list string * bool) :=
  locs ← parse_locs text;
  Some (match locs with [] => (parse_plain_text text, false) | _ => (locs, is_sitemap_index text) end).
End sitemap.

(** ** Links of the homepage *)

Definition SKIP_SCHEMES : list string :=
  ["mailto:"; "tel:"; "javascript:"; "sms:"; "fax:"; "data:"; "file:"; "callto:"].

Section links.
Context `{Tld} `{IpLiteral} `{Dom}.

Definition anchor_text (d : dom) (n : node) : string :=
  str_take 120 (lower (strip (collapse_ws (node_text d n " ")))).

(** What one anchor is: skipped, or a same-site URL. *)
Definition link_target (own base_url h : string) : option (option string) :=
  if negb (nonempty h) || startswith h "#" || startswith_any (lower h) SKIP_SCHEMES then Some None
  else
    match urljoin base_url h ≫= urldefrag with
    | None => Some None
    | Some absolute =>
        parts ← urlsplit absolute;
        if negb (mem (u_scheme parts) ["http"; "https"]) then Some None
        else
          let host := lower (hostname parts) in
          Some (if negb (nonempty host) || negb (String.eqb (registrable host) own) then None else Some absolute)
    end.

Fixpoint take_links (own base_url : string) (d : dom) (out : list (string * string)) (nodes : list node)
    : option (list (string * string)) :=
  match nodes with
  | [] => Some out
  | n :: rest =>
      t ← link_target own base_url (href d n);
      take_links own base_url d
        match t with
        | Some absolute => if mem absolute (map fst out) then out else out ++ [(absolute, anchor_text d n)]
        | None => out
        end rest
  end.

Definition extract_links (html base_url : string) : option (list (string * string)) :=
  if negb (nonempty html) then Some []
  else match parse_html html with
       | None => Some []
       | Some d =>
           base ← urlsplit base_url;
           take_links (registrable (lower (hostname base))) base_url d [] (css d "a[href]")
       end.
End links.

(** * What stage 3 reads off a site ([robots.py], [sitemap.py], [links.py]) *)

(** ** Appending what is new *)

Lemma NoDup_snoc {A} (l : list A) x : NoDup l → x ∉ l → NoDup (l ++ [x]).
Proof.
  intros Hl Hx. apply NoDup_app. split; [done|]. split; [|apply NoDup_singleton].
  by intros y Hy ->%list_elem_of_singleton.
Qed.

Lemma snoc_new {A} `{EqDecision A} (l : list A) x (P : A → Prop) :
  NoDup l → Forall P l → P x →
  NoDup (if mem x l then l else l ++ [x]) ∧ Forall P (if mem x l then l else l ++ [x]).
Proof.
  intros Hn Hf Hx. destruct (mem x l) eqn:E; [done|]. apply mem_false in E.
  split; [by apply NoDup_snoc|]. apply Forall_app. split; [done|]. by apply Forall_singleton.
Qed.

(** ** robots.txt *)

Section robots.
Context `{Tld} `{IpLiteral}.

(** A sitemap the site declares for itself. *)
Definition own_sitemap (text own url : string) : Prop :=
  contains text url = true ∧ startswith_any (lower url) HTTP = true ∧ same_site url own = Some true.

Lemma take_sitemaps_ok text own limit out raws r :
  NoDup out → Forall (own_sitemap text own) out → (length out < limit)%nat →
  (∀ raw, raw ∈ raws → contains text raw = true) →
  take_sitemaps own limit out raws = Some r →
  NoDup r ∧ Forall (own_sitemap text own) r ∧ (length r ≤ limit)%nat.
Proof.
  revert out. induction raws as [|raw raws IH]; intros out Hn Hf Hl Hr E; cbn [take_sitemaps] in E.
  { injection E as <-. split_and!; [done|done|lia]. }
  assert (∀ x, x ∈ raws → contains text x = true) as Hr' by (intros x Hx; apply Hr; by right).
  destruct (startswith_any _ HTTP) eqn:Eh; cbn [negb] in E; [|by apply (IH out)].
  destruct (urlsplit _) as [u|] eqn:Eu; [|done]. cbn [mbind option_bind] in E.
  destruct (_ || _) eqn:Eo; [by apply (IH out)|]. apply orb_false_iff in Eo as [E1%negb_false_iff E2%negb_false_iff].
  set (url := strip_chars LOC_QUOTES (strip raw)) in *.
  assert (own_sitemap text own url) as Hu.
  { split_and!; [|done|].
    - eapply contains_trans; [apply Hr; left|]. eapply contains_trans; apply contains_strip_by.
    - unfold same_site. rewrite Eu. cbn. by rewrite E1, E2. }
  destruct (snoc_new out url (own_sitemap text own) Hn Hf Hu) as [Hn' Hf'].
  set (out' := if mem url out then out else out ++ [url]) in *.
  assert (length out' ≤ limit)%nat by (subst out'; break; rewrite ?length_app; cbn; lia).
  destruct (Nat.leb_spec limit (length out')); [by injection E as <-|]. by apply (IH out').
Qed.

(** The sitemaps taken from robots.txt are the site's own.  Whatever the file says, at most
    five URLs come back, no URL twice, each an http or https URL that stands in the file and
    whose host has the registrable domain of the site. *)
Theorem parse_sitemaps_own (robots_text site_host : string) (urls : list string)
    (Hparse : parse_sitemaps robots_text site_host = Some urls) :
  (length urls ≤ 5)%nat ∧ NoDup urls ∧
  ∀ u, u ∈ urls → contains robots_text u = true ∧ startswith_any (lower u) HTTP = true ∧
                  same_site u (registrable site_host) = Some true.
Proof.
  unfold parse_sitemaps in Hparse. destruct (nonempty robots_text); cbn [negb] in Hparse.
  2:{ injection Hparse as <-. split_and!; [cbn; lia|constructor|set_solver]. }
  destruct (looks_like_html _); [injection Hparse as <-; split_and!; [cbn; lia|constructor|set_solver]|].
  assert (∀ raw, raw ∈ findall_group 1 SITEMAP_LINE robots_text → contains robots_text raw = true) as Hin.
  { intros raw (l & Hl & ->)%elem_of_map. eapply hits_contains; [exact Hl|].
    apply hits_match in Hl as (a & q & b & e & _ & Hs). inversion Hs as [|? ? ? ? ? ? ? _ _ Hs1]; subst.
    inversion Hs1; subst. cbn. right. left. }
  destruct (take_sitemaps_ok robots_text _ MAX_SITEMAPS [] _ _ (NoDup_nil_2) (List.Forall_nil _) ltac:(unfold MAX_SITEMAPS; cbn; lia) Hin Hparse)
    as (R1 & R2 & R3).
  split_and!; [done|done|]. by apply Forall_forall.
Qed.
End robots.

Lemma parse_sitemaps_own_witness :
  let robots := "User-agent: *" +:+ String "010" ("Sitemap: https://www.acme.com/a.xml" +:+ String "010"
                ("sitemap: https://cdn.example.net/b.xml" +:+ String "010" "Sitemap: https://www.acme.com/a.xml")) in
  parse_sitemaps robots "acme.com" = Some ["https://www.acme.com/a.xml"] ∧
  contains robots "https://www.acme.com/a.xml" = true.
Proof.
  intros robots. assert (parse_sitemaps robots "acme.com" = Some ["https://www.acme.com/a.xml"]) as E by (vm_compute; reflexivity).
  split; [exact E|]. destruct (parse_sitemaps_own robots "acme.com" _ E) as (_ & _ & U).
  apply (U "https://www.acme.com/a.xml"). left.
Defined.

(** ** Sitemap documents *)

Section documents.
Context `{Wide} `{Html5}.

Lemma take_locs_ok out raws r :
  NoDup out → Forall (λ v, good_loc v = true) out → take_locs out raws = Some r →
  NoDup r ∧ Forall (λ v, good_loc v = true) r.
Proof.
  revert out. induction raws as [|raw raws IH]; intros out Hn Hf E; cbn [take_locs] in E; [by injection E as <-|].
  destruct (loc_value raw) as [v|]; [|done]. cbn [mbind option_bind] in E. apply IH in E; [done| |].
  - destruct (good_loc v); [|done]. cbn. destruct (mem v out) eqn:Em; [done|]. apply mem_false in Em. by apply NoDup_snoc.
  - destruct (good_loc v) eqn:Eg; [|done]. cbn. destruct (mem v out); [done|].
    apply Forall_app. split; [done|]. by apply Forall_singleton.
Qed.

(** A sitemap document gives URLs and nothing else: every value is an http or https URL
    without markup, and the values of [<loc>] elements come once each. *)
Theorem extract_urls_are_urls (text : string) (urls : list string) (is_index : bool)
    (Hx : extract_urls text = Some (urls, is_index)) :
  (∀ u, u ∈ urls → startswith_any (lower u) HTTP = true) ∧
  (is_index = true → NoDup urls ∧ ∀ u, u ∈ urls → has_char "<" u = false ∧ has_char ">" u = false).
Proof.
  unfold extract_urls, parse_locs in Hx. destruct (take_locs [] _) as [locs|] eqn:E; [|done]. cbn in Hx.
  apply take_locs_ok in E as [Hn Hf]; [|apply NoDup_nil_2|constructor]. rewrite Forall_forall in Hf.
  assert (∀ u, u ∈ locs → startswith_any (lower u) HTTP = true ∧ has_char "<" u = false ∧ has_char ">" u = false) as Hl.
  { intros u Hu. specialize (Hf u Hu). unfold good_loc in Hf. apply andb_true_iff in Hf as [Hf ?].
    apply andb_true_iff in Hf as [_ Hf%negb_true_iff]. by apply orb_false_iff in Hf as [? ?]. }
  destruct locs as [|l0 locs].
  - injection Hx as <- <-. split; [|done]. intros u [_ Hu]%elem_of_keep. by apply andb_true_iff in Hu as [? _].
  - injection Hx as <- <-. split; [intros u Hu; by apply Hl|]. intros _. split; [done|]. intros u Hu. by apply Hl.
Qed.
End documents.

Lemma extract_urls_are_urls_witness :
  let text := "<sitemapindex><sitemap><loc>https://acme.com/a.xml?x=1&amp;y=2</loc></sitemap><loc>ftp://acme.com</loc></sitemapindex>" in
  @extract_urls FlatDom.plain_wide FlatDom.few_names text = Some (["https://acme.com/a.xml?x=1&y=2"], true) ∧
  startswith_any "https://acme.com/a.xml?x=1&y=2" HTTP = true.
Proof.
  intros text. assert (@extract_urls FlatDom.plain_wide FlatDom.few_names text = Some (["https://acme.com/a.xml?x=1&y=2"], true)) as E
    by (vm_compute; reflexivity).
  split; [exact E|]. destruct (@extract_urls_are_urls FlatDom.plain_wide FlatDom.few_names text _ _ E) as [U _].
  apply (U "https://acme.com/a.xml?x=1&y=2"). left.
Defined.

(** ** Links *)

Section links.
Context `{Tld} `{IpLiteral} `{Dom}.

(** A link of the page that stays on the site. *)
Definition own_link (d : dom) (own base_url : string) (x : string * string) : Prop :=
  ∃ n parts, n ∈ css d "a[href]" ∧ x.2 = anchor_text d n ∧
    (urljoin base_url (href d n) ≫= urldefrag) = Some x.1 ∧
    urlsplit x.1 = Some parts ∧ u_scheme parts ∈ ["http"; "https"] ∧ registrable (lower (hostname parts)) = own.

Lemma link_target_own own base_url h absolute :
  link_target own base_url h = Some (Some absolute) →
  ∃ parts, (urljoin base_url h ≫= urldefrag) = Some absolute ∧ urlsplit absolute = Some parts ∧
           u_scheme parts ∈ ["http"; "https"] ∧ registrable (lower (hostname parts)) = own.
Proof.
  unfold link_target. destruct (_ || _ || _); [done|].
  destruct (urljoin base_url h ≫= urldefrag) as [a|]; [|done].
  destruct (urlsplit a) as [parts|] eqn:Es; [|done]. cbn [mbind option_bind].
  destruct (mem (u_scheme parts) _) eqn:Em; cbn [negb]; [|done]. apply mem_true in Em.
  destruct (_ || _) eqn:Eo; [done|]. intros [= ->]. apply orb_false_iff in Eo as [_ Eo%negb_false_iff%String.eqb_eq].
  by exists parts.
Qed.

Lemma take_links_ok own base_url d out nodes r :
  NoDup (map fst out) → Forall (own_link d own base_url) out → (∀ n, n ∈ nodes → n ∈ css d "a[href]") →
  take_links own base_url d out nodes = Some r → NoDup (map fst r) ∧ Forall (own_link d own base_url) r.
Proof.
  revert out. induction nodes as [|n nodes IH]; intros out Hn Hf Hd E; cbn [take_links] in E; [by injection E as <-|].
  destruct (link_target own base_url (href d n)) as [t|] eqn:Et; [|done]. cbn [mbind option_bind] in E.
  assert (∀ x, x ∈ nodes → x ∈ css d "a[href]") as Hd' by (intros x Hx; apply Hd; by right).
  destruct t as [a|]; [|by apply (IH out)]. destruct (mem a (map fst out)) eqn:Em; [by apply (IH out)|].
  apply mem_false in Em. apply IH in E; [done| | |done].
  - rewrite map_app. by apply NoDup_snoc.
  - apply Forall_app. split; [done|]. apply Forall_singleton.
    apply link_target_own in Et as (parts & ? & ? & ? & ?). exists n, parts. split; [apply Hd; left|done].
Qed.

(** The links followed from the homepage are its own.  Each is the absolute form of an anchor
    of the page, without fragment, over http or https, to a host with the site's registrable
    domain, listed once, with at most 120 characters of lower-cased anchor text. *)
Theorem extract_links_own (html base_url : string) (links : list (string * string))
    (Hlinks : extract_links html base_url = Some links) :
  NoDup (map fst links) ∧
  ∀ x, x ∈ links → (String.length x.2 ≤ 120)%nat ∧
    ∃ d base, parse_html html = Some d ∧ urlsplit base_url = Some base ∧
              own_link d (registrable (lower (hostname base))) base_url x.
Proof.
  unfold extract_links in Hlinks. destruct (nonempty html); cbn [negb] in Hlinks.
  2:{ injection Hlinks as <-. split; [constructor|set_solver]. }
  destruct (parse_html html) as [d|]; [|injection Hlinks as <-; split; [constructor|set_solver]].
  destruct (urlsplit base_url) as [base|]; [|done]. cbn [mbind option_bind] in Hlinks.
  apply take_links_ok in Hlinks as [Hn Hf]; [|apply NoDup_nil_2|constructor|done]. rewrite Forall_forall in Hf.
  split; [done|]. intros x Hx. specialize (Hf x Hx). split; [|by exists d, base].
  destruct Hf as (n & parts & _ & -> & _). apply length_str_take.
Qed.
End links.

Lemma extract_links_own_witness :
  let html := "<html><a href=/contact#top>Contact Us</a><a href=https://www.facebook.com/acme>Us</a><a href=https://shop.acme.com/about>About</a><a href=mailto:x@acme.com>Mail</a></html>" in
  let links := [("https://www.acme.com/contact", "contact us"); ("https://shop.acme.com/about", "about")] in
  @extract_links sample_tld sample_ip FlatDom.flat_dom html "https://www.acme.com/" = Some links ∧ NoDup (map fst links).
Proof.
  intros html links.
  assert (@extract_links sample_tld sample_ip FlatDom.flat_dom html "https://www.acme.com/" = Some links) as E by (vm_compute; reflexivity).
  split; [exact E|]. exact (proj1 (@extract_links_own sample_tld sample_ip FlatDom.flat_dom html "https://www.acme.com/" links E)).
Defined.
