(* ===== verification/PageText.v ===== *)
(** * The text of a page ([cloudflare.py], [normalize_html.py], [context.py] of
    [src/app/pipeline/extract])

    Protected addresses are made visible, obfuscated ones rewritten outside JSON-LD, and the
    visible text, the title and the context of an address are taken from the parsed page. *)

From Stdlib Require Import ZArith NArith Ascii String Lia.
From stdpp Require Import base strings option sets list.
From S2P Require Import Prelude PyStr Regex Groups Url Emails Html HtmlScan.

(** ** Cloudflare's protected addresses *)

(** [(?:\[0-9a-fA-F\]{2}){5,}] *)
Definition HEX_PAIR : re := rep 2 (Chr is_hex).
Definition HEX_PAIRS : re := Seq (rep 5 HEX_PAIR) (Star HEX_PAIR).

Definition DQ : ascii := "034"%char.
Definition not_angle : re := Chr (λ c, negb (in_set "<>" c)).

Definition CARRIER : list re :=
  [seqs [lit "<"; Star not_angle; lit_ci "data-cfemail"; spaces; lit "="; spaces; Chr (Ascii.eqb DQ)];
   HEX_PAIRS;
   seqs [Chr (Ascii.eqb DQ); Star not_angle; lit ">"]].

Definition CF_LINK : list re := [lit_ci "/cdn-cgi/l/email-protection#"; HEX_PAIRS].

Definition group (i : nat) (groups : list string) : string := nth i groups "".
Definition whole (groups : list string) : string := String.concat "" groups.

Definition carrier (groups : list string) : string :=
  match decode_cf (group 1 groups) with
  | Some e => whole groups +:+ " " +:+ e +:+ " "
  | None => whole groups
  end.

Definition link (groups : list string) : string :=
  match decode_cf (group 1 groups) with Some e => "mailto:" +:+ e | None => whole groups end.

(** The addresses decoded at the matches of a pattern. *)
Definition decoded_at (rs : list re) (s : string) : list string := omap (λ g, decode_cf (group 1 g)) (hits rs s).

(** The page with the addresses visible, and the set of them. *)
Definition decode_html (html : string) : string * list string :=
  if negb (nonempty html) || (negb (contains (lower html) "cfemail") && negb (contains (lower html) "email-protection"))
  then (html, [])
  else
    let out := sub_with carrier CARRIER html in
    (sub_with link CF_LINK out, decoded_at CARRIER html ++ decoded_at CF_LINK out).

(** ** Normalisation *)

(** [type], an equals sign, an optional quote, [application/ld+json]. *)
Definition JSONLD_TYPE : re :=
  seqs [lit_ci "type"; spaces; lit "="; spaces; opt (Chr (λ c, Ascii.eqb c DQ || Ascii.eqb c "'"));
        lit_ci "application/ld+json"].

Definition BS : string := String "092"%char "".

Definition U_AT : re := Alt (lit_ci (BS +:+ "u0040")) (lit_ci (BS +:+ "x40")).
Definition U_DOT : re := Alt (lit_ci (BS +:+ "u002e")) (lit_ci (BS +:+ "x2e")).
Definition zeros : re := Star (Chr (Ascii.eqb "0")).
Definition ENT_AT : re :=
  alts [seqs [lit "&#"; zeros; lit "64;"]; seqs [lit_ci "&#x"; zeros; lit "40;"]; lit_ci "&commat;"].
Definition ENT_DOT : re :=
  alts [seqs [lit "&#"; zeros; lit "46;"]; seqs [lit_ci "&#x"; zeros; lit_ci "2e;"]; lit_ci "&period;"].
Definition PCT_AT : re := lit "%40".

(** Of the zero-width characters only the soft hyphen is below U+0100. *)
Definition ZERO_WIDTH : re := Chr (λ c, N.eqb (code c) 173).

Definition bracketed (word : string) : re :=
  seqs [spaces; Chr (in_set "[({"); spaces; lit_ci word; spaces; Chr (in_set "])}"); spaces].
Definition BRACKET_AT : re := bracketed "at".
Definition BRACKET_DOT : re := bracketed "dot".

Definition CUE_WORD : re :=
  alts [seqs [lit_ci "e"; opt (lit "-"); lit_ci "mail"]; lit_ci "mail"; lit_ci "contact";
        seqs [lit_ci "reach"; spaces1; lit_ci "us"]; seqs [lit_ci "write"; spaces1; lit_ci "to"];
        Seq (lit_ci "enquir") (Alt (lit_ci "y") (lit_ci "ies"));
        Seq (lit_ci "inquir") (Alt (lit_ci "y") (lit_ci "ies"))].
Definition CUE : re := seqs [WordB; CUE_WORD; WordB].

Definition SPELLED : list re :=
  [seqs [CUE; upto_lazy 40 not_angle; WordB];
   plus (Chr is_local_char);
   seqs [spaces1; lit_ci "at"; spaces1];
   plus (Chr is_host_char);
   seqs [spaces1; lit_ci "dot"; spaces1];
   alts (map lit_ci ["com"; "net"; "org"; "us"; "co"; "biz"; "info"; "io"]);
   WordB].

Definition spell (g : list string) : string :=
  group 0 g +:+ group 1 g +:+ "@" +:+ group 3 g +:+ "." +:+ group 5 g.

(** The rewrites before the spelled-out rule, and that rule. *)
Definition rewrite_marks (text : string) : string :=
  let text := re_sub U_AT "@" text in
  let text := re_sub U_DOT "." text in
  let text := re_sub ENT_AT "@" text in
  let text := re_sub ENT_DOT "." text in
  let text := re_sub PCT_AT "@" text in
  let text := re_sub ZERO_WIDTH "" text in
  let text := re_sub BRACKET_AT "@" text in
  re_sub BRACKET_DOT "." text.

Definition normalise_fragment (text : string) : string := sub_with spell SPELLED (rewrite_marks text).

Definition is_jsonld (b : Block) : bool := re_search JSONLD_TYPE (b_attrs b).

(** The parts: fragments normalised, JSON-LD blocks as they are. *)
Fixpoint normalize_from (html : string) (last : nat) (blocks : list Block) : string :=
  match blocks with
  | [] => normalise_fragment (str_drop last html)
  | b :: rest =>
      if is_jsonld b
      then normalise_fragment (slice last (b_start b) html) +:+ slice (b_start b) (b_end b) html
           +:+ normalize_from html (b_end b) rest
      else normalize_from html last rest
  end.

Definition normalize_html (html : string) : string :=
  if nonempty html then normalize_from html 0 (iter_blocks html "script") else "".

(** ** Visible text, title and context *)

Definition TAG : re := seqs [lit "<"; plus (Chr (λ c, negb (Ascii.eqb c ">"))); lit ">"].
Definition CONTEXT_CHARS : nat := 120.
Definition TITLE_CHARS : nat := 150.

Section text.
Context `{Wide} `{Html5} `{Dom}.

Definition squeeze (s : string) : string := strip (collapse_ws s).

(** [for node in tree.css(selector): f(node)], the list taken first. *)
Definition for_css (selector : string) (f : node → dom → dom) (d : dom) : dom :=
  fold_left (λ d n, f n d) (css d selector) d.

Definition attrs_text (d : dom) (n : node) : string :=
  join " " (omap (λ kv : string * option string,
                    v ← kv.2; if nonempty v then Some (kv.1 +:+ "=" +:+ String DQ (v +:+ String DQ "")) else None)
                 (attributes d n)).

Definition drop_script (n : node) (d : dom) : dom :=
  if re_search JSONLD_TYPE (attrs_text d n) then d else decompose n d.

Definition show_mailto (n : node) (d : dom) : dom :=
  let h := href d n in
  if startswith (lower h) "mailto:"
  then let address := strip (cut "?" (str_drop 7 h)).1 in
       if nonempty address then replace_with n (" " +:+ address +:+ " ") d else d
  else d.

(** [None]: ValueError from a numeric reference of too many digits. *)
Definition visible_text (html : string) : option string :=
  if negb (nonempty html) then Some ""
  else
    match parse_html html with
    | None => squeeze <$> unescape_html (re_sub TAG " " html)
    | Some d =>
        let d := fold_left (λ d tag, for_css tag decompose d) ["style"; "svg"; "noscript"; "template"; "head"] d in
        let d := for_css "script" drop_script d in
        let d := for_css "a[href]" show_mailto d in
        let text := match body_or_root d with Some b => node_text d b " " | None => "" end in
        squeeze <$> unescape_html text
    end.

(** The rougher text the parking rules read ([visible_text] of [parked.py]). *)
Definition parked_visible_text (html : string) : string :=
  if negb (nonempty html) then ""
  else
    match parse_html html with
    | None => squeeze (re_sub TAG " " html)
    | Some d =>
        let d := fold_left (λ d tag, for_css tag decompose d) ["script"; "style"; "svg"; "noscript"; "template"] d in
        squeeze (match body_or_root d with Some b => node_text d b " " | None => "" end)
    end.

Definition page_title (html : string) : string :=
  if negb (nonempty html) then ""
  else
    match parse_html html with
    | None => ""
    | Some d =>
        match css d "title" with
        | [] => ""
        | n :: _ => match unescape_html (node_text d n "") with
                    | Some t => str_take TITLE_CHARS (squeeze t)
                    | None => ""
                    end
        end
    end.
End text.

Definition context_for (text email : string) : string :=
  if negb (nonempty text) || negb (nonempty email) then ""
  else
    match find_from (lower text) (lower email) 0 with
    | None => ""
    | Some idx =>
        strip (slice (idx - CONTEXT_CHARS)
                     (min (String.length text) (idx + String.length email + CONTEXT_CHARS)) text)
    end.
