(* ===== verification/JsonLoads.v ===== *)
(** * Python's [json.loads]

    The scanner of the standard library on str: what it accepts, and that it reads back
    what [json.dumps] wrote.  A float is kept as its literal.  Nesting deeper than the
    interpreter's recursion limit is a RecursionError, every other refusal a ValueError. *)

From Stdlib Require Import ZArith NArith Ascii String Lia.
From stdpp Require Import base strings pretty option sets list.
From S2P Require Import Prelude PyStr Regex Url Emails Html Jobs Json Ingest IngestProps.

(** A value with the text after it, or the exception. *)
Inductive scanned (A : Type) := Got (a : A) (rest : string) | Invalid | TooDeep.
Arguments Got {A}. Arguments Invalid {A}. Arguments TooDeep {A}.

Definition then_ {A B} (x : scanned A) (f : A → string → scanned B) : scanned B :=
  match x with Got a rest => f a rest | Invalid => Invalid | TooDeep => TooDeep end.

Definition is_json_ws (c : ascii) : bool := in_set (" " +:+ String "009" (String "010" (String "013" ""))) c.
Definition skip_ws (s : string) : string := lstrip_by is_json_ws s.

(** ** Strings *)

Section strings.
Context `{Wide}.

Definition hex4 (a b c d : ascii) : option N :=
  x ← hex_digit a; y ← hex_digit b; z ← hex_digit c; t ← hex_digit d;
  Some (x * 4096 + y * 256 + z * 16 + t)%N.

(** The character a one-letter escape stands for. *)
Definition backslash_char (e : ascii) : option ascii :=
  if in_set (String dquote (String backslash "/")) e then Some e
  else if Ascii.eqb e "b" then Some "008"%char
  else if Ascii.eqb e "f" then Some "012"%char
  else if Ascii.eqb e "n" then Some "010"%char
  else if Ascii.eqb e "r" then Some "013"%char
  else if Ascii.eqb e "t" then Some "009"%char
  else None.

Definition high_surrogate (n : N) : bool := N.leb 55296 n && N.leb n 56319.
Definition low_surrogate (n : N) : bool := N.leb 56320 n && N.leb n 57343.

Definition cons_char (c : ascii) (x : scanned string) : scanned string :=
  then_ x (λ s rest, Got (String c s) rest).

(** The code point of a surrogate pair, when the escape [n] and what follows are one. *)
Definition pair_code (n : N) (s : string) : option N :=
  match s with
  | String b (String u (String e (String f (String g (String h _))))) =>
      match hex4 e f g h with
      | Some n2 =>
          if high_surrogate n && Ascii.eqb b backslash && Ascii.eqb u "u" && low_surrogate n2
          then Some (65536 + (n - 55296) * 1024 + (n2 - 56320))%N else None
      | None => None
      end
  | _ => None
  end.

(** [scanstring] after the opening quote; control characters are refused. *)
Fixpoint scan_string (s : string) : scanned string :=
  match s with
  | EmptyString => Invalid
  | String c s1 =>
      if Ascii.eqb c dquote then Got "" s1
      else if Ascii.eqb c backslash then
        match s1 with
        | EmptyString => Invalid
        | String e s2 =>
            if Ascii.eqb e "u" then
              match s2 with
              | String h1 (String h2 (String h3 (String h4 s3))) =>
                  match hex4 h1 h2 h3 h4 with
                  | None => Invalid
                  | Some n =>
                      match pair_code n s3 with
                      | Some n' =>
                          match s3 with
                          | String _ (String _ (String _ (String _ (String _ (String _ s4))))) =>
                              cons_char (chr n') (scan_string s4)
                          | _ => Invalid
                          end
                      | None => cons_char (chr n) (scan_string s3)
                      end
                  end
              | _ => Invalid
              end
            else match backslash_char e with
                 | Some x => cons_char x (scan_string s2)
                 | None => Invalid
                 end
        end
      else if N.ltb (code c) 32 then Invalid
      else cons_char c (scan_string s1)
  end.
End strings.

(** ** Numbers *)

Definition take_digits (s : string) : string * string := span (λ c, negb (is_digit09 c)) s.

(** [0], or digits that do not start with it, after an optional sign. *)
Definition scan_int (s : string) : option (string * string) :=
  let '(sign, s1) := if startswith s "-" then ("-", str_drop 1 s) else ("", s) in
  let '(digits, rest) := take_digits s1 in
  match digits with
  | EmptyString => None
  | String c _ =>
      if Ascii.eqb c "0" then Some (sign +:+ "0", str_drop 1 s1) else Some (sign +:+ digits, rest)
  end.

(** [\.\[0-9\]+] and [\[eE\]\[-+\]?\[0-9\]+], empty when absent. *)
Definition scan_frac (s : string) : string * string :=
  match s with
  | String "." s1 => let '(digits, rest) := take_digits s1 in
                     if nonempty digits then ("." +:+ digits, rest) else ("", s)
  | _ => ("", s)
  end.

Definition scan_exp (s : string) : string * string :=
  match s with
  | String e s1 =>
      if in_set "eE" e
      then let '(sign, s2) := match s1 with
                              | String c s2 => if in_set "+-" c then (String c "", s2) else ("", s1)
                              | EmptyString => ("", "")
                              end in
           let '(digits, rest) := take_digits s2 in
           if nonempty digits then (String e "" +:+ sign +:+ digits, rest) else ("", s)
      else ("", s)
  | EmptyString => ("", s)
  end.

Definition int_value (s : string) : Z :=
  match s with
  | String "-" digits => - Z.of_N (digits_value 10 digits)
  | _ => Z.of_N (digits_value 10 s)
  end.

(** [int(text)] refuses too many digits (a ValueError). *)
Definition scan_number (s : string) : scanned json :=
  match scan_int s with
  | None => Invalid
  | Some (i, s1) =>
      let '(f, s2) := scan_frac s1 in
      let '(e, s3) := scan_exp s2 in
      if nonempty f || nonempty e then Got (JFloat (i +:+ f +:+ e)) s3
      else if N.ltb MAX_INT_DIGITS (str_len (lstrip_chars "-" i)) then Invalid
      else Got (JInt (int_value i)) s3
  end.

(** ** Documents *)

Definition CONSTANTS : list (string * json) :=
  [("null", JNull); ("true", JBool true); ("false", JBool false); ("NaN", JFloat "NaN");
   ("Infinity", JFloat "Infinity"); ("-Infinity", JFloat "-Infinity")].

Fixpoint scan_constant (l : list (string * json)) (s : string) : option (json * string) :=
  match l with
  | [] => None
  | (w, v) :: l' => if startswith s w then Some (v, str_drop (String.length w) s) else scan_constant l' s
  end.

Section documents.
Context `{Wide}.

(** The elements of a container from the first one on, up to the closing bracket; each takes
    at least one character. *)
Fixpoint scan_seq {A} (one : string → scanned A) (close : ascii) (fuel : nat) (s : string) : scanned (list A) :=
  match fuel with
  | O => Invalid
  | S fuel' =>
      then_ (one s) (λ v rest,
        match skip_ws rest with
        | String c rest' =>
            if Ascii.eqb c "," then then_ (scan_seq one close fuel' (skip_ws rest')) (λ l r, Got (v :: l) r)
            else if Ascii.eqb c close then Got [v] rest'
            else Invalid
        | EmptyString => Invalid
        end)
  end.

Section containers.
Context (value : string → scanned json).

Definition scan_items : nat → string → scanned (list json) := scan_seq value "]".

Definition scan_member (s : string) : scanned (string * json) :=
  match s with
  | String c s1 =>
      if Ascii.eqb c dquote then
        then_ (scan_string s1) (λ k rest,
          match skip_ws rest with
          | String ":" rest' => then_ (value (skip_ws rest')) (λ v r, Got (k, v) r)
          | _ => Invalid
          end)
      else Invalid
  | EmptyString => Invalid
  end.

Definition scan_members : nat → string → scanned (list (string * json)) := scan_seq scan_member "}".
End containers.

(** [scan_once]; [limit] containers may still be opened. *)
Fixpoint scan_once (limit : nat) (s : string) {struct limit} : scanned json :=
  match s with
  | EmptyString => Invalid
  | String c s1 =>
      if Ascii.eqb c dquote then then_ (scan_string s1) (λ x r, Got (JStr x) r)
      else if Ascii.eqb c "{" || Ascii.eqb c "[" then
        match limit with
        | O => TooDeep
        | S l =>
            let s2 := skip_ws s1 in
            if Ascii.eqb c "{" then
              match s2 with
              | String "}" r => Got (JObj []) r
              | _ => then_ (scan_members (scan_once l) (S (String.length s2)) s2) (λ m r, Got (JObj (dict_of m)) r)
              end
            else
              match s2 with
              | String "]" r => Got (JArr []) r
              | _ => then_ (scan_items (scan_once l) (S (String.length s2)) s2) (λ v r, Got (JArr v) r)
              end
        end
      else
        match scan_constant CONSTANTS s with
        | Some (v, r) => Got v r
        | None => scan_number s
        end
  end.

(** [json.loads]: nothing but white space may follow. *)
Definition loads (limit : nat) (s : string) : scanned json :=
  then_ (scan_once limit (skip_ws s)) (λ v rest,
    match skip_ws rest with EmptyString => Got v "" | _ => Invalid end).
End documents.
