(* ===== verification/JsonLoadsProps.v ===== *)
(** * What [json.dumps] writes, [json.loads] reads back *)

From Stdlib Require Import ZArith NArith Ascii String Lia.
From stdpp Require Import base strings pretty option sets list.
From S2P Require Import Prelude PyStr Regex Groups Url Emails Html Jobs Json Ingest IngestProps JsonLoads.

(** ** Reading stops where it should *)

(** What may follow a number: nothing, or the punctuation of the container. *)
Definition delimited (rest : string) : Prop :=
  rest = "" ∨ ∃ c t, rest = String c t ∧ in_set ",]}" c = true.

Lemma in_set_cases (c : ascii) : in_set ",]}" c = true → c = ","%char ∨ c = "]"%char ∨ c = "}"%char.
Proof. unfold in_set, has_char. cbn. rewrite orb_false_r, !orb_true_iff, !Ascii.eqb_eq. tauto. Qed.

Lemma span_app p s rest : span p rest = ("", rest) → span p (s +:+ rest) = ((span p s).1, (span p s).2 +:+ rest).
Proof.
  intros Hr. induction s as [|c s IH]; cbn; [done|]. destruct (p c); [done|].
  rewrite IH. by destruct (span p s).
Qed.

Lemma delimited_span rest : delimited rest → take_digits rest = ("", rest).
Proof. intros [->|(c & t & -> & [->|[->| ->]]%in_set_cases)]; reflexivity. Qed.

Lemma take_digits_app s rest :
  delimited rest → take_digits (s +:+ rest) = ((take_digits s).1, (take_digits s).2 +:+ rest).
Proof. intros Hr. apply span_app. by apply delimited_span. Qed.

Lemma scan_int_app s rest i t :
  delimited rest → scan_int s = Some (i, t) → scan_int (s +:+ rest) = Some (i, t +:+ rest).
Proof.
  intros Hr. unfold scan_int.
  destruct s as [|c s]; [done|].
  assert (startswith (String c s +:+ rest) "-" = startswith (String c s) "-") as Hs.
  { unfold startswith. cbn [String.append String.prefix]. destruct (ascii_dec "-" c); [|done].
    by destruct (s +:+ rest), s. }
  rewrite Hs. destruct (startswith (String c s) "-") eqn:E; cbn [String.append str_drop].
  - rewrite (take_digits_app s rest Hr). destruct (take_digits s) as [d r] eqn:Ed. cbn [fst snd].
    destruct d as [|d0 d]; [done|]. destruct (Ascii.eqb d0 "0"); [|by intros [= <- <-]].
    intros [= <- <-]. by destruct s.
  - change (String c (s +:+ rest)) with (String c s +:+ rest).
    rewrite (take_digits_app (String c s) rest Hr). destruct (take_digits (String c s)) as [d r] eqn:Ed. cbn [fst snd].
    destruct d as [|d0 d]; [done|]. destruct (Ascii.eqb d0 "0"); by intros [= <- <-].
Qed.

Lemma scan_frac_app s rest : delimited rest → scan_frac (s +:+ rest) = ((scan_frac s).1, (scan_frac s).2 +:+ rest).
Proof.
  intros Hr. destruct s as [|c s].
  - cbn [String.append]. destruct Hr as [->|(c & t & -> & [->|[->| ->]]%in_set_cases)]; reflexivity.
  - destruct (Ascii.eqb_spec c ".") as [->|Hc].
    + cbn [String.append scan_frac]. rewrite (take_digits_app s rest Hr). destruct (take_digits s) as [d r]. cbn [fst snd].
      by destruct (nonempty d).
    + assert (∀ u, scan_frac (String c u) = ("", String c u)) as Hn.
      { intros u. destruct c as [[] [] [] [] [] [] [] []]; try reflexivity. by exfalso. }
      cbn [String.append]. by rewrite !Hn.
Qed.

Lemma scan_exp_app s rest : delimited rest → scan_exp (s +:+ rest) = ((scan_exp s).1, (scan_exp s).2 +:+ rest).
Proof.
  intros Hr. destruct s as [|c s].
  - cbn [String.append]. destruct Hr as [->|(c & t & -> & [->|[->| ->]]%in_set_cases)]; reflexivity.
  - cbn [String.append scan_exp]. destruct (in_set "eE" c); [|done].
    destruct s as [|d s]; cbn [String.append].
    + assert (match rest with
              | EmptyString => ("", "")
              | String c1 s2 => if in_set "+-" c1 then (String c1 "", s2) else ("", rest)
              end = ("", rest)) as ->.
      { destruct Hr as [->|(c1 & t & -> & [->|[->| ->]]%in_set_cases)]; reflexivity. }
      rewrite (delimited_span rest Hr). done.
    + destruct (in_set "+-" d).
      * rewrite (take_digits_app s rest Hr). destruct (take_digits s) as [ds r]. cbn [fst snd]. by destruct (nonempty ds).
      * change (String d (s +:+ rest)) with (String d s +:+ rest). rewrite (take_digits_app (String d s) rest Hr).
        destruct (take_digits (String d s)) as [ds r]. cbn [fst snd]. by destruct (nonempty ds).
Qed.

Lemma scan_number_app s rest v t :
  delimited rest → scan_number s = Got v t → scan_number (s +:+ rest) = Got v (t +:+ rest).
Proof.
  intros Hr. unfold scan_number. destruct (scan_int s) as [[i s1]|] eqn:Ei; [|done].
  rewrite (scan_int_app s rest i s1 Hr Ei), (scan_frac_app s1 rest Hr). destruct (scan_frac s1) as [f s2]. cbn [fst snd].
  rewrite (scan_exp_app s2 rest Hr). destruct (scan_exp s2) as [e s3]. cbn [fst snd].
  destruct (_ || _); [by intros [= <- <-]|]. destruct (N.ltb _ _); [done|]. by intros [= <- <-].
Qed.

(** ** Strings *)

Section strings.
Context `{Wide}.

Lemma pair_code_low n s : (n < 256)%N → pair_code n s = None.
Proof.
  intros Hn. unfold pair_code. assert (high_surrogate n = false) as ->.
  { unfold high_surrogate. apply andb_false_iff. left. apply N.leb_gt. lia. }
  repeat (destruct s as [|? s]; [done|]). by destruct (hex4 _ _ _ _).
Qed.

Lemma scan_escape_char c t x r :
  scan_string t = Got x r → scan_string (escape_char c +:+ t) = Got (String c x) r.
Proof.
  intros E. destruct c as [[] [] [] [] [] [] [] []];
    (match goal with |- context [escape_char ?c] =>
       let e := eval vm_compute in (escape_char c) in change (escape_char c) with e end);
    cbn -[pair_code chr hex4];
    try (match goal with |- context [hex4 ?a ?b ?c ?d] =>
       let e := eval vm_compute in (hex4 a b c d) in change (hex4 a b c d) with e end; cbn -[pair_code chr];
       rewrite pair_code_low by lia);
    rewrite E; reflexivity.
Qed.

Lemma scan_escape_char_unicode c t x r :
  scan_string t = Got x r → scan_string (escape_char_unicode c +:+ t) = Got (String c x) r.
Proof.
  intros E. unfold escape_char_unicode. destruct (N.leb_spec 127 (code c)) as [Hc|Hc]; [|by apply scan_escape_char].
  cbn [String.append scan_string].
  destruct (Ascii.eqb_spec c dquote) as [->|]; [vm_compute in Hc; by destruct Hc|].
  destruct (Ascii.eqb_spec c backslash) as [->|]; [vm_compute in Hc; by destruct Hc|].
  destruct (N.ltb_spec (code c) 32); [lia|]. by rewrite E.
Qed.

Lemma scan_escape s r : scan_string (escape s +:+ String dquote r) = Got s r.
Proof. induction s as [|c s IH]; [done|]. cbn [escape]. rewrite app_assoc_str. by apply scan_escape_char. Qed.

Lemma scan_escape_unicode s r : scan_string (escape_unicode s +:+ String dquote r) = Got s r.
Proof.
  induction s as [|c s IH]; [done|]. cbn [escape_unicode]. rewrite app_assoc_str. by apply scan_escape_char_unicode.
Qed.
End strings.

(** ** Integers *)

Lemma list_ascii_app a b : list_ascii_of_string (a +:+ b) = list_ascii_of_string a ++ list_ascii_of_string b.
Proof. induction a as [|c a IH]; cbn; [done|]. by rewrite IH. Qed.

Lemma digits_value_snoc d c v :
  hex_digit c = Some v → digits_value 10 (d +:+ String c "") = (digits_value 10 d * 10 + v)%N.
Proof. intros Hc. unfold digits_value. rewrite list_ascii_app, fold_left_app. cbn. by rewrite Hc. Qed.

Lemma pretty_N_char_digit v :
  (v < 10)%N → hex_digit (pretty_N_char v) = Some v ∧ is_digit09 (pretty_N_char v) = true ∧
               (pretty_N_char v = "0"%char → v = 0%N).
Proof.
  intros Hv. assert (v = 0 ∨ v = 1 ∨ v = 2 ∨ v = 3 ∨ v = 4 ∨ v = 5 ∨ v = 6 ∨ v = 7 ∨ v = 8 ∨ v = 9)%N as Hc by lia.
  repeat destruct Hc as [->|Hc]; try (subst v); (split_and!; [reflexivity|reflexivity|]); by vm_compute.
Qed.

(** The decimal digits of a positive number: no leading zero, and its value. *)
Definition digits_of_number (x : N) (d : string) : Prop :=
  str_all is_digit09 d = true ∧ digits_value 10 d = x ∧ ∃ c t, d = String c t ∧ c ≠ "0"%char.

Lemma pretty_N_go_digits x : (0 < x)%N → ∀ s, ∃ d, pretty_N_go x s = d +:+ s ∧ digits_of_number x d.
Proof.
  induction x as [x IH] using (well_founded_induction N.lt_wf_0). intros Hx s. rewrite pretty_N_go_step by done.
  set (v := (x `mod` 10)%N). assert (v < 10)%N as Hv by (apply N.mod_lt; done).
  destruct (pretty_N_char_digit v Hv) as (C1 & C2 & C3). pose proof (N.div_mod x 10 ltac:(done)) as Hdm. fold v in Hdm.
  destruct (decide (x / 10 = 0)%N) as [Ez|Ez].
  - rewrite Ez, pretty_N_go_0. exists (String (pretty_N_char v) ""). split; [done|]. rewrite Ez in Hdm.
    split_and!.
    + cbn. by rewrite C2.
    + unfold digits_value. cbn. rewrite C1. cbn. lia.
    + exists (pretty_N_char v), "". split; [done|]. intros Hz%C3. lia.
  - destruct (IH (x / 10)%N) with (s := String (pretty_N_char v) s) as (d & -> & D1 & D2 & c & t & -> & D3);
      [apply N.div_lt; lia|lia|].
    exists (String c t +:+ String (pretty_N_char v) ""). rewrite app_assoc_str. split; [done|]. split_and!.
    + rewrite str_all_app, D1. cbn. by rewrite C2.
    + rewrite (digits_value_snoc _ _ v C1), D2. lia.
    + by exists c, (t +:+ String (pretty_N_char v) "").
Qed.

Lemma pretty_pos_digits p : digits_of_number (N.pos p) (pretty (N.pos p)).
Proof.
  destruct (pretty_N_go_digits (N.pos p) ltac:(done) "") as (d & E & Hd). rewrite app_nil_str in E.
  by replace (pretty (N.pos p)) with d.
Qed.

Lemma take_all_digits d : str_all is_digit09 d = true → take_digits d = (d, "").
Proof.
  induction d as [|c d IH]; [done|]. cbn. intros [Hc Hd]%andb_true_iff. rewrite Hc. cbn. unfold take_digits in IH. by rewrite IH.
Qed.

(** Python refuses to read back an integer of more than [MAX_INT_DIGITS] digits. *)
Definition int_fits (n : Z) : Prop := (str_len (lstrip_chars "-" (pretty n)) ≤ MAX_INT_DIGITS)%N.

Lemma scan_pretty n : int_fits n → scan_number (pretty n) = Got (JInt n) "".
Proof.
  intros Hf. assert (scan_int (pretty n) = Some (pretty n, "") ∧ int_value (pretty n) = n) as [E1 E2].
  { destruct n as [|p|p]; [done| |]; destruct (pretty_pos_digits p) as (D1 & D2 & c & t & D3 & D4).
    - change (pretty (Z.pos p)) with (pretty (N.pos p)). rewrite D3 in *.
      pose proof (take_all_digits _ D1) as Et. cbn in D1. apply andb_true_iff in D1 as [Hc _].
      assert (c ≠ "-"%char) as Hm by (by intros Em; subst c).
      split.
      + unfold scan_int. assert (startswith (String c t) "-" = false) as ->.
        { unfold startswith. cbn [String.prefix]. destruct (ascii_dec "-" c) as [Hd|]; [by subst c|done]. }
        rewrite Et. by rewrite (proj2 (Ascii.eqb_neq c "0") D4).
      + unfold int_value. destruct c as [[] [] [] [] [] [] [] []]; first [by exfalso | exact (f_equal Z.of_N D2)].
    - change (pretty (Z.neg p)) with ("-" +:+ pretty (N.pos p)). rewrite D3 in *.
      split; [|cbn [String.append int_value]; by rewrite D2].
      unfold scan_int. cbn [String.append]. replace (startswith (String "-" (String c t)) "-") with true by done.
      cbn [str_drop]. rewrite (take_all_digits _ D1). by rewrite (proj2 (Ascii.eqb_neq c "0") D4). }
  unfold scan_number. rewrite E1. cbn [scan_frac scan_exp nonempty orb]. unfold int_fits in Hf.
  destruct (N.ltb_spec MAX_INT_DIGITS (str_len (lstrip_chars "-" (pretty n)))); [lia|]. by rewrite E2.
Qed.

(** ** Floats *)

Definition digits (d : string) : Prop := d ≠ "" ∧ str_all is_digit09 d = true.

(** The literals of [float.__repr__]: a fraction, an exponent or both. *)
Inductive float_literal : string → Prop :=
  FloatLiteral sign whole frac exp :
    sign ∈ [""; "-"] → digits whole → (whole = "0" ∨ startswith whole "0" = false) →
    (frac = "" ∨ ∃ d, frac = "." +:+ d ∧ digits d) →
    (exp = "" ∨ ∃ es d, es ∈ ["e"; "e+"; "e-"] ∧ exp = es +:+ d ∧ digits d) →
    (frac ≠ "" ∨ exp ≠ "") → float_literal (sign +:+ whole +:+ frac +:+ exp).

Lemma take_digits_stop d rest :
  str_all is_digit09 d = true → take_digits rest = ("", rest) → take_digits (d +:+ rest) = (d, rest).
Proof. intros Hd Hr. unfold take_digits in *. rewrite (span_app _ d rest Hr). fold (take_digits d). by rewrite (take_all_digits d Hd). Qed.

Lemma scan_exp_literal exp :
  exp = "" ∨ (∃ es d, es ∈ ["e"; "e+"; "e-"] ∧ exp = es +:+ d ∧ digits d) →
  scan_exp exp = (exp, "") ∧ take_digits exp = ("", exp).
Proof.
  intros [->|(es & d & Hes & -> & Hne & Hd)]; [done|].
  pose proof (take_all_digits d Hd) as Ht. destruct d as [|c d]; [done|].
  assert (in_set "+-" c = false) as Hc.
  { cbn in Hd. apply andb_true_iff in Hd as [Hc _]. destruct c as [[] [] [] [] [] [] [] []]; try done. }
  rewrite !elem_of_cons, elem_of_nil in Hes.
  destruct Hes as [->|[->|[->|[]]]]; split; try reflexivity; cbn -[take_digits in_set]; rewrite ?Hc;
    repeat match goal with |- context [in_set ?a ?b] => change (in_set a b) with true end; cbn -[take_digits]; by rewrite Ht.
Qed.

Lemma scan_frac_literal frac exp :
  frac = "" ∨ (∃ d, frac = "." +:+ d ∧ digits d) →
  exp = "" ∨ (∃ es d, es ∈ ["e"; "e+"; "e-"] ∧ exp = es +:+ d ∧ digits d) →
  scan_frac (frac +:+ exp) = (frac, exp) ∧ take_digits (frac +:+ exp) = ("", frac +:+ exp).
Proof.
  intros Hf He. destruct (scan_exp_literal exp He) as [_ Hs]. destruct Hf as [->|(d & -> & Hne & Hd)].
  - split; [|done]. destruct He as [->|(es & d & Hes & -> & _)]; [done|]. rewrite !elem_of_cons, elem_of_nil in Hes.
    by destruct Hes as [->|[->|[->|[]]]].
  - split; [|done]. rewrite app_assoc_str. cbn [String.append scan_frac]. rewrite (take_digits_stop d exp Hd Hs).
    by destruct d.
Qed.

Lemma scan_int_literal sign whole rest :
  sign ∈ [""; "-"] → digits whole → whole = "0" ∨ startswith whole "0" = false → take_digits rest = ("", rest) →
  scan_int (sign +:+ whole +:+ rest) = Some (sign +:+ whole, rest).
Proof.
  intros Hs [Hne Hw] Hz Hr. pose proof (take_digits_stop whole rest Hw Hr) as Ht. destruct whole as [|c w]; [done|].
  assert (c ≠ "-"%char) as Hm by (intros ->; cbn in Hw; done).
  assert (∀ sg, match String c w with EmptyString => None
     | String d _ => if Ascii.eqb d "0" then Some (sg +:+ "0", str_drop 1 (String c w +:+ rest)) else Some (sg +:+ String c w, rest) end
     = Some (sg +:+ String c w, rest)) as Hfin.
  { intros sg. destruct (Ascii.eqb_spec c "0") as [->|]; [|done].
    destruct Hz as [[= ->]|Hz]; [done|]. unfold startswith in Hz. cbn in Hz. by destruct w. }
  unfold scan_int. rewrite !elem_of_cons, elem_of_nil in Hs. destruct Hs as [->|[->|[]]].
  - change ("" +:+ String c w +:+ rest) with (String c (w +:+ rest)). unfold startswith. cbn [String.prefix].
    destruct (ascii_dec "-" c) as [Hd|]; [by subst c|]. change (String c (w +:+ rest)) with (String c w +:+ rest).
    rewrite Ht. apply Hfin.
  - change ("-" +:+ String c w +:+ rest) with (String "-" (String c w +:+ rest)).
    replace (startswith (String "-" (String c w +:+ rest)) "-") with true by done. cbn [str_drop]. rewrite Ht. apply Hfin.
Qed.

Lemma scan_float r : float_literal r → scan_number r = Got (JFloat r) "".
Proof.
  intros [sign whole frac exp Hs Hw Hz Hf He Hx]. destruct (scan_frac_literal frac exp Hf He) as [Ef Et].
  unfold scan_number. rewrite (scan_int_literal sign whole _ Hs Hw Hz Et), Ef.
  destruct (scan_exp_literal exp He) as [-> _]. rewrite !app_assoc_str.
  assert (nonempty frac || nonempty exp = true) as ->; [|done].
  destruct Hx as [Hx|Hx]; [destruct frac; [done|reflexivity]|]. destruct exp; [done|]. apply orb_true_r.
Qed.

(** ** Documents *)

Definition list_ind_all {A} (P : A → Prop) (l : list A) : Prop := foldr (λ x Q, P x ∧ Q) True l.

(** A document [json.dumps] can have written: integers Python reads back, float literals,
    and each key of an object once. *)
Fixpoint json_ok (v : json) : Prop :=
  match v with
  | JInt n => int_fits n
  | JFloat r => r ∈ ["NaN"; "Infinity"; "-Infinity"] ∨ float_literal r
  | JArr l => list_ind_all json_ok l
  | JObj l => NoDup (map fst l) ∧ list_ind_all (λ p, json_ok (snd p)) l
  | _ => True
  end.

(** The containers opened inside one another. *)
Fixpoint json_depth (v : json) : nat :=
  match v with
  | JArr l => S (foldr (λ x n, json_depth x `max` n) 0 l)
  | JObj l => S (foldr (λ p n, json_depth (snd p) `max` n) 0 l)
  | _ => 0
  end.

(** A text that opens a value: no white space, no closing bracket, first. *)
Definition opens (s : string) : Prop :=
  ∃ c t, s = String c t ∧ is_json_ws c = false ∧ c ≠ "]"%char ∧ c ≠ "}"%char.

Lemma skip_ws_app w s : str_all is_json_ws w = true → skip_ws (w +:+ s) = skip_ws s.
Proof. induction w as [|c w IH]; [done|]. cbn [str_all String.append]. intros [Hc Hw]%andb_true_iff. unfold skip_ws in *. cbn [lstrip_by]. by rewrite Hc, IH. Qed.

Lemma opens_skip s rest : opens s → skip_ws (s +:+ rest) = s +:+ rest.
Proof. intros (c & t & -> & Hc & _). unfold skip_ws. cbn [String.append lstrip_by]. by rewrite Hc. Qed.

(** A number starts with a digit, or with a minus and a digit. *)
Lemma scan_int_start s i t :
  scan_int s = Some (i, t) →
  ∃ c u, s = String c u ∧ (is_digit09 c = true ∨ c = "-"%char ∧ ∃ d r, u = String d r ∧ is_digit09 d = true).
Proof.
  assert (∀ x, (take_digits x).1 ≠ "" → ∃ d r, x = String d r ∧ is_digit09 d = true) as Ht.
  { intros [|d r]; [done|]. cbn. destruct (is_digit09 d) eqn:Ed; [by exists d, r|done]. }
  unfold scan_int. destruct s as [|c u]; [done|]. intros E. exists c, u. split; [done|].
  unfold startswith in E. cbn [String.prefix] in E. destruct (ascii_dec "-" c) as [<-|Hc]; cbn [str_drop] in E.
  - replace (String.prefix "" u) with true in E by (by destruct u). right. split; [done|].
    apply (Ht u). destruct (take_digits u) as [[|]]; done.
  - left. destruct (Ht (String c u)) as (d & r & [= <- <-] & Hd); [|done]. destruct (take_digits (String c u)) as [[|]]; done.
Qed.

Lemma scan_number_once `{Wide} limit s v rest :
  delimited rest → scan_number s = Got v "" → scan_once limit (s +:+ rest) = Got v rest ∧ opens s.
Proof.
  intros Hr E. pose proof (scan_number_app s rest v "" Hr E) as E2. cbn [String.append] in E2.
  assert (is_Some (scan_int s)) as [[i t] Ei].
  { unfold scan_number in E. destruct (scan_int s); [by eexists|done]. }
  apply scan_int_start in Ei as (c & u & -> & Hs). split.
  - cbn [String.append] in E2 |- *.
    assert (∀ w, scan_constant CONSTANTS (String c (u +:+ rest)) = w → w = None) as Hc.
    { intros w <-. destruct Hs as [Hd|(-> & d & r & -> & Hd)].
      - destruct c as [[] [] [] [] [] [] [] []]; try done.
      - destruct d as [[] [] [] [] [] [] [] []]; try done. }
    destruct limit; cbn [scan_once]; rewrite (Hc _ eq_refl), E2;
      (destruct Hs as [Hd|(-> & _)]; [destruct c as [[] [] [] [] [] [] [] []]; try done|done]).
  - exists c, u. split; [done|]. destruct Hs as [Hd|(-> & _)]; [|done].
    destruct c as [[] [] [] [] [] [] [] []]; done.
Qed.

(** What an element is written as, followed by a delimiter, is read as that element. *)
Definition reads {A} (one : string → scanned A) (w : string) (x : A) : Prop :=
  ∀ rest, delimited rest → one (w +:+ rest) = Got x rest.

Lemma delimited_cons c t : in_set ",]}" c = true → delimited (String c t).
Proof. intros Hc. right. by exists c, t. Qed.

Lemma scan_seq_ok {A} (one : string → scanned A) (D : A → string) close ws l x fuel rest :
  in_set "]}" close = true → str_all is_json_ws ws = true →
  (∀ y, y ∈ x :: l → reads one (D y) y ∧ opens (D y)) → length l < fuel →
  scan_seq one close fuel (join (String "," ws) (map D (x :: l)) +:+ String close rest) = Got (x :: l) rest.
Proof.
  intros Hc Hw. assert (is_json_ws close = false ∧ close ≠ ","%char ∧ in_set ",]}" close = true) as (Hc1 & Hc2 & Hc3).
  { destruct close as [[] [] [] [] [] [] [] []]; try done. }
  revert x fuel. induction l as [|y l IH]; intros x [|fuel] HD Hf; cbn [length] in Hf; try lia;
    destruct (HD x ltac:(set_solver)) as [Hx _]; cbn [scan_seq map join].
  - rewrite (Hx (String close rest) (delimited_cons close rest Hc3)). cbn [then_]. unfold skip_ws. cbn [lstrip_by].
    rewrite Hc1, (proj2 (Ascii.eqb_neq close ",") Hc2), Ascii.eqb_refl. done.
  - change (match map D l with [] => D y | _ :: _ => D y +:+ String "," ws +:+ join (String "," ws) (map D l) end)
      with (join (String "," ws) (map D (y :: l))).
    rewrite !app_assoc_str. cbn [String.append].
    rewrite (Hx (String "," _) (delimited_cons "," _ eq_refl)). cbn [then_].
    replace (skip_ws (String "," (ws +:+ join (String "," ws) (map D (y :: l)) +:+ String close rest)))
      with (String "," (ws +:+ join (String "," ws) (map D (y :: l)) +:+ String close rest)) by done.
    cbv beta iota. rewrite (Ascii.eqb_refl ","), (skip_ws_app ws _ Hw).
    assert (opens (join (String "," ws) (map D (y :: l)))) as Ho.
    { destruct (HD y ltac:(set_solver)) as [_ (c & t & Ey & Hy)]. cbn [map join]. rewrite Ey.
      destruct (map D l); [by exists c, t|]. by exists c, (t +:+ String "," ws +:+ join (String "," ws) (s :: l0)). }
    rewrite (opens_skip _ _ Ho), IH; [done|set_solver|lia].
Qed.

Lemma join_length ws x l : length l ≤ String.length (join (String "," ws) (x :: l)).
Proof.
  revert x. induction l as [|y l IH]; intros x; [cbn; lia|].
  change (join (String "," ws) (x :: y :: l)) with (x +:+ String "," ws +:+ join (String "," ws) (y :: l)).
  rewrite !length_append_str. cbn [length String.length]. specialize (IH y). lia.
Qed.

Lemma dict_of_NoDup {V} (l : list (string * V)) : NoDup (map fst l) → dict_of l = l.
Proof.
  intros Hl. unfold dict_of. change l with ([] ++ l) at 2. change (NoDup (map fst ([] ++ l))) in Hl. revert Hl.
  generalize (@nil (string * V)) as d. induction l as [|[k v] l IH]; intros d Hl; cbn [fold_left]; [by rewrite app_nil_r|].
  rewrite map_app in Hl. cbn in Hl. rewrite dict_set_fresh.
  - rewrite IH; [by rewrite <- app_assoc|]. rewrite !map_app. cbn. by rewrite <- app_assoc.
  - apply NoDup_app in Hl as (_ & Hd & _). intros Hk. apply (Hd k Hk). cbn. set_solver.
Qed.

Section roundtrip.
Context `{Wide} (str : string → string) (iws kws : string).

(** How strings are written, and the white space after a comma and a colon. *)
Context (str_reads : ∀ s, ∃ t, str s = String dquote t ∧ ∀ r, scan_string (t +:+ r) = Got s r)
        (iws_ok : str_all is_json_ws iws = true) (kws_ok : str_all is_json_ws kws = true).

#[local] Notation D := (dumps_with str (String "," iws) (String ":" kws)).
#[local] Notation member p := (str (fst p) +:+ String ":" kws +:+ D (snd p)).

Lemma list_ind_all_elem {A} (P : A → Prop) l x : list_ind_all P l → x ∈ l → P x.
Proof. induction l as [|y l IH]; cbn; [by intros _ ?%elem_of_nil|]. intros [Hy Hl] [->|]%elem_of_cons; [done|by apply IH]. Qed.

Lemma foldr_max_elem {A} (f : A → nat) l x : x ∈ l → f x ≤ foldr (λ y n, f y `max` n) 0 l.
Proof. induction l as [|y l IH]; cbn; [by intros ?%elem_of_nil|]. intros [->|Hx%IH]%elem_of_cons; lia. Qed.

Lemma scan_member_ok value k v :
  reads value (D v) v → opens (D v) → reads (scan_member value) (member (k, v)) (k, v).
Proof.
  intros Hv Ho rest Hr. destruct (str_reads k) as (t & Et & Hk). cbn [fst snd]. rewrite Et, !app_assoc_str.
  cbn [String.append scan_member]. rewrite Ascii.eqb_refl, Hk. cbn [then_].
  replace (skip_ws (String ":" (kws +:+ D v +:+ rest))) with (String ":" (kws +:+ D v +:+ rest)) by done.
  cbv beta iota. rewrite (skip_ws_app kws _ kws_ok), (opens_skip _ _ Ho), (Hv rest Hr). done.
Qed.

Lemma member_opens p : opens (member p).
Proof. destruct (str_reads (fst p)) as (t & -> & _). by exists dquote, (t +:+ String ":" kws +:+ D (snd p)). Qed.

(** The text after the opening bracket is not an empty container. *)
Lemma opens_not_empty {A} (w rest : string) (f : string → A) (g : A) :
  opens w →
  match w +:+ rest with String "]" r => f r | _ => g end = g ∧
  match w +:+ rest with String "}" r => f r | _ => g end = g.
Proof.
  intros (c & t & -> & _ & H1 & H2). cbn [String.append].
  destruct c as [[] [] [] [] [] [] [] []]; split; first [reflexivity | by exfalso].
Qed.

Lemma join_opens {A} (E : A → string) x l : opens (E x) → opens (join (String "," iws) (map E (x :: l))).
Proof.
  intros (c & t & Ex & Hx). cbn [map join]. rewrite Ex. destruct (map E l); [by exists c, t|].
  by exists c, (t +:+ String "," iws +:+ join (String "," iws) (s :: l0)).
Qed.

Definition is_constant (w : string) (x : json) : Prop := (w, x) ∈ CONSTANTS.

Lemma scan_constant_once limit w x : is_constant w x → reads (scan_once limit) w x ∧ opens w.
Proof.
  unfold is_constant, CONSTANTS. rewrite !elem_of_cons, elem_of_nil.
  intros [[= -> ->]|[[= -> ->]|[[= -> ->]|[[= -> ->]|[[= -> ->]|[[= -> ->]|[]]]]]]]; (split; [|by eexists _, _]);
    intros rest _; destruct limit, rest; reflexivity.
Qed.

Lemma scan_array limit l :
  (∀ y, y ∈ l → reads (scan_once limit) (D y) y ∧ opens (D y)) → reads (scan_once (S limit)) (D (JArr l)) (JArr l).
Proof.
  intros Hl rest _. cbn [dumps_with]. rewrite !app_assoc_str.
  destruct l as [|x l]; [reflexivity|].
  assert (opens (join (String "," iws) (map D (x :: l)))) as Ho.
  { apply join_opens. by destruct (Hl x ltac:(set_solver)). }
  set (w := join (String "," iws) (map D (x :: l))) in *.
  change ("[" +:+ w +:+ "]" +:+ rest) with (String "[" (w +:+ String "]" rest)). cbn [scan_once].
  replace (Ascii.eqb "[" dquote) with false by done. replace (Ascii.eqb "[" "{") with false by done.
  rewrite Ascii.eqb_refl, (opens_skip _ _ Ho). cbv beta zeta iota.
  rewrite (proj1 (opens_not_empty w (String "]" rest) (λ r, Got (JArr []) r)
                    (then_ (scan_items (scan_once limit) (S (String.length (w +:+ String "]" rest))) (w +:+ String "]" rest))
                       (λ v r, Got (JArr v) r)) Ho)).
  unfold scan_items, w. rewrite scan_seq_ok; [done|done|done|done|].
  rewrite length_append_str. pose proof (join_length iws (D x) (map D l)) as Hj. rewrite length_map in Hj. cbn [map]. lia.
Qed.

Lemma scan_object limit l :
  NoDup (map fst l) → (∀ p, p ∈ l → reads (scan_once limit) (D (snd p)) (snd p) ∧ opens (D (snd p))) →
  reads (scan_once (S limit)) (D (JObj l)) (JObj l).
Proof.
  intros Hk Hl rest _. cbn [dumps_with]. rewrite !app_assoc_str.
  destruct l as [|x l]; [reflexivity|].
  set (E := λ p : string * json, member p). change (λ p : string * json, member p) with E.
  assert (opens (join (String "," iws) (map E (x :: l)))) as Ho by (apply join_opens, member_opens).
  set (w := join (String "," iws) (map E (x :: l))) in *.
  change ("{" +:+ w +:+ "}" +:+ rest) with (String "{" (w +:+ String "}" rest)). cbn [scan_once].
  replace (Ascii.eqb "{" dquote) with false by done. rewrite Ascii.eqb_refl, (opens_skip _ _ Ho). cbv beta zeta iota.
  cbn [orb].
  rewrite (proj2 (opens_not_empty w (String "}" rest) (λ r, Got (JObj []) r)
                    (then_ (scan_members (scan_once limit) (S (String.length (w +:+ String "}" rest))) (w +:+ String "}" rest))
                       (λ m r, Got (JObj (dict_of m)) r)) Ho)).
  unfold scan_members, w. rewrite scan_seq_ok.
  - cbn [then_]. by rewrite dict_of_NoDup.
  - done.
  - done.
  - intros [k v] Hp. destruct (Hl (k, v) Hp) as [R O]. split; [by apply scan_member_ok|apply member_opens].
  - rewrite length_append_str. pose proof (join_length iws (E x) (map E l)) as Hj. rewrite length_map in Hj. cbn [map]. lia.
Qed.

(** Reading back one document written inside another. *)
Lemma scan_once_dumps limit v :
  json_ok v → json_depth v ≤ limit → reads (scan_once limit) (D v) v ∧ opens (D v).
Proof.
  revert v. induction limit as [limit IH] using lt_wf_ind. intros v Hv Hd.
  assert (∀ w x, scan_number w = Got x "" → reads (scan_once limit) w x ∧ opens w) as Hnum.
  { intros w x Hx. split; [|by apply (scan_number_once limit w x "" ltac:(by left) Hx)].
    intros rest Hr. by apply scan_number_once. }
  destruct v as [|[]|n|r|s|l|l]; cbn [dumps_with json_ok json_depth] in *.
  - apply scan_constant_once. unfold is_constant. set_solver.
  - apply scan_constant_once. unfold is_constant. set_solver.
  - apply scan_constant_once. unfold is_constant. set_solver.
  - by apply Hnum, scan_pretty.
  - destruct Hv as [Hv|Hv]; [|by apply Hnum, scan_float]. apply scan_constant_once. unfold is_constant, CONSTANTS. set_solver.
  - destruct (str_reads s) as (t & -> & Ht). split; [|by exists dquote, t].
    intros rest _. destruct limit; cbn [String.append scan_once]; by rewrite Ascii.eqb_refl, Ht.
  - destruct limit as [|limit]; [lia|]. split; [|by eexists _, _]. apply scan_array. intros y Hy. apply IH; [lia| |].
    + by apply (list_ind_all_elem json_ok l).
    + pose proof (foldr_max_elem json_depth l y Hy). lia.
  - destruct limit as [|limit]; [lia|]. destruct Hv as [Hk Hv]. split; [|by eexists _, _]. apply scan_object; [done|].
    intros p Hp. apply IH; [lia| |].
    + by apply (list_ind_all_elem (λ p, json_ok (snd p)) l).
    + pose proof (foldr_max_elem (λ p, json_depth (snd p)) l p Hp) as Hm. cbn beta in Hm. lia.
Qed.

Lemma loads_dumps_with limit v : json_ok v → json_depth v ≤ limit → loads limit (D v) = Got v "".
Proof.
  intros Hv Hd. destruct (scan_once_dumps limit v Hv Hd) as [R O]. unfold loads.
  pose proof (opens_skip (D v) "" O) as Es. pose proof (R "" ltac:(by left)) as Er. rewrite app_nil_str in Es, Er.
  by rewrite Es, Er.
Qed.
End roundtrip.

(** What [json.dumps] writes, in the three ways the program calls it, [json.loads] reads back
    as the same document, provided its integers are not longer than Python reads and it is not
    nested deeper than the interpreter allows. *)
Theorem loads_dumps `{Wide} (limit : nat) (v : json) :
  json_ok v → json_depth v ≤ limit →
  loads limit (dumps v) = Got v "" ∧ loads limit (dumps_compact v) = Got v "" ∧ loads limit (dumps_unicode v) = Got v "".
Proof.
  intros Hv Hd.
  assert (∀ s, ∃ t, dumps_str s = String dquote t ∧ ∀ r, scan_string (t +:+ r) = Got s r) as Ha.
  { intros s. eexists. split; [reflexivity|]. intros r. rewrite app_assoc_str. apply scan_escape. }
  assert (∀ s, ∃ t, dumps_str_unicode s = String dquote t ∧ ∀ r, scan_string (t +:+ r) = Got s r) as Hu.
  { intros s. eexists. split; [reflexivity|]. intros r. rewrite app_assoc_str. apply scan_escape_unicode. }
  split_and!; apply loads_dumps_with; done.
Qed.

Lemma loads_dumps_witness :
  let v := JObj [("domain", JStr (String "233" (String dquote (String backslash (String "010" "x")))));
                 ("score", JInt (-120)); ("confidence", JFloat "0.85"); ("limits", JArr [JFloat "-Infinity"; JFloat "1e-07"]);
                 ("empty", JArr [JNull; JBool true; JObj []; JArr []; JStr ""])] in
  json_ok v ∧
  @loads FlatDom.plain_wide 3 (dumps v) = Got v "" ∧ @loads FlatDom.plain_wide 2 (dumps v) = TooDeep.
Proof.
  cbv zeta. match goal with |- json_ok ?v ∧ _ => assert (json_ok v) as Hv end.
  { cbn [json_ok list_ind_all foldr snd map fst]. split; [apply (bool_decide_unpack _); vm_compute; reflexivity|].
    split_and!; try done; first [by apply NoDup_nil_2 | by left; set_solver | right].
    - apply (FloatLiteral "" "0" ".85" ""); [set_solver|done|by left|right; by exists "85"|by left|by left].
    - apply (FloatLiteral "" "1" "" "e-07"); [set_solver|done|by right|by left|right; exists "e-", "07"; split; [set_solver|done]|by right]. }
  split; [done|]. split; [|vm_compute; reflexivity].
  refine (proj1 (@loads_dumps FlatDom.plain_wide 3 _ Hv _)). cbn. lia.
Defined.
