(* ===== verification/RetryAfter.v ===== *)
(** * The Retry-After header ([parse_retry_after] in [src/app/pipeline/fetch.py])

    Seconds or an HTTP date, with what the standard library makes of either: [float],
    [int], [email.utils.parsedate_to_datetime] and [datetime].  Times are microseconds; a
    float is the rational it is written as. *)

From Stdlib Require Import ZArith QArith Qminmax NArith Ascii String Lia.
From stdpp Require Import base strings option sets list.
From S2P Require Import Prelude PyStr Models Html Jobs Json JsonLoads.

(** ** Numbers *)

(** Underscores stand between two digits only. *)
Fixpoint underscores_ok (after_digit : bool) (s : string) : bool :=
  match s with
  | EmptyString => true
  | String c r =>
      if Ascii.eqb c "_"
      then after_digit && match r with String d _ => is_digit09 d | EmptyString => false end && underscores_ok false r
      else underscores_ok (is_digit09 c) r
  end.

Fixpoint without_underscores (s : string) : string :=
  match s with
  | EmptyString => ""
  | String c r => if Ascii.eqb c "_" then without_underscores r else String c (without_underscores r)
  end.

Definition sign_of (s : string) : bool * string :=
  if startswith s "-" then (true, str_drop 1 s) else if startswith s "+" then (false, str_drop 1 s) else (false, s).

Definition signed (neg : bool) (n : N) : Z := if neg then (- Z.of_N n)%Z else Z.of_N n.

(** [int(s)]; [None] is a ValueError. *)
Definition py_int (s : string) : option Z :=
  let '(neg, t) := sign_of (strip s) in
  let d := without_underscores t in
  if underscores_ok false t && nonempty d && str_all is_digit09 d && N.leb (str_len d) MAX_INT_DIGITS
  then Some (signed neg (digits_value 10 d)) else None.

(** Numbers from here on round to no finite float. *)
Definition FLOAT_LIMIT : Z := 2 ^ 1024 - 2 ^ 970.

Definition overflowing (q : Q) : FloatVal :=
  if Qle_bool (inject_Z FLOAT_LIMIT) q then Inf false else if Qle_bool q (inject_Z (- FLOAT_LIMIT)) then Inf true else Fin q.

(** [m * 10^e] *)
Definition scaled (m e : Z) : Q :=
  if (0 <=? e)%Z then inject_Z (m * 10 ^ e) else (m # Z.to_pos (10 ^ (- e)))%Q.

(** The exponent and what follows it; no exponent is 0. *)
Definition float_exponent (s : string) : option Z :=
  match s with
  | EmptyString => Some 0%Z
  | String e r =>
      if in_set "eE" e then
        let '(neg, t) := sign_of r in
        let '(d, rest) := take_digits t in
        if nonempty d && negb (nonempty rest) then Some (signed neg (digits_value 10 d)) else None
      else None
  end.

(** [float(s)]; [None] is a ValueError. *)
Definition float_of_text (s : string) : option FloatVal :=
  let s := strip s in
  if negb (underscores_ok false s) then None else
  let '(neg, t) := sign_of (without_underscores s) in
  if mem (lower t) ["inf"; "infinity"] then Some (Inf neg)
  else if String.eqb (lower t) "nan" then Some NaN
  else
    let '(whole, r1) := take_digits t in
    let '(frac, r2) := if startswith r1 "." then take_digits (str_drop 1 r1) else ("", r1) in
    if negb (nonempty whole || nonempty frac) then None
    else e ← float_exponent r2;
         Some (overflowing (scaled (signed neg (digits_value 10 (whole +:+ frac))) (e - Z.of_nat (String.length frac)))).

(** ** Dates *)

Definition MONTHS : list string :=
  ["jan"; "feb"; "mar"; "apr"; "may"; "jun"; "jul"; "aug"; "sep"; "oct"; "nov"; "dec";
   "january"; "february"; "march"; "april"; "may"; "june"; "july"; "august"; "september"; "october";
   "november"; "december"].
Definition DAYS : list string := ["mon"; "tue"; "wed"; "thu"; "fri"; "sat"; "sun"].
Definition TIMEZONES : list (string * Z) :=
  [("ut", 0); ("utc", 0); ("gmt", 0); ("z", 0); ("ast", -400); ("adt", -300); ("est", -500); ("edt", -400);
   ("cst", -600); ("cdt", -500); ("mst", -700); ("mdt", -600); ("pst", -800); ("pdt", -700)]%Z.

Fixpoint position {A} (p : A → bool) (l : list A) : option nat :=
  match l with [] => None | x :: l' => if p x then Some O else S <$> position p l' end.

Definition find_char (c : ascii) (s : string) : option nat := position (Ascii.eqb c) (list_ascii_of_string s).

Definition month_number (m : string) : option Z :=
  i ← position (String.eqb m) MONTHS; Some (let n := Z.of_nat (S i) in if (12 <? n)%Z then n - 12 else n)%Z.

Definition drop_dayname (data : list string) : list string :=
  match data with
  | [] => []
  | w :: rest =>
      if endswith w "," || mem (lower w) DAYS then rest
      else match rpartition_at "," w with Some (_, b) => b :: rest | None => data end
  end.

(** A date of RFC 850 is one word. *)
Definition split_rfc850 (data : list string) : list string :=
  match data with
  | [d; a; b] => match split_char "-" d with [x; y; z] => [x; y; z; a; b] | _ => data end
  | _ => data
  end.

(** The zone glued to the time, or missing. *)
Definition split_zone (data : list string) : list string :=
  match data with
  | [a; b; c; s] =>
      match (match find_char "+" s with Some i => Some i | None => find_char "-" s end) with
      | Some (S i) => [a; b; c; str_take (S i) s; str_drop (S i) s]
      | _ => data ++ [""]
      end
  | _ => data
  end.

Definition drop_comma (s : string) : string := if endswith s "," then str_take (pred (String.length s)) s else s.

Definition time_parts (tm : string) : option (string * string * string) :=
  match split_char ":" tm with
  | [h; m] => Some (h, m, "0")
  | [h; m; s] => Some (h, m, s)
  | [t] => if has_char "." t
           then match split_char "." t with
                | [h; m] => Some (h, m, "0")
                | [h; m; s] => Some (h, m, s)
                | _ => None
                end
           else None
  | _ => None
  end.

(** The zone in seconds; [None] when unknown or given as -0000. *)
Definition zone_seconds (tz : string) : option Z :=
  let off := match head (keep (λ z, String.eqb (lower tz) z.1) TIMEZONES) with
             | Some z => Some z.2
             | None => match py_int tz with
                       | Some 0%Z => if startswith tz "-" then None else Some 0%Z
                       | o => o
                       end
             end in
  o ← off;
  Some (if (o =? 0)%Z then 0
        else let a := Z.abs o in Z.sgn o * (a / 100 * 3600 + a mod 100 * 60))%Z.

Record DateParts := mkParts {
  dp_year : Z; dp_month : Z; dp_day : Z; dp_hour : Z; dp_minute : Z; dp_second : Z; dp_zone : option Z
}.

Definition full_year (yy : Z) : Z :=
  (if yy <? 100 then if 68 <? yy then yy + 1900 else yy + 2000 else yy)%Z.

(** [_parsedate_tz] *)
Definition parsedate_tz (data : string) : option DateParts :=
  match split_zone (split_rfc850 (drop_dayname (keep nonempty (split_on is_space data)))) with
  | dd :: mm :: yy :: tm :: tz :: _ =>
      if negb (nonempty dd && nonempty mm && nonempty yy) then None else
      md ← (match month_number (lower mm) with
            | Some m => Some (m, dd)
            | None => m ← month_number (lower dd); Some (m, lower mm)
            end);
      let dd := drop_comma md.2 in
      let '(yy, tm) := match find_char ":" yy with Some (S _) => (tm, yy) | _ => (yy, tm) end in
      let yy := drop_comma yy in
      if negb (nonempty yy) then None else
      let '(yy, tz) := match yy with String c _ => if is_digit c then (yy, tz) else (tz, yy) | _ => (yy, tz) end in
      hms ← time_parts (drop_comma tm);
      y ← py_int yy; d ← py_int dd; h ← py_int hms.1.1; mi ← py_int hms.1.2; s ← py_int hms.2;
      Some (mkParts (full_year y) md.1 d h mi s (zone_seconds tz))
  | _ => None
  end.

(** ** [datetime] *)

Definition leap (y : Z) : bool := ((y mod 4 =? 0) && (negb (y mod 100 =? 0) || (y mod 400 =? 0)))%Z.

Definition days_in_month (y m : Z) : Z :=
  (if m =? 2 then if leap y then 29 else 28 else if (m =? 4) || (m =? 6) || (m =? 9) || (m =? 11) then 30 else 31)%Z.

Definition days_before_month (y m : Z) : Z :=
  foldr Z.add 0%Z (map (λ i, days_in_month y (Z.of_nat (S i))) (seq 0 (Z.to_nat (m - 1)))).

Definition days_before_year (y : Z) : Z := (let p := y - 1 in p * 365 + p / 4 - p / 100 + p / 400)%Z.

(** Days since 1970-01-01. *)
Definition days_since_epoch (y m d : Z) : Z := (days_before_year y + days_before_month y m + d - 719163)%Z.

Definition fits_int (n : Z) : bool := ((- 2147483648 <=? n) && (n <=? 2147483647))%Z.

Inductive DateTime :=
  | Moment (utc : Z)             (* with a zone: microseconds since the epoch *)
  | Wall (local : Z)             (* without one *)
  | DateValueError
  | DateOverflowError.

Definition parsedate_to_datetime (data : string) : DateTime :=
  match parsedate_tz data with
  | None => DateValueError
  | Some p =>
      let zone := default 0%Z (dp_zone p) in
      if ((86399999999999 <? zone) || (zone <? -86399999913600))%Z then DateOverflowError
      else if (86400 <=? Z.abs zone)%Z then DateValueError
      else if negb (all fits_int [dp_year p; dp_month p; dp_day p; dp_hour p; dp_minute p; dp_second p]) then DateOverflowError
      else if ((1 <=? dp_year p) && (dp_year p <=? 9999) && (1 <=? dp_month p) && (dp_month p <=? 12)
               && (1 <=? dp_day p) && (dp_day p <=? days_in_month (dp_year p) (dp_month p))
               && (0 <=? dp_hour p) && (dp_hour p <=? 23) && (0 <=? dp_minute p) && (dp_minute p <=? 59)
               && (0 <=? dp_second p) && (dp_second p <=? 59))%Z
      then let t := ((days_since_epoch (dp_year p) (dp_month p) (dp_day p) * 86400
                      + dp_hour p * 3600 + dp_minute p * 60 + dp_second p) * 1000000)%Z in
           match dp_zone p with Some z => Moment (t - z * 1000000)%Z | None => Wall t end
      else DateValueError
  end.

(** ** The header *)

Inductive RetryAfter := NoWait | WaitFor (q : Q) | WaitRaises.

(** [max(0.0, min(x, cap))]; a NaN comes out as 0. *)
Definition clamp (cap : Q) (x : FloatVal) : Q :=
  match x with
  | Fin q => Qmax 0 (Qmin q cap)
  | Inf neg => if neg then 0%Q else cap
  | NaN => 0%Q
  end.

(** [now] is the time, [local] the same on the wall clock of the process. *)
Definition parse_retry_after (now local : Z) (cap : Q) (value : option string) : RetryAfter :=
  match value with
  | None => NoWait
  | Some v =>
      if negb (nonempty v) then NoWait
      else
        let v := strip v in
        match float_of_text v with
        | Some x => WaitFor (clamp cap x)
        | None =>
            match parsedate_to_datetime v with
            | DateValueError => NoWait
            | DateOverflowError => WaitRaises
            | Moment t => WaitFor (clamp cap (Fin ((t - now) # 1000000)))
            | Wall t => WaitFor (clamp cap (Fin ((t - local) # 1000000)))
            end
        end
  end.

(** ** Examples against the library *)

Example floats_read :
  float_of_text " 1_0.5e-1 " = Some (Fin (105 # 100)) ∧ float_of_text ".5" = Some (Fin (5 # 10)) ∧
  float_of_text "5." = Some (Fin 5) ∧ float_of_text "-2e3" = Some (Fin (-2000)) ∧ float_of_text "-Infinity" = Some (Inf true) ∧
  float_of_text "nan" = Some NaN ∧
  map float_of_text [""; "."; "1__0"; "_1"; "1_"; "1e"; "0x10"; "1 2"; "+-1"] = repeat None 9.
Proof. vm_compute. split_and!; reflexivity. Qed.

Example dates_read :
  parsedate_to_datetime "Wed, 21 Oct 2015 07:28:00 GMT" = Moment 1445412480000000 ∧
  parsedate_to_datetime "Sunday, 06-Nov-94 08:49:37 GMT" = Moment 784111777000000 ∧
  parsedate_to_datetime "Sun Nov  6 08:49:37 1994" = Wall 784111777000000 ∧
  parsedate_to_datetime "21 Oct 2015 07:28:00-0500" = Moment 1445430480000000 ∧
  parsedate_to_datetime "21 Oct 2015 07:28 -0000" = Wall 1445412480000000 ∧
  parsedate_to_datetime "31 Jun 2015 07:28:00 GMT" = DateValueError ∧
  parsedate_to_datetime "Mon,21 Oct 15 07.28 EST" = Moment 1445430480000000 ∧
  parsedate_to_datetime "feb 1, 2000, 1:2:3" = Wall 949366923000000 ∧
  parsedate_to_datetime "21 Oct 2015 07:28:00 +9999" = DateValueError ∧
  parsedate_to_datetime "1 feb 99999 00:00:00" = DateValueError ∧
  parsedate_to_datetime "1 feb 2000 1:2:3 +999999999999999999" = DateOverflowError ∧
  parsedate_to_datetime "tomorrow" = DateValueError.
Proof. vm_compute. split_and!; reflexivity. Qed.

(** ** The wait is bounded *)

Lemma clamp_bounds cap x : (0 <= cap)%Q → (0 <= clamp cap x)%Q ∧ (clamp cap x <= cap)%Q.
Proof.
  intros Hc. destruct x as [q|[]|]; cbn [clamp].
  - split; [apply Q.le_max_l|]. apply Q.max_lub; [done|apply Q.le_min_r].
  - split; [apply Qle_refl|done].
  - split; [done|apply Qle_refl].
  - split; [apply Qle_refl|done].
Qed.

Lemma parse_retry_after_bounds now local cap value q :
  (0 <= cap)%Q → parse_retry_after now local cap value = WaitFor q → (0 <= q)%Q ∧ (q <= cap)%Q.
Proof.
  intros Hc. unfold parse_retry_after. destruct value as [v|]; [|done]. destruct (nonempty v); [|done].
  cbn [negb]. destruct (float_of_text (strip v)) as [x|]; [intros [= <-]; by apply clamp_bounds|].
  destruct (parsedate_to_datetime (strip v)) as [t|t| |]; try done; intros [= <-]; apply (clamp_bounds cap (Fin _) Hc).
Qed.
