(* ===== verification/JsonLd.v ===== *)
(** * JSON-LD addresses ([src/app/pipeline/extract/jsonld.py])

    The walk over the parsed blocks, the second reading without trailing commas, and the
    fallback for what does not parse.  The interpreter's recursion limits are the class
    [RecursionLimit]. *)

From Stdlib Require Import ZArith NArith Ascii String Lia.
From stdpp Require Import base strings option sets list.
From S2P Require Import Prelude PyStr Regex Groups Url Emails Html HtmlScan PageText Json JsonLoads.

(** How many nested containers the scanner, and how many nested calls the walk, can take. *)
Class RecursionLimit := { scan_limit : nat; walk_limit : nat }.

Definition TRAILING_COMMA : list re := [Seq (lit ",") spaces; Chr (in_set "}]")].

(** [_walk] under [limit] calls: the list so far, and whether it ran to its end (the list
    keeps what was added before a RecursionError). *)
Definition strings_of (l : list json) : list string := omap (λ v, match v with JStr s => Some s | _ => None end) l.

Fixpoint walk_all {A} (f : A → list string → list string * bool) (items : list A) (out : list string)
    : list string * bool :=
  match items with
  | [] => (out, true)
  | x :: rest => let '(out', ok) := f x out in if (ok : bool) then walk_all f rest out' else (out', false)
  end.

Fixpoint walk (limit : nat) (v : json) (out : list string) : list string * bool :=
  match limit with
  | O => (out, false)
  | S l =>
      match v with
      | JObj members =>
          walk_all (λ kv out,
            if String.eqb (lower kv.1) "email" then
              match kv.2 with
              | JStr s => (out ++ [s], true)
              | JArr vs => (out ++ strings_of vs, true)
              | _ => (out, true)
              end
            else walk l kv.2 out) members out
      | JArr items => walk_all (walk l) items out
      | _ => (out, true)
      end
  end.

Definition blocks (html : string) : list string :=
  map (λ b, slice (b_body_start b) (b_body_end b) html) (keep is_jsonld (iter_blocks html "script")).

Section jsonld.
Context `{Wide} `{RecursionLimit}.

(** One reading of the text: the list so far, and whether it was read to the end. *)
Definition try_text (text : string) (raw : list string) : list string * bool :=
  match loads scan_limit text with
  | Got v _ => walk walk_limit v raw
  | _ => (raw, false)
  end.

Definition without_trailing_commas (body : string) : string := sub_with (group 1) TRAILING_COMMA body.

Definition clean_value (value : string) : string :=
  let value := strip value in
  let value := if startswith (lower value) "mailto:" then str_drop 7 value else value in
  clean (cut "?" value).1.

Definition emails_from_block (body : string) : list string * bool :=
  let '(raw, ok) := try_text body [] in
  let '(raw, ok) := if (ok : bool) then (raw, ok) else try_text (without_trailing_commas body) raw in
  if (ok : bool) then (keep nonempty (map clean_value raw), true) else ([], false).

(** The addresses of the blocks, and the bodies that could not be read. *)
Definition jsonld_extract (html : string) : list string * list string :=
  fold_left (λ acc body,
    let '(emails, ok) := emails_from_block body in
    if (ok : bool) then (acc.1 ++ emails, acc.2) else (acc.1, acc.2 ++ [body])) (blocks html) ([], []).
End jsonld.

Definition regex_emails (text : string) : list string := map clean (re_findall EMAIL text).

(** ** The walk finds exactly the values of [email] keys *)

(** [s] stands in [v] where the walk goes: under an [email] key, alone or in its list, or in
    the value of another key. *)
Inductive email_in : json → string → Prop :=
  | ei_here k s members : (k, JStr s) ∈ members → lower k = "email" → email_in (JObj members) s
  | ei_list k l s members :
      (k, JArr l) ∈ members → lower k = "email" → JStr s ∈ l → email_in (JObj members) s
  | ei_member k v s members :
      (k, v) ∈ members → lower k ≠ "email" → email_in v s → email_in (JObj members) s
  | ei_item v s items : v ∈ items → email_in v s → email_in (JArr items) s.
#[export] Hint Constructors email_in : ee.

(** How many calls the walk nests. *)
Fixpoint walk_depth (v : json) : nat :=
  match v with
  | JArr l => S (foldr (λ x n, max (walk_depth x) n) 0 l)
  | JObj l => S (foldr (λ p n, max (walk_depth (snd p)) n) 0 l)
  | _ => 1
  end%nat.

Lemma elem_of_strings_of l s : s ∈ strings_of l ↔ JStr s ∈ l.
Proof.
  unfold strings_of. rewrite list_elem_of_omap. split.
  - intros (v & Hv & E). by destruct v; simplify_eq.
  - intros H. by exists (JStr s).
Qed.

(** A walk over items that all run to the end adds what each adds. *)
Lemma walk_all_spec {A} (f : A → list string → list string * bool) (P : A → string → Prop) items :
  (∀ x out, x ∈ items → ∃ add, f x out = (out ++ add, true) ∧ ∀ s, s ∈ add ↔ P x s) →
  ∀ out, ∃ add, walk_all f items out = (out ++ add, true) ∧ ∀ s, s ∈ add ↔ ∃ x, x ∈ items ∧ P x s.
Proof.
  induction items as [|x items IH]; intros Hf out; cbn.
  - exists []. rewrite app_nil_r. split; [done|]. set_solver.
  - destruct (Hf x out ltac:(left)) as (a1 & -> & H1).
    destruct (IH (λ y o Hy, Hf y o ltac:(by right)) (out ++ a1)) as (a2 & -> & H2).
    exists (a1 ++ a2). rewrite app_assoc. split; [done|]. intros s. rewrite elem_of_app, H1, H2. set_solver.
Qed.

Lemma depth_member (f : json → nat) (l : list json) v :
  v ∈ l → (f v ≤ foldr (λ x n, max (f x) n) 0 l)%nat.
Proof. induction l as [|x l IH]; [set_solver|]. intros [->|H]%elem_of_cons; cbn; [lia|]. specialize (IH H). lia. Qed.

Lemma depth_pair (f : json → nat) (l : list (string * json)) k v :
  (k, v) ∈ l → (f v ≤ foldr (λ p n, max (f (snd p)) n) 0 l)%nat.
Proof. induction l as [|x l IH]; [set_solver|]. intros [<-|H]%elem_of_cons; cbn; [lia|]. specialize (IH H). lia. Qed.

Lemma walk_adds limit v out :
  (walk_depth v ≤ limit)%nat → ∃ add, walk limit v out = (out ++ add, true) ∧ ∀ s, s ∈ add ↔ email_in v s.
Proof.
  revert v out. induction limit as [|l IH]; intros v out Hd; [destruct v; cbn in Hd; lia|].
  assert (∀ w, (∀ s, email_in w s → False) → ∃ add, (out, true) = (out ++ add, true) ∧ ∀ s, s ∈ add ↔ email_in w s)
    as Hnone.
  { intros w Hw. exists []. rewrite app_nil_r. split; [done|]. intros s. split; [set_solver|]. by intros ?%Hw. }
  destruct v as [|b|n|r|x|items|members]; cbn [walk];
    try (apply Hnone; intros s Hs; inversion Hs; fail).
  - destruct (walk_all_spec (walk l) email_in items) with (out := out) as (add & E & H).
    { intros v o Hv. apply IH. cbn in Hd. pose proof (depth_member walk_depth items v Hv). lia. }
    exists add. split; [done|]. intros s. rewrite H. split; [|by inversion 1; eauto].
    intros (v & ? & ?). eauto with ee.
  - set (P (kv : string * json) (s : string) := if String.eqb (lower kv.1) "email"
           then kv.2 = JStr s ∨ ∃ l, kv.2 = JArr l ∧ JStr s ∈ l else email_in kv.2 s).
    match goal with |- context [walk_all ?g members out] =>
      destruct (walk_all_spec g P members) with (out := out) as (add & E & H) end.
    { intros [k v] o Hv. subst P. cbn [fst snd]. destruct (String.eqb_spec (lower k) "email").
      - destruct v as [| | | |x|vs|];
          try (exists []; rewrite app_nil_r; split; [done|]; intros s; split;
               [set_solver|intros [?|(? & ? & ?)]; done]).
        + exists [x]. split; [done|]. intros s. rewrite list_elem_of_singleton. split; [intros ->; by left|].
          intros [[= ->]|(? & ? & ?)]; done.
        + exists (strings_of vs). split; [done|]. intros s. rewrite elem_of_strings_of. split; [eauto|].
          intros [?|(? & [= <-] & ?)]; done.
      - apply IH. cbn in Hd. pose proof (depth_pair walk_depth members k v Hv). lia. }
    exists add. split; [done|]. intros s. rewrite H. subst P. split.
    + intros ([k v] & Hin & Hp). cbn [fst snd] in Hp. revert Hp.
      destruct (String.eqb_spec (lower k) "email"); [|eauto with ee].
      intros [->|(vs & -> & ?)]; eauto with ee.
    + inversion 1; subst; eexists (_, _); (split; [done|]); cbn;
        match goal with |- context [String.eqb ?a ?b] => destruct (String.eqb_spec a b) end; try done; eauto.
Qed.

(** ** A block that parses gives exactly its [email] values *)

(** [w] stands in [v] below the keys of [path], lists passed through. *)
Inductive at_path : json → list string → json → Prop :=
  | at_here v : at_path v [] v
  | at_key k v members path w : (k, v) ∈ members → at_path v path w → at_path (JObj members) (k :: path) w
  | at_item v items path w : v ∈ items → at_path v path w → at_path (JArr items) path w.

Definition is_email_key (k : string) : bool := String.eqb (lower k) "email".

(** A text under an [email] key, alone or in its list, no other [email] key above it. *)
Definition email_value (v : json) (s : string) : Prop :=
  ∃ path members k, at_path v path (JObj members) ∧ Forall (λ x, is_email_key x = false) path ∧
    is_email_key k = true ∧ ((k, JStr s) ∈ members ∨ ∃ l, (k, JArr l) ∈ members ∧ JStr s ∈ l).

Lemma email_in_value v s : email_in v s ↔ email_value v s.
Proof.
  split.
  - induction 1 as [k s m Hm Hk|k l s m Hm Hk Hs|k v s m Hm Hk _ (p & m' & k' & H1 & H2 & H3)|v s items Hv _ (p & m' & k' & H1 & H2)].
    + exists [], m, k. split_and!; [constructor|constructor|by apply String.eqb_eq|by left].
    + exists [], m, k. split_and!; [constructor|constructor|by apply String.eqb_eq|eauto].
    + exists (k :: p), m', k'. split; [by eapply at_key|]. split; [|done]. constructor; [by apply String.eqb_neq|done].
    + exists p, m', k'. split; [by eapply at_item|done].
  - intros (p & m & k & Hp & Hn & Hk & Hs). remember (JObj m) as w eqn:Ew. apply String.eqb_eq in Hk.
    induction Hp as [v|x v ms p w Hm _ IH|v items p w Hv _ IH]; subst.
    + destruct Hs as [Hs|(l & Hl & Hs)]; eauto with ee.
    + apply Forall_cons in Hn as [Hx%String.eqb_neq Hn]. eauto with ee.
    + eauto with ee.
Qed.

Section exact.
Context `{Wide} `{RecursionLimit}.

(** What a block's text is read as: as it stands, or else without its trailing commas. *)
Definition read_block (body : string) : option json :=
  match loads scan_limit body with
  | Got v _ => Some v
  | _ => match loads scan_limit (without_trailing_commas body) with Got v _ => Some v | _ => None end
  end.

(** C30: the addresses of a JSON-LD block.  Of a block that reads as JSON, as it stands or else
    once its trailing commas are dropped, and that is not nested deeper than the walk can go,
    the addresses reported are the cleaned, non-empty texts found under an [email] key (in any
    letter case) at any depth, as its value or in the list that is its value: none is missed
    and nothing else is reported.  Inside the value of an [email] key the walk looks no
    further: an object there, or an [email] key below it, is not read.  A block that reads in
    neither way is reported as unread, for the fallback, with no address. *)
Theorem emails_from_block_exact (body : string) :
  match read_block body with
  | Some v =>
      (walk_depth v ≤ walk_limit)%nat →
      (emails_from_block body).2 = true ∧
      ∀ a, a ∈ (emails_from_block body).1 ↔ a ≠ "" ∧ ∃ s, email_value v s ∧ a = clean_value s
  | None => emails_from_block body = ([], false)
  end.
Proof.
  assert (∀ v, (walk_depth v ≤ walk_limit)%nat → ∃ add, walk walk_limit v [] = (add, true) ∧
    ∀ a, a ∈ keep nonempty (map clean_value add) ↔ a ≠ "" ∧ ∃ s, email_value v s ∧ a = clean_value s) as Hw.
  { intros v Hd. destruct (walk_adds walk_limit v [] Hd) as (add & E & Hadd). exists add. split; [done|].
    intros a. rewrite elem_of_keep, list_elem_of_fmap. unfold nonempty. rewrite negb_true_iff, String.eqb_neq. split.
    - intros [(s & -> & Hs) Ha]. split; [done|]. exists s. by rewrite <- email_in_value, <- Hadd.
    - intros [Ha (s & Hs & ->)]. split; [|done]. exists s. by rewrite Hadd, email_in_value. }
  unfold emails_from_block, read_block, try_text.
  destruct (loads scan_limit body) as [v rest| |].
  { intros Hd. destruct (Hw v Hd) as (add & -> & Ha). by split. }
  all: destruct (loads scan_limit (without_trailing_commas body)) as [v rest| |]; [|done..].
  all: intros Hd; destruct (Hw v Hd) as (add & -> & Ha); by split.
Qed.
End exact.

Lemma emails_from_block_exact_witness :
  let body := "{'@type': 'Plumber', 'EMAIL': 'mailto:Info@Acme.com?subject=x', 'contactPoint': [{'email': ['', 'jobs@acme.com'],}]}" in
  let body := str_map (λ c, if Ascii.eqb c "'" then dquote else c) body in
  let out := @emails_from_block FlatDom.plain_wide {| scan_limit := 9; walk_limit := 9 |} body in
  out = (["info@acme.com"; "jobs@acme.com"], true) ∧ out.2 = true.
Proof.
  intros body0 body out. split; [vm_compute; reflexivity|].
  pose proof (@emails_from_block_exact FlatDom.plain_wide {| scan_limit := 9; walk_limit := 9 |} body) as H.
  destruct (@read_block FlatDom.plain_wide {| scan_limit := 9; walk_limit := 9 |} body) as [v|] eqn:E;
    [|vm_compute in E; discriminate].
  apply H. vm_compute in E. injection E as <-. apply Nat.leb_le. vm_compute. reflexivity.
Defined.

(** An object as the value of an [email] key is not looked into. *)
Example email_object_not_read :
  let body := str_map (λ c, if Ascii.eqb c "'" then dquote else c) "{'email': {'email': 'a@b.com'}}" in
  @emails_from_block FlatDom.plain_wide {| scan_limit := 9; walk_limit := 9 |} body = ([], true).
Proof. vm_compute. reflexivity. Qed.
