(* ===== verification/Fields.v ===== *)
(** * Phones, social links and contact forms ([phones.py], [socials.py], [forms.py] of
    [src/app/pipeline/extract])

    The parsed page is the class [Dom], the phone-number library the class [Phones]. *)

From Stdlib Require Import ZArith NArith Ascii String Lia.
From stdpp Require Import base strings option sets list.
From S2P Require Import Prelude PyStr Regex Groups Url Emails Html PageText.

(** ** Phone numbers *)

(** [phonenumbers]: parsing in a region, validity, E.164, and the matches of a text with
    their start, at leniency VALID. *)
Class Phones := {
  number : Type;
  phone_parse : string → string → option number;
  is_valid_number : number → bool;
  format_e164 : number → string;
  phone_matches : string → string → list (nat * number)
}.

Definition MAX_PHONES : nat := 5.
Definition CUE_WINDOW : nat := 40.

(** The two telephone signs of the pattern are beyond U+00FF. *)
Definition PHONE_CUE : re :=
  alts (map lit_ci ["tel"; "telephone"; "phone"; "call"; "text"; "fax"; "mobile"; "cell"]
        ++ [seqs [lit_ci "toll"; opt (Chr (in_set "- ")); lit_ci "free"]]).

Section phones.
Context `{Dom} `{Phones}.

Definition e164 (raw : string) : option string :=
  n ← phone_parse raw "US"; if is_valid_number n then Some (format_e164 n) else None.

(** Appends what is new. *)
Definition append_new (out : list string) (p : string) : list string := if mem p out then out else out ++ [p].

Definition tel_number (d : dom) (n : node) : option string :=
  let h := href d n in
  if String.eqb (lower (str_take 4 h)) "tel:"
  then x ← e164 (strip (str_drop 4 h)); if nonempty x then Some x else None
  else None.

Definition from_tel_links (html : string) : list string :=
  if negb (nonempty html) then []
  else match parse_html html with
       | None => []
       | Some d => fold_left append_new (omap (tel_number d) (css d "a[href]")) []
       end.

(** A cue stands within the window before the match. *)
Definition cued (text : string) (start : nat) : bool :=
  re_search PHONE_CUE (slice (start - CUE_WINDOW) start text).

Definition from_text (text : string) : list string :=
  if negb (nonempty text) then []
  else fold_left append_new
         (map (λ x : nat * number, format_e164 x.2) (keep (λ x : nat * number, cued text x.1) (phone_matches text "US"))) [].

Definition extract_phones (html text : string) : list string :=
  take MAX_PHONES (fold_left append_new (from_text text) (from_tel_links html)).
End phones.

(** ** Social links *)

Definition NETWORKS : list (string * list string) :=
  [("facebook", ["facebook.com"; "fb.com"; "fb.me"]); ("instagram", ["instagram.com"]);
   ("linkedin", ["linkedin.com"]); ("x", ["x.com"; "twitter.com"]); ("youtube", ["youtube.com"; "youtu.be"]);
   ("tiktok", ["tiktok.com"]); ("yelp", ["yelp.com"])].

Definition DROP_PATH : re :=
  alts [Seq Bos (lit_ci "/sharer");
        seqs [Bos; lit_ci "/share"; opt (Alt (lit_ci "r") (lit_ci "article")); Alt (lit "/") Eos];
        lit_ci "/intent/"; lit_ci "/dialog/"; lit_ci "/plugins/"; Seq Bos (lit_ci "/share.php")].
Definition LINKEDIN_OK : re :=
  seqs [lit "/"; alts (map lit_ci ["company"; "in"; "school"; "showcase"]); lit "/"].

Definition host_matches (host : string) (domains : list string) : bool :=
  any (λ d, String.eqb host d || endswith host ("." +:+ d)) domains.

(** The network a link goes under, given the ones already in hand. *)
Definition network_of (out : list (string * string)) (host path : string) : option string :=
  fst <$> head (keep (λ nd : string * list string,
            negb (mem nd.1 (map fst out)) && host_matches host nd.2
            && negb (String.eqb nd.1 "linkedin" && negb (re_search LINKEDIN_OK path))) NETWORKS).

Section socials.
Context `{Dom} `{IpLiteral}.

Definition has_slashes (h : string) : bool := contains h "//".

(** One anchor; [None]: ValueError from [urlsplit]. *)
Definition add_social (out : list (string * string)) (h : string) : option (list (string * string)) :=
  if negb (nonempty h) || startswith h "#" then Some out
  else
    parts ← urlsplit (if has_slashes h then h else "https://" +:+ lstrip_chars "/" h);
    let host := lower (hostname parts) in
    let path := if nonempty (u_path parts) then u_path parts else "/" in
    if negb (nonempty host) || re_search DROP_PATH path then Some out
    else Some match network_of out host path with
              | Some name => out ++ [(name, if has_slashes h then h else "https://" +:+ host +:+ path)]
              | None => out
              end.

Fixpoint add_socials (out : list (string * string)) (hrefs : list string) : option (list (string * string)) :=
  match hrefs with [] => Some out | h :: rest => out' ← add_social out h; add_socials out' rest end.

Definition extract_socials (html : string) : option (list (string * string)) :=
  if negb (nonempty html) then Some []
  else match parse_html html with
       | None => Some []
       | Some d => add_socials [] (map (href d) (css d "a[href]"))
       end.
End socials.

(** ** Contact forms *)

Definition PROVIDER_MARKERS : list string :=
  ["hsforms"; "hbspt.forms"; "jotform"; "typeform"; "gravityforms"; "wpforms"; "formstack"; "cognitoforms"; "wufoo";
   "formsite"; "formspree"; "getform.io"].

Definition NOT_CONTACT : re :=
  alts (map lit_ci ["search"; "subscribe"; "signup"; "sign-up"; "newsletter"; "list-manage"; "mailchimp"; "login";
                    "log-in"; "signin"; "sign-in"; "register"; "comment"; "respond"; "wc-"; "cart"; "checkout";
                    "coupon"; "password"]).
Definition EMAILISH_FIELD : re := seqs [lit_ci "e"; opt (lit "-"); lit_ci "mail"].
Definition MESSAGEISH : re :=
  alts (lit_ci "message" :: Seq (lit_ci "comment") (opt (lit_ci "s"))
        :: map lit_ci ["details"; "describe"; "project"; "enquiry"; "inquiry"]).

(** [\[^a-z\]] under IGNORECASE. *)
Definition not_letter : re := Chr (λ c, negb (is_az c)).
Definition NAMEISH : re :=
  alts [seqs [Alt Bos not_letter; lit_ci "name"; Alt not_letter Eos];
        seqs [lit_ci "full"; opt (Chr (in_set "-_ ")); lit_ci "name"]; lit_ci "fname"; lit_ci "lname"].

Section forms.
Context `{Dom}.

(** [_attrs]: the values that are not blank. *)
Definition attr_values (d : dom) (n : node) : string :=
  join " " (keep nonempty (omap snd (attributes d n))).

Definition b2n (b : bool) : nat := if b then 1%nat else 0%nat.

(** Whether one form asks for a message. *)
Definition is_contact_form (d : dom) (form : node) : bool :=
  if re_search NOT_CONTACT (attr_values d form) then false
  else
    let has_textarea := negb (bool_decide (css_in d form "textarea" = [])) in
    let fields := join " " (map (attr_values d) (css_in d form "input, select")) in
    if re_search NOT_CONTACT fields && negb has_textarea then false
    else
      let signals :=
        (b2n has_textarea
         + b2n (any (λ f, String.eqb (lower (attr d f "type")) "email") (css_in d form "input")
                || re_search EMAILISH_FIELD fields)
         + b2n (re_search NAMEISH fields) + b2n (re_search MESSAGEISH fields))%nat in
      (2 <=? signals)%nat.

Definition has_contact_form (html : string) : bool :=
  if negb (nonempty html) then false
  else if any (contains (lower html)) PROVIDER_MARKERS then true
  else match parse_html html with
       | None => false
       | Some d => any (is_contact_form d) (css d "form")
       end.
End forms.
