(* ===== verification/PageEmails.v ===== *)
(** * The addresses of a page ([src/app/pipeline/extract/emails.py])

    [extract_page] from the raw HTML: every source in the order the code looks at it. *)

From Stdlib Require Import ZArith NArith Ascii String Lia.
From stdpp Require Import base strings option sets list.
From S2P Require Import Prelude PyStr Models Regex Groups Url Emails Html HtmlScan PageText Json JsonLoads JsonLd.

(** ** mailto links *)

Definition is_separator (c : ascii) : bool := in_set ",;" c.
Definition not_amp : re := Chr (λ c, negb (Ascii.eqb c "&")).

(** [(?i)\b{key}(\[^&\]+)] *)
Definition PARAM (key : string) : list re := [Seq WordB (lit_ci key); plus not_amp].

Definition PARAM_KEYS : list string := ["cc="; "bcc="; "to="].

Section mailto.
Context `{Wide}.

Definition mailto_addresses (h : string) : list string :=
  let body := if String.eqb (lower (str_take 7 h)) "mailto:" then str_drop 7 h else h in
  let body := strip (unquote body) in
  let '(head, query) := cut "?" body in
  let parts := keep (λ p, nonempty (strip p)) (split_on is_separator head) in
  let more := concat (map (λ key, concat (map (λ v, split_on is_separator (unquote v))
                                               (findall_group 1 (PARAM key) query))) PARAM_KEYS) in
  map strip (keep (λ p, nonempty (strip p)) (parts ++ more)).
End mailto.

(** ** One page *)

Section page.
Context `{Tld} `{Wide} `{Html5} `{Dom} `{RecursionLimit}.

Definition tag_all (x : ExtractionMethod) (l : list string) : list (string * ExtractionMethod) := map (λ s, (s, x)) l.

Definition mailto_finds (tree : option dom) : list string :=
  match tree with
  | None => []
  | Some d =>
      concat (map mailto_addresses (keep (λ h, String.eqb (lower (str_take 7 h)) "mailto:") (map (href d) (css d "a[href]"))))
  end.

(** The attribute values with an at sign, of every element. *)
Definition attribute_values (d : dom) : list string :=
  keep (has_char "@") (concat (map (λ n, omap snd (attributes d n)) (css d "*"))).

Definition attribute_finds (tree : option dom) : list string :=
  match tree with None => [] | Some d => concat (map (re_findall EMAIL) (attribute_values d)) end.

(** Every raw find on the normalised page with its visible text, in order. *)
Definition page_finds (normalised text_ : string) : list (string * ExtractionMethod) :=
  let tree := parse_html normalised in
  let '(good, failed) := jsonld_extract normalised in
  tag_all mailto (mailto_finds tree)
  ++ tag_all jsonld good
  ++ tag_all script (concat (map regex_emails failed))
  ++ tag_all text (re_findall EMAIL text_)
  ++ tag_all attribute (attribute_finds tree)
  ++ tag_all script (concat (map (re_findall EMAIL) (bodies normalised "script"))).

(** Candidates, visible text and title; [None]: ValueError. *)
Definition extract_page (html url : string) : option (list EmailCandidate * string * string) :=
  if negb (nonempty html) then Some ([], "", "")
  else
    let '(decoded, cf_emails) := decode_html html in
    let normalised := normalize_html decoded in
    text_ ← visible_text normalised;
    Some (extract_finds url cf_emails (page_finds normalised text_) (context_for text_), text_, page_title normalised).
End page.
