(* ===== verification/PageEmailsProps.v ===== *)
(** * Where the addresses of a page come from ([src/app/pipeline/extract]) *)

From Stdlib Require Import ZArith NArith Ascii String Lia.
From stdpp Require Import base strings option sets list.
From S2P Require Import Prelude PyStr Models Regex Groups Url Emails Html HtmlScan PageText Json JsonLoads.
From S2P Require Import JsonLd PageEmails.

(** ** Matches are substrings *)

Lemma str_take_contains n s : contains s (str_take n s) = true.
Proof. eapply contains_app_l. symmetry. apply str_take_drop. Qed.

Lemma contains_cons_r c s x : contains s x = true → contains (String c s) x = true.
Proof. intros H. rewrite contains_cons, H. apply orb_true_r. Qed.

Lemma finditer_contains fuel r prev s x : x ∈ finditer fuel r prev s → contains s x = true.
Proof.
  revert prev s. induction fuel as [|fuel IH]; intros prev s H; cbn [finditer] in H; [set_solver|].
  assert (x ∈ match s with EmptyString => [] | String c s' => finditer fuel r (Some c) s' end → contains s x = true) as Hstep.
  { destruct s as [|c s']; [set_solver|]. intros ?%IH. by apply contains_cons_r. }
  destruct (match_at r (prev, s)) as [[prev' rest]|] eqn:E; [|by apply Hstep].
  destruct (_ <? _)%nat; [|by apply Hstep].
  apply elem_of_cons in H as [->|H]; [apply str_take_contains|].
  apply IH in H. eapply contains_trans; [|exact H].
  unfold match_at in E. apply m_sound in E as (p & Hm & [= ->]). apply matches_suffix in Hm. by eapply contains_app_r.
Qed.

Lemma re_findall_contains r s x : x ∈ re_findall r s → contains s x = true.
Proof. apply finditer_contains. Qed.

(** ** The candidates are the accepted finds *)

Section finds.
Context `{Tld}.

Lemma elem_of_upsert f fresh l x :
  (∀ c, email (f c) = email c ∧ source_urls (f c) = source_urls c) →
  x ∈ upsert f fresh l → (∃ c, c ∈ l ∧ email x = email c ∧ source_urls x = source_urls c) ∨ x = fresh.
Proof.
  intros Hf. unfold upsert. destruct (any _ l).
  - intros (c & Hc & ->)%elem_of_map. left. exists c. destruct (Hf c). by break.
  - intros [Hc| ->%list_elem_of_singleton]%elem_of_app; [left; by exists x|by right].
Qed.

Lemma upsert_emails f fresh l :
  (∀ c, email (f c) = email c) →
  map email (upsert f fresh l) = if any (λ c, String.eqb (email c) (email fresh)) l then map email l
                                 else map email l ++ [email fresh].
Proof.
  intros Hf. unfold upsert. break; [|by rewrite map_app]. rewrite map_map. apply map_ext. intros c. by break.
Qed.

Lemma better_method_fields x c :
  email (better_method x c) = email c ∧ source_urls (better_method x c) = source_urls c.
Proof. unfold better_method. by break. Qed.

(** What [add] keeps: one entry per accepted address, with this page as its source. *)
Record found_ok (url : string) (finds : list (string * ExtractionMethod)) (found : list EmailCandidate) : Prop := {
  fo_nodup : NoDup (map email found);
  fo_emails : ∀ e, e ∈ map email found ↔ ∃ raw, raw ∈ map fst finds ∧ accept raw = Some e;
  fo_urls : ∀ c, c ∈ found → source_urls c = [url]
}.

Lemma add_ok url cf finds found raw :
  found_ok url finds found → found_ok url (finds ++ [raw]) (add url cf found raw).
Proof.
  intros [Hn He Hu]. unfold add.
  assert (∀ e, (∃ r, r ∈ map fst (finds ++ [raw]) ∧ accept r = Some e) ↔ e ∈ map email found ∨ accept raw.1 = Some e) as Hs.
  { intros e. rewrite He, map_app. setoid_rewrite elem_of_app. cbn. setoid_rewrite list_elem_of_singleton. naive_solver. }
  destruct (accept raw.1) as [e|] eqn:Ea.
  2:{ split; [done| |done]. intros e. rewrite Hs. naive_solver. }
  set (fresh := mkCandidate e _ _ _ _).
  match goal with |- context [upsert ?f _ _] => set (g := f) end.
  assert (∀ c, email (g c) = email c ∧ source_urls (g c) = source_urls c) as Hg by (intros c; apply better_method_fields).
  split.
  - rewrite upsert_emails by apply Hg. break; [done|]. apply NoDup_app. split; [done|].
    split; [|apply NoDup_singleton]. intros x Hx ->%list_elem_of_singleton.
    apply elem_of_map in Hx as (c & Hc & Ec). rewrite any_false in Heqb. specialize (Heqb c Hc). cbn in Heqb.
    by rewrite <- Ec, String.eqb_refl in Heqb.
  - intros x. rewrite Hs, upsert_emails by apply Hg. break.
    + split; [by left|]. intros [?|[= <-]]; [done|].
      apply any_true in Heqb as (c & Hc & Ec%String.eqb_eq). cbn in Ec. rewrite <- Ec. apply elem_of_map. eauto.
    + rewrite elem_of_app, list_elem_of_singleton. cbn. naive_solver.
  - intros c [(c' & Hc' & _ & ->)| ->]%elem_of_upsert; [by apply Hu|done|exact Hg].
Qed.

Lemma fold_add_ok url cf finds : found_ok url finds (fold_left (add url cf) finds []).
Proof.
  assert (∀ pre found, found_ok url pre found → found_ok url (pre ++ finds) (fold_left (add url cf) finds found)) as Hgo.
  { induction finds as [|raw finds IH]; intros pre found Hf; cbn; [by rewrite app_nil_r|].
    rewrite (cons_middle raw), app_assoc. by apply IH, add_ok. }
  apply (Hgo [] []). split; [constructor| |set_solver]. cbn. set_solver.
Qed.

(** The candidates of a page: one for each address accepted among the finds. *)
Lemma extract_finds_ok url cf finds ctx : found_ok url finds (extract_finds url cf finds ctx).
Proof.
  unfold extract_finds. destruct (fold_add_ok url cf finds) as [Hn He Hu].
  set (found := fold_left _ finds []) in *. set (sorted := sort_by _ found).
  assert (sorted ≡ₚ found) as HP by apply sort_by_Permutation.
  assert (map email (map (λ c, mkCandidate (email c) (method c) (source_urls c) (ctx (email c)) (order c)) sorted)
          ≡ₚ map email found) as HE by (rewrite map_map; cbn; by apply Permutation_map).
  split.
  - by rewrite HE.
  - intros e. by rewrite HE.
  - intros c (c' & Hc' & ->)%elem_of_map. cbn. apply Hu. by rewrite <- HP.
Qed.
End finds.

(** ** The walk over JSON-LD adds only [email] values *)

Lemma walk_all_sound {A} (f : A → list string → list string * bool) (P : string → Prop) items :
  (∀ x out s, x ∈ items → s ∈ (f x out).1 → s ∈ out ∨ P s) →
  ∀ out s, s ∈ (walk_all f items out).1 → s ∈ out ∨ P s.
Proof.
  induction items as [|x items IH]; intros Hf out s H; cbn in H; [by left|].
  pose proof (Hf x out) as Hx. destruct (f x out) as [out' []].
  - apply IH in H as [H|H]; [|by right|]; [|intros y o t Hy; apply Hf; by right].
    apply Hx; [left|done].
  - apply Hx; [left|done].
Qed.

Lemma walk_sound limit v out s : s ∈ (walk limit v out).1 → s ∈ out ∨ email_in v s.
Proof.
  revert v out s. induction limit as [|l IH]; intros v out s H; cbn [walk] in H; [by left|].
  destruct v as [| | | | |items|members]; try (by left).
  - eapply walk_all_sound in H as [H|H]; [by left|right; exact H|].
    intros x o t Hx Ht. apply IH in Ht as [Ht|Ht]; [by left|right]. eauto with ee.
  - eapply walk_all_sound in H as [H|H]; [by left|right; exact H|].
    intros [k v] o t Hx Ht. cbn [fst snd] in Ht. revert Ht. destruct (String.eqb_spec (lower k) "email").
    + destruct v as [| | | |x|vs|]; cbn; try (by left).
      * intros [Ht| ->%list_elem_of_singleton]%elem_of_app; [by left|right]. eauto with ee.
      * intros [Ht|Ht%elem_of_strings_of]%elem_of_app; [by left|right]. eauto with ee.
    + intros [Ht|Ht]%IH; [by left|right]. eauto with ee.
Qed.

(** ** Where a find stands on the page *)

Lemma elem_of_keep_map {A B} (p : B → bool) (f : A → B) l y : y ∈ keep p (map f l) → ∃ x, x ∈ l ∧ y = f x.
Proof. intros [Hy _]%elem_of_keep. by apply elem_of_map in Hy. Qed.

Lemma elem_of_concat_map {A B} (f : A → list B) l y : y ∈ concat (map f l) ↔ ∃ x, x ∈ l ∧ y ∈ f x.
Proof. rewrite list_elem_of_In, in_concat. setoid_rewrite <- list_elem_of_In. setoid_rewrite elem_of_map. naive_solver. Qed.

Section sources.
Context `{Tld} `{Wide} `{Html5} `{Dom} `{RecursionLimit}.

(** The places an address may be read from: a recipient of a mailto link, an [email] value
    of a JSON-LD block, a script, the visible text, an attribute. *)
Inductive source_of (normalised text_ : string) : string → Prop :=
  | so_mailto d h x :
      parse_html normalised = Some d → h ∈ map (href d) (css d "a[href]") → x ∈ mailto_addresses h →
      source_of normalised text_ x
  | so_jsonld body t v s :
      body ∈ blocks normalised → t = body ∨ t = without_trailing_commas body →
      loads scan_limit t = Got v "" → email_in v s → source_of normalised text_ s
  | so_script body : body ∈ bodies normalised "script" → source_of normalised text_ body
  | so_text : source_of normalised text_ text_
  | so_attribute d n k v :
      parse_html normalised = Some d → n ∈ css d "*" → (k, Some v) ∈ attributes d n →
      source_of normalised text_ v.
#[local] Hint Constructors source_of : ee.

Lemma loads_rest limit t v r : loads limit t = Got v r → r = "".
Proof. unfold loads, then_. destruct (scan_once _ _); try done. destruct (skip_ws _); by intros [= -> ->]. Qed.

Lemma try_text_sound t raw s :
  s ∈ (try_text t raw).1 → s ∈ raw ∨ ∃ v, loads scan_limit t = Got v "" ∧ email_in v s.
Proof.
  unfold try_text. destruct (loads scan_limit t) as [v r| |] eqn:E; [|by left|by left].
  pose proof (loads_rest _ _ _ _ E) as ->. intros [?|?]%walk_sound; [by left|right; eauto].
Qed.

Lemma clean_value_contains s : contains (lower s) (clean_value s) = true.
Proof.
  unfold clean_value. set (v := if startswith _ _ then _ else _).
  assert (contains s v = true) as Hv.
  { subst v. eapply contains_trans; [apply contains_strip_by|]. break; [|apply contains_refl].
    eapply contains_app_r. symmetry. apply str_take_drop. }
  eapply contains_trans; [apply contains_lower, Hv|]. eapply contains_trans; [|apply clean_contains].
  apply contains_lower. unfold cut. destruct (partition_at "?" v) as [[a b]|] eqn:E; [|apply contains_refl].
  apply partition_at_Some in E. by eapply contains_app_l.
Qed.

(** A value of a block stands in one of its two readings. *)
Lemma emails_from_block_sound body e :
  e ∈ (emails_from_block body).1 →
  ∃ t v s, (t = body ∨ t = without_trailing_commas body) ∧ loads scan_limit t = Got v "" ∧ email_in v s ∧
           e = clean_value s.
Proof.
  unfold emails_from_block. pose proof (try_text_sound body []) as R1. destruct (try_text body []) as [raw1 ok1].
  cbn in R1. assert (∀ s, s ∈ raw1 → ∃ v, loads scan_limit body = Got v "" ∧ email_in v s) as R1'.
  { intros s Hs. destruct (R1 s Hs); [set_solver|done]. }
  pose proof (try_text_sound (without_trailing_commas body) raw1) as R2.
  destruct (try_text (without_trailing_commas body) raw1) as [raw2 ok2]. cbn in R2.
  destruct ok1; [|destruct ok2; [|cbn; set_solver]]; cbn; intros (s & Hs & ->)%elem_of_keep_map.
  - destruct (R1' s Hs) as (v & ? & ?). exists body, v, s. eauto.
  - destruct (R2 s Hs) as [Hs'|(v & ? & ?)]; [destruct (R1' s Hs') as (v & ? & ?); exists body, v, s; eauto|].
    exists (without_trailing_commas body), v, s. eauto.
Qed.

Lemma jsonld_extract_sound html :
  (∀ e, e ∈ (jsonld_extract html).1 → ∃ body, body ∈ blocks html ∧ e ∈ (emails_from_block body).1) ∧
  (∀ body, body ∈ (jsonld_extract html).2 → body ∈ blocks html).
Proof.
  unfold jsonld_extract. set (f := λ (acc : list string * list string) body, _).
  assert (∀ l acc, (∀ e, e ∈ (fold_left f l acc).1 → e ∈ acc.1 ∨ ∃ body, body ∈ l ∧ e ∈ (emails_from_block body).1) ∧
                   (∀ b, b ∈ (fold_left f l acc).2 → b ∈ acc.2 ∨ b ∈ l)) as Hgo.
  { induction l as [|body l IH]; intros acc; cbn; [split; auto|].
    destruct (IH (f acc body)) as [I1 I2].
    assert (f acc body = let '(emails, ok) := emails_from_block body in
              if ok : bool then (acc.1 ++ emails, acc.2) else (acc.1, acc.2 ++ [body])) as Ef by done.
    split.
    - intros e [He|(b & ? & ?)]%I1; [|right; exists b; split; [by right|done]]. rewrite Ef in He.
      destruct (emails_from_block body) as [emails []] eqn:E; [|by left].
      apply elem_of_app in He as [He|He]; [by left|right]. exists body. split; [left|]. by rewrite E.
    - intros b [Hb|Hb]%I2; [|right; by right]. rewrite Ef in Hb.
      destruct (emails_from_block body) as [emails []]; [by left|].
      apply elem_of_app in Hb as [Hb|Hb%list_elem_of_singleton]; [by left|right]. subst. left. }
  destruct (Hgo (blocks html) ([], [])) as [G1 G2]. split.
  - intros e [?|?]%G1; [set_solver|done].
  - intros b [?|?]%G2; [set_solver|done].
Qed.

Lemma blocks_are_bodies html body : body ∈ blocks html → body ∈ bodies html "script".
Proof. unfold blocks, bodies. intros (b & [Hb _]%elem_of_keep & ->)%elem_of_map. apply elem_of_map. eauto. Qed.

(** Every raw find stands, letter case aside, in one of the page's sources. *)
Lemma page_finds_sound normalised text_ raw x :
  (raw, x) ∈ page_finds normalised text_ →
  ∃ src, source_of normalised text_ src ∧ contains (lower src) (lower raw) = true.
Proof.
  unfold page_finds. destruct (jsonld_extract normalised) as [good failed] eqn:Ej.
  destruct (jsonld_extract_sound normalised) as [J1 J2]. rewrite Ej in J1, J2. cbn in J1, J2.
  assert (∀ src y, source_of normalised text_ src → contains src y = true →
            ∃ src, source_of normalised text_ src ∧ contains (lower src) (lower y) = true) as Hsub.
  { intros src y Hs Hc. exists src. split; [done|]. by apply contains_lower. }
  rewrite !elem_of_app. unfold tag_all. 
  intros [Hin|[Hin|[Hin|[Hin|[Hin|Hin]]]]]; apply elem_of_map in Hin as (y & Hy & [= -> ->]).
  - unfold mailto_finds in Hy. destruct (parse_html normalised) as [d|] eqn:Ed; [|set_solver].
    apply elem_of_concat_map in Hy as (h & [Hh _]%elem_of_keep & Hy).
    apply (Hsub y); [by eapply so_mailto|apply contains_refl].
  - destruct (J1 y Hy) as (body & Hb & (t & v & s & Ht & Hl & Hs & ->)%emails_from_block_sound).
    exists s. split; [by eapply so_jsonld|]. unfold clean_value. unfold clean at 1. rewrite lower_idemp.
    apply clean_value_contains.
  - apply elem_of_concat_map in Hy as (body & Hb & (z & Hz & ->)%elem_of_map).
    exists body. split; [by apply so_script, blocks_are_bodies, J2|]. unfold clean at 1. rewrite lower_idemp.
    eapply contains_trans; [by apply contains_lower, (re_findall_contains EMAIL), Hz|]. apply clean_contains.
  - apply (Hsub text_); [apply so_text|by eapply re_findall_contains].
  - unfold attribute_finds in Hy. destruct (parse_html normalised) as [d|] eqn:Ed; [|set_solver].
    apply elem_of_concat_map in Hy as (v & Hv & Hy%re_findall_contains).
    apply elem_of_keep in Hv as [(n & Hn & Hv)%elem_of_concat_map _].
    apply list_elem_of_omap in Hv as ([k w] & Hk & Ew). cbn in Ew. subst w.
    apply (Hsub v); [by eapply so_attribute|done].
  - apply elem_of_concat_map in Hy as (body & Hb & Hy%re_findall_contains).
    apply (Hsub body); [by apply so_script|done].
Qed.

(** The candidates of a page come from its sources and name it as theirs. *)
Lemma extract_page_sound html url cs text_ title c :
  extract_page html url = Some (cs, text_, title) → c ∈ cs →
  source_urls c = [url] ∧
  visible_text (normalize_html (decode_html html).1) = Some text_ ∧
  ∃ src, source_of (normalize_html (decode_html html).1) text_ src ∧ contains (lower src) (email c) = true.
Proof.
  unfold extract_page. destruct (nonempty html); cbn [negb]; [|intros [= <- <- <-]; set_solver].
  destruct (decode_html html) as [decoded cf]. cbn [fst].
  destruct (visible_text (normalize_html decoded)) as [t|] eqn:Et; [|done]. cbn. intros [= <- <- <-] Hc.
  destruct (extract_finds_ok url cf (page_finds (normalize_html decoded) t) (context_for t)) as [_ He Hu].
  split; [by apply Hu|]. split; [done|].
  destruct (proj1 (He (email c)) ltac:(apply elem_of_map; eauto)) as (raw & ([r x] & Hr & ->)%elem_of_map & Ha).
  apply page_finds_sound in Hr as (src & Hs & Hcon). exists src. split; [done|].
  eapply contains_trans; [exact Hcon|]. by apply accepted_address_occurs in Ha as [Ha _].
Qed.
End sources.
