(* ===== verification/PageTextProps.v ===== *)
(** * What the page's text keeps ([normalize_html.py], [context.py]) *)

From Stdlib Require Import ZArith NArith Ascii String Lia.
From stdpp Require Import base strings option sets list.
From S2P Require Import Prelude PyStr Regex Groups Url Emails Html HtmlScan PageText PageEmailsProps.

(** ** JSON-LD is left as it is *)

(** Fragments with the blocks between them. *)
Fixpoint weave (frags blocks : list string) : string :=
  match frags, blocks with
  | f :: frags', b :: blocks' => f +:+ b +:+ weave frags' blocks'
  | f :: _, [] => f
  | [], _ => ""
  end.

Definition block_text (html : string) (b : Block) : string := slice (b_start b) (b_end b) html.

Lemma str_drop_slice n s : (n ≤ String.length s)%nat → str_drop n s = slice n (String.length s) s.
Proof. intros Hn. unfold slice. rewrite str_take_all; [done|]. rewrite length_str_drop. lia. Qed.

#[local] Opaque normalise_fragment is_jsonld.

Lemma normalize_from_weave html blocks : ∀ last,
  (last ≤ String.length html)%nat → blocks_ok (String.length html) last blocks →
  ∃ frags, length frags = S (length (keep is_jsonld blocks)) ∧
    slice last (String.length html) html = weave frags (map (block_text html) (keep is_jsonld blocks)) ∧
    normalize_from html last blocks =
      weave (map normalise_fragment frags) (map (block_text html) (keep is_jsonld blocks)).
Proof.
  induction blocks as [|b blocks IH]; intros last Hl Hok; cbn [normalize_from].
  { exists [str_drop last html]. split_and!; [reflexivity|by rewrite str_drop_slice|reflexivity]. }
  destruct Hok as (H1 & H2 & H3 & H4). unfold keep in *. cbn [List.filter].
  destruct (is_jsonld b) eqn:Ej.
  - destruct (IH (b_end b) H3 H4) as (frags & E1 & E2 & E3). exists (slice last (b_start b) html :: frags).
    cbn [length map weave]. split_and!; [by rewrite E1| |by rewrite E3].
    rewrite <- E2. unfold block_text. rewrite <- (slice_app last (b_start b) (String.length html)) by lia.
    by rewrite <- (slice_app (b_start b) (b_end b) (String.length html)) by lia.
  - apply IH; [done|]. eapply blocks_ok_mono; [|exact H4]. lia.
Qed.

(** Normalisation never touches JSON-LD.  The page is a sequence of fragments with its
    JSON-LD script blocks between them, and the normalised page is the normalised fragments
    with the same blocks, byte for byte and in the same order, between them. *)
Theorem normalize_html_keeps_jsonld (html : string) :
  let kept := map (block_text html) (keep is_jsonld (iter_blocks html "script")) in
  ∃ frags, length frags = S (length kept) ∧ html = weave frags kept ∧
           normalize_html html = weave (if nonempty html then map normalise_fragment frags else frags) kept.
Proof.
  intros kept. destruct (iter_blocks_partition html "script") as (Hok & _).
  destruct (normalize_from_weave html (iter_blocks html "script") 0 ltac:(lia) Hok) as (frags & E1 & E2 & E3).
  exists frags. rewrite slice_all in E2. split_and!; [by rewrite E1; unfold kept; rewrite length_map|done|].
  unfold normalize_html. destruct (nonempty html) eqn:En; [done|].
  unfold nonempty in En. apply negb_false_iff, String.eqb_eq in En.
  transitivity html; [by rewrite En|exact E2].
Qed.

(** ** The spelled-out rule needs a cue *)

(** A text that took part in a match, letter case aside. *)
Definition says (s w : string) : Prop := contains (lower s) w = true.

Lemma says_matched w p p' q : matches (lit_ci w) p p' → lower w = w → contains q p.2 = true → says q w.
Proof.
  intros (s & E & Es)%matches_lit_ci Hw Hq. unfold says. rewrite <- Hw, <- Es.
  eapply contains_trans; [apply contains_lower, Hq|]. apply contains_lower. by eapply contains_app_l.
Qed.

Lemma contains_after r p p' q : matches r p p' → contains q p.2 = true → contains q p'.2 = true.
Proof. intros Hm%matches_suffix Hq. eapply contains_trans; [exact Hq|]. by eapply contains_app_r. Qed.

Definition CUE_MARKS : list string := ["mail"; "contact"; "reach"; "write"; "enquir"; "inquir"].

Lemma cue_word_says p p' q : matches CUE_WORD p p' → contains q p.2 = true → ∃ w, w ∈ CUE_MARKS ∧ says q w.
Proof.
  intros Hm Hq. unfold CUE_WORD in Hm. cbn [alts seqs] in Hm.
  assert (∀ w r r', matches (lit_ci w) r r' → lower w = w → contains q r.2 = true → w ∈ CUE_MARKS →
            ∃ v, v ∈ CUE_MARKS ∧ says q v) as Hgo.
  { intros w r r' H1 H2 H3 H4. exists w. split; [done|]. by eapply says_matched. }
  apply alt_inv in Hm as [(p1 & H1 & (p2 & H2 & H3)%seq_inv)%seq_inv|Hm].
  { eapply (Hgo "mail"); [exact H3|done| |unfold CUE_MARKS; set_solver].
    eapply contains_after; [exact H2|]. by eapply contains_after. }
  apply alt_inv in Hm as [Hm|Hm]; [eapply (Hgo "mail"); [exact Hm|done|done|unfold CUE_MARKS; set_solver]|].
  apply alt_inv in Hm as [Hm|Hm]; [eapply (Hgo "contact"); [exact Hm|done|done|unfold CUE_MARKS; set_solver]|].
  apply alt_inv in Hm as [(p1 & H1 & _)%seq_inv|Hm]; [eapply (Hgo "reach"); [exact H1|done|done|unfold CUE_MARKS; set_solver]|].
  apply alt_inv in Hm as [(p1 & H1 & _)%seq_inv|Hm]; [eapply (Hgo "write"); [exact H1|done|done|unfold CUE_MARKS; set_solver]|].
  apply alt_inv in Hm as [(p1 & H1 & _)%seq_inv|(p1 & H1 & _)%seq_inv].
  - eapply (Hgo "enquir"); [exact H1|done|done|unfold CUE_MARKS; set_solver].
  - eapply (Hgo "inquir"); [exact H1|done|done|unfold CUE_MARKS; set_solver].
Qed.

Lemma spelled_hit_says text g : g ∈ hits SPELLED text → ∃ w, w ∈ CUE_MARKS ∧ says text w.
Proof.
  intros (a & q & b & e & -> & Hs)%hits_match.
  assert (contains (a +:+ b) b = true) as Hb by (by eapply contains_app_r).
  inversion Hs as [|r rs p p1 p2 x l Hm _ _]; subst.
  apply seq_inv in Hm as (p3 & (p4 & H1 & (p5 & H2 & _)%seq_inv)%seq_inv & _).
  eapply cue_word_says; [exact H2|]. eapply contains_after; [exact H1|done].
Qed.

(** Ordinary copy is never turned into an address.  A text without one of the contact cues
    (mail, contact, reach, write, enquir, inquir) is left alone by the rule that reads
    "name at host dot com" as an address, whatever else it says. *)
Theorem spelled_needs_cue (text : string) (Hcue : ∀ w, w ∈ CUE_MARKS → contains (lower text) w = false) :
  sub_with spell SPELLED text = text.
Proof.
  apply sub_with_none. destruct (hits SPELLED text) as [|g l] eqn:E; [done|]. exfalso.
  destruct (spelled_hit_says text g) as (w & Hw & Hs); [rewrite E; left|]. unfold says in Hs. rewrite Hcue in Hs; done.
Qed.

Lemma spelled_needs_cue_witness :
  sub_with spell SPELLED "Order online at acmeroofing dot com" = "Order online at acmeroofing dot com" ∧
  sub_with spell SPELLED "Email joe at acmeroofing dot com" = "Email joe@acmeroofing.com".
Proof.
  split; [|vm_compute; reflexivity]. apply (spelled_needs_cue "Order online at acmeroofing dot com").
  intros w Hw. unfold CUE_MARKS in Hw. repeat (apply elem_of_cons in Hw as [->|Hw]; [vm_compute; reflexivity|]).
  by apply not_elem_of_nil in Hw.
Defined.
