(* ===== verification/JudgeClient.v ===== *)
(** * The judging client ([src/app/pipeline/typesafe.py])

    The request body, the retries of one request on the client's own breaker, and the
    reading of the answers, which are any JSON the service sends. *)

From Stdlib Require Import ZArith QArith NArith Ascii String Lia.
From stdpp Require Import base strings pretty option sets list.
From S2P Require Import Prelude PyStr Models RateLimit Breaker Regex Emails FilterRank Jobs Json JsonLoads RetryAfter.

(** ** The request *)

Definition BEST_CONTACT_Q (domain : string) : string :=
  "Which email is the best way to reach the owner or a decision maker at the business that owns " +:+ domain
  +:+ "? Prefer a named person at the business over a generic inbox. "
  +:+ "Emails for the web designer, hosting platform, software vendor, or other third parties do not count.".

Definition SITE_STATUS_Q (domain : string) : string := "What kind of website is " +:+ domain +:+ "?".

Definition BELONGS_Q (email domain : string) : string :=
  "Does the email " +:+ email +:+ " belong to the business that owns " +:+ domain
  +:+ " (the owner, an employee, or a company inbox), rather than a web designer, platform, vendor, or other third party?".

Definition choice_question (instructions : string) (criteria : list (string * json)) : json :=
  JObj [("type", JStr "choice"); ("instructions", JStr instructions); ("criteria", JObj criteria)].

(** A dict of the addresses, which are distinct. *)
Definition contact_criteria (emails : list string) : list (string * json) :=
  dict_set (map (λ e, (e, JNull)) emails) "none" (JStr "None of these emails belongs to this business.").

Definition site_criteria : list (string * json) :=
  [("operating_business", JStr "A real business that is currently operating and selling products or services.");
   ("parked_or_for_sale", JStr "A parked domain, placeholder, or domain listed for sale.");
   ("other", JStr "Something else, such as a personal blog, directory, or closed business.")].

Definition belongs_key (i : nat) : string := "belongs_" +:+ pretty (N.of_nat i).

Definition belongs_questions (picked : list RankedEmail) (domain : string) : list (string * json) :=
  imap (λ i r, (belongs_key i,
                JObj [("type", JStr "noul"); ("instructions", JStr (BELONGS_Q (r_email r) domain))])) picked.

Definition candidate_entry (r : RankedEmail) : json :=
  JObj [("email", JStr (r_email r)); ("context", JStr (str_take 400 (context (candidate r))));
        ("source_url", JStr (default "" (head (source_urls (candidate r)))))].

Section body.
Context (cfg : Settings).

Definition build_body (ranked : list RankedEmail) (domain page_title : string) : json * list string :=
  let picked := pick_distinct ranked [] MAX_JUDGE_CANDIDATES in
  let emails := map (λ r, lower (r_email r)) picked in
  (JObj [("model", JStr (typesafe_model cfg));
         ("state", JObj [("business_domain", JStr domain); ("page_title", JStr (str_take 150 page_title));
                         ("candidates", JArr (map candidate_entry picked))]);
         ("questions", JObj (("best_contact", choice_question (BEST_CONTACT_Q domain) (contact_criteria emails))
                             :: ("site_status", choice_question (SITE_STATUS_Q domain) site_criteria)
                             :: belongs_questions picked domain))],
   emails).
End body.

(** ** Reading the answers *)

(** Python's truth of a JSON value. *)
Definition truthy (v : json) : bool :=
  match v with
  | JNull => false
  | JBool b => b
  | JInt n => negb (Z.eqb n 0)
  | JFloat r => match float_of_text r with Some (Fin q) => negb (Qeq_bool q 0) | _ => true end
  | JStr s => nonempty s
  | JArr l => match l with [] => false | _ => true end
  | JObj l => match l with [] => false | _ => true end
  end.

(** A value, or the name of the exception raised. *)
Definition or_raise {A B} (x : string + A) (f : A → string + B) : string + B :=
  match x with inl e => inl e | inr a => f a end.
Notation "'get!' x := m 'in' k" := (or_raise m (λ x, k)) (at level 200, x name, m at level 100, k at level 200).

Definition text_float (s : string) : string + FloatVal :=
  match float_of_text s with Some x => inr x | None => inl "ValueError" end.

(** [float(v)]. *)
Definition py_float (v : json) : string + FloatVal :=
  match v with
  | JInt n => if Z.ltb (Z.abs n) FLOAT_LIMIT then inr (Fin (inject_Z n)) else inl "OverflowError"
  | JBool b => inr (Fin (if b then 1 else 0))
  | JFloat r => text_float r
  | JStr s => text_float s
  | _ => inl "TypeError"
  end.

(** [v.get(key)]. *)
Definition get_key (v : json) (key : string) : string + json :=
  match v with JObj l => inr (default JNull (dict_get l key)) | _ => inl "AttributeError" end.

(** [v.get(key) or {}]. *)
Definition get_or_empty (v : json) (key : string) : string + json :=
  get! x := get_key v key in inr (if truthy x then x else JObj []).

(** [(v or "").strip()]. *)
Definition text_or_blank (v : json) : string + string :=
  if truthy v then match v with JStr s => inr (strip s) | _ => inl "AttributeError" end else inr "".

Definition float_or_zero (v : json) : string + FloatVal := if truthy v then py_float v else inr (Fin 0).

(** The numbers the service gives for the questions [i] to [i + n - 1]: a TypeError or
    ValueError counts as 0. *)
Fixpoint read_nouls (answers : json) (i n : nat) : string + list FloatVal :=
  match n with
  | O => inr []
  | S n' =>
      get! node := get_or_empty answers (belongs_key i) in
      get! v := get_key node "noul" in
      get! q := match py_float v with
                | inl e => if mem e ["TypeError"; "ValueError"] then inr (Fin 0) else inl e
                | x => x
                end in
      get! rest := read_nouls answers (S i) n' in
      inr (q :: rest)
  end.

(** What [decide] reads, in its order, for [n] addresses.  A status that is no text makes
    the result invalid. *)
Definition read_answers (answers : json) (n : nat) : string + Answers :=
  get! best := get_or_empty answers "best_contact" in
  get! c := get_key best "choice" in
  get! choice := text_or_blank c in
  get! conf := get_key best "confidence" in
  get! confidence := float_or_zero conf in
  get! nouls := read_nouls answers 0 n in
  get! site := get_or_empty answers "site_status" in
  get! status := get_key site "choice" in
  get! site_conf := get_key site "confidence" in
  get! _q := float_or_zero site_conf in
  get! kind := match status with JNull => inr None | JStr s => inr (Some s) | _ => inl "ValidationError" end in
  inr (mkAnswers (Some choice) confidence (λ i, nouls !! i) kind).

(** [judge], given what [_post] makes of a body: the answers, or its exception ([None]). *)
Definition judge_client (cfg : Settings) (ranked : list RankedEmail) (domain page_title : string)
    (post : json → option json) : string + Judgment :=
  if negb (should_call ranked) then inr (rules_only ranked)
  else
    let '(body, emails) := build_body cfg ranked domain page_title in
    match post body with
    | None => inr (judge cfg ranked None)
    | Some answers => get! a := read_answers answers (length emails) in inr (judge cfg ranked (Some a))
    end.

(** A failing service never fails the domain: the rules decide and the failure is noted. *)
Lemma judge_client_failed cfg ranked domain page_title post :
  should_call ranked = true → post (build_body cfg ranked domain page_title).1 = None →
  ∃ j, judge_client cfg ranked domain page_title post = inr j ∧ jg_typesafe_error j = true ∧
       jg_best_email j = jg_best_email (rules_only ranked).
Proof.
  intros Hs Hp. unfold judge_client. rewrite Hs. cbn [negb]. destruct (build_body _ _ _ _) as [body emails].
  cbn in Hp. rewrite Hp. eexists. split; [done|]. unfold judge. by rewrite Hs.
Qed.
(** Answers of the wrong shape are an exception, not a fallback: the choice is a list. *)
Example malformed_answers_raise :
  read_answers (JObj [("best_contact", JObj [("choice", JArr [JNull])])]) 1 = inl "AttributeError".
Proof. reflexivity. Qed.

(** ** One request ([_post]) *)

Definition RETRY_DELAYS : list Q := [2; 4; 8; 16; 32]%Q.

(** [r.json().get("answers") or {}]: a value, a RuntimeError (JSON nested too deeply), or
    another exception. *)
Inductive ReadBody := ReadOk (answers : json) | ReadRuntimeError | ReadError.

(** How one POST ends: with a status and a body to read, with a RuntimeError of the client,
    or with another exception. *)
Inductive PostAnswer := Answered (status : Z) (body : ReadBody) | PostRuntimeError | PostRaised.

(** The outside of one request: when each attempt checks the breaker and is answered, the
    answers, and what other requests do to the breaker while this one waits and sleeps. *)
Record PostEnv := mkPostEnv {
  pe_check_at : nat → Q;
  pe_answer_at : nat → Q;
  pe_answer : nat → PostAnswer;
  pe_waiting : nat → Breaker → Breaker;
  pe_sleeping : nat → Breaker → Breaker
}.

Inductive PostEnd :=
  | PostOk (answers : json)
  | PostOpen                     (* CircuitOpen *)
  | PostRefused (status : Z)     (* RuntimeError of a status that is not retried *)
  | PostRuntime                  (* another RuntimeError, raised again *)
  | PostOverflow                 (* the breaker's own OverflowError, out of the handler *)
  | PostExhausted.

(** What an attempt leads to. *)
Inductive PostStep := StepEnd (e : PostEnd) (b : Breaker) | StepRetry (b : Breaker).

Definition transient_status (status : Z) : bool := mem status [429; 529]%Z || (Z.leb 500 status && Z.ltb status 600).
Definition account_status (status : Z) : bool := mem status [401; 402; 403]%Z.

Section post.
Context (cfg : BreakerConfig) (env : PostEnv).

(** The [except Exception] branch. *)
Definition count_failure (now : Q) (b : Breaker) : PostStep :=
  match record cfg now false "" b with
  | (None, b') => StepRetry b'
  | (Some _, b') => StepEnd PostOverflow b'
  end.

(** The body of the [try] from the answer on; an exception of the breaker itself falls into
    [except Exception] too. *)
Definition after_answer (now : Q) (a : PostAnswer) (b : Breaker) : PostStep :=
  match a with
  | PostRaised => count_failure now b
  | PostRuntimeError => StepEnd PostRuntime b
  | Answered status body =>
      if transient_status status then
        match record cfg now false "" b with (None, b') => StepRetry b' | (Some _, b') => count_failure now b' end
      else if Z.leb 400 status then
        match record cfg now (negb (account_status status)) "" b with
        | (None, b') => StepEnd (PostRefused status) b'
        | (Some _, b') => count_failure now b'
        end
      else
        match record cfg now true "" b with
        | (None, b') =>
            match body with
            | ReadOk x => StepEnd (PostOk x) b'
            | ReadRuntimeError => StepEnd PostRuntime b'
            | ReadError => count_failure now b'
            end
        | (Some _, b') => count_failure now b'
        end
  end.

(** Attempt [i] with [left] more to come: how it ends, the breaker, the number of POSTs. *)
Fixpoint post_loop (left i : nat) (b : Breaker) : PostEnd * Breaker * nat :=
  match check cfg (pe_check_at env i) b with
  | (Some _, b1) => (PostOpen, b1, i)
  | (None, b1) =>
      match after_answer (pe_answer_at env i) (pe_answer env i) (pe_waiting env i b1) with
      | StepEnd e b2 => (e, b2, S i)
      | StepRetry b2 =>
          match left with
          | O => (PostExhausted, b2, S i)
          | S left' => post_loop left' (S i) (pe_sleeping env i b2)
          end
      end
  end.

Definition post (b : Breaker) : PostEnd * Breaker * nat := post_loop (length RETRY_DELAYS) 0 b.
End post.

(** ** What one request promises *)

(** An answer after which the request is made again. *)
Definition worth_retrying (a : PostAnswer) : Prop :=
  match a with
  | PostRaised => True
  | PostRuntimeError => False
  | Answered status body => transient_status status = true ∨ (status < 400)%Z ∧ body = ReadError
  end.

(** How the answer of the last attempt and the end fit together. *)
Definition end_fits (a : PostAnswer) (e : PostEnd) : Prop :=
  match e with
  | PostOk x => ∃ status, a = Answered status (ReadOk x) ∧ (status < 400)%Z ∧ transient_status status = false
  | PostRefused status => (∃ body, a = Answered status body) ∧ (400 ≤ status)%Z ∧ transient_status status = false
  | PostRuntime => a = PostRuntimeError ∨ ∃ status, a = Answered status ReadRuntimeError
  | _ => True
  end.

(** The breaker can still be opened twice: the exponent of its window fits a float. *)
Definition can_open (b : Breaker) : Prop := (S (consecutive_opens b) < FLOAT_MAX_EXP)%nat.

Section post_props.
Context (cfg : BreakerConfig) (env : PostEnv).

Lemma open_breaker_ok now b :
  (consecutive_opens b < FLOAT_MAX_EXP)%nat →
  (open_breaker cfg now b).1 = None ∧ (consecutive_opens (open_breaker cfg now b).2 ≤ S (consecutive_opens b))%nat.
Proof.
  unfold open_breaker. intros Hb. destruct (recovered cfg now b).
  - destruct (Nat.leb_spec FLOAT_MAX_EXP 0); [unfold FLOAT_MAX_EXP in *; lia|]. cbn. split; [done|lia].
  - destruct (Nat.leb_spec FLOAT_MAX_EXP (consecutive_opens b)); [lia|]. cbn. split; [done|lia].
Qed.

Lemma record_ok now ok reason b :
  (consecutive_opens b < FLOAT_MAX_EXP)%nat →
  (record cfg now ok reason b).1 = None ∧
  (consecutive_opens (record cfg now ok reason b).2 ≤ S (consecutive_opens b))%nat.
Proof.
  intros Hb. assert (consecutive_opens (state now (note_reason ok reason b)) = consecutive_opens b) as Ec.
  { unfold state, note_reason. by repeat break. }
  unfold record. set (b1 := state now (note_reason ok reason b)) in *.
  assert (∀ b2, consecutive_opens b2 = consecutive_opens b →
            (open_breaker cfg now b2).1 = None ∧
            (consecutive_opens (open_breaker cfg now b2).2 ≤ S (consecutive_opens b))%nat) as Ho.
  { intros b2 E2. rewrite <- E2. apply open_breaker_ok. by rewrite E2. }
  destruct (state_field b1); repeat break; try (by apply Ho); cbn; rewrite Ec; split; try done; lia.
Qed.

Lemma recorded now ok b :
  (consecutive_opens b < FLOAT_MAX_EXP)%nat →
  ∃ b', record cfg now ok "" b = (None, b') ∧ (consecutive_opens b' ≤ S (consecutive_opens b))%nat.
Proof.
  intros Hb. pose proof (record_ok now ok "" b Hb) as [E1 E2]. destruct (record cfg now ok "" b) as [r b'].
  cbn in E1, E2. subst. eauto.
Qed.

Lemma count_failure_retries now b :
  (consecutive_opens b < FLOAT_MAX_EXP)%nat → ∃ b', count_failure cfg now b = StepRetry b'.
Proof. intros Hb. unfold count_failure. destruct (recorded now false b Hb) as (b' & -> & _). eauto. Qed.

(** One answer: it is retried exactly when it is worth it. *)
Lemma after_answer_spec now a b :
  can_open b →
  match after_answer cfg now a b with
  | StepRetry _ => worth_retrying a
  | StepEnd e _ => end_fits a e ∧ e ≠ PostOpen ∧ e ≠ PostExhausted ∧ e ≠ PostOverflow
  end.
Proof.
  unfold can_open. intros Hb. destruct a as [status body| |]; cbn [after_answer].
  2:{ split_and!; [by left|done|done|done]. }
  2:{ by destruct (count_failure_retries now b) as (b' & ->); [lia|]. }
  destruct (transient_status status) eqn:Et.
  { destruct (recorded now false b) as (b' & -> & _); [lia|]. by left. }
  destruct (Z.leb_spec 400 status).
  { destruct (recorded now (negb (account_status status)) b) as (b' & -> & _); [lia|].
    split_and!; [split_and!; eauto|done|done|done]. }
  destruct (recorded now true b) as (b' & -> & Hc); [lia|]. destruct body as [x| |].
  - split_and!; [by exists status|done|done|done].
  - split_and!; [right; by exists status|done|done|done].
  - destruct (count_failure_retries now b') as (b2 & ->); [lia|]. by right.
Qed.

(** The breaker never comes close to overflowing while this request waits. *)
Context (Hopen : ∀ i b, can_open (pe_waiting env i b)).

Lemma post_loop_spec left i b :
  let '(e, _, n) := post_loop cfg env left i b in
  (i ≤ n ≤ S (i + left))%nat ∧ (∀ j, (i ≤ j)%nat → (S j < n)%nat → worth_retrying (pe_answer env j)) ∧
  match e with
  | PostOpen => ∀ j, (i ≤ j < n)%nat → worth_retrying (pe_answer env j)
  | PostExhausted => n = S (i + left) ∧ ∀ j, (i ≤ j < n)%nat → worth_retrying (pe_answer env j)
  | PostOverflow => False
  | _ => ∃ k, n = S k ∧ end_fits (pe_answer env k) e
  end.
Proof.
  revert i b. induction left as [|left IH]; intros i b; cbn [post_loop];
    (destruct (check cfg (pe_check_at env i) b) as [[r|] b1]; [split_and!; [lia|lia|lia|lia]|]);
    pose proof (after_answer_spec (pe_answer_at env i) (pe_answer env i) (pe_waiting env i b1) (Hopen i b1)) as Ha;
    (destruct (after_answer _ _ _ _) as [e b2|b2];
       [destruct Ha as (Hf & N1 & N2 & N3); split_and!; [lia|lia|lia|destruct e; try done; by exists i]|]).
  - split_and!; [lia|lia|lia|lia|]. intros j Hj. assert (j = i) as -> by lia. done.
  - specialize (IH (S i) (pe_sleeping env i b2)). destruct (post_loop _ _ _ _ _) as [[e b'] n].
    destruct IH as (I1 & I2 & I3).
    assert (∀ j, (i ≤ j)%nat → j = i ∨ (S i ≤ j)%nat) as Hj by lia.
    split_and!; [lia|lia| |].
    + intros j H1 H2. destruct (Hj j H1) as [->|?]; [done|]. by apply I2.
    + destruct e; try done.
      * intros j [H1 H2]. destruct (Hj j H1) as [->|?]; [done|]. apply I3. lia.
      * destruct I3 as [-> I3]. split; [lia|]. intros j [H1 H2]. destruct (Hj j H1) as [->|?]; [done|]. apply I3. lia.
Qed.
End post_props.

(** A request to the judging service is retried only while that can help.  At most six POSTs
    are made, and every one but the last was answered with 429, 529, a 5xx, an exception or
    a body that cannot be read; the request is given up only after six such answers or when
    the breaker refuses the next; any other answer ends it at once, a readable one below 400
    with its answers, a 4xx or a RuntimeError with an error. *)
Theorem post_retries_transient (cfg : BreakerConfig) (env : PostEnv) (b : Breaker)
    (Hopen : ∀ i b, can_open (pe_waiting env i b)) :
  let '(e, _, n) := post cfg env b in
  (n ≤ 6)%nat ∧ (∀ i, (S i < n)%nat → worth_retrying (pe_answer env i)) ∧
  match e with
  | PostOpen => ∀ i, (i < n)%nat → worth_retrying (pe_answer env i)
  | PostExhausted => n = 6%nat ∧ ∀ i, (i < n)%nat → worth_retrying (pe_answer env i)
  | PostOverflow => False
  | PostOk x => ∃ k status, n = S k ∧ pe_answer env k = Answered status (ReadOk x) ∧ (status < 400)%Z
  | PostRefused status => ∃ k body, n = S k ∧ pe_answer env k = Answered status body ∧
                          (400 ≤ status)%Z ∧ transient_status status = false
  | PostRuntime => ∃ k, n = S k ∧ (pe_answer env k = PostRuntimeError ∨
                          ∃ status, pe_answer env k = Answered status ReadRuntimeError)
  end.
Proof.
  unfold post. pose proof (post_loop_spec cfg env Hopen (length RETRY_DELAYS) 0 b) as H0.
  destruct (post_loop _ _ _ _ _) as [[e b'] n]. cbn in H0. destruct H0 as (H1 & H2 & H3).
  split_and!; [lia|intros i; apply H2; lia|]. destruct e; try done.
  - destruct H3 as (k & -> & status & ? & ? & _). eauto.
  - intros i Hi. apply H3. lia.
  - destruct H3 as (k & -> & [body ?] & ? & ?). by exists k, body.
  - destruct H3 as [-> H3]. split; [done|]. intros i Hi. apply H3. lia.
Qed.

(** A service that answers 503 twice and then gives its answers. *)
Definition sample_env : PostEnv := {|
  pe_check_at i := inject_Z (Z.of_nat i * 10);
  pe_answer_at i := inject_Z (Z.of_nat i * 10 + 1);
  pe_answer i := match i with S (S _) => Answered 200 (ReadOk (JObj [])) | _ => Answered 503 ReadError end;
  pe_waiting _ _ := new_breaker;
  pe_sleeping _ b := b
|}.

Lemma post_retries_transient_witness :
  (post default_breaker sample_env new_breaker).1.1 = PostOk (JObj []) ∧
  (post default_breaker sample_env new_breaker).2 = 3%nat ∧ worth_retrying (pe_answer sample_env 1).
Proof.
  pose proof (post_retries_transient default_breaker sample_env new_breaker) as H0.
  assert (∀ i b, can_open (pe_waiting sample_env i b)) as Hopen.
  { intros i b. unfold can_open, FLOAT_MAX_EXP. cbn. lia. }
  specialize (H0 Hopen). destruct (post default_breaker sample_env new_breaker) as [[e b'] n] eqn:E.
  assert (e = PostOk (JObj []) ∧ n = 3%nat) as [-> ->] by (vm_compute in E; by injection E as <- _ <-).
  split_and!; [done|done|]. destruct H0 as (_ & H0 & _). apply H0. lia.
Defined.
