(* ===== verification/Run.v ===== *)
(** * One domain through the pipeline ([src/app/pipeline/run.py])

    The stages for one crawl key, its deadline, and its retries.  What DNS, the sites and the
    judging service answer during one attempt are the record [World]; the HTML parser and
    the phone-number library are classes; the deadline may cut the attempt at any of its
    awaits. *)

From Stdlib Require Import ZArith QArith NArith Ascii String Lia.
From stdpp Require Import base strings option sets list.
From S2P Require Import Prelude PyStr Models RateLimit Regex Url Emails Normalize Site FilterRank Discovery Fetch.
From S2P Require Import Sql Worker Html SiteDocs PageText Json JsonLd Fields PageEmails JudgeClient.

(** ** What the outside world answers in one attempt *)

(** How a page fetch ends: as the retry loop does, or with another exception. *)
Inductive PageFetch := Page (r : FetchResult) | PageError (e : FetchError) | PageRefused | PageBug (name : string).

(** What is found on a page. *)
Record PageFinds := mkFinds {
  pf_candidates : list EmailCandidate;
  pf_phones : list string;
  pf_socials : list (string * string)
}.

Record World := mkWorld {
  wd_dns : string → string → Answer;
  wd_html : string → PageFetch;
  wd_text : string → string;                           (* robots.txt and sitemaps; blank on failure *)
  wd_post : json → option json                         (* the judging service's answers, or its failure *)
}.

(** ** The scratchpad *)

Record Scratch := mkScratch {
  sc_dns : option DnsResult;
  sc_final_domain : option string;
  sc_home_html : string;
  sc_pages : list (string * Z * string);
  sc_tokens : Z
}.

Definition empty_scratch : Scratch := mkScratch None None "" [] 0.

Definition page_url (p : string * Z * string) : string := p.1.1.
Definition page_score (p : string * Z * string) : Z := p.1.2.
Definition page_html (p : string * Z * string) : string := p.2.

(** ** Effects: the scratchpad, the deadline, exceptions *)

Inductive Exn := EDeadline | ECircuitOpen | EFetch (e : FetchError) | EOther (name : string).

(** The scratchpad and the awaits left before the deadline ([None]: it never comes). *)
Definition M (A : Type) : Type := Scratch → option nat → (Exn + A) * (Scratch * option nat).

Definition ret {A} (a : A) : M A := λ s d, (inr a, (s, d)).
Definition raise {A} (e : Exn) : M A := λ s d, (inl e, (s, d)).
Definition bind {A B} (x : M A) (f : A → M B) : M B := λ s d,
  match x s d with
  | (inl e, sd) => (inl e, sd)
  | (inr a, (s', d')) => f a s' d'
  end.
Definition update (f : Scratch → Scratch) : M unit := λ s d, (inr tt, (f s, d)).
Definition get : M Scratch := λ s d, (inr s, (s, d)).

(** One await: the deadline may cancel it. *)
Definition await : M unit := λ s d,
  match d with
  | Some O => (inl EDeadline, (s, d))
  | Some (S n) => (inr tt, (s, Some n))
  | None => (inr tt, (s, d))
  end.

Declare Scope run_scope.
Delimit Scope run_scope with run.
Notation "'let*' x ':=' e 'in' k" := (bind e (λ x, k)) (at level 200, x name, k at level 200) : run_scope.
Notation "e ';;' k" := (bind e (λ _, k)) (at level 100, k at level 200, right associativity) : run_scope.
#[local] Open Scope run_scope.

(** A call that raises ValueError on [None]. *)
Definition or_value_error {A} (x : option A) : M A := match x with Some a => ret a | None => raise (EOther "ValueError") end.

(** ** Stage 2: the homepage *)

Definition HOMEPAGE_LADDER : list (string * bool) := [("https", false); ("https", true); ("http", false)].

Definition ladder_for (dns : option DnsResult) : list (string * bool) :=
  match dns with
  | None => HOMEPAGE_LADDER
  | Some d =>
      if negb (resolves d) then HOMEPAGE_LADDER
      else match keep (λ r : string * bool, if r.2 then a_www d else a_domain d) HOMEPAGE_LADDER with
           | [] => HOMEPAGE_LADDER
           | l => l
           end
  end.

(** The first rung that answers; an account error stops at once. *)
Fixpoint fetch_rungs (html : string → PageFetch) (domain : string) (rungs : list (string * bool))
    (last : option FetchError) : M (option FetchResult * option FetchError) :=
  match rungs with
  | [] => ret (None, last)
  | (scheme, www) :: rest =>
      match html (crawl_url domain scheme www) with
      | Page r => ret (Some r, None)
      | PageRefused => raise ECircuitOpen
      | PageBug n => raise (EOther n)
      | PageError e =>
          if bool_decide (error_class e = PROVIDER_ACCOUNT) then ret (None, Some e)
          else fetch_rungs html domain rest (Some e)
      end
  end.

Definition fetch_homepage (html : string → PageFetch) (domain : string) (dns : option DnsResult)
    : M (option FetchResult * option FetchError) := fetch_rungs html domain (ladder_for dns) None.

(** ** Stages 5 and 6 over the pages *)

Definition add_new (phones : list string) (p : string) : list string := if mem p phones then phones else phones ++ [p].

Definition set_default (d : list (string * string)) (kv : string * string) : list (string * string) :=
  if mem kv.1 (map fst d) then d else d ++ [kv].

(** [pick_contact_form_url]: the first of the best-scored pages with a form. *)
Fixpoint pick_form (has_form : string → bool) (best : option (Z * string)) (pages : list (string * Z * string))
    : option string :=
  match pages with
  | [] => snd <$> best
  | p :: rest =>
      let best' := if has_form (page_html p)
                   then match best with
                        | None => Some (page_score p, page_url p)
                        | Some (s, u) => if (s <? page_score p)%Z then Some (page_score p, page_url p) else best
                        end
                   else best in
      pick_form has_form best' rest
  end.

(** A dict from URL to score: the last page with the URL wins. *)
Definition page_scores_of (pages : list (string * Z * string)) : list (string * Z) :=
  rev (map (λ p, (page_url p, page_score p)) pages).

Record Extracted := mkExtracted {
  ex_ranked : list RankedEmail;
  ex_phones : list string;
  ex_socials : list (string * string);
  ex_form : option string
}.

Section pipeline.
Context `{Tld} `{IpLiteral} `{Wide} `{Html5} `{Dom} `{RecursionLimit} `{Phones}.
Context (cfg : Settings) (w : World).

Definition has_provenance (fetched : list string) (r : RankedEmail) : bool :=
  any (λ u, mem u fetched) (source_urls (candidate r)).

(** Stage 5 on one page; [None]: ValueError. *)
Definition page_extract (p : string * Z * string) : option PageFinds :=
  r ← extract_page (page_html p) (page_url p);
  let '(candidates, text_, _) := r in
  socials ← extract_socials (page_html p);
  Some (mkFinds candidates (extract_phones (page_html p) text_) socials).

Definition extract_pages (s : Scratch) : option Extracted :=
  finds ← mapM page_extract (sc_pages s);
  let ranked := rank_candidates (merge_pages (map pf_candidates finds)) (default "" (sc_final_domain s))
                                (page_scores_of (sc_pages s)) in
  Some (mkExtracted
    (keep (has_provenance (map page_url (sc_pages s))) ranked)
    (fold_left add_new (concat (map pf_phones finds)) [])
    (fold_left set_default (concat (map pf_socials finds)) [])
    (pick_form has_contact_form None (sc_pages s))).

(** ** Building the result *)

(** The result from what was extracted; of its numbers, those that its JSON keeps. *)
Definition build_result (domain : string) (s : Scratch) (ex : Extracted) (judgment : option Judgment)
    (error_reason : option string) : DomainResult :=
  let ranked := ex_ranked ex in
  let j := default (rules_only ranked) judgment in
  let unknown := str_truthy (jg_best_email j)
                 && negb (mem (default "" (jg_best_email j)) (map r_email ranked)) in
  let best := if unknown then rules_best ranked else jg_best_email j in
  let source := if unknown then Some src_rules else jg_best_email_source j in
  let confidence := if unknown then None else jg_confidence j in
  let status := assign_status (mkStatusInputs false false
                  (bool_decide (jg_site_status j = Some "parked_or_for_sale")) (jg_said_none j) best
                  (jg_business_emails j) (ex_form ex)) in
  {| r_domain := domain; r_final_domain := sc_final_domain s; r_status := status; r_best_email := best;
     r_best_email_source := if str_truthy best then source else None;
     r_confidence := confidence ≫= finite;
     r_needs_review := jg_needs_review j || str_truthy error_reason;
     r_business_emails := jg_business_emails j;
     r_all_emails := map (λ r, mkOut (r_email r) (source_urls (candidate r)) (method (candidate r)) (rank r)
                                     (dict_get (jg_belongs j) (r_email r) ≫= finite)) ranked;
     r_phones := take 5 (ex_phones ex); r_socials := ex_socials ex; r_contact_form_url := ex_form ex;
     r_mx_provider := mx_provider <$> sc_dns s; r_site_status := jg_site_status j;
     r_pages_fetched := map page_url (sc_pages s); r_jina_tokens := sc_tokens s;
     r_typesafe_called := jg_typesafe_called j; r_typesafe_error := jg_typesafe_error j;
     r_error_reason := error_reason |}.

Definition harvest (domain : string) (s : Scratch) (judgment : option Judgment) (error_reason : option string)
    : option DomainResult :=
  ex ← extract_pages s; Some (build_result domain s ex judgment error_reason).

(** ** The stages *)

Definition add_page (url : string) (score : Z) (html : string) (tokens : Z) (s : Scratch) : Scratch :=
  mkScratch (sc_dns s) (sc_final_domain s) (sc_home_html s)
            (if nonempty html then sc_pages s ++ [(url, score, html)] else sc_pages s) (sc_tokens s + tokens).

(** [fetch_page]: a failed page is blank. *)
Definition fetch_page (c : ScoredUrl) : M (string * Z * string * Z) :=
  match wd_html w (target c) with
  | Page r => ret (fr_final_url r, su_score c, fr_html r, default 0%Z (fr_jina_tokens r))
  | PageError _ => ret (target c, su_score c, "", 0%Z)
  | PageRefused => raise ECircuitOpen
  | PageBug n => raise (EOther n)
  end.

Fixpoint fetch_pages (cs : list ScoredUrl) : M (list (string * Z * string * Z)) :=
  match cs with
  | [] => ret []
  | c :: rest => let* p := fetch_page c in let* ps := fetch_pages rest in ret (p :: ps)
  end.

Definition store_page (p : string * Z * string * Z) (s : Scratch) : Scratch :=
  let '(url, score, html, tok) := p in add_page url score html tok s.

Definition blank_status (domain : string) (status : Status) (site reason : option string) (mx : option string)
    (final : option string) (pages : list string) (tokens : Z) : DomainResult := {|
  r_domain := domain; r_final_domain := final; r_status := status; r_best_email := None;
  r_best_email_source := None; r_confidence := None; r_needs_review := false; r_business_emails := [];
  r_all_emails := []; r_phones := []; r_socials := []; r_contact_form_url := None; r_mx_provider := mx;
  r_site_status := site; r_pages_fetched := pages; r_jina_tokens := tokens; r_typesafe_called := false;
  r_typesafe_error := false; r_error_reason := reason |}.

Definition is_contact (c : ScoredUrl) : bool := bool_decide (su_tier c = Some "contact").

(** The first contact page, and the rest without it. *)
Fixpoint split_contact (cs : list ScoredUrl) : option ScoredUrl * list ScoredUrl :=
  match cs with
  | [] => (None, [])
  | c :: rest => if is_contact c then (Some c, rest) else let '(k, l) := split_contact rest in (k, c :: l)
  end.

(** A precise address of rank 1 is in hand. *)
Definition good_enough (s : Scratch) : option bool :=
  per_page ← mapM (λ p, (λ r : list EmailCandidate * string * string, r.1.1) <$> extract_page (page_html p) (page_url p))
                  (sc_pages s);
  Some match rank_candidates (merge_pages per_page) (default "" (sc_final_domain s)) [] with
       | r :: _ => (rank r =? 1)%Z && mem (method (candidate r)) [mailto; jsonld]
       | [] => false
       end.

(** The contact page on its own, then the others together unless the first was enough. *)
Definition fetch_selected (selected : list ScoredUrl) : M unit :=
  let '(contact, rest) := split_contact selected in
  let* rest' :=
    match contact with
    | None => ret rest
    | Some c =>
        await ;; let* p := fetch_page c in
        update (store_page p) ;; let* s := get in
        if early_stop_on_first_good cfg
        then let* good := or_value_error (good_enough s) in ret (if good : bool then [] else rest)
        else ret rest
    end in
  match rest' with
  | [] => ret tt
  | _ => await ;; let* ps := fetch_pages rest' in update (λ s, fold_left (λ s p, store_page p s) ps s)
  end.

Definition judge_pages (domain : string) : M Judgment :=
  let* s := get in
  let* ex := or_value_error (extract_pages s) in
  let name := match sc_final_domain s with Some d => if nonempty d then d else domain | None => domain end in
  await ;;
  match judge_client cfg (ex_ranked ex) name (page_title (sc_home_html s)) (wd_post w) with
  | inr j => ret j
  | inl name => raise (EOther name)
  end.

(** Stages 3 to 7, once the homepage is in hand. *)
Definition after_homepage (domain : string) (dns : DnsResult) (home : FetchResult) (robots sitemap : string)
    : M DomainResult :=
  let host := host_of_key domain in
  let* u := or_value_error (urlsplit (fr_final_url home)) in
  let root := registrable (lower (hostname u)) in
  let final_domain := if nonempty root then root else domain in
  update (λ s, mkScratch (sc_dns s) (Some final_domain) (fr_html home) (sc_pages s) (sc_tokens s)) ;;
  let* verdict := or_value_error (is_parked parked_visible_text [] (fr_final_url home) (fr_html home)) in
  match verdict with
  | Some _ =>
      ret (blank_status domain parked_or_for_sale (Some "parked_or_for_sale") None (Some (mx_provider dns))
             (Some final_domain) [fr_final_url home] (default 0%Z (fr_jina_tokens home)))
  | None =>
      let same_site := String.eqb final_domain (registrable host) in
      let robots := if same_site then robots else "" in
      let sitemap := if same_site then sitemap else "" in
      await ;;
      let seeds := parse_sitemaps robots (registrable (lower (hostname u))) in
      let* found := or_value_error (discover_pages extract_urls (wd_text w) (fr_final_url home)
                      (extract_links (fr_html home) (fr_final_url home)) seeds sitemap
                      (Z.to_nat (Z.max 0 (max_pages_per_domain cfg - 1)))) in
      update (λ s, mkScratch (sc_dns s) (sc_final_domain s) (sc_home_html s)
                     (sc_pages s ++ [(fr_final_url home, 0%Z, fr_html home)])
                     (sc_tokens s + default 0%Z (fr_jina_tokens home))) ;;
      fetch_selected found.1 ;;
      let* j := judge_pages domain in
      let* s := get in or_value_error (harvest domain s (Some j) None)
  end.

Definition process (domain : string) : M DomainResult :=
  await ;;
  let dns := check_domain (wd_dns w) domain in
  update (λ s, mkScratch (Some dns) (sc_final_domain s) (sc_home_html s) (sc_pages s) (sc_tokens s)) ;;
  if negb (resolves dns)
  then ret (blank_status domain fetch_failed None (Some "dns") (Some (mx_provider dns)) None [] 0)
  else
    match check_ns (ns_hosts dns) with
    | Some _ => ret (blank_status domain parked_or_for_sale (Some "parked_or_for_sale") None (Some (mx_provider dns)) None [] 0)
    | None =>
        let host := host_of_key domain in
        await ;;
        let* home := fetch_homepage (wd_html w) domain (Some dns) in
        let robots := wd_text w ("https://" +:+ host +:+ "/robots.txt") in
        let sitemap := wd_text w ("https://" +:+ host +:+ "/sitemap.xml") in
        match home with
        | (Some r, _) => after_homepage domain dns r robots sitemap
        | (None, err) =>
            match err with
            | Some e => if bool_decide (error_class e = PROVIDER_ACCOUNT) then raise (EFetch e)
                        else ret (blank_status domain fetch_failed None (Some (fe_reason e)) (Some (mx_provider dns)) None [] 0)
            | None => ret (blank_status domain fetch_failed None (Some "homepage") (Some (mx_provider dns)) None [] 0)
            end
        end
    end.

(** ** One attempt under the deadline *)

(** How an attempt ends: with a result, with the account error that is raised again, or with
    an exception raised while salvaging, which no handler is left to catch. *)
Inductive Attempt := Finished (r : DomainResult) | AccountProblem (e : FetchError) | Escaped (name : string).

Definition attempt_domain (domain : string) (deadline : option nat) : Attempt :=
  match process domain empty_scratch deadline with
  | (inr r, _) => Finished r
  | (inl ECircuitOpen, _) => Finished (failed_result domain "circuit_open" None None)
  | (inl EDeadline, (s, _)) =>
      match sc_pages s with
      | [] => Finished (failed_result domain "domain_timeout" (mx_provider <$> sc_dns s) None)
      | _ => match harvest domain s None (Some "domain_timeout") with
             | Some r => Finished r
             | None => Escaped "ValueError"
             end
      end
  | (inl (EFetch e), _) =>
      if bool_decide (error_class e = PROVIDER_ACCOUNT) then AccountProblem e
      else Finished (failed_result domain "internal_error" None (Some "FetchError"))
  | (inl (EOther name), _) => Finished (failed_result domain "internal_error" None (Some name))
  end.
End pipeline.

(** ** The whole domain: attempts until the provider lets one through *)

Section domain.
Context `{Tld} `{IpLiteral} `{Wide} `{Html5} `{Dom} `{RecursionLimit} `{Phones}.
Context (cfg : Settings).

(** Attempt [i] meets the world [worlds i] and the deadline [deadlines i]; [n] attempts are
    left besides it. *)
Fixpoint domain_attempts (domain : string) (worlds : nat → World) (deadlines : nat → option nat) (i n : nat)
    : Outcome :=
  match attempt_domain cfg (worlds i) domain (deadlines i) with
  | AccountProblem _ => AccountError
  | Escaped _ => OtherError
  | Finished r =>
      match n with
      | O => Returned r
      | S n' =>
          if null_any (r_error_reason r) RETRYABLE_DOMAIN_REASONS
          then domain_attempts domain worlds deadlines (S i) n'
          else Returned r
      end
  end.

Definition process_domain (domain : string) (worlds : nat → World) (deadlines : nat → option nat) : Outcome :=
  domain_attempts domain worlds deadlines 0 (Z.to_nat (Z.max 1 (max_domain_attempts cfg) - 1)).

(** ** One input cell ([POST /extract]) *)

Definition set_error_reason (r : DomainResult) (reason : option string) : DomainResult := {|
  r_domain := r_domain r; r_final_domain := r_final_domain r; r_status := r_status r;
  r_best_email := r_best_email r; r_best_email_source := r_best_email_source r;
  r_confidence := r_confidence r; r_needs_review := r_needs_review r;
  r_business_emails := r_business_emails r; r_all_emails := r_all_emails r; r_phones := r_phones r;
  r_socials := r_socials r; r_contact_form_url := r_contact_form_url r;
  r_mx_provider := r_mx_provider r; r_site_status := r_site_status r;
  r_pages_fetched := r_pages_fetched r; r_jina_tokens := r_jina_tokens r;
  r_typesafe_called := r_typesafe_called r; r_typesafe_error := r_typesafe_error r;
  r_error_reason := reason |}.

(** [x or y] on reasons. *)
Definition or_else (x : option string) (y : option string) : option string := if str_truthy x then x else y.

Definition process_input `{Idna} (raw : string) (worlds : nat → World) (deadlines : nat → option nat) : Outcome :=
  let norm := normalize_input raw in
  match nz_domain norm, nz_ok norm with
  | Some domain, true =>
      match process_domain domain worlds deadlines with
      | Returned r =>
          match nz_notes norm with
          | [] => Returned r
          | note :: _ => Returned (set_error_reason r (or_else (r_error_reason r) (Some note)))
          end
      | o => o
      end
  | d, _ =>
      let name := match d with Some d => if nonempty d then d else str_take 255 (strip raw) | None => str_take 255 (strip raw) end in
      Returned (set_error_reason (blank_result name invalid_input) (nz_reason norm))
  end.
End domain.
