(* ===== verification/RunProps.v ===== *)
(** * What one domain's result promises ([src/app/pipeline/run.py]) *)

From Stdlib Require Import ZArith QArith NArith Ascii String Lia.
From stdpp Require Import base strings option sets list.
From S2P Require Import Prelude PyStr Sql Models RateLimit Regex Url Emails Normalize Site.
From S2P Require Import FilterRank Discovery Fetch Worker Html PageText JsonLd Fields PageEmails PageEmailsProps JudgeClient Run.

(** ** Well-formed results *)

Record result_ok (r : DomainResult) : Prop := {
  ro_found : r_status r = found ↔ str_truthy (r_best_email r) = true;
  ro_best : ∀ e, r_best_email r = Some e → e ≠ "" → e ∈ map out_email (r_all_emails r);
  ro_provenance : ∀ o, o ∈ r_all_emails r → ∃ u, u ∈ out_source_urls o ∧ u ∈ r_pages_fetched r;
  ro_sizes : (length (r_all_emails r) ≤ 50)%nat ∧ (length (r_phones r) ≤ 5)%nat;
  ro_no_business : r_status r = no_business_email → r_business_emails r = [];
  ro_form : r_status r = form_only → str_truthy (r_contact_form_url r) = true;
  ro_failed : r_status r = fetch_failed → is_Some (r_error_reason r) ∧ r_all_emails r = [];
  ro_source : str_truthy (r_best_email r) = false → r_best_email_source r = None
}.

Lemma blank_status_ok d st site reason mx final pages tok :
  st ≠ found → st ≠ form_only → (st = fetch_failed → is_Some reason) →
  result_ok (blank_status d st site reason mx final pages tok).
Proof. intros H1 H2 H3. split; cbn; try done; try set_solver; try (split; lia); auto. Qed.

Lemma failed_result_ok d reason mx site : result_ok (failed_result d reason mx site).
Proof. split; cbn; try done; try set_solver; try (split; lia); eauto. Qed.

(** The status table, read off its result. *)
Lemma assign_status_found parked none best business form :
  let st := assign_status (mkStatusInputs false false parked none best business form) in
  (st = found ↔ str_truthy best = true) ∧ (st = no_business_email → business = []) ∧
  (st = form_only → str_truthy form = true) ∧ st ≠ fetch_failed.
Proof.
  unfold assign_status. cbn.
  destruct (str_truthy best), parked, none, (bool_decide (business = [])) eqn:Eb, (str_truthy form); cbn;
    (split_and!; try done); intros _; by apply bool_decide_eq_true in Eb.
Qed.

(** ** Where the addresses of a result stand *)

Section evidence.
Context `{Tld} `{IpLiteral} `{Wide} `{Html5} `{Dom} `{RecursionLimit} `{Phones}.
Context (w : World).

(** The page was served during the attempt. *)
Definition served (p : string * Z * string) : Prop :=
  ∃ target r, wd_html w target = Page r ∧ page_url p = fr_final_url r ∧ page_html p = fr_html r.

(** The address occurs, letter case aside, in one of the places the page is searched in. *)
Definition stands_on (html e : string) : Prop :=
  ∃ text_ src, visible_text (normalize_html (decode_html html).1) = Some text_ ∧
    source_of (normalize_html (decode_html html).1) text_ src ∧ contains (lower src) e = true.

Definition backed (r : DomainResult) : Prop := ∀ o, o ∈ r_all_emails r →
  ∃ p, served p ∧ page_url p ∈ out_source_urls o ∧ page_url p ∈ r_pages_fetched r ∧
       stands_on (page_html p) (out_email o).

Definition all_served (s : Scratch) : Prop := Forall served (sc_pages s).

Lemma extract_pages_backed s ex r :
  all_served s → extract_pages s = Some ex → r ∈ ex_ranked ex →
  ∃ p, p ∈ sc_pages s ∧ served p ∧ page_url p ∈ source_urls (candidate r) ∧ stands_on (page_html p) (r_email r).
Proof.
  intros Hs Hex Hr. unfold extract_pages in Hex. destruct (mapM page_extract (sc_pages s)) as [finds|] eqn:Em; [|done].
  cbn in Hex. injection Hex as <-. cbn in Hr. apply elem_of_keep in Hr as [Hr _].
  apply rank_candidates_in in Hr as Hc. set (c := candidate r) in *.
  destruct (merge_pages_complete (map pf_candidates finds)) as (_ & He & Hx & _).
  destruct (proj1 (He (email c)) ltac:(apply elem_of_map; eauto)) as (c0 & Hc0 & Ec).
  pose proof Hc0 as (f & Hf & Hcf)%elem_of_concat_map.
  destruct (elem_of_mapM _ _ _ _ Em Hf) as (p & Hp & Hpe).
  unfold page_extract in Hpe. destruct (extract_page (page_html p) (page_url p)) as [[[cs t] title]|] eqn:Ee; [|done].
  cbn in Hpe. destruct (extract_socials _) as [so|]; [|done]. cbn in Hpe. injection Hpe as <-. cbn in Hcf.
  destruct (extract_page_sound _ _ _ _ _ _ Ee Hcf) as (Hu & Hv & src & Hsrc & Hcon).
  exists p. split_and!; [done| | |].
  - unfold all_served in Hs. rewrite Forall_forall in Hs. by apply Hs.
  - apply (eo_urls _ _ (Hx c Hc)). exists c0. split; [done|]. split; [done|]. rewrite Hu. left.
  - exists t, src. split_and!; [done|done|]. change (r_email r) with (email c). by rewrite <- Ec.
Qed.

Lemma harvest_backed domain s j reason r : all_served s → harvest domain s j reason = Some r → backed r.
Proof.
  unfold harvest. destruct (extract_pages s) as [ex|] eqn:Ee; [|done]. cbn. intros Hs [= <-] o.
  intros (x & Hx & ->)%elem_of_map. cbn.
  destruct (extract_pages_backed s ex x Hs Ee Hx) as (p & Hp & Hsv & Hu & Hst).
  exists p. split_and!; [done|done| |done]. apply elem_of_map. eauto.
Qed.

(** When a page cannot be extracted, it is one that was served. *)
Lemma harvest_refused domain s j reason :
  all_served s → harvest domain s j reason = None → ∃ p, served p ∧ page_extract p = None.
Proof.
  unfold harvest, extract_pages. intros Hs. destruct (mapM page_extract (sc_pages s)) as [finds|] eqn:Em; [done|].
  intros _. apply mapM_None, Exists_exists in Em as (p & Hp & He). exists p. split; [|done].
  unfold all_served in Hs. rewrite Forall_forall in Hs. by apply Hs.
Qed.

Lemma harvest_ok domain s j reason r : harvest domain s j reason = Some r → result_ok r.
Proof.
  unfold harvest. destruct (extract_pages s) as [ex|] eqn:Eex; [|done]. cbn [mbind option_bind]. intros [= <-].
  unfold build_result. set (ranked := ex_ranked ex). set (jg := default _ j).
  set (unknown := _ && _). set (best := if unknown then rules_best ranked else jg_best_email jg).
  destruct (assign_status_found (bool_decide (jg_site_status jg = Some "parked_or_for_sale")) (jg_said_none jg) best
              (jg_business_emails jg) (ex_form ex)) as (A1 & A2 & A3 & A4).
  split; cbn [r_status r_best_email r_all_emails r_pages_fetched r_phones r_business_emails r_contact_form_url
              r_error_reason r_best_email_source]; try done.
  - intros e He Hne. rewrite map_map. cbn [out_email]. change (e ∈ map r_email ranked). unfold best in He.
    destruct unknown eqn:Eu.
    + unfold rules_best in He. destruct ranked as [|r l]; [done|]. injection He as <-. left.
    + unfold unknown in Eu. rewrite He in Eu. cbn in Eu.
      destruct (String.eqb_spec e ""); [done|]. cbn in Eu. apply negb_false_iff in Eu. by apply mem_true in Eu.
  - intros o (r & Hr & ->)%elem_of_map. cbn. unfold extract_pages in Eex.
    destruct (mapM page_extract (sc_pages s)); [|done]. cbn in Eex. injection Eex as <-. cbn in Hr.
    apply elem_of_keep in Hr as [_ (u & Hu & Hm)%any_true]. exists u. split; [done|]. by apply mem_true.
  - split.
    + rewrite length_map. unfold extract_pages in Eex. destruct (mapM page_extract (sc_pages s)); [|done].
      cbn in Eex. injection Eex as <-. unfold ranked. cbn. etrans; [apply length_keep_le|]. apply rank_candidates_length.
    + rewrite length_take. lia.
  - intros Hb. by rewrite Hb.
Qed.

(** ** A program logic for the stages *)

(** What an attempt may return. *)
Definition sound (r : DomainResult) : Prop := result_ok r ∧ backed r.

Lemma blank_sound d st site reason mx final pages tok :
  st ≠ found → st ≠ form_only → (st = fetch_failed → is_Some reason) →
  sound (blank_status d st site reason mx final pages tok).
Proof. intros. split; [by apply blank_status_ok|]. intros o Ho. cbn in Ho. set_solver. Qed.

Lemma failed_sound d reason mx site : sound (failed_result d reason mx site).
Proof. split; [apply failed_result_ok|]. intros o Ho. cbn in Ho. set_solver. Qed.

(** From a scratchpad whose pages were all served, whatever the deadline: the pages still
    are, a value satisfies [P], and the only fetch error that escapes is an account error. *)
Definition safe {A} (m : M A) (P : A → Prop) : Prop := ∀ s d, all_served s →
  all_served (m s d).2.1 ∧
  match (m s d).1 with
  | inr a => P a
  | inl (EFetch e) => error_class e = PROVIDER_ACCOUNT
  | inl _ => True
  end.

Lemma safe_ret {A} (a : A) (P : A → Prop) : P a → safe (ret a) P.
Proof. by intros Hp s d. Qed.

Lemma safe_bind {A B} (m : M A) (f : A → M B) (Q : A → Prop) (P : B → Prop) :
  safe m Q → (∀ a, Q a → safe (f a) P) → safe (bind m f) P.
Proof.
  intros Hm Hf s d Hs. unfold bind. specialize (Hm s d Hs). destruct (m s d) as [[e|a] [s' d']]; [done|].
  destruct Hm as [Hs' Ha]. by apply Hf.
Qed.

Lemma safe_bind_any {A B} (m : M A) (f : A → M B) (P : B → Prop) :
  safe m (λ _, True) → (∀ a, safe (f a) P) → safe (bind m f) P.
Proof. intros Hm Hf. by apply (safe_bind m f (λ _, True)). Qed.

Lemma safe_weaken {A} (m : M A) (P Q : A → Prop) : (∀ a, P a → Q a) → safe m P → safe m Q.
Proof.
  intros Hpq Hm s d Hs. specialize (Hm s d Hs). destruct (m s d) as [[e|a] [s' d']]; [done|].
  destruct Hm as [? Ha]. split; [done|]. by apply Hpq.
Qed.

Lemma safe_update f : (∀ s, all_served s → all_served (f s)) → safe (update f) (λ _, True).
Proof. intros Hf s d Hs. split; [by apply Hf|done]. Qed.

Lemma safe_same_pages f : (∀ s, sc_pages (f s) = sc_pages s) → safe (update f) (λ _, True).
Proof. intros Hf. apply safe_update. intros s. unfold all_served. by rewrite Hf. Qed.

Lemma safe_get : safe get all_served.
Proof. by intros s d. Qed.

Lemma safe_await : safe await (λ _, True).
Proof. by intros s [[|n]|]. Qed.

Lemma safe_refused {A} (P : A → Prop) : safe (raise ECircuitOpen) P.
Proof. by intros s d. Qed.

Lemma safe_other {A} n (P : A → Prop) : safe (raise (EOther n)) P.
Proof. by intros s d. Qed.

Lemma safe_or_value_error {A} (x : option A) (P : A → Prop) : (∀ a, x = Some a → P a) → safe (or_value_error x) P.
Proof. intros Hp. destruct x; [by apply safe_ret, Hp|apply safe_other]. Qed.

Lemma safe_value_error {A} (x : option A) : safe (or_value_error x) (λ _, True).
Proof. by apply safe_or_value_error. Qed.

Lemma safe_get_any : safe get (λ _, True).
Proof. eapply safe_weaken; [|apply safe_get]. done. Qed.
End evidence.

Create HintDb run.
#[export] Hint Resolve safe_get_any safe_await safe_refused safe_other safe_value_error : run.
#[export] Hint Extern 1 (safe _ (update _) _) => (apply safe_same_pages; reflexivity) : run.

Ltac stage := apply safe_bind_any; [solve [auto with run]|intros ?].

(** ** The stages are safe *)

Section stages.
Context `{Tld} `{IpLiteral} `{Wide} `{Html5} `{Dom} `{RecursionLimit} `{Phones}.
Context (cfg : Settings) (w : World).

(** The homepage is one that was served. *)
Definition home_served (x : option FetchResult * option FetchError) : Prop :=
  ∀ r, x.1 = Some r → ∃ target, wd_html w target = Page r.

Lemma fetch_rungs_safe domain rungs last : safe w (fetch_rungs (wd_html w) domain rungs last) home_served.
Proof.
  revert last. induction rungs as [|[scheme www] rest IH]; intros last; cbn; [by apply safe_ret|].
  destruct (wd_html w _) as [r|e| |n] eqn:E; [|case_bool_decide; [by apply safe_ret|apply IH]|auto with run..].
  apply safe_ret. intros r' [= <-]. eauto.
Qed.

(** A page that is not blank is one that was served. *)
Definition page_served (p : string * Z * string * Z) : Prop :=
  p.1.2 ≠ "" → served w p.1.

Lemma fetch_page_safe c : safe w (fetch_page w c) page_served.
Proof.
  unfold fetch_page. destruct (wd_html w _) as [r|e| |n] eqn:E; auto with run; apply safe_ret; [|by intros []].
  intros _. exists (target c), r. done.
Qed.

Lemma fetch_pages_safe cs : safe w (fetch_pages w cs) (Forall page_served).
Proof.
  induction cs as [|c cs IH]; cbn; [by apply safe_ret|].
  eapply safe_bind; [apply fetch_page_safe|intros p Hp].
  eapply safe_bind; [done|intros ps Hps]. apply safe_ret. by constructor.
Qed.

Lemma store_page_served p s : page_served p → all_served w s → all_served w (store_page p s).
Proof.
  destruct p as [[[url score] html] tok]. unfold store_page, add_page, page_served, all_served. cbn.
  unfold nonempty. destruct (String.eqb_spec html ""); [done|]. cbn. intros Hp Hs.
  apply Forall_app. split; [done|]. apply Forall_singleton. by apply Hp.
Qed.

Lemma store_pages_served ps s : Forall page_served ps → all_served w s → all_served w (fold_left (λ s p, store_page p s) ps s).
Proof.
  intros Hps. revert s. induction Hps as [|p ps Hp _ IH]; intros s Hs; [done|]. cbn. apply IH. by apply store_page_served.
Qed.

Lemma fetch_rest_safe rest :
  safe w match rest with
         | [] => ret tt
         | _ => bind await (λ _, bind (fetch_pages w rest) (λ ps, update (λ s, fold_left (λ s p, store_page p s) ps s)))
         end (λ _, True).
Proof.
  destruct rest as [|c l]; [by apply safe_ret|]. stage.
  eapply safe_bind; [apply fetch_pages_safe|intros ps Hps]. apply safe_update. intros s. by apply store_pages_served.
Qed.

Lemma fetch_selected_safe selected : safe w (fetch_selected cfg w selected) (λ _, True).
Proof.
  unfold fetch_selected. destruct (split_contact selected) as [[c|] rest].
  - apply safe_bind_any; [|apply fetch_rest_safe].
    stage. eapply safe_bind; [apply fetch_page_safe|intros p Hp].
    apply safe_bind_any; [apply safe_update; intros s; by apply store_page_served|intros _].
    stage. break; [|by apply safe_ret]. stage. by apply safe_ret.
  - apply safe_bind_any; [by apply safe_ret|apply fetch_rest_safe].
Qed.

Lemma judge_pages_safe domain : safe w (judge_pages cfg w domain) (λ _, True).
Proof. unfold judge_pages. stage. stage. stage. destruct (judge_client _ _ _ _ _); [auto with run|by apply safe_ret]. Qed.

Lemma add_home_served home s :
  (∃ target, wd_html w target = Page home) → all_served w s →
  all_served w (mkScratch (sc_dns s) (sc_final_domain s) (sc_home_html s)
                  (sc_pages s ++ [(fr_final_url home, 0%Z, fr_html home)]) (sc_tokens s + default 0%Z (fr_jina_tokens home))).
Proof.
  intros [target Ht] Hs. apply Forall_app. split; [done|]. apply Forall_singleton. by exists target, home.
Qed.

Lemma after_homepage_safe domain dns home robots sitemap :
  (∃ target, wd_html w target = Page home) →
  safe w (after_homepage cfg w domain dns home robots sitemap) (sound w).
Proof.
  intros Hh. unfold after_homepage. stage. stage. apply safe_bind_any; [auto with run|intros [v|]].
  - apply safe_ret. by apply blank_sound.
  - stage. stage. apply safe_bind_any; [apply safe_update; intros s; by apply add_home_served|intros _].
    apply safe_bind_any; [apply fetch_selected_safe|intros _].
    apply safe_bind_any; [apply judge_pages_safe|intros j].
    eapply safe_bind; [apply safe_get|intros s Hs]. apply safe_or_value_error. intros r Hr.
    split; [by eapply harvest_ok|by eapply harvest_backed].
Qed.

Lemma process_safe domain : safe w (process cfg w domain) (sound w).
Proof.
  unfold process. stage. stage. destruct (resolves _); cbn [negb].
  2:{ apply safe_ret. apply blank_sound; [done|done|eauto]. }
  destruct (check_ns _); [apply safe_ret; by apply blank_sound|].
  stage. eapply safe_bind; [apply fetch_rungs_safe|]. intros [[r|] err] Hr; [apply after_homepage_safe; by apply Hr|].
  destruct err as [e|]; [|apply safe_ret; apply blank_sound; [done|done|eauto]].
  case_bool_decide as He; [by intros s d|].
  apply safe_ret; apply blank_sound; [done|done|eauto].
Qed.

(** How an attempt may end. *)
Definition attempt_sound (a : Attempt) : Prop :=
  match a with
  | Finished r => sound w r
  | AccountProblem e => error_class e = PROVIDER_ACCOUNT
  | Escaped name => name = "ValueError" ∧ ∃ p, served w p ∧ page_extract p = None
  end.

Lemma attempt_ok domain deadline : attempt_sound (attempt_domain cfg w domain deadline).
Proof.
  unfold attempt_domain.
  destruct (process_safe domain empty_scratch deadline ltac:(constructor)) as [Hs Hr].
  destruct (process _ _ _ _ _) as [[[| |e|n]|r] [s d]]; cbn in Hs, Hr; try apply failed_sound; [| |done].
  - destruct (sc_pages s) eqn:Ep; [apply failed_sound|].
    destruct (harvest domain s None (Some "domain_timeout")) as [r|] eqn:Eh.
    + split; [by eapply harvest_ok|by eapply harvest_backed].
    + split; [done|]. by eapply harvest_refused.
  - by case_bool_decide.
Qed.

(** C26: for every domain, whatever DNS, the sites, the HTML parser and the judging service
    answer, and wherever the deadline cuts the attempt, an attempt ends in one of three ways.
    It returns a well-formed result: the status is [found] exactly when a best address is
    given; the best address is one of the listed ones; a form-only result has a form; a
    failed one has a reason and no addresses; and every listed address names a page that was
    really served during the attempt and on which it occurs (letter case aside) in a mailto
    link, a JSON-LD [email] value, a script, the visible text or an attribute.  Or it raises
    the account error that pauses the job.  Or a ValueError escapes it, which takes a
    deadline after a page was served that the extractors refuse. *)
Theorem attempt_domain_sound (domain : string) (deadline : option nat) :
  match attempt_domain cfg w domain deadline with
  | Finished r => result_ok r ∧ backed w r
  | AccountProblem e => error_class e = PROVIDER_ACCOUNT
  | Escaped name => name = "ValueError" ∧ ∃ p, served w p ∧ page_extract p = None
  end.
Proof. apply attempt_ok. Qed.
End stages.

(** ** The attempts of one domain *)

Section attempts.
Context `{Tld} `{IpLiteral} `{Wide} `{Html5} `{Dom} `{RecursionLimit} `{Phones}.
Context (cfg : Settings).

Definition refused_attempt (o : Attempt) : Prop :=
  ∃ r, o = Finished r ∧ r_error_reason r = Some "circuit_open".

(** What attempts [i .. i + n] promise: the last one made is attempt [k]. *)
Definition attempts_ok (domain : string) (worlds : nat → World) (deadlines : nat → option nat)
    (i n k : nat) (o : Outcome) : Prop :=
  let attempt j := attempt_domain cfg (worlds j) domain (deadlines j) in
  (∀ j, (i ≤ j < k)%nat → refused_attempt (attempt j)) ∧
  match o with
  | Returned r => attempt k = Finished r ∧ sound (worlds k) r ∧ (refused_attempt (attempt k) → k = (i + n)%nat)
  | AccountError => ∃ e, attempt k = AccountProblem e ∧ error_class e = PROVIDER_ACCOUNT
  | OtherError => attempt k = Escaped "ValueError" ∧ ∃ p, served (worlds k) p ∧ page_extract p = None
  end.

Lemma domain_attempts_ok domain worlds deadlines n : ∀ i,
  ∃ k, (i ≤ k ≤ i + n)%nat ∧
    attempts_ok domain worlds deadlines i n k (domain_attempts cfg domain worlds deadlines i n).
Proof.
  induction n as [|n IH]; intros i; cbn [domain_attempts];
    pose proof (attempt_ok cfg (worlds i) domain (deadlines i)) as Ha;
    destruct (attempt_domain cfg (worlds i) domain (deadlines i)) as [r|e|name] eqn:E; cbn in Ha;
    try match type of Ha with name = _ ∧ _ => destruct Ha as [-> Ha] end;
    try (exists i; split; [lia|]; split; [lia|]; rewrite ?E; by eauto with lia).
  unfold null_any. destruct (r_error_reason r) as [x|] eqn:Er.
  2:{ exists i. split; [lia|]. split; [lia|]. rewrite E. split_and!; [done|done|].
      intros (r' & [= <-] & Hr). congruence. }
  destruct (mem x _) eqn:Hx.
  - apply mem_true in Hx. destruct (IH (S i)) as (k & Hk & Hb & Ho). exists k. split; [lia|]. split.
    + intros j Hj. destruct (decide (j = i)) as [->|]; [|apply Hb; lia].
      exists r. split; [done|]. rewrite Er. f_equal. unfold RETRYABLE_DOMAIN_REASONS in Hx. set_solver.
    + destruct (domain_attempts _ _ _ _ _ _); [|done..]. destruct Ho as (? & ? & Hl).
      split_and!; [done|done|]. intros Hr. rewrite (Hl Hr). lia.
  - exists i. split; [lia|]. split; [lia|]. rewrite E. split_and!; [done|done|].
    intros (r' & [= <-] & Hr). rewrite Er in Hr. injection Hr as ->. done.
Qed.

(** A domain is attempted at most [max 1 max_domain_attempts] times, and again only
    while the provider refused the previous attempt; the outcome is that of the last
    attempt, which is a sound result, an account error, or the ValueError of a salvage over
    a page the extractors refuse; a [circuit_open] result is given only once the attempts
    are used up. *)
Theorem process_domain_attempts (domain : string) (worlds : nat → World) (deadlines : nat → option nat) :
  ∃ k, (Z.of_nat k < Z.max 1 (max_domain_attempts cfg))%Z ∧
    attempts_ok domain worlds deadlines 0 (Z.to_nat (Z.max 1 (max_domain_attempts cfg) - 1)) k
      (process_domain cfg domain worlds deadlines).
Proof.
  unfold process_domain. destruct (domain_attempts_ok domain worlds deadlines
    (Z.to_nat (Z.max 1 (max_domain_attempts cfg) - 1)) 0) as (k & Hk & Ho).
  exists k. split; [lia|done].
Qed.
End attempts.

(** ** One link that does not parse *)

Module BadLink.
Import FlatDom.

(** A phone library that finds nothing, and ample recursion limits. *)
#[local] Instance no_phones : Phones := {
  number := unit;
  phone_parse _ _ := None;
  is_valid_number _ := false;
  format_e164 _ := "";
  phone_matches _ _ := []
}.
#[local] Instance limits : RecursionLimit := {| scan_limit := 50; walk_limit := 50 |}.

Definition home_of (links : string) : string :=
  "<html><body><a href=mailto:info@acme.com>Write to us</a>" +:+ links +:+ "</body></html>".

Definition page_of (html url : string) : PageFetch :=
  if String.eqb url "https://acme.com/" then Page (mkFetchResult url url 200 html 0 None)
  else PageError (mkFetchError PERMANENT "http_4xx" "" (Some 404%Z) None false).

Definition world (html : string) : World := {|
  wd_dns name kind := if String.eqb kind "A" then (["192.0.2.1"], None) else ([], None);
  wd_html := page_of html;
  wd_text _ := "";
  wd_post _ := None
|}.

Definition good : string := home_of "<a href=https://www.facebook.com/acme>Us</a>".
Definition bad : string := home_of "<a href=http://[acme>Us</a>".

Definition attempt (html : string) (deadline : option nat) : Attempt :=
  attempt_domain default_settings (world html) "acme.com" deadline.

(** One malformed link on a page loses every address of the domain, and after a deadline the
    exception leaves the attempt.  The page links to its own address; with a well-formed
    second link the address is found, in time or salvaged.  With a second link that
    [urlsplit] refuses, the attempt in time ends as [internal_error] without addresses, and
    the salvage after the deadline raises. *)
Example malformed_link_loses_domain :
  (∃ r, attempt good None = Finished r ∧ r_best_email r = Some "info@acme.com") ∧
  (∃ r, attempt good (Some 3%nat) = Finished r ∧ r_best_email r = Some "info@acme.com") ∧
  (∃ r, attempt bad None = Finished r ∧ r_error_reason r = Some "internal_error" ∧ r_all_emails r = []) ∧
  attempt bad (Some 3%nat) = Escaped "ValueError".
Proof.
  split_and!; [eexists; split; vm_compute; reflexivity|eexists; split; vm_compute; reflexivity| |vm_compute; reflexivity].
  eexists; split_and!; vm_compute; reflexivity.
Qed.
End BadLink.
