(* ===== verification/FieldsProps.v ===== *)
(** * What the field extractors promise ([phones.py], [socials.py], [forms.py]) *)

From Stdlib Require Import ZArith NArith Ascii String Lia.
From stdpp Require Import base strings option sets list.
From S2P Require Import Prelude PyStr Models Regex Groups Url Emails FilterRank Normalize Html PageText Fields Run.

(** ** Phone numbers *)

Section phones.
Context `{Dom} `{Phones}.

(** A number of a tel link, or one in the text with a cue in the 40 characters before it. *)
Inductive phone_seen (html text_ : string) : string → Prop :=
  | ps_tel d n num :
      parse_html html = Some d → n ∈ css d "a[href]" → lower (str_take 4 (href d n)) = "tel:" →
      phone_parse (strip (str_drop 4 (href d n))) "US" = Some num → is_valid_number num = true →
      phone_seen html text_ (format_e164 num)
  | ps_text start num :
      (start, num) ∈ phone_matches text_ "US" →
      re_search PHONE_CUE (slice (start - CUE_WINDOW) start text_) = true →
      phone_seen html text_ (format_e164 num).

Lemma fold_append_new l out :
  NoDup out → NoDup (fold_left append_new l out) ∧
  ∀ p, p ∈ fold_left append_new l out ↔ p ∈ out ∨ p ∈ l.
Proof.
  revert out. induction l as [|x l IH]; intros out Hn; cbn; [split; [done|set_solver]|].
  assert (NoDup (append_new out x) ∧ ∀ p, p ∈ append_new out x ↔ p ∈ out ∨ p = x) as [Hn' Hi].
  { unfold append_new. destruct (mem x out) eqn:E; [apply mem_true in E|apply mem_false in E].
    - split; [done|]. set_solver.
    - split; [|set_solver]. apply NoDup_app. split; [done|]. split; [|apply NoDup_singleton].
      by intros y Hy ->%list_elem_of_singleton. }
  destruct (IH _ Hn') as [I1 I2]. split; [done|]. intros p. rewrite I2, Hi. set_solver.
Qed.

Lemma from_tel_links_seen html text_ :
  NoDup (from_tel_links html) ∧ ∀ p, p ∈ from_tel_links html → phone_seen html text_ p.
Proof.
  unfold from_tel_links. destruct (nonempty html); cbn [negb]; [|split; [apply NoDup_nil_2|set_solver]].
  destruct (parse_html html) as [d|] eqn:Ed; [|split; [apply NoDup_nil_2|set_solver]].
  destruct (fold_append_new (omap (tel_number d) (css d "a[href]")) []) as [Hn Hi]; [apply NoDup_nil_2|].
  split; [done|]. intros p [?|(n & Hin & Ht)%list_elem_of_omap]%Hi; [set_solver|]. unfold tel_number in Ht.
  destruct (String.eqb_spec (lower (str_take 4 (href d n))) "tel:"); [|done].
  unfold e164 in Ht. destruct (phone_parse _ "US") as [num|] eqn:Ep; [|done]. cbn in Ht.
  destruct (is_valid_number num) eqn:Ev; [|done]. cbn in Ht. destruct (nonempty _); [|done]. injection Ht as <-.
  by eapply ps_tel.
Qed.

Lemma from_text_seen html text_ p : p ∈ from_text text_ → phone_seen html text_ p.
Proof.
  unfold from_text. destruct (nonempty text_); cbn [negb]; [|set_solver].
  intros Hp. apply fold_append_new in Hp; [|apply NoDup_nil_2]. destruct Hp as [?|([s num] & [Hin Hc]%elem_of_keep & ->)%elem_of_map];
    [set_solver|]. by eapply ps_text.
Qed.

(** No bare run of digits becomes a phone number.  At most five numbers come back, none
    twice, in E.164, and each stands in a tel link of the page as a valid number, or in its
    text with a telephone cue within the 40 characters before it. *)
Theorem extract_phones_cued (html text_ : string) :
  (length (extract_phones html text_) ≤ 5)%nat ∧ NoDup (extract_phones html text_) ∧
  ∀ p, p ∈ extract_phones html text_ → phone_seen html text_ p.
Proof.
  unfold extract_phones. destruct (from_tel_links_seen html text_) as [Hn Hs].
  destruct (fold_append_new (from_text text_) (from_tel_links html) Hn) as [Hn' Hi].
  split_and!.
  - rewrite length_take. unfold MAX_PHONES. lia.
  - eapply sublist_NoDup; [exact Hn'|apply sublist_take].
  - intros p (i & Hp%list_elem_of_lookup_2 & _)%elem_of_take. apply Hi in Hp as [Hp|Hp]; [by apply Hs|].
    by apply from_text_seen.
Qed.
End phones.

(** ** Social links *)

(** [d] is the host, or the host is below it. *)
Lemma host_matches_spec host domains :
  host_matches host domains = true ↔ ∃ d, d ∈ domains ∧ (host = d ∨ ∃ a, host = a +:+ "." +:+ d).
Proof.
  unfold host_matches. rewrite any_true. apply exist_proper. intros d. apply and_iff_compat_l.
  rewrite orb_true_iff, String.eqb_eq. apply or_iff_compat_l. unfold endswith. rewrite prefix_spec. split.
  - intros [t E]. exists (str_rev t).
    rewrite <- (str_rev_involutive host), E, str_rev_app_distr, str_rev_involutive. done.
  - intros [a ->]. exists (str_rev a). by rewrite str_rev_app_distr.
Qed.

(** Of two suffixes of a string one is a suffix of the other. *)
Lemma suffix_compare a b x y : a +:+ x = b +:+ y → (∃ t, x = t +:+ y) ∨ ∃ t, y = t +:+ x.
Proof.
  revert b. induction a as [|c a IH]; intros [|c' b] E; cbn in E; [left; by exists ""|left; by exists (String c' b)| |].
  - right. by exists (String c a).
  - injection E as _ E. by eapply IH.
Qed.

Definition is_suffix (x y : string) : bool := endswith x y.

Lemma is_suffix_app t y : is_suffix (t +:+ y) y = true.
Proof. unfold is_suffix, endswith. rewrite str_rev_app_distr. apply prefix_app. Qed.

(** The domains of different networks do not lie below each other. *)
Lemma networks_apart : all (λ n1, all (λ n2, String.eqb n1.1 n2.1
  || all (λ d1, all (λ d2, negb (is_suffix ("." +:+ d1) ("." +:+ d2))) n2.2) n1.2) NETWORKS) NETWORKS = true.
Proof. vm_compute. reflexivity. Qed.

Lemma under_dot host d : host = d ∨ (∃ a, host = a +:+ "." +:+ d) → ∃ b, "." +:+ host = b +:+ "." +:+ d.
Proof. intros [->|[a ->]]; [by exists ""|]. by exists ("." +:+ a). Qed.

(** A host belongs to one network. *)
Lemma host_network_unique host n1 n2 :
  n1 ∈ NETWORKS → n2 ∈ NETWORKS → host_matches host n1.2 = true → host_matches host n2.2 = true → n1.1 = n2.1.
Proof.
  intros H1 H2 (d1 & Hd1 & [b1 E1]%under_dot)%host_matches_spec (d2 & Hd2 & [b2 E2]%under_dot)%host_matches_spec.
  pose proof networks_apart as Ha. rewrite all_true in Ha.
  pose proof (Ha n1 H1) as A1. pose proof (Ha n2 H2) as A2. rewrite all_true in A1, A2.
  specialize (A1 n2 H2). specialize (A2 n1 H1).
  destruct (String.eqb_spec n1.1 n2.1) as [->|Hne]; [done|]. exfalso.
  apply orb_true_iff in A2 as [A2%String.eqb_eq|A2]; [by symmetry in A2|]. cbn [orb] in A1.
  rewrite all_true in A1, A2. specialize (A1 d1 Hd1). specialize (A2 d2 Hd2). rewrite all_true in A1, A2.
  specialize (A1 d2 Hd2). specialize (A2 d1 Hd1). rewrite E1 in E2.
  apply suffix_compare in E2 as [[t Et]|[t Et]]; rewrite Et, is_suffix_app in *; done.
Qed.

Section socials.
Context `{Dom} `{IpLiteral}.

(** The link a network would take from an anchor: the host is the network's or below it, the
    path is no share dialog, and on LinkedIn it is a profile. *)
Definition social_link (name : string) (domains : list string) (h : string) : option string :=
  if negb (nonempty h) || startswith h "#" then None
  else
    parts ← urlsplit (if has_slashes h then h else "https://" +:+ lstrip_chars "/" h);
    let host := lower (hostname parts) in
    let path := if nonempty (u_path parts) then u_path parts else "/" in
    if nonempty host && negb (re_search DROP_PATH path) && host_matches host domains
       && negb (String.eqb name "linkedin" && negb (re_search LINKEDIN_OK path))
    then Some (if has_slashes h then h else "https://" +:+ host +:+ path)
    else None.

Lemma network_of_some out host path name :
  network_of out host path = Some name →
  ∃ domains, (name, domains) ∈ NETWORKS ∧ name ∉ map fst out ∧ host_matches host domains = true ∧
             negb (String.eqb name "linkedin" && negb (re_search LINKEDIN_OK path)) = true.
Proof.
  unfold network_of. destruct (keep _ NETWORKS) as [|[n ds] l] eqn:E; [done|]. cbn. intros [= ->].
  assert ((name, ds) ∈ keep (λ nd : string * list string, negb (mem nd.1 (map fst out)) && host_matches host nd.2
            && negb (String.eqb nd.1 "linkedin" && negb (re_search LINKEDIN_OK path))) NETWORKS) as Hin by (rewrite E; left).
  apply elem_of_keep in Hin as [Hin Hp]. cbn [fst snd] in Hp. exists ds. bool_to_prop.
  split_and!; try done; [|by apply negb_true_iff]. by apply mem_false.
Qed.

Lemma network_of_none out host path name domains :
  network_of out host path = None → (name, domains) ∈ NETWORKS → name ∉ map fst out →
  host_matches host domains = true → negb (String.eqb name "linkedin" && negb (re_search LINKEDIN_OK path)) = false.
Proof.
  unfold network_of. destruct (keep _ NETWORKS) as [|x l] eqn:E; [|done]. intros _ Hin Hout Hh.
  apply (keep_nil_inv _ _ E) in Hin. cbn [fst snd] in Hin. apply mem_false in Hout. rewrite Hout, Hh in Hin. done.
Qed.

Lemma network_domains_unique name ds ds' : (name, ds) ∈ NETWORKS → (name, ds') ∈ NETWORKS → ds = ds'.
Proof.
  assert (NoDup (map fst NETWORKS)) as Hn by (apply (bool_decide_unpack _); vm_compute; reflexivity).
  intros H1 H2. apply list_elem_of_lookup in H1 as [i Hi], H2 as [j Hj].
  assert (i = j) as ->.
  { eapply (NoDup_lookup _ i j name Hn); by rewrite list_lookup_fmap, ?Hi, ?Hj. }
  congruence.
Qed.

Lemma dict_get_snoc {V} (d : list (string * V)) k v name :
  dict_get (d ++ [(k, v)]) name =
  match dict_get d name with Some x => Some x | None => if String.eqb k name then Some v else None end.
Proof. unfold dict_get. rewrite keep_app. destruct (keep _ d); cbn; [|done]. by break. Qed.

Lemma dict_get_none_keys {V} (d : list (string * V)) k : dict_get d k = None ↔ k ∉ map fst d.
Proof.
  split.
  - intros E (x & Ex)%dict_get_is_Some. congruence.
  - intros Hn. destruct (dict_get d k) as [v|] eqn:E; [|done]. apply dict_get_Some_in in E.
    exfalso. apply Hn. apply elem_of_map. by exists (k, v).
Qed.

(** What one anchor adds for each network. *)
Lemma add_social_spec out h out' name domains :
  add_social out h = Some out' → (name, domains) ∈ NETWORKS →
  dict_get out' name = match dict_get out name with Some v => Some v | None => social_link name domains h end.
Proof.
  unfold add_social, social_link. intros E Hin.
  destruct (negb (nonempty h) || startswith h "#"); [injection E as <-; by destruct (dict_get out name)|].
  destruct (urlsplit _) as [parts|]; [|done]. cbn [mbind option_bind] in *.
  set (host := lower (hostname parts)) in *. set (path := if nonempty (u_path parts) then u_path parts else "/") in *.
  destruct (nonempty host), (re_search DROP_PATH path); cbn [negb orb andb] in *;
    try (injection E as <-; by destruct (dict_get out name)).
  destruct (network_of out host path) as [nm|] eqn:En; injection E as <-.
  - apply network_of_some in En as (ds & Hds & Hnew & Hh & Hli). rewrite dict_get_snoc.
    destruct (dict_get out name) as [v|] eqn:Eg; [done|].
    destruct (String.eqb_spec nm name) as [->|Hne].
    + by rewrite (network_domains_unique _ _ _ Hin Hds), Hh, Hli.
    + destruct (host_matches host domains) eqn:Ehm; [|done].
      exfalso. apply Hne. apply (host_network_unique host (nm, ds) (name, domains)); done.
  - destruct (dict_get out name) as [v|] eqn:Eg; [done|]. apply dict_get_none_keys in Eg.
    destruct (host_matches host domains) eqn:Ehm; [|done]. by rewrite (network_of_none _ _ _ _ _ En Hin Eg Ehm).
Qed.

Lemma add_socials_spec out hrefs out' name domains :
  add_socials out hrefs = Some out' → (name, domains) ∈ NETWORKS →
  dict_get out' name =
  match dict_get out name with Some v => Some v | None => head (omap (social_link name domains) hrefs) end.
Proof.
  intros E Hin. revert out E. induction hrefs as [|h hrefs IH]; intros out E; cbn [add_socials] in E.
  - injection E as <-. by destruct (dict_get out name).
  - destruct (add_social out h) as [out1|] eqn:E1; [|done]. cbn in E. rewrite (IH _ E).
    rewrite (add_social_spec _ _ _ _ _ E1 Hin). destruct (dict_get out name); [done|]. cbn.
    by destruct (social_link name domains h).
Qed.

(** The social links are the first of each network, in document order: a link counts only
    when its host is one of the network's domains or below one (never a mere substring), its
    path is no share or intent dialog, and on LinkedIn it is a profile. *)
Theorem extract_socials_first (html : string) (d : dom) (out : list (string * string)) (name : string)
    (domains : list string) (Hparse : parse_html html = Some d) (Hout : extract_socials html = Some out)
    (Hnet : (name, domains) ∈ NETWORKS) :
  dict_get out name = head (omap (social_link name domains) (map (href d) (if nonempty html then css d "a[href]" else []))).
Proof.
  unfold extract_socials in Hout. rewrite Hparse in Hout. destruct (nonempty html); cbn [negb] in Hout.
  - by rewrite (add_socials_spec _ _ _ _ _ Hout Hnet).
  - by injection Hout as <-.
Qed.
End socials.

Lemma extract_socials_first_witness :
  let html := "<html><a href=https://www.facebook.com/sharer/sharer.php>Share</a><a href=https://notfacebook.com/x>No</a><a href=//facebook.com/acme>Us</a><a href=https://facebook.com/other>Other</a></html>" in
  ∃ out, @extract_socials FlatDom.flat_dom sample_ip html = Some out ∧
         dict_get out "facebook" = Some "//facebook.com/acme" ∧ dict_get out "linkedin" = None.
Proof.
  intros html. eexists. split; [vm_compute; reflexivity|]. split.
  - etransitivity; [eapply (@extract_socials_first FlatDom.flat_dom sample_ip html _ _ "facebook")|];
      [reflexivity|vm_compute; reflexivity|vm_compute; left|vm_compute; reflexivity].
  - vm_compute. reflexivity.
Defined.

(** ** The contact form *)

(** [p] is the first of the best scored pages with a form. *)
Definition best_form (has_form : string → bool) (pages : list (string * Z * string)) (p : string * Z * string) : Prop :=
  ∃ l1 l2, pages = l1 ++ p :: l2 ∧ has_form (page_html p) = true ∧
    (∀ q, q ∈ l1 → has_form (page_html q) = true → (page_score q < page_score p)%Z) ∧
    (∀ q, q ∈ l2 → has_form (page_html q) = true → (page_score q ≤ page_score p)%Z).

(** What the loop knows after some pages. *)
Definition best_so_far (has_form : string → bool) (pages : list (string * Z * string)) (best : option (Z * string)) : Prop :=
  match best with
  | None => ∀ q, q ∈ pages → has_form (page_html q) = false
  | Some (s, u) => ∃ p, s = page_score p ∧ u = page_url p ∧ best_form has_form pages p
  end.

Lemma best_form_max has_form pages p q :
  best_form has_form pages p → q ∈ pages → has_form (page_html q) = true → (page_score q ≤ page_score p)%Z.
Proof.
  intros (l1 & l2 & -> & Hp & H1 & H2) [Hq|[->|Hq]%elem_of_cons]%elem_of_app Hf; [|done|by apply H2].
  specialize (H1 q Hq Hf). lia.
Qed.

Lemma best_form_snoc has_form pages p x :
  best_form has_form pages p → (has_form (page_html x) = true → (page_score x ≤ page_score p)%Z) →
  best_form has_form (pages ++ [x]) p.
Proof.
  intros (l1 & l2 & -> & Hp & H1 & H2) Hx. exists l1, (l2 ++ [x]). rewrite <- app_assoc. split_and!; [done|done|done|].
  intros q [Hq| ->%list_elem_of_singleton]%elem_of_app; [by apply H2|done].
Qed.

Lemma best_form_new has_form pages x :
  has_form (page_html x) = true →
  (∀ q, q ∈ pages → has_form (page_html q) = true → (page_score q < page_score x)%Z) → best_form has_form (pages ++ [x]) x.
Proof. intros Hx Hq. exists pages, []. split_and!; [done|done|done|set_solver]. Qed.

Lemma pick_form_from has_form pages : ∀ pre best, best_so_far has_form pre best →
  match pick_form has_form best pages with
  | None => ∀ q, q ∈ pre ++ pages → has_form (page_html q) = false
  | Some u => ∃ p, u = page_url p ∧ best_form has_form (pre ++ pages) p
  end.
Proof.
  induction pages as [|x pages IH]; intros pre best Hb; cbn [pick_form].
  { rewrite app_nil_r. destruct best as [[s u]|]; cbn in *; [|done]. destruct Hb as (p & _ & -> & ?). eauto. }
  rewrite (cons_middle x), app_assoc. apply IH. destruct (has_form (page_html x)) eqn:Ex.
  - destruct best as [[s u]|]; cbn in Hb.
    + destruct Hb as (p & -> & -> & Hb). destruct (Z.ltb_spec (page_score p) (page_score x)); cbn.
      * exists x. split_and!; [done|done|]. apply best_form_new; [done|]. intros q Hq Hf.
        pose proof (best_form_max _ _ _ _ Hb Hq Hf). lia.
      * exists p. split_and!; [done|done|]. apply best_form_snoc; [done|]. intros _. lia.
    + exists x. split_and!; [done|done|]. apply best_form_new; [done|]. intros q Hq Hf. rewrite Hb in Hf; done.
  - destruct best as [[s u]|]; cbn in *.
    + destruct Hb as (p & -> & -> & Hb). exists p. split_and!; [done|done|]. apply best_form_snoc; [done|]. congruence.
    + intros q [Hq| ->%list_elem_of_singleton]%elem_of_app; [by apply Hb|done].
Qed.

(** The contact form reported is the one on the best page: the first of the highest scored
    pages that have a form, and none exactly when no page has one. *)
Theorem pick_contact_form_best (has_form : string → bool) (pages : list (string * Z * string)) :
  match pick_form has_form None pages with
  | None => ∀ q, q ∈ pages → has_form (page_html q) = false
  | Some u => ∃ p, u = page_url p ∧ best_form has_form pages p
  end.
Proof. apply (pick_form_from has_form pages [] None). cbn. set_solver. Qed.
