(* ===== verification/Auth.v ===== *)
(** * Who is calling ([src/app/auth.py], [src/app/users.py])

    The users table, the authentication of a request (bootstrap key, personal key, service
    key acting for a person), the per-person request window kept in Redis, and the commands
    that add, list and revoke users.  Randomness (new ids and secrets) and the clock readings
    are arguments.  An exception nobody foresees is the 500 [internal_error] it becomes. *)

From Stdlib Require Import ZArith Ascii String Lia.
From stdpp Require Import base strings option sets list.
From S2P Require Import Prelude PyStr Sql Models Regex Errors Sha256.

Definition KEY_PREFIX : string := "ee_".
Definition MIN_ADMIN_KEY_LEN : nat := 32.

Definition not_at_space (c : ascii) : bool := negb (Ascii.eqb c "@") && negb (is_space c).

(** [^\[^@\s\]{1,64}@\[^@\s\]{1,189}\.\[A-Za-z\]{2,24}$] *)
Definition EMAIL_HEADER : re :=
  seqs [Bos; between_times 1 64 (Chr not_at_space); lit "@"; between_times 1 189 (Chr not_at_space);
        lit "."; between_times 2 24 (Chr (λ c, is_lower c || is_upper c)); Eos].

(** [^(/jobs(/\[^/\]+(/recent)?)?|/providers/status)$] *)
Definition UNLIMITED : re :=
  seqs [Bos;
        Alt (Seq (lit "/jobs")
                 (opt (seqs [lit "/"; plus (Chr (λ c, negb (Ascii.eqb c "/"))); opt (lit "/recent")])))
            (lit "/providers/status");
        Eos].

Record User := mkUser {
  us_id : uuid;
  us_name : string;
  us_key_hash : string;
  us_is_admin : bool;
  us_is_service : bool;
  us_created_at : instant;
  us_revoked_at : option instant
}.

Record Principal := mkPrincipal {
  pr_user_id : option uuid;
  pr_name : string;
  pr_is_admin : bool;
  pr_via : option string
}.

Definition ADMIN : Principal := mkPrincipal None "admin" true None.

(** [token] is what [secrets.token_urlsafe] returned. *)
Definition new_key (token : string) : string := KEY_PREFIX +:+ token.

Definition hash_key (key : string) : string := hexdigest (utf8 key).

Definition admin_key_usable (cfg : Settings) : bool :=
  negb (String.eqb (api_key cfg) "change-me") && Nat.leb MIN_ADMIN_KEY_LEN (String.length (api_key cfg)).

(** ** The request window *)

(** A counter of Redis: the person and the minute its key names, its value and its expiry. *)
Record Window := mkWindow {
  w_user : option uuid;
  w_minute : Z;
  w_count : Z;
  w_expires : option instant
}.

Definition window_key (w : Window) : option uuid * Z := (w_user w, w_minute w).

(** How Redis behaves on one request. *)
Inductive RedisFault := redis_up | incr_fails | expire_fails.

Record Clocks := mkClocks {
  ck_window : instant;     (* [time.time()] that picks the window *)
  ck_redis : instant;      (* Redis's own clock *)
  ck_retry : instant       (* [time.time()] of the refusal *)
}.

Definition alive (now : instant) (w : Window) : bool :=
  match w_expires w with Some t => Z.ltb now t | None => true end.

(** [INCR]: an expired key counts as missing. *)
Definition incr (now : instant) (k : option uuid * Z) (t : list Window) : Z * list Window :=
  match find_row window_key k (keep (alive now) t) with
  | Some w =>
      let n := (w_count w + 1)%Z in
      (n, update_where (λ v, bool_decide (window_key v = k))
                       (λ v, mkWindow (w_user v) (w_minute v) n (w_expires v)) (keep (alive now) t))
  | None => (1%Z, keep (alive now) t ++ [mkWindow k.1 k.2 1 None])
  end.

(** [EXPIRE key s] *)
Definition expire (now : instant) (k : option uuid * Z) (s : Z) (t : list Window) : list Window :=
  update_where (λ v, bool_decide (window_key v = k))
               (λ v, mkWindow (w_user v) (w_minute v) (w_count v) (Some (now + seconds s)%Z)) t.

Definition minute_of (t : instant) : Z := (t / seconds 60)%Z.

Definition exempt (cfg : Settings) (method path : string) (who : Principal) : bool :=
  Z.eqb (rate_limit_per_minute cfg) 0
  || (pr_is_admin who && is_null (pr_via who))
  || (String.eqb method "GET" && re_match UNLIMITED path).

Definition rate_limit (cfg : Settings) (fault_ : RedisFault) (ck : Clocks) (method path : string)
    (who : Principal) (t : list Window) : Reply () * list Window :=
  if exempt cfg method path who then (Return (), t)
  else
    let k := (pr_user_id who, minute_of (ck_window ck)) in
    match fault_ with
    | incr_fails => (Return (), t)
    | _ =>
        let '(n, t1) := incr (ck_redis ck) k t in
        match fault_, Z.eqb n 1 with
        | expire_fails, true => (Return (), t1)
        | _, first =>
            let t2 := if first then expire (ck_redis ck) k 70 t1 else t1 in
            if Z.ltb (rate_limit_per_minute cfg) n
            then (Raise (fault_after "rate_limited" (60 - (ck_retry ck mod seconds 60) / seconds 1)%Z), t2)
            else (Return (), t2)
        end
    end.

(** ** Authentication *)

Record AuthState := mkAuthState { au_users : list User; au_windows : list Window }.

Record Headers := mkHeaders {
  x_api_key : option string;
  x_acting_user : option string;
  x_acting_role : option string
}.

Record AuthInput := mkAuthInput {
  in_headers : Headers;
  in_method : string;
  in_path : string;
  in_clocks : Clocks;
  in_redis : RedisFault;
  in_now : instant;             (* the transaction's [now()] *)
  in_new_id : uuid;             (* [uuid.uuid4()] *)
  in_new_secret : string        (* [secrets.token_hex(32)] *)
}.

Definition acting (h : Headers) : bool := str_truthy (x_acting_user h) || str_truthy (x_acting_role h).

(** [true] before [false]. *)
Definition desc (a b : bool) : comparison :=
  match a, b with true, false => Lt | false, true => Gt | _, _ => Eq end.

Definition cmp_person (email : string) (a b : User) : comparison :=
  lex (desc (String.eqb (us_name a) email) (String.eqb (us_name b) email))
      (lex (desc (is_null (us_revoked_at a)) (is_null (us_revoked_at b)))
           (Z.compare (us_created_at a) (us_created_at b))).

Definition person (users : list User) (email : string) : option User :=
  head (limit 1 (order_by (cmp_person email)
                          (keep (λ u, String.eqb (lower (us_name u)) email) users))).

(** The unique keys of the table: the id, the name, its lower case, the hash. *)
Definition collides (a b : User) : bool :=
  bool_decide (us_id a = us_id b) || String.eqb (us_name a) (us_name b)
  || String.eqb (us_key_hash a) (us_key_hash b) || String.eqb (lower (us_name a)) (lower (us_name b)).

(** [INSERT ... ON CONFLICT DO NOTHING] *)
Definition insert_user (u : User) (users : list User) : list User :=
  if any (collides u) users then users else users ++ [u].

Definition keyless (i : AuthInput) (email : string) : User := {|
  us_id := in_new_id i; us_name := email; us_key_hash := hash_key ("acting:" +:+ in_new_secret i);
  us_is_admin := false; us_is_service := false; us_created_at := in_now i; us_revoked_at := None
|}.

Definition acting_principal (i : AuthInput) (service_name : string) (users : list User)
    : Reply Principal * list User :=
  if negb (str_truthy (x_acting_user (in_headers i))) then (Raise (fault "acting_user_required"), users)
  else
    let email := lower (strip (default "" (x_acting_user (in_headers i)))) in
    if negb (re_match EMAIL_HEADER email) then (Raise (fault "invalid_acting_user"), users)
    else
      let '(p, users1) :=
        match person users email with
        | Some p => (Some p, users)
        | None => let users1 := insert_user (keyless i email) users in (person users1 email, users1)
        end in
      match p with
      | None => (Raise (fault "internal_error"), users1)
      | Some p =>
          if negb (is_null (us_revoked_at p)) then (Raise (fault "acting_user_revoked"), users1)
          else (Return (mkPrincipal (Some (us_id p)) email
                          (String.eqb (lower (default "" (x_acting_role (in_headers i)))) "admin")
                          (Some service_name)), users1)
      end.

(** The active user that holds the key. *)
Definition key_holder (users : list User) (key : string) : option User :=
  head (keep (λ u, String.eqb (us_key_hash u) (hash_key key) && is_null (us_revoked_at u)) users).

(** Everything up to the request window. *)
Definition authenticate (cfg : Settings) (i : AuthInput) (users : list User)
    : Reply (Principal * bool) * list User :=
  let h := in_headers i in
  if negb (str_truthy (x_api_key h)) then (Raise (fault "missing_api_key"), users)
  else
    let key := default "" (x_api_key h) in
    if admin_key_usable cfg && String.eqb key (api_key cfg) then
      if acting h then (Raise (fault "acting_user_not_allowed"), users)
      else (Return (ADMIN, false), users)
    else if negb (isascii key) || negb (startswith key KEY_PREFIX) then
      (Raise (fault "invalid_api_key"), users)
    else
      match key_holder users key with
      | None => (Raise (fault "invalid_api_key"), users)
      | Some u =>
          if negb (us_is_service u) then
            if acting h then (Raise (fault "acting_user_not_allowed"), users)
            else (Return (mkPrincipal (Some (us_id u)) (us_name u) (us_is_admin u) None, true), users)
          else
            let '(p, users1) := acting_principal i (us_name u) users in
            (reply_bind p (λ p, Return (p, true)), users1)
      end.

(** [require_api_key]: the bootstrap key returns before the request window is looked at. *)
Definition require_api_key (cfg : Settings) (i : AuthInput) (st : AuthState)
    : Reply Principal * AuthState :=
  let '(r, users1) := authenticate cfg i (au_users st) in
  match r with
  | Raise e => (Raise e, mkAuthState users1 (au_windows st))
  | Return (p, false) => (Return p, mkAuthState users1 (au_windows st))
  | Return (p, true) =>
      let '(lim, t) := rate_limit cfg (in_redis i) (in_clocks i) (in_method i) (in_path i) p
                                  (au_windows st) in
      (reply_bind lim (λ _, Return p), mkAuthState users1 t)
  end.

(** ** The user commands *)

Inductive AddOutcome :=
  | added (key : string)        (* printed once *)
  | name_taken                  (* SystemExit *)
  | integrity_error.            (* a unique index refused the row *)

Definition add_user (name : string) (admin service : bool) (now : instant) (id : uuid) (token : string)
    (users : list User) : AddOutcome * list User :=
  let key := new_key token in
  if any (λ u, String.eqb (us_name u) name) users then (name_taken, users)
  else
    let u := mkUser id name (hash_key key) admin service now None in
    if any (collides u) users then (integrity_error, users) else (added key, users ++ [u]).

Definition kind_of (u : User) : string :=
  if us_is_service u then "service" else if us_is_admin u then "admin" else "user".

(** The columns of [list]: the name, the kind and when the key was revoked. *)
Definition list_users (users : list User) : list (string * string * option instant) :=
  map (λ u, (us_name u, kind_of u, us_revoked_at u))
      (order_by (λ a b, Z.compare (us_created_at a) (us_created_at b)) users).

(** [None] is the SystemExit of an unknown name. *)
Definition revoke_user (name : string) (now : instant) (users : list User) : option (list User) :=
  match head (keep (λ u, String.eqb (us_name u) name) users) with
  | None => None
  | Some u =>
      Some (update_where (λ v, bool_decide (us_id v = us_id u))
              (λ v, mkUser (us_id v) (us_name v) (us_key_hash v) (us_is_admin v) (us_is_service v)
                           (us_created_at v) (Some now)) users)
  end.
