(* ===== verification/AuthProps.v ===== *)
(** * Properties of authentication

    Who a request can act as, that revoked keys and people are locked out, that the users
    table keeps its unique keys, and how many requests a person gets in a minute. *)

From Stdlib Require Import ZArith Ascii String Lia.
From stdpp Require Import base strings option sets list relations sorting.
From S2P Require Import Prelude PyStr Sql Models Regex Errors Sha256 Auth.

(** ** The users table *)

Record users_ok (users : list User) : Prop := {
  ids_unique : NoDup (map us_id users);
  hashes_unique : NoDup (map us_key_hash users);
  names_unique : NoDup (map (λ u, lower (us_name u)) users)
}.

Lemma NoDup_map_snoc {A B} (f : A → B) l x :
  NoDup (map f l) → (∀ y, y ∈ l → f y ≠ f x) → NoDup (map f (l ++ [x])).
Proof.
  intros Hn Hx. rewrite map_app. apply NoDup_app. split; [done|]. split; [|apply NoDup_singleton].
  intros y Hy ->%list_elem_of_singleton. apply list_elem_of_fmap in Hy as (z & E & Hz).
  by destruct (Hx z Hz).
Qed.

Lemma users_ok_insert users u :
  users_ok users → any (collides u) users = false → users_ok (users ++ [u]).
Proof.
  intros [H1 H2 H3] Hc. rewrite any_false in Hc.
  split; apply NoDup_map_snoc; try done; intros y Hy E; specialize (Hc y Hy);
    unfold collides in Hc; bool_to_prop; by symmetry in E.
Qed.

Lemma insert_user_ok u users : users_ok users → users_ok (insert_user u users).
Proof. intros H. unfold insert_user. destruct (any _ _) eqn:E; [done|]. by apply users_ok_insert. Qed.

Lemma users_ok_update users p f :
  (∀ u, us_id (f u) = us_id u ∧ us_key_hash (f u) = us_key_hash u ∧ us_name (f u) = us_name u) →
  users_ok users → users_ok (update_where p f users).
Proof.
  intros Hf [H1 H2 H3].
  split; rewrite update_where_column; try done; intros u _; destruct (Hf u) as (? & ? & E); try done.
  by rewrite E.
Qed.

Lemma acting_principal_users i name users :
  (acting_principal i name users).2 = users
  ∨ ∃ email, (acting_principal i name users).2 = insert_user (keyless i email) users.
Proof.
  unfold acting_principal. break; [by left|]. break; [by left|].
  set (email := lower _). destruct (person users email) as [p|].
  - left. by destruct (negb (is_null (us_revoked_at p))).
  - right. exists email. destruct (person (insert_user _ _) email) as [p|]; [|done].
    by destruct (negb (is_null (us_revoked_at p))).
Qed.

Lemma authenticate_users cfg i users :
  (authenticate cfg i users).2 = users
  ∨ ∃ email, (authenticate cfg i users).2 = insert_user (keyless i email) users.
Proof.
  unfold authenticate. destruct (negb (str_truthy _)); [by left|].
  destruct (admin_key_usable cfg && _); [by destruct (acting _); left|].
  destruct (negb (isascii _) || _); [by left|].
  destruct (key_holder users _) as [u|]; [|by left].
  destruct (negb (us_is_service u)); [by destruct (acting _); left|].
  pose proof (acting_principal_users i (us_name u) users) as Hu.
  by destruct (acting_principal i (us_name u) users) as [[]].
Qed.

(** What can happen to the users table. *)
Inductive UsersStep (cfg : Settings) : list User → list User → Prop :=
  | step_request i users : UsersStep cfg users (authenticate cfg i users).2
  | step_add name admin service now id token users :
      UsersStep cfg users (add_user name admin service now id token users).2
  | step_revoke name now users users' :
      revoke_user name now users = Some users' → UsersStep cfg users users'.

(** A revoked user stays revoked, and no user loses its row. *)
Definition keeps_revoked (users users' : list User) : Prop :=
  ∀ u, u ∈ users → ∃ u', u' ∈ users' ∧ us_id u' = us_id u ∧ us_key_hash u' = us_key_hash u
    ∧ us_name u' = us_name u ∧ us_is_admin u' = us_is_admin u ∧ us_is_service u' = us_is_service u
    ∧ (is_null (us_revoked_at u) = false → is_null (us_revoked_at u') = false).

Lemma keeps_revoked_refl users : keeps_revoked users users.
Proof. intros u Hu. exists u. done. Qed.

Lemma keeps_revoked_app users l : keeps_revoked users (users ++ l).
Proof. intros u Hu. exists u. split; [|done]. apply elem_of_app. by left. Qed.

Lemma keeps_revoked_insert users u : keeps_revoked users (insert_user u users).
Proof. unfold insert_user. break; [apply keeps_revoked_refl|apply keeps_revoked_app]. Qed.

Lemma users_step_ok cfg users users' :
  UsersStep cfg users users' → users_ok users → users_ok users' ∧ keeps_revoked users users'.
Proof.
  intros Hs H. destruct Hs as [i users|name ad sv now id token users|name now users users' E].
  - destruct (authenticate_users cfg i users) as [->|[e ->]].
    + split; [done|apply keeps_revoked_refl].
    + split; [by apply insert_user_ok|apply keeps_revoked_insert].
  - unfold add_user. break; [by split; [|apply keeps_revoked_refl]|].
    break; [by split; [|apply keeps_revoked_refl]|]. cbn.
    split; [by apply users_ok_insert|apply keeps_revoked_app].
  - unfold revoke_user in E. destruct (head _) as [v|]; [|done]. injection E as <-. split.
    + by apply users_ok_update.
    + intros u Hu. exists (if bool_decide (us_id u = us_id v)
        then mkUser (us_id u) (us_name u) (us_key_hash u) (us_is_admin u) (us_is_service u)
               (us_created_at u) (Some now) else u).
      split; [apply elem_of_update_where; by exists u|]. by case_bool_decide.
Qed.

Lemma users_steps_ok cfg users users' :
  users_ok users → rtc (UsersStep cfg) users users' → users_ok users' ∧ keeps_revoked users users'.
Proof.
  intros H Hr. revert H. induction Hr as [users|a b c Hs _ IH]; intros H.
  - split; [done|apply keeps_revoked_refl].
  - destruct (users_step_ok cfg a b Hs H) as [Hb Hk1]. destruct (IH Hb) as [Hc Hk2]. split; [done|].
    intros u Hu. destruct (Hk1 u Hu) as (u1 & Hu1 & ? & ? & ? & ? & ? & R1).
    destruct (Hk2 u1 Hu1) as (u2 & Hu2 & ? & ? & ? & ? & ? & R2).
    exists u2. repeat (split; [congruence|]). auto.
Qed.

(** The users table keeps one row per id, per key hash and per name without regard to
    case, through any requests, additions and revocations; none of them un-revokes anybody
    or changes whose key a row is. *)
Theorem users_table_invariant cfg users users' :
  users_ok users → rtc (UsersStep cfg) users users' → users_ok users' ∧ keeps_revoked users users'.
Proof. apply users_steps_ok. Qed.

Lemma users_table_invariant_witness :
  users_ok [] ∧ ∃ users', rtc (UsersStep default_settings) [] users' ∧ users' ≠ [] ∧ users_ok users'.
Proof.
  assert (users_ok []) as H by (split; constructor). split; [done|].
  eexists. split; [|split].
  - eapply rtc_l; [apply (step_add default_settings "Sam" false false 0 1 "tok" [])|apply rtc_refl].
  - done.
  - apply (users_table_invariant default_settings [] _ H).
    eapply rtc_l; [apply (step_add default_settings "Sam" false false 0 1 "tok" [])|apply rtc_refl].
Defined.

(** ** Who a request acts as *)

Lemma head_keep_Some {A} p (l : list A) x : head (keep p l) = Some x → x ∈ l ∧ p x = true.
Proof.
  intros H. apply elem_of_keep. destruct (keep p l); [done|]. injection H as ->. set_solver.
Qed.

Lemma key_holder_Some users key u :
  key_holder users key = Some u →
  u ∈ users ∧ us_key_hash u = hash_key key ∧ us_revoked_at u = None.
Proof.
  intros [Hu H]%head_keep_Some. bool_to_prop. split; [done|]. split; [done|].
  by destruct (us_revoked_at u).
Qed.

Lemma person_Some users email p :
  person users email = Some p → p ∈ users ∧ lower (us_name p) = email.
Proof.
  unfold person, limit. intros H.
  assert (p ∈ order_by (cmp_person email) (keep (λ u, String.eqb (lower (us_name u)) email) users)) as Hp.
  { destruct (order_by _ _) as [|x l]; [done|]. cbn in H. injection H as ->. set_solver. }
  unfold order_by in Hp. rewrite elem_of_sort_by, elem_of_keep in Hp. destruct Hp. by bool_to_prop.
Qed.

(** The person a service key acts for. *)
Definition acts_for (i : AuthInput) (service : User) (users' : list User) (p : Principal) : Prop :=
  ∃ who, who ∈ users' ∧ us_revoked_at who = None ∧
    lower (us_name who) = lower (strip (default "" (x_acting_user (in_headers i)))) ∧
    p = mkPrincipal (Some (us_id who)) (lower (us_name who))
          (String.eqb (lower (default "" (x_acting_role (in_headers i)))) "admin") (Some (us_name service)).

Lemma acting_principal_sound i svc users p users' :
  acting_principal i (us_name svc) users = (Return p, users') → acts_for i svc users' p.
Proof.
  unfold acting_principal. break; [done|]. break; [done|]. break. break; [|done]. break; [done|].
  intros [= <- <-].
  assert (person l (lower (strip (default "" (x_acting_user (in_headers i))))) = Some u) as Hp.
  { break_in Heqp0; injection Heqp0 as <- <-; [done|]. congruence. }
  apply person_Some in Hp as [Hu Hn]. bool_to_prop. exists u. split; [done|].
  split; [by destruct (us_revoked_at u)|]. by rewrite Hn.
Qed.

Lemma require_api_key_cases cfg i st p st' :
  require_api_key cfg i st = (Return p, st') →
  let key := default "" (x_api_key (in_headers i)) in
  (p = ADMIN ∧ key = api_key cfg ∧ admin_key_usable cfg = true ∧ acting (in_headers i) = false)
  ∨ ∃ u, u ∈ au_users st ∧ us_key_hash u = hash_key key ∧ us_revoked_at u = None
      ∧ startswith key KEY_PREFIX = true ∧ isascii key = true
      ∧ (us_is_service u = false ∧ acting (in_headers i) = false
           ∧ p = mkPrincipal (Some (us_id u)) (us_name u) (us_is_admin u) None
         ∨ us_is_service u = true ∧ acts_for i u (au_users st') p).
Proof.
  intros H key. unfold require_api_key in H.
  destruct (authenticate cfg i (au_users st)) as [r users1] eqn:E.
  assert (∃ b, r = Return (p, b) ∧ au_users st' = users1) as (b & -> & Hst).
  { destruct r as [[q []]|e]; [|by injection H as <- <-; eauto|done].
    destruct (rate_limit _ _ _ _ _ _ _) as [[[]|e] t]; [|done]. injection H as <- <-. eauto. }
  clear H. unfold authenticate in E. fold key in E.
  destruct (negb (str_truthy _)); [done|].
  destruct (admin_key_usable cfg && String.eqb key (api_key cfg)) eqn:Ea.
  { left. bool_to_prop. destruct (acting (in_headers i)); [done|]. by injection E as <-. }
  right. destruct (negb (isascii key) || negb (startswith key KEY_PREFIX)) eqn:Ek; [done|].
  bool_to_prop. destruct (key_holder (au_users st) key) as [u|] eqn:Eh; [|done].
  apply key_holder_Some in Eh as (Hu & Hh & Hr). exists u. do 5 (split; [done|]).
  destruct (us_is_service u) eqn:Es; cbn in E.
  - right. split; [done|]. destruct (acting_principal i (us_name u) (au_users st)) as [[q|e] us1] eqn:Ep; [|done].
    cbn in E. injection E as <- <- <-. rewrite Hst. by eapply acting_principal_sound.
  - left. split; [done|]. destruct (acting (in_headers i)); [done|]. by injection E as <-.
Qed.

(** A request that is let in presents a key that is either the usable bootstrap key, or
    an issued key whose hash is stored on a row that is not revoked; it acts as that row, or,
    for a service key only, as the person it names, who is not revoked either.  Acting
    headers sent with any other key are never honoured. *)
Theorem require_api_key_sound cfg i st p st' :
  require_api_key cfg i st = (Return p, st') →
  let key := default "" (x_api_key (in_headers i)) in
  (p = ADMIN ∧ key = api_key cfg ∧ admin_key_usable cfg = true ∧ acting (in_headers i) = false)
  ∨ ∃ u, u ∈ au_users st ∧ us_key_hash u = hash_key key ∧ us_revoked_at u = None
      ∧ startswith key KEY_PREFIX = true ∧ isascii key = true
      ∧ (us_is_service u = false ∧ acting (in_headers i) = false
           ∧ p = mkPrincipal (Some (us_id u)) (us_name u) (us_is_admin u) None
         ∨ us_is_service u = true ∧ acts_for i u (au_users st') p).
Proof. apply require_api_key_cases. Qed.

Definition portal : User := mkUser 1 "portal" (hash_key (new_key "s3cret")) false true 0 None.

Definition portal_request : AuthInput := {|
  in_headers := mkHeaders (Some (new_key "s3cret")) (Some " Bob@X.com ") (Some "Admin");
  in_method := "POST"; in_path := "/jobs"; in_clocks := mkClocks 0 0 0; in_redis := redis_up;
  in_now := 0; in_new_id := 2; in_new_secret := "r"
|}.

Lemma require_api_key_sound_witness :
  ∃ p st', require_api_key default_settings portal_request (mkAuthState [portal] []) = (Return p, st')
    ∧ p = mkPrincipal (Some 2%N) "bob@x.com" true (Some "portal")
    ∧ (∃ u, u ∈ [portal] ∧ us_is_service u = true).
Proof.
  eexists _, _. split; [vm_compute; reflexivity|]. split; [done|].
  destruct (require_api_key_sound default_settings portal_request (mkAuthState [portal] []) _ _
              ltac:(vm_compute; reflexivity)) as [(E & _)|(u & Hu & _ & _ & _ & _ & [(_ & _ & E)|[Hs _]])].
  - done.
  - done.
  - by exists u.
Defined.

(** ** Revocation *)

Lemma revoked_persists cfg users users' u v :
  users_ok users → u ∈ users → is_null (us_revoked_at u) = false → rtc (UsersStep cfg) users users' →
  v ∈ users' → us_id v = us_id u → us_revoked_at v ≠ None.
Proof.
  intros Hok Hu Hr Hs Hv Hid E.
  destruct (users_steps_ok cfg users users' Hok Hs) as [Hok' Hk].
  destruct (Hk u Hu) as (u' & Hu' & Hid' & _ & _ & _ & _ & Hr').
  assert (v = u') as -> by (apply (key_inj us_id users'); [apply Hok'|done|done|congruence]).
  specialize (Hr' Hr). by rewrite E in Hr'.
Qed.

Lemma revoke_user_effect name now users users' u :
  users_ok users → revoke_user name now users = Some users' → u ∈ users → us_name u = name →
  ∃ u', u' ∈ users' ∧ us_id u' = us_id u ∧ us_revoked_at u' = Some now.
Proof.
  intros Hok E Hu Hn. unfold revoke_user in E. destruct (head _) as [v|] eqn:Ev; [|done].
  injection E as <-. apply head_keep_Some in Ev as [Hv Hvn]. bool_to_prop.
  assert (v = u) as ->.
  { apply (key_inj (λ x, lower (us_name x)) users); [apply Hok|done|done|cbn; congruence]. }
  exists (mkUser (us_id u) (us_name u) (us_key_hash u) (us_is_admin u) (us_is_service u)
            (us_created_at u) (Some now)).
  split; [|done]. apply elem_of_update_where. exists u. split; [done|]. by rewrite bool_decide_true.
Qed.

Lemma require_api_key_users cfg i st r st' :
  require_api_key cfg i st = (r, st') → au_users st' = (authenticate cfg i (au_users st)).2.
Proof.
  unfold require_api_key. destruct (authenticate cfg i (au_users st)) as [[[p []]|e] users1].
  - destruct (rate_limit _ _ _ _ _ _ _) as [lim t]. by intros [= _ <-].
  - by intros [= _ <-].
  - by intros [= _ <-].
Qed.

(** C15: once a user is revoked, no later request acts as that user, whatever happened to
    the table in between: neither with the user's own key nor through a service key that
    names the person. *)
Theorem revoked_is_locked_out cfg name now users users1 users2 u i windows p st' :
  users_ok users → revoke_user name now users = Some users1 → u ∈ users → us_name u = name →
  rtc (UsersStep cfg) users1 users2 →
  require_api_key cfg i (mkAuthState users2 windows) = (Return p, st') →
  pr_user_id p ≠ Some (us_id u).
Proof.
  intros Hok E Hu Hn Hs Hreq Hp.
  destruct (revoke_user_effect name now users users1 u Hok E Hu Hn) as (u1 & Hu1 & Hid & Hr).
  assert (users_ok users1) as Hok1.
  { eapply users_step_ok; [by eapply (step_revoke cfg)|done]. }
  assert (∀ us v, rtc (UsersStep cfg) users1 us → v ∈ us → us_id v = us_id u → us_revoked_at v ≠ None) as Hno.
  { intros us v Hsv Hv Hvid. eapply (revoked_persists cfg users1 us u1 v); try done; [by rewrite Hr|congruence]. }
  pose proof (require_api_key_users _ _ _ _ _ Hreq) as Hst. cbn in Hst.
  apply require_api_key_cases in Hreq as [(-> & _)|(v & Hv & _ & Hvr & _ & _ & [(_ & _ & ->)|(_ & w & Hw & Hwr & _ & ->)])];
    cbn in *; [done| |].
  - injection Hp as Hp. by apply (Hno users2 v).
  - injection Hp as Hp. rewrite Hst in Hw. eapply (Hno _ w); [|exact Hw|done|done].
    eapply rtc_r; [exact Hs|apply step_request].
Qed.

Definition sam : User := mkUser 3 "Sam" (hash_key (new_key "k")) false false 0 None.

Lemma revoked_is_locked_out_witness :
  ∃ users1 p st', revoke_user "Sam" 5 [portal; sam] = Some users1
    ∧ require_api_key default_settings portal_request (mkAuthState users1 []) = (Return p, st')
    ∧ pr_user_id p ≠ Some (us_id sam).
Proof.
  eexists _, _, _. split; [reflexivity|]. split; [vm_compute; reflexivity|].
  apply (revoked_is_locked_out default_settings "Sam" 5 [portal; sam] _ _ sam portal_request []
           _ _ ltac:(split; vm_compute; repeat constructor; set_solver) eq_refl ltac:(set_solver) eq_refl
           (rtc_refl _ _) ltac:(vm_compute; reflexivity)).
Defined.

(** ** Requests per minute *)

Record Call := mkCall {
  c_fault : RedisFault;
  c_clocks : Clocks;
  c_method : string;
  c_path : string;
  c_who : Principal
}.

(** The requests of all API processes, in the order Redis serves them. *)
Fixpoint serve_calls (cfg : Settings) (calls : list Call) (t : list Window) : list (Call * Reply ()) :=
  match calls with
  | [] => []
  | c :: calls' =>
      let '(r, t1) := rate_limit cfg (c_fault c) (c_clocks c) (c_method c) (c_path c) (c_who c) t in
      (c, r) :: serve_calls cfg calls' t1
  end.

(** A request let through that the window of person [u] and minute [w] should count. *)
Definition let_through (cfg : Settings) (k : option uuid * Z) (cr : Call * Reply ()) : bool :=
  let '(c, r) := cr in
  negb (exempt cfg (c_method c) (c_path c) (c_who c))
  && bool_decide ((pr_user_id (c_who c), minute_of (ck_window (c_clocks c))) = k)
  && match c_fault c with redis_up => true | _ => false end
  && match r with Return _ => true | Raise _ => false end.

(** The API's clock and Redis's are at most five seconds apart. *)
Definition in_step (c : Call) : Prop :=
  (Z.abs (ck_window (c_clocks c) - ck_redis (c_clocks c)) ≤ seconds 5)%Z.

(** Redis's clock never goes back. *)
Definition in_order (calls : list Call) : Prop :=
  StronglySorted (λ a b, ck_redis (c_clocks a) ≤ ck_redis (c_clocks b))%Z calls.

Section window.
Context (cfg : Settings) (k : option uuid * Z).

Definition due : instant := (seconds 60 * k.2 + seconds 65)%Z.

Definition lasts (v : Window) : Prop := match w_expires v with Some e => (due ≤ e)%Z | None => True end.

(** The counter of [k] has reached [a] and outlasts the minute. *)
Definition held (a : Z) (t : list Window) : Prop :=
  (∀ v, v ∈ t → window_key v = k → (a ≤ w_count v)%Z ∧ lasts v)
  ∧ ((0 < a)%Z → ∃ v, v ∈ t ∧ window_key v = k).

Lemma minute_due c :
  in_step c → minute_of (ck_window (c_clocks c)) = k.2 →
  (ck_redis (c_clocks c) < due ∧ due ≤ ck_redis (c_clocks c) + seconds 70)%Z.
Proof.
  unfold in_step, minute_of, due, seconds. intros H E.
  pose proof (Z.div_mod (ck_window (c_clocks c)) (60 * 1000000) ltac:(lia)) as Hd.
  pose proof (Z.mod_pos_bound (ck_window (c_clocks c)) (60 * 1000000) ltac:(lia)). lia.
Qed.

Lemma lasts_alive now v : (now < due)%Z → lasts v → alive now v = true.
Proof. unfold lasts, alive. destruct (w_expires v); [|done]. intros. apply Z.ltb_lt. lia. Qed.

Lemma held_keep now a t : (now < due)%Z → held a t → held a (keep (alive now) t).
Proof.
  intros Hn [H1 H2]. split.
  - intros v [Hv _]%elem_of_keep. auto.
  - intros Ha. destruct (H2 Ha) as (v & Hv & Hk). exists v. split; [|done]. apply elem_of_keep.
    split; [done|]. apply lasts_alive; [done|]. by apply H1.
Qed.

Lemma incr_other now j a t : j ≠ k → (now < due)%Z → held a t → held a (incr now j t).2.
Proof.
  intros Hj Hn [H1 H2]%(held_keep now a t Hn). unfold incr. destruct (find_row _ _ _) as [w|]; cbn.
  - split.
    + intros v (v0 & Hv0 & ->)%elem_of_update_where Hk. case_bool_decide as E; [by destruct Hj; rewrite <- E, <- Hk|].
      by apply H1.
    + intros Ha. destruct (H2 Ha) as (v & Hv & Hk). exists v. split; [|done].
      apply elem_of_update_where. exists v. split; [done|]. rewrite bool_decide_false; [done|congruence].
  - split.
    + intros v [Hv| ->%list_elem_of_singleton]%elem_of_app Hk; [by apply H1|].
      destruct Hj. rewrite <- Hk. by destruct j.
    + intros Ha. destruct (H2 Ha) as (v & Hv & Hk). exists v. split; [|done]. apply elem_of_app. by left.
Qed.

Lemma incr_same now a t :
  (0 ≤ a)%Z → (now < due)%Z → held a t →
  let '(n, t1) := incr now k t in (a + 1 ≤ n)%Z ∧ held n t1.
Proof.
  intros Ha Hn [H1 H2]%(held_keep now a t Hn). unfold incr.
  destruct (find_row _ _ _) as [w|] eqn:E.
  - apply find_row_Some in E as [Hw Hk]. destruct (H1 w Hw Hk). split; [lia|]. split.
    + intros v (v0 & Hv0 & ->)%elem_of_update_where Hvk. case_bool_decide; [|done].
      split; [cbn; lia|]. by destruct (H1 v0 Hv0).
    + intros _. exists (mkWindow (w_user w) (w_minute w) (w_count w + 1) (w_expires w)). split; [|done].
      apply elem_of_update_where. exists w. by rewrite bool_decide_true.
  - assert (a = 0%Z) as ->.
    { destruct (Z.eq_dec a 0%Z) as [|Hne]; [done|]. destruct (H2 ltac:(lia)) as (v & Hv & Hvk).
      by apply (proj1 (find_row_None _ _ _) E) in Hvk. }
    split; [lia|]. split.
    + intros v [Hv| ->%list_elem_of_singleton]%elem_of_app Hvk; [|done].
      by apply (proj1 (find_row_None _ _ _) E) in Hvk.
    + intros _. exists (mkWindow k.1 k.2 1 None). split; [apply elem_of_app; right; set_solver|]. by destruct k.
Qed.

Lemma expire_held now j a t :
  (j = k → due ≤ now + seconds 70)%Z → held a t → held a (expire now j 70 t).
Proof.
  intros Hj [H1 H2]. unfold expire. split.
  - intros v (v0 & Hv0 & ->)%elem_of_update_where Hk. case_bool_decide as E; [|by apply H1].
    split; [by apply (H1 v0 Hv0)|]. unfold lasts. cbn. apply Hj. by rewrite <- E.
  - intros Ha. destruct (H2 Ha) as (v & Hv & Hk).
    exists (if bool_decide (window_key v = j)
            then mkWindow (w_user v) (w_minute v) (w_count v) (Some (now + seconds 70)%Z) else v).
    split; [apply elem_of_update_where; by exists v|]. by case_bool_decide.
Qed.

Lemma held_weaken a b t : (b ≤ a)%Z → (0 < b → 0 < a)%Z → held a t → held b t.
Proof.
  intros Hab H0 [H1 H2]. split; [|auto]. intros v Hv Hk. destruct (H1 v Hv Hk). split; [lia|done].
Qed.

(** One request: the counter keeps up with what was let through. *)
Lemma rate_limit_held c a t :
  in_step c → (0 ≤ a ≤ rate_limit_per_minute cfg)%Z → (ck_redis (c_clocks c) < due)%Z → held a t →
  let '(r, t1) := rate_limit cfg (c_fault c) (c_clocks c) (c_method c) (c_path c) (c_who c) t in
  let a' := (if let_through cfg k (c, r) then a + 1 else a)%Z in
  (a' ≤ rate_limit_per_minute cfg)%Z ∧ held a' t1.
Proof.
  intros Hs Ha Hr Hh. unfold rate_limit, let_through.
  destruct (exempt cfg _ _ _); [by cbn; split; [lia|]|]. cbn [negb andb].
  set (j := (pr_user_id (c_who c), minute_of (ck_window (c_clocks c)))).
  destruct (decide (j = k)) as [Hj|Hj].
  - rewrite (bool_decide_true _ Hj), Hj.
    pose proof (incr_same (ck_redis (c_clocks c)) a t ltac:(lia) Hr Hh) as Hi.
    pose proof (minute_due c Hs ltac:(by rewrite <- Hj)) as [_ Hd].
    destruct (incr (ck_redis (c_clocks c)) k t) as [n t1]. destruct Hi as [Hn Hh1].
    pose proof (expire_held (ck_redis (c_clocks c)) k n t1 (λ _, Hd) Hh1) as Hh2.
    destruct (c_fault c); [|by cbn; split; [lia|]|].
    + destruct (Z.eqb n 1); destruct (Z.ltb_spec (rate_limit_per_minute cfg) n); cbn;
        (split; [lia|]); (eapply held_weaken; [| |eassumption]; lia).
    + destruct (Z.eqb n 1); [|destruct (Z.ltb_spec (rate_limit_per_minute cfg) n)]; cbn;
        (split; [lia|]); (eapply held_weaken; [| |eassumption]; lia).
  - rewrite (bool_decide_false _ Hj). cbn [andb].
    pose proof (incr_other (ck_redis (c_clocks c)) j a t Hj Hr Hh) as Hi.
    destruct (incr (ck_redis (c_clocks c)) j t) as [n t1]. cbn in Hi.
    pose proof (expire_held (ck_redis (c_clocks c)) j a t1 (λ E, False_ind _ (Hj E)) Hi) as Hh2.
    destruct (c_fault c); [|by cbn; split; [lia|]|]; destruct (Z.eqb n 1);
      try destruct (Z.ltb (rate_limit_per_minute cfg) n); cbn; (split; [lia|done]).
Qed.

(** After the minute nothing counts for it any more. *)
Lemma late_not_counted c r :
  in_step c → (due ≤ ck_redis (c_clocks c))%Z → let_through cfg k (c, r) = false.
Proof.
  intros Hs Hd. unfold let_through. destruct (exempt _ _ _ _); [done|]. cbn.
  case_bool_decide as E; [|done]. pose proof (minute_due c Hs ltac:(by rewrite <- E)). lia.
Qed.

Lemma late_none calls t r0 :
  Forall in_step calls → (due ≤ r0)%Z → Forall (λ c, r0 ≤ ck_redis (c_clocks c))%Z calls →
  keep (let_through cfg k) (serve_calls cfg calls t) = [].
Proof.
  revert t. induction calls as [|c calls IH]; intros t Hs Hd Hr; cbn; [done|].
  inversion Hs; inversion Hr; subst. destruct (rate_limit _ _ _ _ _ _ _) as [r t1].
  unfold keep in *. cbn [List.filter]. rewrite late_not_counted by (done || lia). by apply IH.
Qed.

Lemma serve_calls_bound calls t a :
  Forall in_step calls → in_order calls → (0 ≤ a ≤ rate_limit_per_minute cfg)%Z → held a t →
  (a + Z.of_nat (count (let_through cfg k) (serve_calls cfg calls t)) ≤ rate_limit_per_minute cfg)%Z.
Proof.
  revert t a. induction calls as [|c calls IH]; intros t a Hs Ho Ha Hh; cbn [serve_calls]; [cbn; lia|].
  inversion Hs as [|? ? Hc Hcs]; inversion Ho as [|? ? Ho' Hall]; subst.
  destruct (Z.lt_ge_cases (ck_redis (c_clocks c)) due) as [Hd|Hd].
  - pose proof (rate_limit_held c a t Hc Ha Hd Hh) as H.
    destruct (rate_limit _ _ _ _ _ _ _) as [r t1]. unfold count, keep in *. cbn [List.filter].
    destruct (let_through cfg k (c, r)); cbn zeta iota in H; destruct H as [H1 H2].
    + specialize (IH t1 (a + 1)%Z Hcs Ho' ltac:(lia) H2). cbn [length]. lia.
    + apply (IH t1 a Hcs Ho' ltac:(lia) H2).
  - pose proof (late_none (c :: calls) t (ck_redis (c_clocks c)) Hs Hd) as Hn.
    cbn [serve_calls] in Hn. unfold count. rewrite Hn; [cbn; lia|]. by constructor.
Qed.
End window.

(** C35: in one minute a person gets at most the configured number of requests through,
    however many API processes serve them, as long as Redis answers and its clock is within
    five seconds of theirs; the requests the limit exempts and those let through because
    Redis failed are not counted. *)
Theorem requests_per_minute_bound cfg k calls :
  (0 ≤ rate_limit_per_minute cfg)%Z → Forall in_step calls → in_order calls →
  (Z.of_nat (count (let_through cfg k) (serve_calls cfg calls [])) ≤ rate_limit_per_minute cfg)%Z.
Proof.
  intros Hl Hs Ho. apply (serve_calls_bound cfg k calls [] 0 Hs Ho ltac:(lia)). split; [set_solver|lia].
Qed.

Definition bob : Principal := mkPrincipal (Some 7%N) "bob" false None.
Definition post (t : Z) : Call := mkCall redis_up (mkClocks t t t) "POST" "/jobs" bob.

Lemma requests_per_minute_bound_witness :
  (Z.of_nat (count (let_through default_settings (Some 7%N, 0%Z))
               (serve_calls default_settings [post 0; post 1; post 59000000] [])) ≤ 120)%Z.
Proof.
  apply (requests_per_minute_bound default_settings (Some 7%N, 0%Z) [post 0; post 1; post 59000000]).
  - vm_compute. discriminate.
  - repeat constructor; vm_compute; discriminate.
  - repeat constructor; vm_compute; discriminate.
Defined.
