(* ===== verification/IpAddress.v ===== *)
(** * Python's [ipaddress]

    Addresses as 32-bit and 128-bit numbers, their parsing and printing, and which of them
    are globally reachable, with the tables of Python 3.12. *)

From Stdlib Require Import NArith ZArith Ascii String Lia.
From stdpp Require Import base strings pretty option sets list.
From S2P Require Import Prelude PyStr Url.

Inductive Address :=
  | IPv4 (ip : N)
  | IPv6 (ip : N) (scope_id : option string).

#[export] Instance Address_eq_dec : EqDecision Address.
Proof. solve_decision. Defined.

Definition opt_all {A B} (f : A → option B) : list A → option (list B) :=
  fix go l := match l with
              | [] => Some []
              | x :: l' => match f x, go l' with Some y, Some ys => Some (y :: ys) | _, _ => None end
              end.

(** ** Parsing *)

Definition digit_value (c : ascii) : N := (code c - 48)%N.
Definition dec_value (s : string) : N :=
  fold_left (λ acc c, acc * 10 + digit_value c)%N (list_ascii_of_string s) 0%N.

Definition is_hex_digit (c : ascii) : bool := is_digit09 c || between 97 102 c || between 65 70 c.
Definition hex_digit_value (c : ascii) : N :=
  if is_digit09 c then (code c - 48)%N else if between 97 102 c then (code c - 87)%N else (code c - 55)%N.
Definition hex_value (s : string) : N :=
  fold_left (λ acc c, acc * 16 + hex_digit_value c)%N (list_ascii_of_string s) 0%N.

Definition parse_octet (s : string) : option N :=
  if negb (nonempty s) then None
  else if negb (str_all is_digit09 s) then None
  else if Nat.ltb 3 (String.length s) then None
  else if negb (String.eqb s "0") && startswith s "0" then None
  else let n := dec_value s in if N.ltb 255 n then None else Some n.

Definition from_digits (base : N) (l : list N) : N := fold_left (λ acc d, acc * base + d)%N l 0%N.

Definition parse_v4 (s : string) : option N :=
  let octets := split_char "." s in
  if negb (Nat.eqb (length octets) 4) then None
  else from_digits 256 <$> opt_all parse_octet octets.

Definition parse_hextet (s : string) : option N :=
  if negb (str_all is_hex_digit s) then None
  else if Nat.ltb 4 (String.length s) then None
  else if negb (nonempty s) then None
  else Some (hex_value s).

Definition hex_char (d : N) : ascii := ascii_of_N (if N.ltb d 10 then 48 + d else 87 + d).

(** ['%x' % n] for a number of at most 16 bits. *)
Definition hex4 (n : N) : string :=
  let d3 := N.land (N.shiftr n 12) 15 in
  let d2 := N.land (N.shiftr n 8) 15 in
  let d1 := N.land (N.shiftr n 4) 15 in
  let d0 := N.land n 15 in
  if N.ltb 0 d3 then String (hex_char d3) (String (hex_char d2) (String (hex_char d1) (String (hex_char d0) "")))
  else if N.ltb 0 d2 then String (hex_char d2) (String (hex_char d1) (String (hex_char d0) ""))
  else if N.ltb 0 d1 then String (hex_char d1) (String (hex_char d0) "")
  else String (hex_char d0) "".

(** The last part may be an IPv4 address; [None]: it is not one. *)
Definition expand_v4_tail (parts : list string) : option (list string) :=
  match last parts with
  | Some l =>
      if has_char "." l then
        match parse_v4 l with
        | Some ip => Some (removelast parts ++ [hex4 (N.land (N.shiftr ip 16) 0xFFFF); hex4 (N.land ip 0xFFFF)])
        | None => None
        end
      else Some parts
  | None => Some parts
  end.

(** The positions strictly inside the list that hold an empty part. *)
Definition skip_indexes (parts : list string) : list nat :=
  keep (λ i, negb (nonempty (nth i parts ""))) (seq 1 (length parts - 2)).

(** How many parts to read before and after the ["::"], and how many it stands for. *)
Definition layout (parts : list string) : option (nat * nat * nat) :=
  let first_empty := negb (nonempty (nth 0 parts "")) in
  let last_empty := negb (nonempty (nth (length parts - 1) parts "")) in
  match skip_indexes parts with
  | _ :: _ :: _ => None
  | [i] =>
      let hi := if first_empty then (i - 1)%nat else i in
      let lo := if last_empty then (length parts - i - 2)%nat else (length parts - i - 1)%nat in
      if first_empty && negb (Nat.eqb hi 0) then None
      else if last_empty && negb (Nat.eqb lo 0) then None
      else if Nat.ltb 7 (hi + lo) then None
      else Some (hi, lo, (8 - (hi + lo))%nat)
  | [] =>
      if negb (Nat.eqb (length parts) 8) then None
      else if first_empty || last_empty then None
      else Some (8, 0, 0)%nat
  end.

(** The colon-separated parts as one number. *)
Definition parse_parts (parts : list string) : option N :=
  if Nat.ltb (length parts) 3 then None
  else
    match expand_v4_tail parts with
    | None => None
    | Some parts =>
        if Nat.ltb 9 (length parts) then None
        else
          match layout parts with
          | None => None
          | Some (hi, lo, skipped) =>
              match opt_all parse_hextet (take hi parts), opt_all parse_hextet (drop (length parts - lo) parts) with
              | Some a, Some b => Some (from_digits 65536 (a ++ replicate skipped 0%N ++ b))
              | _, _ => None
              end
          end
    end.

Definition parse_v6_int (s : string) : option N := parse_parts (split_char ":" s).

Definition parse_v6 (s : string) : option Address :=
  if has_char "/" s then None
  else
    match partition_at "%" s with
    | None => (λ n, IPv6 n None) <$> parse_v6_int s
    | Some (addr, scope) =>
        if negb (nonempty scope) || has_char "%" scope then None
        else (λ n, IPv6 n (Some scope)) <$> parse_v6_int addr
    end.

(** [ipaddress.ip_address(s)]; [None]: ValueError. *)
Definition ip_address (s : string) : option Address :=
  match (if has_char "/" s then None else parse_v4 s) with
  | Some n => Some (IPv4 n)
  | None => parse_v6 s
  end.

(** What [urlsplit] asks of a bracketed host. *)
#[export] Instance ip_literal : IpLiteral :=
  λ s, match ip_address s with Some (IPv6 _ _) => true | _ => false end.

(** ** Printing *)

Definition octets (n : N) : list N :=
  [N.land (N.shiftr n 24) 255; N.land (N.shiftr n 16) 255; N.land (N.shiftr n 8) 255; N.land n 255].

Definition str_v4 (n : N) : string := join "." (map pretty (octets n)).

Definition hextets (n : N) : list N :=
  map (λ i, N.land (N.shiftr n (16 * i)) 0xFFFF) [7; 6; 5; 4; 3; 2; 1; 0]%N.

(** The longest run of ["0"]: its start and length; the first of the longest. *)
Fixpoint zero_runs (l : list string) (i start len best_start best_len : nat) : nat * nat :=
  match l with
  | [] => (best_start, best_len)
  | h :: l' =>
      if String.eqb h "0" then
        let start := if Nat.eqb len 0 then i else start in
        let len := S len in
        if Nat.ltb best_len len then zero_runs l' (S i) start len start len
        else zero_runs l' (S i) start len best_start best_len
      else zero_runs l' (S i) 0 0 best_start best_len
  end.

Definition compress_hextets (l : list string) : list string :=
  let '(start, len) := zero_runs l 0 0 0 0 0 in
  if Nat.ltb 1 len then
    let l' := if Nat.eqb (start + len) (length l) then l ++ [""] else l in
    let l'' := take start l' ++ [""] ++ drop (start + len) l' in
    if Nat.eqb start 0 then "" :: l'' else l''
  else l.

Definition str_v6 (n : N) : string := join ":" (compress_hextets (map hex4 (hextets n))).

Definition str_address (a : Address) : string :=
  match a with
  | IPv4 n => str_v4 n
  | IPv6 n None => str_v6 n
  | IPv6 n (Some scope) => str_v6 n +:+ "%" +:+ scope
  end.

(** ** Classes of addresses *)

(** A network of [bits]-bit addresses: its first address and its prefix length. *)
Definition in_net (bits : N) (n : N) (net : N * N) : bool :=
  N.eqb (N.shiftr n (bits - net.2)) (N.shiftr net.1 (bits - net.2)).

Definition v4 (a b c d : N) : N := from_digits 256 [a; b; c; d].
Definition v6 (l : list N) : N := from_digits 65536 (l ++ replicate (8 - length l) 0%N).

Definition V4_PRIVATE : list (N * N) := [
  (v4 0 0 0 0, 8); (v4 10 0 0 0, 8); (v4 127 0 0 0, 8); (v4 169 254 0 0, 16); (v4 172 16 0 0, 12);
  (v4 192 0 0 0, 24); (v4 192 0 0 170, 31); (v4 192 0 2 0, 24); (v4 192 168 0 0, 16);
  (v4 198 18 0 0, 15); (v4 198 51 100 0, 24); (v4 203 0 113 0, 24); (v4 240 0 0 0, 4);
  (v4 255 255 255 255, 32)]%N.

Definition V4_EXCEPTIONS : list (N * N) := [(v4 192 0 0 9, 32); (v4 192 0 0 10, 32)]%N.

(** The private networks of Python 3.12, the documentation block 3fff::/20 of 3.12.8 included. *)
Definition V6_PRIVATE : list (N * N) := [
  (1, 128); (0, 128); (N.shiftl 0xFFFF 32, 96); (v6 [0x64; 0xff9b; 1], 48); (v6 [0x100], 64);
  (v6 [0x2001], 23); (v6 [0x2001; 0xdb8], 32); (v6 [0x2002], 16); (v6 [0x3fff], 20); (v6 [0xfc00], 7); (v6 [0xfe80], 10)]%N.

Definition V6_EXCEPTIONS : list (N * N) := [
  (v6 [0x2001; 1; 0; 0; 0; 0; 0; 1], 128); (v6 [0x2001; 1; 0; 0; 0; 0; 0; 2], 128);
  (v6 [0x2001; 3], 32); (v6 [0x2001; 4; 0x112], 48); (v6 [0x2001; 0x20], 28); (v6 [0x2001; 0x30], 28)]%N.

Definition is_private_v4 (n : N) : bool :=
  any (in_net 32 n) V4_PRIVATE && negb (any (in_net 32 n) V4_EXCEPTIONS).
Definition is_global_v4 (n : N) : bool := negb (in_net 32 n (v4 100 64 0 0, 10%N)) && negb (is_private_v4 n).
Definition is_multicast_v4 (n : N) : bool := in_net 32 n (v4 224 0 0 0, 4%N).

Definition ipv4_mapped (n : N) : option N :=
  if N.eqb (N.shiftr n 32) 0xFFFF then Some (N.land n 0xFFFFFFFF) else None.

Definition is_private_v6 (n : N) : bool :=
  match ipv4_mapped n with
  | Some m => is_private_v4 m
  | None => any (in_net 128 n) V6_PRIVATE && negb (any (in_net 128 n) V6_EXCEPTIONS)
  end.

Definition is_global (a : Address) : bool :=
  match a with IPv4 n => is_global_v4 n | IPv6 n _ => negb (is_private_v6 n) end.
Definition is_multicast (a : Address) : bool :=
  match a with IPv4 n => is_multicast_v4 n | IPv6 n _ => in_net 128 n (v6 [0xff00%N], 8%N) end.

(** ** Examples against the interpreter *)

Example parse_print_v6 :
  map (λ s, str_address <$> ip_address s)
      ["2001:db8::1"; "::"; "::1"; "1::"; "64:ff9b::10.0.0.1"; "1:2:3:4:5:6:7:8"; "fe80::1%eth0"; "::ffff:1.2.3.4";
       "1:0:0:2:0:0:0:3"; "1:2:3:4:5:6:7::"; "0:1:2:3:4:5:6:7"]
  = map Some ["2001:db8::1"; "::"; "::1"; "1::"; "64:ff9b::a00:1"; "1:2:3:4:5:6:7:8"; "fe80::1%eth0";
       "::ffff:102:304"; "1:0:0:2::3"; "1:2:3:4:5:6:7:0"; "0:1:2:3:4:5:6:7"].
Proof. vm_compute. reflexivity. Qed.

Example not_addresses :
  map ip_address ["1.2.3"; "1.2.3.04"; "1.2.3.256"; ":1:2:3:4:5:6:7"; "1::2::3"; "1:2:3:4:5:6:7:8:9"; "12345::";
                  "g::"; "::%"; "fe80::1%a%b"; ""; "1:2:3:4:5:6:7"; ":::"; "::1/64"]
  = replicate 14 None.
Proof. vm_compute. reflexivity. Qed.

(** ** Digits *)

Definition below (k : nat) : list N := map N.of_nat (seq 0 k).
Lemma below_forall (P : N → bool) k : forallb P (below k) = true → ∀ n, (n < N.of_nat k)%N → P n = true.
Proof.
  intros H n Hn. rewrite forallb_forall in H. apply H. unfold below. apply in_map_iff.
  exists (N.to_nat n). split; [lia|]. apply in_seq. lia.
Qed.

Lemma octet_roundtrip n : (n < 256)%N → parse_octet (pretty n) = Some n ∧ has_char "." (pretty n) = false ∧ has_char "/" (pretty n) = false.
Proof.
  intros H. pose proof (below_forall (λ n, bool_decide (parse_octet (pretty n) = Some n)
    && negb (has_char "." (pretty n)) && negb (has_char "/" (pretty n))) 256) as Hb.
  specialize (Hb ltac:(vm_compute; reflexivity) n ltac:(lia)). cbn beta in Hb. by bool_to_prop.
Qed.

Definition hex_char_ok (d : N) : bool :=
  let c := hex_char d in
  N.eqb (hex_digit_value c) d && is_hex_digit c && negb (has_char c ":./%") && Bool.eqb (Ascii.eqb c "0") (N.eqb d 0).
Lemma hex_chars d : (d < 16)%N → hex_char_ok d = true.
Proof. apply (below_forall hex_char_ok 16). vm_compute. reflexivity. Qed.

Lemma hex_digits n : (n < 65536)%N →
  let d k := N.land (N.shiftr n (4 * k)) 15 in
  n = (((d 3 * 16 + d 2) * 16 + d 1) * 16 + d 0)%N ∧ (d 3 < 16 ∧ d 2 < 16 ∧ d 1 < 16 ∧ d 0 < 16)%N.
Proof.
  intros H d. unfold d. change 15%N with (N.ones 4). rewrite !N.land_ones, !N.shiftr_div_pow2.
  change (2 ^ 4)%N with 16%N. change (2 ^ (4 * 3))%N with 4096%N. change (2 ^ (4 * 2))%N with 256%N.
  change (2 ^ (4 * 1))%N with 16%N. change (2 ^ (4 * 0))%N with 1%N. rewrite N.div_1_r.
  zify; Z.to_euclidean_division_equations; lia.
Qed.

Record part_ok (s : string) : Prop := {
  part_nonempty : nonempty s = true;
  part_plain : ∀ c, has_char c ":./%" = true → has_char c s = false
}.

Lemma hex_char_facts d :
  (d < 16)%N → hex_digit_value (hex_char d) = d ∧ is_hex_digit (hex_char d) = true
  ∧ (∀ c, has_char c ":./%" = true → Ascii.eqb c (hex_char d) = false) ∧ (Ascii.eqb (hex_char d) "0" = N.eqb d 0).
Proof.
  intros H. pose proof (hex_chars d H) as Hc. unfold hex_char_ok in Hc. bool_to_prop.
  apply N.eqb_eq in H0. apply eqb_prop in H1. repeat (split; [done|]). split; [|done].
  intros c Hc. destruct (Ascii.eqb_spec c (hex_char d)) as [->|]; [congruence|done].
Qed.

Definition undigits (l : list N) : string := string_of_list_ascii (map hex_char l).

Lemma undigits_ok l :
  l ≠ [] → Forall (λ d, (d < 16)%N) l → (length l ≤ 4)%nat →
  parse_hextet (undigits l) = Some (from_digits 16 l) ∧ part_ok (undigits l).
Proof.
  intros Hne Hl Hlen. unfold parse_hextet.
  assert (str_all is_hex_digit (undigits l) = true) as ->.
  { clear - Hl. induction Hl as [|d l Hd _ IH]; [done|]. cbn. by destruct (hex_char_facts d Hd) as (_ & -> & _). }
  assert (String.length (undigits l) = length l) as ->.
  { clear. induction l as [|d l IH]; [done|]. cbn. by f_equal. }
  assert (nonempty (undigits l) = true) as Hn by (by destruct l).
  rewrite Hn. replace (4 <? length l)%nat with false by (symmetry; apply Nat.ltb_ge; lia). cbn [negb].
  split; [f_equal|split; [done|]].
  - unfold hex_value, from_digits, undigits. rewrite list_ascii_of_string_of_list_ascii.
    clear - Hl. generalize 0%N. induction Hl as [|d l Hd _ IH]; intros a; [done|]. cbn.
    destruct (hex_char_facts d Hd) as (-> & _). apply IH.
  - intros c Hc. clear - Hl Hc. unfold has_char. induction Hl as [|d l Hd _ IH]; [done|]. cbn.
    destruct (hex_char_facts d Hd) as (_ & _ & Hp & _). by rewrite Hp.
Qed.

Lemma hex4_undigits n :
  (n < 65536)%N → ∃ l, hex4 n = undigits l ∧ l ≠ [] ∧ Forall (λ d, (d < 16)%N) l ∧ (length l ≤ 4)%nat
    ∧ from_digits 16 l = n.
Proof.
  intros H. pose proof (hex_digits n H) as Hd. cbv beta zeta in Hd. change (4 * 0)%N with 0%N in Hd.
  rewrite N.shiftr_0_r in Hd. unfold hex4. change (4 * 3)%N with 12%N in Hd.
  change (4 * 2)%N with 8%N in Hd. change (4 * 1)%N with 4%N in Hd.
  set (d3 := N.land (N.shiftr n 12) 15) in *. set (d2 := N.land (N.shiftr n 8) 15) in *.
  set (d1 := N.land (N.shiftr n 4) 15) in *. set (d0 := N.land n 15) in *.
  clearbody d3 d2 d1 d0. destruct Hd as (E & B3 & B2 & B1 & B0).
  destruct (N.ltb_spec 0 d3); [exists [d3; d2; d1; d0]|
    destruct (N.ltb_spec 0 d2); [exists [d2; d1; d0]|
      destruct (N.ltb_spec 0 d1); [exists [d1; d0]|exists [d0]]]].
  all: repeat split; try done; try (repeat constructor; done); try (cbn; lia); try (unfold from_digits; cbn [fold_left]; lia).
Qed.

Lemma hextet_facts n :
  (n < 65536)%N → parse_hextet (hex4 n) = Some n ∧ part_ok (hex4 n) ∧ (hex4 n = "0" → n = 0%N).
Proof.
  intros H. destruct (hex4_undigits n H) as (l & E & Hne & Hl & Hlen & Hv).
  destruct (undigits_ok l Hne Hl Hlen) as [Hp Hk]. rewrite <- E in *. rewrite Hv in Hp.
  split; [done|]. split; [done|]. intros E0. rewrite E0 in Hp. vm_compute in Hp. congruence.
Qed.

(** ** Splitting what was joined *)

Lemma split_char_app c a b :
  has_char c a = false → split_char c (a +:+ String c b) = a :: split_char c b.
Proof.
  unfold split_char, has_char. induction a as [|d a IH]; cbn; [by rewrite Ascii.eqb_refl|].
  intros [-> Ha]%orb_false_iff. by rewrite (IH Ha).
Qed.

Lemma split_char_plain c a : has_char c a = false → split_char c a = [a].
Proof.
  unfold split_char, has_char. induction a as [|d a IH]; cbn; [done|].
  intros [-> Ha]%orb_false_iff. by rewrite (IH Ha).
Qed.

Lemma split_char_join c l :
  l ≠ [] → Forall (λ s, has_char c s = false) l → split_char c (join (String c "") l) = l.
Proof.
  intros Hne Hl. induction Hl as [|a l Ha Hl IH]; [done|]. destruct l as [|b l].
  - by apply split_char_plain.
  - change (join (String c "") (a :: b :: l)) with (a +:+ String c (join (String c "") (b :: l))).
    rewrite split_char_app by done. by rewrite IH.
Qed.

Lemma has_char_join c sep l :
  has_char c sep = false → Forall (λ s, has_char c s = false) l → has_char c (join sep l) = false.
Proof.
  intros Hs Hl. induction Hl as [|a l Ha Hl IH]; [done|]. destruct l as [|b l]; [done|].
  change (join sep (a :: b :: l)) with (a +:+ sep +:+ join sep (b :: l)).
  by rewrite !has_char_app, Ha, Hs, IH.
Qed.

(** ** IPv4 *)

Lemma octets_value n : (n < 2 ^ 32)%N → from_digits 256 (octets n) = n ∧ Forall (λ d, (d < 256)%N) (octets n).
Proof.
  intros H. unfold octets, from_digits. change 255%N with (N.ones 8).
  rewrite !N.land_ones, !N.shiftr_div_pow2. cbn [fold_left].
  change (2 ^ 8)%N with 256%N. change (2 ^ 16)%N with 65536%N. change (2 ^ 24)%N with 16777216%N.
  change (2 ^ 32)%N with 4294967296%N in H. split; [zify; Z.to_euclidean_division_equations; lia|].
  repeat constructor; by apply N.mod_lt.
Qed.

Lemma opt_all_map {A B C} (f : B → option C) (g : A → B) (h : A → C) l :
  Forall (λ x, f (g x) = Some (h x)) l → opt_all f (map g l) = Some (map h l).
Proof. intros H. induction H as [|x l Hx _ IH]; [done|]. cbn in *. by rewrite Hx, IH. Qed.

Lemma parse_str_v4 n : (n < 2 ^ 32)%N → parse_v4 (str_v4 n) = Some n.
Proof.
  intros H. destruct (octets_value n H) as [Hv Hd]. unfold parse_v4, str_v4.
  rewrite split_char_join; [|done|].
  - assert (length (map pretty (octets n)) = 4%nat) as -> by done. cbn [Nat.eqb negb].
    rewrite (opt_all_map parse_octet pretty id).
    + rewrite list_fmap_id. change (Some (from_digits 256 (octets n)) = Some n). by rewrite Hv.
    + eapply Forall_impl; [exact Hd|]. intros d Hd'. by apply octet_roundtrip.
  - apply Forall_fmap. eapply Forall_impl; [exact Hd|]. intros d Hd'. by apply octet_roundtrip.
Qed.

(** ** IPv6 *)

Lemma hextets_value n : (n < 2 ^ 128)%N → from_digits 65536 (hextets n) = n ∧ Forall (λ d, (d < 65536)%N) (hextets n).
Proof.
  intros H. unfold hextets. cbn [map]. change 0xFFFF%N with (N.ones 16). rewrite !N.land_ones.
  change (2 ^ 16)%N with 65536%N. split; [|repeat constructor; by apply N.mod_lt].
  unfold from_digits. cbn [fold_left].
  assert (∀ a b, b = a + 16 → N.shiftr n a = 65536 * N.shiftr n b + N.shiftr n a mod 65536)%N as Hs.
  { intros a b ->. rewrite !N.shiftr_div_pow2, N.pow_add_r, <- N.Div0.div_div. by apply N.div_mod. }
  assert (N.shiftr n 128 = 0%N) as Hz by (rewrite N.shiftr_div_pow2; by apply N.div_small).
  pose proof (Hs 0 16 eq_refl)%N. pose proof (Hs 16 32 eq_refl)%N. pose proof (Hs 32 48 eq_refl)%N.
  pose proof (Hs 48 64 eq_refl)%N. pose proof (Hs 64 80 eq_refl)%N. pose proof (Hs 80 96 eq_refl)%N.
  pose proof (Hs 96 112 eq_refl)%N. pose proof (Hs 112 128 eq_refl)%N. clear Hs H.
  rewrite Hz in *. change (16 * 7)%N with 112%N. change (16 * 6)%N with 96%N. change (16 * 5)%N with 80%N.
  change (16 * 4)%N with 64%N. change (16 * 3)%N with 48%N. change (16 * 2)%N with 32%N.
  change (16 * 1)%N with 16%N. change (16 * 0)%N with 0%N. rewrite N.shiftr_0_r in *. lia.
Qed.

Definition run_at (l : list string) (s n : nat) : Prop := ∀ j, (s ≤ j < s + n)%nat → l !! j = Some "0".

Lemma zero_runs_spec l P start len bs bl :
  ((0 < len)%nat → (start + len)%nat = length P) → run_at (P ++ l) start len → run_at (P ++ l) bs bl →
  let '(s, n) := zero_runs l (length P) start len bs bl in run_at (P ++ l) s n.
Proof.
  revert P start len bs bl. induction l as [|h l IH]; intros P start len bs bl Hs Hr Hb; cbn [zero_runs]; [done|].
  assert (length P + 1 = length (P ++ [h]))%nat as E by (by rewrite length_app).
  rewrite Nat.add_1_r in E. destruct (String.eqb_spec h "0") as [->|].
  - set (start' := if Nat.eqb len 0 then length P else start).
    assert (start' + S len = S (length P))%nat as Es.
    { unfold start'. destruct (Nat.eqb_spec len 0) as [->|]; lia. }
    assert (run_at (P ++ "0" :: l) start' (S len)) as Hr'.
    { intros j Hj. destruct (decide (j = length P)) as [->|Hne].
      - by rewrite lookup_app_r, Nat.sub_diag.
      - apply Hr. unfold start' in *. destruct (Nat.eqb_spec len 0); lia. }
    specialize (IH (P ++ ["0"])). rewrite <- E, <- app_assoc in IH. cbn [app] in IH.
    destruct (Nat.ltb bl (S len)); apply IH; try done; lia.
  - specialize (IH (P ++ [h])). rewrite <- E, <- app_assoc in IH. cbn [app] in IH. apply IH; [lia| |done].
    intros j Hj. lia.
Qed.

Lemma compress_cases l s n :
  zero_runs l 0 0 0 0 0 = (s, n) → (s + n ≤ length l)%nat ∨ n = 0%nat.
Proof.
  intros E. destruct n as [|n]; [by right|]. left.
  pose proof (zero_runs_spec l [] 0 0 0 0) as H. cbn [app length] in H. rewrite E in H.
  assert (l !! (s + n)%nat = Some "0") as Hl.
  { apply H; try lia; intros j Hj; lia. }
  apply lookup_lt_Some in Hl. lia.
Qed.

(** A part as the parser sees it: the value it stands for. *)
Definition part (p : string) (h : N) : Prop :=
  parse_hextet p = Some h ∧ nonempty p = true ∧ has_char "." p = false ∧ (p = "0" → h = 0%N).

Lemma hextet_part d : (d < 65536)%N → part (hex4 d) d.
Proof. intros H. destruct (hextet_facts d H) as (? & [? Hp] & ?). repeat split; try done. by apply Hp. Qed.

Ltac solve_parts :=
  unfold parse_parts, expand_v4_tail, layout, skip_indexes, keep, nonempty in *;
  cbn in *;
  repeat (match goal with H : negb (String.eqb ?p "") = true |- context [String.eqb ?p ""] =>
            let E := fresh in pose proof H as E; apply negb_true_iff in E; rewrite E
          | H : has_char "." ?p = false |- context [has_char "." ?p] => rewrite H
          | H : parse_hextet ?p = Some _ |- context [parse_hextet ?p] => rewrite H end; cbn);
  reflexivity.

Ltac zero_at H i Z :=
  let K := fresh in pose proof (H i ltac:(lia)) as K; cbn in K; injection K as K; specialize (Z K); subst.

Lemma parse_compressed p0 p1 p2 p3 p4 p5 p6 p7 h0 h1 h2 h3 h4 h5 h6 h7 :
  part p0 h0 → part p1 h1 → part p2 h2 → part p3 h3 → part p4 h4 → part p5 h5 → part p6 h6 → part p7 h7 →
  parse_parts (compress_hextets [p0; p1; p2; p3; p4; p5; p6; p7])
  = Some (from_digits 65536 [h0; h1; h2; h3; h4; h5; h6; h7]).
Proof.
  intros (P0 & N0 & D0 & Z0) (P1 & N1 & D1 & Z1) (P2 & N2 & D2 & Z2) (P3 & N3 & D3 & Z3)
         (P4 & N4 & D4 & Z4) (P5 & N5 & D5 & Z5) (P6 & N6 & D6 & Z6) (P7 & N7 & D7 & Z7).
  unfold compress_hextets. set (l := [p0; p1; p2; p3; p4; p5; p6; p7]).
  destruct (zero_runs l 0 0 0 0 0) as [s n] eqn:E. pose proof (compress_cases _ _ _ E) as Hc.
  pose proof (zero_runs_spec l [] 0 0 0 0) as Hz. cbn [app length] in Hz. rewrite E in Hz.
  specialize (Hz ltac:(lia) ltac:(intros j Hj; lia) ltac:(intros j Hj; lia)).
  clear E. cbn [length l] in Hc. destruct (Nat.ltb_spec 1 n) as [Hn|Hn]; [|unfold l; solve_parts].
  destruct Hc as [Hc|]; [|lia].
  assert (∀ j, (s ≤ j < s + n)%nat → l !! j = Some "0") as Hz' by done. clear Hz. unfold l in *.
  destruct s as [|[|[|[|[|[|[|s]]]]]]]; [..|lia];
    destruct n as [|[|[|[|[|[|[|[|[|n]]]]]]]]]; try lia.
  all: try (zero_at Hz' 0%nat Z0); try (zero_at Hz' 1%nat Z1); try (zero_at Hz' 2%nat Z2); try (zero_at Hz' 3%nat Z3);
       try (zero_at Hz' 4%nat Z4); try (zero_at Hz' 5%nat Z5); try (zero_at Hz' 6%nat Z6); try (zero_at Hz' 7%nat Z7).
  all: clear Hz' Hn Hc; solve_parts.
Qed.

Lemma elem_of_compress l x : x ∈ compress_hextets l → x ∈ l ∨ x = "".
Proof.
  unfold compress_hextets. destruct (zero_runs l 0 0 0 0 0) as [s n]. destruct (Nat.ltb 1 n); [|by left].
  assert (∀ k : list string, (∀ y, y ∈ k → y ∈ l ∨ y = "") →
            x ∈ take s k ++ [""] ++ drop (s + n) k → x ∈ l ∨ x = "") as H.
  { intros k Hk [Hx|[Hx|Hx]%elem_of_app]%elem_of_app.
    - apply Hk. rewrite <- (take_drop s k). apply elem_of_app. by left.
    - apply list_elem_of_singleton in Hx. by right.
    - apply Hk. rewrite <- (take_drop (s + n) k). apply elem_of_app. by right. }
  set (k := if Nat.eqb (s + n) (length l) then l ++ [""] else l).
  assert (∀ y, y ∈ k → y ∈ l ∨ y = "") as Hk by (unfold k; break; set_solver).
  destruct (Nat.eqb s 0); [intros [->|Hx]%elem_of_cons; [by right|]|intros Hx]; by apply (H k).
Qed.

Lemma partition_at_None c s : has_char c s = false → partition_at c s = None.
Proof.
  unfold has_char. induction s as [|d s IH]; cbn; [done|]. intros [-> H]%orb_false_iff. by rewrite (IH H).
Qed.

Lemma compress_nonempty l : l ≠ [] → compress_hextets l ≠ [].
Proof.
  intros H. unfold compress_hextets. destruct (zero_runs l 0 0 0 0 0) as [s n].
  destruct (Nat.ltb 1 n); [|done]. destruct (Nat.eqb s 0); [done|]. by intros [_ [=]]%app_nil.
Qed.

Lemma str_v6_plain n c :
  (n < 2 ^ 128)%N → has_char c ":./%" = true →
  Forall (λ s, has_char c s = false) (compress_hextets (map hex4 (hextets n))).
Proof.
  intros H Hc. apply Forall_forall. intros s [Hs| ->]%elem_of_compress; [|done].
  apply list_elem_of_fmap in Hs as (d & -> & Hd). destruct (hextets_value n H) as [_ Hb].
  rewrite Forall_forall in Hb. destruct (hextet_facts d (Hb d Hd)) as (_ & [_ Hp] & _). by apply Hp.
Qed.

Lemma parse_str_v6 n : (n < 2 ^ 128)%N → parse_v6_int (str_v6 n) = Some n.
Proof.
  intros H. unfold parse_v6_int, str_v6. rewrite split_char_join.
  - destruct (hextets_value n H) as [Hv Hb]. rewrite <- Hv at 2. unfold hextets in *. cbn [map] in *.
    repeat match goal with H : Forall _ (_ :: _) |- _ => apply Forall_cons_1 in H as [? H] end.
    apply parse_compressed; by apply hextet_part.
  - apply compress_nonempty. done.
  - by apply str_v6_plain.
Qed.

(** An address without a scope, in range. *)
Definition address_ok (a : Address) : Prop :=
  match a with IPv4 n => (n < 2 ^ 32)%N | IPv6 n s => (n < 2 ^ 128)%N ∧ s = None end.

(** Printing an address and parsing it again gives the address back, for every IPv4
    address and every IPv6 address without a zone, the compressed ["::"] form included. *)
Theorem ip_address_roundtrip a : address_ok a → ip_address (str_address a) = Some a.
Proof.
  destruct a as [n|n sc]; cbn [address_ok str_address].
  - intros H. unfold ip_address. rewrite parse_str_v4 by done.
    assert (has_char "/" (str_v4 n) = false) as ->; [|done]. apply has_char_join; [done|].
    destruct (octets_value n H) as [_ Hb]. apply Forall_fmap. eapply Forall_impl; [exact Hb|].
    intros d Hd. by apply octet_roundtrip.
  - intros [H ->]. assert (∀ c, c ≠ ":"%char → has_char c ":./%" = true → has_char c (str_v6 n) = false) as Hp.
    { intros c Hne Hc. apply has_char_join; [|by apply str_v6_plain].
      unfold has_char. cbn. rewrite orb_false_r. by apply Ascii.eqb_neq. }
    unfold ip_address, parse_v6. rewrite (Hp "/"%char) by done. unfold parse_v4.
    rewrite (split_char_plain "." (str_v6 n)) by (by apply Hp). cbn [length Nat.eqb negb].
    rewrite (partition_at_None "%" (str_v6 n)) by (by apply Hp). by rewrite parse_str_v6.
Qed.

Lemma ip_address_roundtrip_witness :
  ip_address "64:ff9b::a00:1" = Some (IPv6 (v6 [0x64; 0xff9b; 0; 0; 0; 0; 0x0a00; 1]%N) None).
Proof.
  apply (ip_address_roundtrip (IPv6 (v6 [0x64; 0xff9b; 0; 0; 0; 0; 0x0a00; 1]%N) None)).
  split; [vm_compute; reflexivity|reflexivity].
Defined.
