(* ===== verification/NetGuard.v ===== *)
(** * Which addresses may be connected to ([src/app/netguard.py])

    The worker and the API share a private network with the database, so a host is accepted
    only when every address it resolves to is public.  The resolver is an argument. *)

From Stdlib Require Import NArith ZArith Ascii String Lia.
From stdpp Require Import base strings option sets list.
From S2P Require Import Prelude PyStr IpAddress.

(** The IPv6 forms that embed an IPv4 address. *)
Definition EMBEDDED_V4 : list (N * N) := [
  (v6 [0x64; 0xff9b], 96); (v6 [0x64; 0xff9b; 1], 48); (0, 96); (v6 [0x2002], 16)]%N.

Definition is_public (a : Address) : bool :=
  match a with
  | IPv6 n scope =>
      match ipv4_mapped n with
      | Some m => is_global (IPv4 m) && negb (is_multicast (IPv4 m))
      | None => if any (in_net 128 n) EMBEDDED_V4 then false
                else is_global a && negb (is_multicast a)
      end
  | IPv4 _ => is_global a && negb (is_multicast a)
  end.

(** How the resolver ends: the address strings, or the exception it raises.  A name with an
    empty or over-long label cannot be encoded, which is a UnicodeError. *)
Inductive AddrInfo := Infos (l : list string) | InfoOSError | InfoUnicodeError.

Inductive Lookup := Addresses (l : list Address) | PrivateAddr | LookupOSError | LookupValueError.

Definition resolve_public (getaddrinfo : string → Z → AddrInfo) (host : string) (port : Z) : Lookup :=
  let checked addrs :=
    match addrs with
    | [] => LookupOSError
    | _ => if all is_public addrs then Addresses addrs else PrivateAddr
    end in
  match ip_address (strip_chars "[]" host) with
  | Some a => checked [a]
  | None =>
      match getaddrinfo host port with
      | InfoOSError => LookupOSError
      | InfoUnicodeError => LookupValueError
      | Infos l =>
          match opt_all ip_address l with
          | None => LookupValueError
          | Some addrs => checked addrs
          end
      end
  end.

(** ** What is accepted *)

Lemma resolve_public_Addresses gai host port l :
  resolve_public gai host port = Addresses l → l ≠ [] ∧ Forall (λ a, is_public a = true) l.
Proof.
  assert (∀ addrs, match addrs with [] => LookupOSError
    | _ => if all is_public addrs then Addresses addrs else PrivateAddr end = Addresses l →
    l ≠ [] ∧ Forall (λ a, is_public a = true) l) as H.
  { intros [|a addrs]; [done|]. destruct (all is_public (a :: addrs)) eqn:E; [|done]. intros [= <-].
    split; [done|]. apply Forall_forall. intros x Hx. unfold all in E. rewrite forallb_forall in E.
    apply E. by apply list_elem_of_In. }
  unfold resolve_public. destruct (ip_address _); [apply (H [_])|].
  destruct (gai host port); try done. destruct (opt_all ip_address _); [apply H|done].
Qed.

(** ** The reference: ranges that are never contacted *)

Definition within (n : N) (r : N * N) : bool := N.leb r.1 n && N.leb n r.2.

Definition V4_NEVER : list (N * N) := [
  (v4 0 0 0 0, v4 0 255 255 255);              (* this network *)
  (v4 10 0 0 0, v4 10 255 255 255);            (* private *)
  (v4 100 64 0 0, v4 100 127 255 255);         (* carrier NAT *)
  (v4 127 0 0 0, v4 127 255 255 255);          (* loopback *)
  (v4 169 254 0 0, v4 169 254 255 255);        (* link-local, cloud metadata *)
  (v4 172 16 0 0, v4 172 31 255 255);          (* private *)
  (v4 192 0 0 0, v4 192 0 0 8); (v4 192 0 0 11, v4 192 0 0 255);
  (v4 192 0 2 0, v4 192 0 2 255);              (* documentation *)
  (v4 192 168 0 0, v4 192 168 255 255);        (* private *)
  (v4 198 18 0 0, v4 198 19 255 255);          (* benchmarking *)
  (v4 198 51 100 0, v4 198 51 100 255); (v4 203 0 113 0, v4 203 0 113 255);
  (v4 224 0 0 0, v4 255 255 255 255)]%N.       (* multicast, reserved, broadcast *)

(** The IPv6 space that is refused outright: loopback, IPv4-compatible, NAT64, discard,
    documentation, 6to4, unique local, link-local, multicast. *)
Definition V6_NEVER : list (N * N) := [
  (0, 0xFFFFFFFF);
  (v6 [0x64; 0xff9b], v6 [0x64; 0xff9b] + 0xFFFFFFFF);
  (v6 [0x64; 0xff9b; 1], v6 [0x64; 0xff9b; 2] - 1);
  (v6 [0x100], v6 [0x100; 0; 0; 1] - 1);
  (v6 [0x2001; 0xdb8], v6 [0x2001; 0xdb9] - 1);
  (v6 [0x2002], v6 [0x2003] - 1);
  (v6 [0x3fff], v6 [0x3fff; 0x1000] - 1);
  (v6 [0xfc00], v6 [0xfe00] - 1);
  (v6 [0xfe80], v6 [0xfec0] - 1);
  (v6 [0xff00], 0xFFFFFFFFFFFFFFFFFFFFFFFFFFFFFFFF)]%N.

(** The part of 2001::/23 that is not assigned for global use. *)
Definition V6_TEREDO_BLOCK : N * N := (v6 [0x2001], v6 [0x2001; 0x200] - 1)%N.

Lemma in_net_within bits b len n :
  (len ≤ bits)%N → (b mod 2 ^ (bits - len) = 0)%N →
  in_net bits n (b, len) = within n (b, b + (2 ^ (bits - len) - 1))%N.
Proof.
  intros Hl Hm. unfold in_net, within. cbn [fst snd]. rewrite !N.shiftr_div_pow2.
  set (k := (2 ^ (bits - len))%N) in *. assert (k ≠ 0)%N as Hk by (by apply N.pow_nonzero).
  pose proof (N.div_mod n k Hk) as En. pose proof (N.mod_lt n k Hk) as Bn.
  pose proof (N.div_mod b k Hk) as Eb. rewrite Hm in Eb.
  set (q := (n / k)%N) in *. set (p := (b / k)%N) in *. set (r := (n mod k)%N) in *.
  clearbody k q p r. subst n b.
  destruct (N.eqb_spec q p) as [->|Hne].
  - symmetry. apply andb_true_iff. rewrite !N.leb_le. nia.
  - symmetry. apply andb_false_iff. rewrite !N.leb_gt. nia.
Qed.

(** ** Deciding equality of range tests

    A boolean combination of tests [c <= n] is constant between the constants it mentions,
    so two such combinations agree everywhere when they agree on those constants and 0. *)

Inductive test := Le (c : N) | Not (a : test) | And (a b : test) | Or (a b : test) | No.

Fixpoint holds (t : test) (n : N) : bool :=
  match t with
  | Le c => N.leb c n
  | Not a => negb (holds a n)
  | And a b => holds a n && holds b n
  | Or a b => holds a n || holds b n
  | No => false
  end.

Fixpoint constants (t : test) : list N :=
  match t with
  | Le c => [c]
  | Not a => constants a
  | And a b | Or a b => constants a ++ constants b
  | No => []
  end.

(** The greatest of the constants not above [n], or 0. *)
Definition floor_of (cs : list N) (n : N) : N :=
  foldr (λ c acc, if N.leb c n then N.max c acc else acc) 0%N cs.

Lemma floor_cons c cs n :
  floor_of (c :: cs) n = if N.leb c n then N.max c (floor_of cs n) else floor_of cs n.
Proof. done. Qed.

Lemma floor_le cs n : (floor_of cs n ≤ n)%N.
Proof.
  induction cs as [|c cs IH]; [apply N.le_0_l|]. rewrite floor_cons. destruct (N.leb_spec c n); lia.
Qed.

Lemma floor_in cs n : floor_of cs n ∈ 0%N :: cs.
Proof.
  induction cs as [|c cs IH]; [set_solver|]. rewrite floor_cons. destruct (N.leb_spec c n); [|set_solver].
  destruct (N.max_spec c (floor_of cs n)) as [[_ ->]|[_ ->]]; set_solver.
Qed.

Lemma floor_ge cs n c : c ∈ cs → (c ≤ n)%N → (c ≤ floor_of cs n)%N.
Proof.
  induction cs as [|d cs IH]; [set_solver|]. intros [->|Hc]%elem_of_cons Hn; rewrite floor_cons.
  - destruct (N.leb_spec d n); lia.
  - specialize (IH Hc Hn). destruct (N.leb_spec d n); lia.
Qed.

Lemma holds_floor t cs n : (∀ c, c ∈ constants t → c ∈ cs) → holds t (floor_of cs n) = holds t n.
Proof.
  induction t as [c|a IH|a IHa b IHb|a IHa b IHb|]; cbn; intros Hc; try done.
  - pose proof (floor_le cs n). destruct (N.leb_spec c n).
    + apply N.leb_le, floor_ge; [|done]. apply Hc. set_solver.
    + apply N.leb_gt. lia.
  - by rewrite IH.
  - rewrite IHa, IHb; [done|..]; intros c Hx; apply Hc, elem_of_app; auto.
  - rewrite IHa, IHb; [done|..]; intros c Hx; apply Hc, elem_of_app; auto.
Qed.

Definition same_test (a b : test) : bool :=
  forallb (λ c, Bool.eqb (holds a c) (holds b c)) (0%N :: constants a ++ constants b).

Lemma same_test_sound a b : same_test a b = true → ∀ n, holds a n = holds b n.
Proof.
  intros H n. unfold same_test in H. rewrite forallb_forall in H. set (cs := constants a ++ constants b) in *.
  rewrite <- (holds_floor a cs n), <- (holds_floor b cs n) by (intros c Hc; apply elem_of_app; auto).
  apply eqb_prop, H. apply list_elem_of_In, floor_in.
Qed.

Definition range_test (r : N * N) : test := And (Le r.1) (Not (Le (N.succ r.2))).
Definition ranges_test (l : list (N * N)) : test := foldr (λ r t, Or (range_test r) t) No l.

Lemma range_test_within r n : holds (range_test r) n = within n r.
Proof.
  destruct r as [lo hi]. unfold within, range_test. cbn [holds fst snd]. f_equal.
  destruct (N.leb_spec (N.succ hi) n), (N.leb_spec n hi); try done; exfalso; lia.
Qed.

Lemma ranges_test_any l n : holds (ranges_test l) n = any (within n) l.
Proof. induction l as [|r l IH]; [done|]. cbn [ranges_test foldr holds]. rewrite range_test_within. cbn. by f_equal. Qed.

(** A network as a range. *)
Definition net_range (bits : N) (net : N * N) : N * N := (net.1, net.1 + (2 ^ (bits - net.2) - 1))%N.

Definition net_ok (bits : N) (net : N * N) : bool :=
  N.leb net.2 bits && N.eqb (net.1 mod 2 ^ (bits - net.2)) 0.

Lemma nets_any bits n l :
  forallb (net_ok bits) l = true → any (in_net bits n) l = holds (ranges_test (map (net_range bits) l)) n.
Proof.
  rewrite ranges_test_any. induction l as [|[b len] l IH]; [done|]. cbn [forallb].
  intros [[H1%N.leb_le H2%N.eqb_eq]%andb_true_iff H]%andb_true_iff. cbn [any existsb map].
  rewrite in_net_within by done. unfold any in IH. by rewrite IH.
Qed.

Lemma net_any bits n net : net_ok bits net = true →
  in_net bits n net = holds (Or (range_test (net_range bits net)) No) n.
Proof. intros H. rewrite <- (orb_false_r (in_net bits n net)). apply (nets_any bits n [net]). cbn. by rewrite H. Qed.

Lemma is_public_v4 n : is_public (IPv4 n) = negb (any (within n) V4_NEVER).
Proof.
  unfold is_public, is_global, is_multicast, is_global_v4, is_private_v4, is_multicast_v4.
  rewrite !net_any, !nets_any by (vm_compute; reflexivity). rewrite <- ranges_test_any.
  set (a := Or _ _). set (b := ranges_test (map _ V4_PRIVATE)). set (c := ranges_test (map _ V4_EXCEPTIONS)).
  set (d := Or _ _). set (e := ranges_test V4_NEVER).
  change (holds (And (And (Not a) (Not (And b (Not c)))) (Not d)) n = holds (Not e) n).
  apply same_test_sound. vm_compute. reflexivity.
Qed.

Lemma is_public_v6 n scope :
  ipv4_mapped n = None →
  is_public (IPv6 n scope)
  = negb (any (within n) V6_NEVER) && negb (within n V6_TEREDO_BLOCK && negb (any (in_net 128 n) V6_EXCEPTIONS)).
Proof.
  intros Hm. unfold is_public, is_global, is_multicast, is_private_v6. rewrite Hm.
  assert (within n (N.shiftl 0xFFFF 32, N.shiftl 0xFFFF 32 + 0xFFFFFFFF)%N = false) as Hw.
  { unfold ipv4_mapped in Hm. destruct (N.eqb_spec (N.shiftr n 32) 0xFFFF) as [|Hne]; [done|].
    apply not_true_iff_false. intros [H1%N.leb_le H2%N.leb_le]%andb_true_iff. cbn [fst snd] in *.
    apply Hne. rewrite N.shiftr_div_pow2. symmetry. apply (N.div_unique _ _ _ (n - N.shiftl 0xFFFF 32));
      change (2 ^ 32)%N with 4294967296%N; change (N.shiftl 65535 32) with 281470681743360%N in *; lia. }
  rewrite !net_any, !nets_any by (vm_compute; reflexivity). rewrite <- ranges_test_any, <- range_test_within.
  rewrite <- range_test_within in Hw. set (m := range_test (N.shiftl 0xFFFF 32, _)) in Hw.
  set (a := ranges_test (map _ EMBEDDED_V4)). set (b := ranges_test (map _ V6_PRIVATE)).
  set (c := ranges_test (map _ V6_EXCEPTIONS)). set (d := Or _ _). set (e := ranges_test V6_NEVER).
  set (f := range_test V6_TEREDO_BLOCK).
  assert (∀ k, holds (Or m (And (Not a) (And (Not (And b (Not c))) (Not d)))) k
             = holds (Or m (And (Not e) (Not (And f (Not c))))) k) as H.
  { apply same_test_sound. vm_compute. reflexivity. }
  specialize (H n). cbn [holds] in H. rewrite Hw in H. cbn [orb] in H. rewrite <- H.
  by destruct (holds a n).
Qed.

(** The IPv4-mapped addresses. *)
Definition V6_MAPPED : N * N := (N.shiftl 0xFFFF 32, N.shiftl 0xFFFF 32 + 0xFFFFFFFF)%N.

(** The reference: by ranges alone. *)
Definition contactable (a : Address) : bool :=
  match a with
  | IPv4 n => negb (any (within n) V4_NEVER)
  | IPv6 n _ =>
      if within n V6_MAPPED then negb (any (within (n - V6_MAPPED.1)%N) V4_NEVER)
      else negb (any (within n) V6_NEVER)
           && negb (within n V6_TEREDO_BLOCK && negb (any (in_net 128 n) V6_EXCEPTIONS))
  end.

Lemma ipv4_mapped_within n :
  ipv4_mapped n = if within n V6_MAPPED then Some (n - V6_MAPPED.1)%N else None.
Proof.
  unfold ipv4_mapped, within. cbn [V6_MAPPED fst snd].
  change 0xFFFFFFFF%N with (N.ones 32) at 1. rewrite N.land_ones, N.shiftr_div_pow2.
  change (2 ^ 32)%N with 4294967296%N. change (N.shiftl 65535 32) with 281470681743360%N.
  pose proof (N.div_mod n 4294967296 ltac:(done)). pose proof (N.mod_lt n 4294967296 ltac:(done)).
  set (q := (n / 4294967296)%N) in *. set (r := (n mod 4294967296)%N) in *. clearbody q r.
  destruct (N.eqb_spec q 65535).
  - assert ((281470681743360 <=? n)%N && (n <=? 281470681743360 + 4294967295)%N = true) as ->.
    { apply andb_true_iff. rewrite !N.leb_le. lia. }
    f_equal. lia.
  - assert ((281470681743360 <=? n)%N && (n <=? 281470681743360 + 4294967295)%N = false) as ->; [|done].
    apply andb_false_iff. rewrite !N.leb_gt. lia.
Qed.

(** C16: the test of prefixes accepts exactly the addresses outside these ranges.  Of IPv4,
    none of this network, private, carrier, loopback, link-local, documentation and
    benchmarking space, of 192.0.0.0/24 (but .9 and .10), and of anything from 224.0.0.0 on
    (multicast and reserved).  Of IPv6, none of the first 2^32 addresses (loopback and
    IPv4-compatible), the two NAT64 blocks, discard, 2001::/23 (but its six globally
    assigned blocks), the documentation blocks 2001:db8::/32 and 3fff::/20, 6to4, unique
    local, link-local and multicast space; an IPv4-mapped address exactly when the IPv4
    address it stands for is accepted; and all the rest, so IPv6 space not assigned yet and
    the old site-local fec0::/10 are accepted. *)
Theorem is_public_reference a : is_public a = contactable a.
Proof.
  destruct a as [n|n sc]; [apply is_public_v4|]. unfold contactable.
  pose proof (ipv4_mapped_within n) as Hm. destruct (within n V6_MAPPED).
  - unfold is_public. rewrite Hm. apply (is_public_v4 (n - V6_MAPPED.1)).
  - by apply is_public_v6.
Qed.

(** The old site-local block and IPv6 space nobody has been given count as public. *)
Example unassigned_is_public :
  map (λ s, is_public <$> ip_address s) ["fec0::1"; "4000::1"; "fe80::1"; "3fff::1"; "fd00::1"; "::ffff:10.0.0.1"]
  = [Some true; Some true; Some false; Some false; Some false; Some false].
Proof. vm_compute. reflexivity. Qed.
