(* ===== verification/Webhook.v ===== *)
(** * Webhook delivery ([src/app/webhook.py])

    Validation of a webhook URL, one delivery with its retries, and the bounded pool of
    senders.  The resolver, the receiver's answers and the clock are arguments, read afresh on
    every attempt. *)

From Stdlib Require Import ZArith NArith QArith Ascii String Lia Lqa.
From stdpp Require Import base strings pretty option sets list relations.
From S2P Require Import Prelude PyStr Models Url Sha256 Json IpAddress NetGuard.

Definition BACKOFF_S : list Q := [2; 8; 30]%Q.

(** [parts.username or parts.password] as a truth value. *)
Definition has_credentials (u : SplitResult) : bool :=
  match rpartition_at "@" (u_netloc u) with
  | None => false
  | Some (userinfo, _) => let '(user, pass) := cut ":" userinfo in nonempty user || nonempty pass
  end.

(** The outcome of a validation; [UrlValueError] is a ValueError that is not a
    [WebhookRejected]. *)
Inductive Target :=
  | Pinned (host ip : string) (port : Z)
  | Rejected (why : string)
  | UrlValueError.

Definition default_port (scheme : string) : Z := if String.eqb scheme "https" then 443%Z else 80%Z.

Definition resolve_url (cfg : Settings) (getaddrinfo : string → Z → AddrInfo) (url : string) : Target :=
  match urlsplit url with
  | None => UrlValueError
  | Some parts =>
      if negb (mem (u_scheme parts) ["https"; "http"]) then Rejected "webhook_url must be an http(s) URL"
      else if String.eqb (u_scheme parts) "http" && negb (allow_http_webhooks cfg)
      then Rejected "webhook_url must use https"
      else if has_credentials parts then Rejected "webhook_url must not contain credentials"
      else
        let host := hostname parts in
        if negb (nonempty host) then Rejected "webhook_url has no host"
        else
          match port parts with
          | None => Rejected "webhook_url has an invalid port"
          | Some p =>
              let p := match p with
                       | Some n => if Z.eqb n 0 then default_port (u_scheme parts) else n
                       | None => default_port (u_scheme parts)
                       end in
              match resolve_public getaddrinfo host p with
              | PrivateAddr => Rejected "webhook_url must point at a public address"
              | LookupOSError => Rejected "webhook_url host does not resolve"
              | LookupValueError => UrlValueError
              | Addresses [] => UrlValueError     (* [addrs[0]]; the lookup never returns it *)
              | Addresses (a :: _) => Pinned host (str_address a) p
              end
          end
  end.

(** How [validate_webhook_url] ends. *)
Inductive Validation := UrlAccepted | UrlRejected | UrlCrashed.

Definition validate_webhook_url (cfg : Settings) (getaddrinfo : string → Z → AddrInfo) (url : option string)
    : Validation :=
  match url with
  | None => UrlAccepted
  | Some url =>
      match resolve_url cfg getaddrinfo url with
      | Pinned _ _ _ => UrlAccepted
      | Rejected _ => UrlRejected
      | UrlValueError => UrlCrashed
      end
  end.

Definition sign (body : list byte) (timestamp : Z) (secret : string) : string :=
  let mac := hmac_sha256 (utf8 secret) (utf8 (pretty timestamp +:+ ".") ++ body) in
  "t=" +:+ pretty timestamp +:+ ",v1=" +:+ hex mac.

(** ** One delivery *)

(** What the outside does during one attempt. *)
Inductive PostAnswer := Answered (status : Z) | HttpError | OtherException.

Record Attempt := mkAttempt {
  at_getaddrinfo : string → Z → AddrInfo;
  at_time : Z;
  at_answer : PostAnswer
}.

Record Post := mkPost {
  post_url : string;
  post_headers : list (string * string);
  post_body : list byte;
  post_sni : string
}.

Inductive Effect := Slept (s : Q) | Posted (p : Post).

Inductive DeliverEnd := Delivered | GaveUp | DeliverRaised.

(** The dict handed over: its event first, then the other fields, then the delivery id
    once [submit] has set it. *)
Record Payload := mkPayload {
  pl_event : string;
  pl_fields : list (string * json);
  pl_delivery_id : option string
}.

Definition payload_json (p : Payload) : json :=
  JObj (("event", JStr (pl_event p)) :: pl_fields p
        ++ match pl_delivery_id p with Some d => [("delivery_id", JStr d)] | None => [] end).

(** The payload's own id, or a new one. *)
Definition delivery_id_of (p : Payload) (fresh : string) : string :=
  match pl_delivery_id p with Some d => if nonempty d then d else fresh | None => fresh end.

Definition ip_host (ip : string) : string := if has_char ":" ip then "[" +:+ ip +:+ "]" else ip.

Definition pinned_url (parts : SplitResult) (ip : string) (port : Z) : string :=
  urlunsplit (mkSplit (u_scheme parts) (ip_host ip +:+ ":" +:+ pretty port)
                      (if nonempty (u_path parts) then u_path parts else "/") (u_query parts) "").

Definition delivery_headers (cfg : Settings) (parts : SplitResult) (delivery_id event : string) (ts : Z)
    (body : list byte) : list (string * string) :=
  [("Host", (rpartition "@" (u_netloc parts)).2); ("Content-Type", "application/json");
   ("User-Agent", "email-extractor-webhook/1"); ("X-Extractor-Delivery", delivery_id);
   ("X-Extractor-Event", event)]
  ++ (if nonempty (webhook_secret cfg)
      then [("X-Extractor-Signature", sign body ts (webhook_secret cfg))] else []).

(** The delays still to go with the attempts they start. *)
Fixpoint deliver_loop (cfg : Settings) (url : string) (body : list byte) (delivery_id event : string)
    (todo : list (Q * Attempt)) : DeliverEnd * list Effect :=
  match todo with
  | [] => (GaveUp, [])
  | (delay, a) :: rest =>
      let slept := if Qeq_bool delay 0 then [] else [Slept delay] in
      match resolve_url cfg (at_getaddrinfo a) url with
      | Rejected _ => (GaveUp, slept)
      | UrlValueError => (DeliverRaised, slept)
      | Pinned host ip port =>
          match urlsplit url with
          | None => (DeliverRaised, slept)
          | Some parts =>
              let post := mkPost (pinned_url parts ip port)
                                 (delivery_headers cfg parts delivery_id event (at_time a) body) body host in
              let go := let '(e, es) := deliver_loop cfg url body delivery_id event rest in
                        (e, slept ++ Posted post :: es) in
              match at_answer a with
              | Answered n => if Z.leb 200 n && Z.ltb n 300 then (Delivered, slept ++ [Posted post]) else go
              | HttpError => go
              | OtherException => (DeliverRaised, slept ++ [Posted post])
              end
          end
      end
  end.

(** [deliver] with the default backoff: one attempt at once, then one per step. *)
Definition deliver (cfg : Settings) (url : string) (p : Payload) (fresh : string) (env : nat → Attempt)
    : DeliverEnd * list Effect :=
  let body := utf8 (dumps_compact (payload_json p)) in
  deliver_loop cfg url body (delivery_id_of p fresh) (pl_event p)
    (zip (0%Q :: BACKOFF_S) (map env (seq 0 4))).

Definition posts (es : list Effect) : list Post :=
  omap (λ e, match e with Posted p => Some p | Slept _ => None end) es.

Definition slept_time (es : list Effect) : Q :=
  foldr (λ e acc, match e with Slept s => (s + acc)%Q | Posted _ => acc end) 0%Q es.

(** ** The pool of senders *)

Record Delivery := mkDelivery { dl_url : string; dl_payload : Payload }.

(** A sender task: in [queue.get()], in [deliver], cancelled, or ended by an exception. *)
Inductive Sender := Getting | Delivering (d : Delivery) | Cancelled | Dead.

(** Where [close] stands: not called; past [queue.join()], which the queue ended or the
    timeout did; the senders cancelled.  With the deliveries accepted when the join ended. *)
Inductive Closing := Running | Joined (drained : bool) (snap : list Delivery) | Closed (drained : bool) (snap : list Delivery).

Record Pool := mkPool {
  po_queue : list Delivery;              (* waiting, oldest first *)
  po_putters : list Delivery;            (* in [queue.put()], for room *)
  po_senders : list Sender;
  po_unfinished : nat;                   (* what [queue.join()] waits for *)
  po_closing : Closing;
  po_accepted : list Delivery;           (* every one ever queued *)
  po_done : list (Delivery * DeliverEnd);
  po_dropped : list Delivery             (* in the hands of a sender that was cancelled *)
}.

Definition SENDERS : nat := 10.
Definition MAX_PENDING : nat := 1000.

Definition start_pool : Pool := mkPool [] [] (replicate SENDERS Getting) 0 Running [] [] [].

(** [payload.setdefault("delivery_id", ...)] *)
Definition with_delivery_id (p : Payload) (fresh : string) : Payload :=
  match pl_delivery_id p with
  | Some _ => p
  | None => mkPayload (pl_event p) (pl_fields p) (Some fresh)
  end.

Definition full (s : Pool) : bool := Nat.leb MAX_PENDING (length (po_queue s)).

Definition put (putters : list Delivery) (d : Delivery) (s : Pool) : Pool :=
  mkPool (po_queue s ++ [d]) putters (po_senders s) (S (po_unfinished s)) (po_closing s)
         (po_accepted s ++ [d]) (po_done s) (po_dropped s).

(** [submit]: it waits while the queue is full. *)
Definition submit (url : string) (p : Payload) (fresh : string) (s : Pool) : Pool :=
  let d := mkDelivery url (with_delivery_id p fresh) in
  if full s
  then mkPool (po_queue s) (po_putters s ++ [d]) (po_senders s) (po_unfinished s) (po_closing s)
              (po_accepted s) (po_done s) (po_dropped s)
  else put (po_putters s) d s.

Definition get (i : nat) (d : Delivery) (rest : list Delivery) (s : Pool) : Pool :=
  mkPool rest (po_putters s) (<[i := Delivering d]> (po_senders s)) (po_unfinished s) (po_closing s)
         (po_accepted s) (po_done s) (po_dropped s).

(** The rest of [_run]'s loop body: [except Exception] logs what a delivery raised. *)
Definition after_delivery (e : DeliverEnd) : Sender :=
  match e with Delivered | GaveUp => Getting | DeliverRaised => Getting end.

(** [queue.task_done()]: a ValueError when it was called too often. *)
Definition task_done (unfinished : nat) : option nat := match unfinished with O => None | S n => Some n end.

Definition finish_delivery (i : nat) (d : Delivery) (e : DeliverEnd) (s : Pool) : Pool :=
  match task_done (po_unfinished s) with
  | Some n => mkPool (po_queue s) (po_putters s) (<[i := after_delivery e]> (po_senders s)) n (po_closing s)
                     (po_accepted s) (po_done s ++ [(d, e)]) (po_dropped s)
  | None => mkPool (po_queue s) (po_putters s) (<[i := Dead]> (po_senders s)) 0 (po_closing s)
                   (po_accepted s) (po_done s ++ [(d, e)]) (po_dropped s)
  end.

Definition in_hand (l : list Sender) : list Delivery :=
  omap (λ x, match x with Delivering d => Some d | _ => None end) l.

(** A cancelled sender's [finally] still counts the delivery it had. *)
Definition cancel_senders (drained : bool) (snap : list Delivery) (s : Pool) : Pool :=
  mkPool (po_queue s) (po_putters s) (map (λ x, match x with Dead => Dead | _ => Cancelled end) (po_senders s))
         (po_unfinished s - length (in_hand (po_senders s))) (Closed drained snap)
         (po_accepted s) (po_done s) (po_dropped s ++ in_hand (po_senders s)).

Definition set_closing (c : Closing) (s : Pool) : Pool :=
  mkPool (po_queue s) (po_putters s) (po_senders s) (po_unfinished s) c (po_accepted s) (po_done s) (po_dropped s).

(** What the pool does by itself; [envs d] is what the outside does to the delivery [d]. *)
Inductive SenderStep (cfg : Settings) (envs : Delivery → nat → Attempt) : Pool → Pool → Prop :=
  | pool_put s a d b :
      po_putters s = a ++ d :: b → full s = false → SenderStep cfg envs s (put (a ++ b) d s)
  | pool_get s i d rest :
      po_senders s !! i = Some Getting → po_queue s = d :: rest → SenderStep cfg envs s (get i d rest s)
  | pool_finish s i d fresh :
      po_senders s !! i = Some (Delivering d) →
      SenderStep cfg envs s (finish_delivery i d (deliver cfg (dl_url d) (dl_payload d) fresh (envs d)).1 s).

Inductive PoolStep (cfg : Settings) : Pool → Pool → Prop :=
  | pool_submit s url p fresh : PoolStep cfg s (submit url p fresh s)
  | pool_internal s envs s' : SenderStep cfg envs s s' → PoolStep cfg s s'
  | pool_joined s :
      po_closing s = Running → po_unfinished s = 0 → PoolStep cfg s (set_closing (Joined true (po_accepted s)) s)
  | pool_join_timeout s :
      po_closing s = Running → PoolStep cfg s (set_closing (Joined false (po_accepted s)) s)
  | pool_cancel s b snap :
      po_closing s = Joined b snap → PoolStep cfg s (cancel_senders b snap s).

(** * Properties of webhook delivery

    Where a delivery may connect, how often it is tried, and what the pool of senders keeps. *)

(** ** Where a delivery connects *)

(** The target was resolved for this attempt, and every address found was public. *)
Definition checked_target (cfg : Settings) (a : Attempt) (url host ip : string) (port : Z) : Prop :=
  ∃ parts addr rest,
    urlsplit url = Some parts ∧ host = hostname parts ∧
    (u_scheme parts = "https" ∨ u_scheme parts = "http" ∧ allow_http_webhooks cfg = true) ∧
    has_credentials parts = false ∧
    resolve_public (at_getaddrinfo a) host port = Addresses (addr :: rest) ∧
    Forall (λ x, is_public x = true) (addr :: rest) ∧ ip = str_address addr.

Lemma resolve_url_Pinned cfg a url host ip p :
  resolve_url cfg (at_getaddrinfo a) url = Pinned host ip p → checked_target cfg a url host ip p.
Proof.
  unfold resolve_url. destruct (urlsplit url) as [parts|] eqn:Es; [|done].
  destruct (mem (u_scheme parts) _) eqn:Em; [|done]. cbn [negb].
  destruct (String.eqb (u_scheme parts) "http" && negb (allow_http_webhooks cfg)) eqn:Eh; [done|].
  destruct (has_credentials parts) eqn:Ec; [done|]. destruct (negb (nonempty _)); [done|].
  destruct (port parts) as [q|]; [|done]. set (pt := match q with Some n => _ | None => _ end).
  destruct (resolve_public _ _ _) as [[|addr rest]| | |] eqn:Er; try done.
  intros [= <- <- <-]. exists parts, addr, rest. split; [done|]. split; [done|]. split.
  { apply mem_true in Em. apply andb_false_iff in Eh as [Eh|Eh]; bool_to_prop; [left|].
    - apply elem_of_cons in Em as [->|Em%list_elem_of_singleton]; done.
    - apply elem_of_cons in Em as [->|Em%list_elem_of_singleton]; [by left|by right]. }
  split; [done|]. split; [done|]. split; [|done]. by apply resolve_public_Addresses in Er as [_ ?].
Qed.

(** What an attempt posts. *)
Definition post_of (cfg : Settings) (a : Attempt) (url : string) (body : list byte) (id event : string) (p : Post)
    : Prop :=
  ∃ parts host ip port,
    urlsplit url = Some parts ∧ checked_target cfg a url host ip port ∧
    p = mkPost (pinned_url parts ip port) (delivery_headers cfg parts id event (at_time a) body) body host.

Lemma deliver_loop_posts cfg url body id event todo e es :
  deliver_loop cfg url body id event todo = (e, es) →
  ∀ p, p ∈ posts es → ∃ d a, (d, a) ∈ todo ∧ post_of cfg a url body id event p.
Proof.
  revert e es. induction todo as [|[d a] rest IH]; intros e es; cbn [deliver_loop].
  { intros [= <- <-] p Hp. set_solver. }
  set (sl := if Qeq_bool d 0 then [] else [Slept d]).
  assert (∀ es', posts (sl ++ es') = posts es') as Hsl.
  { intros es'. unfold sl, posts. by destruct (Qeq_bool d 0). }
  assert (posts sl = []) as Hs0 by (unfold sl; by destruct (Qeq_bool d 0)).
  destruct (resolve_url cfg (at_getaddrinfo a) url) as [host ip pt|why|] eqn:Er.
  2:{ intros [= <- <-] p Hp. rewrite Hs0 in Hp. set_solver. }
  2:{ intros [= <- <-] p Hp. rewrite Hs0 in Hp. set_solver. }
  destruct (urlsplit url) as [parts|] eqn:Es; [|intros [= <- <-] p Hp; rewrite Hs0 in Hp; set_solver].
  set (post := mkPost _ _ _ _).
  assert (post_of cfg a url body id event post) as Hpost.
  { exists parts, host, ip, pt. split; [done|]. split; [by apply resolve_url_Pinned|done]. }
  assert (∀ p, p ∈ posts (sl ++ [Posted post]) → ∃ d' a', (d', a') ∈ (d, a) :: rest ∧ post_of cfg a' url body id event p) as H1.
  { intros p Hp. rewrite Hsl in Hp. apply list_elem_of_singleton in Hp as ->. exists d, a. split; [set_solver|done]. }
  destruct (deliver_loop cfg url body id event rest) as [e1 es1] eqn:E1.
  assert (∀ p, p ∈ posts (sl ++ Posted post :: es1) → ∃ d' a', (d', a') ∈ (d, a) :: rest ∧ post_of cfg a' url body id event p) as H2.
  { intros p Hp. rewrite Hsl in Hp. apply elem_of_cons in Hp as [->|Hp]; [exists d, a; split; [set_solver|done]|].
    destruct (IH e1 es1 eq_refl p Hp) as (d' & a' & Hin & Hx). exists d', a'. split; [set_solver|done]. }
  destruct (at_answer a) as [n| |]; [destruct (Z.leb 200 n && Z.ltb n 300)| |]; intros [= <- <-]; done.
Qed.

Lemma attempts_of (env : nat → Attempt) (d : Q) (a : Attempt) :
  (d, a) ∈ zip (0%Q :: BACKOFF_S) (map env (seq 0 4)) → ∃ i, (i < 4)%nat ∧ a = env i.
Proof.
  cbn. intros H. repeat (apply elem_of_cons in H as [H|H]; [injection H as _ ->; eexists; split; [|reflexivity]; lia|]).
  set_solver.
Qed.

(** C18: a delivery connects only to addresses it has just checked.  Every POST goes to the
    first address of a lookup made for that same attempt, of which every address was public;
    the URL has no credentials, uses https unless plain http is allowed, and the original
    host is the one presented to the receiver. *)
Theorem deliver_only_checked cfg url pl fresh env e es p :
  deliver cfg url pl fresh env = (e, es) → p ∈ posts es →
  ∃ i, (i < 4)%nat ∧
    post_of cfg (env i) url (utf8 (dumps_compact (payload_json pl))) (delivery_id_of pl fresh) (pl_event pl) p.
Proof.
  intros H Hp. destruct (deliver_loop_posts _ _ _ _ _ _ _ _ H p Hp) as (d & a & Hin & Hpost).
  destruct (attempts_of env d a Hin) as (i & Hi & ->). by exists i.
Qed.

Definition example_attempt (status : Z) : Attempt :=
  mkAttempt (λ _ _, Infos ["93.184.216.34"]) 1000 (Answered status).
Definition example_payload : Payload := mkPayload "job.done" [("job_id", JStr "j1")] (Some "d1").

Lemma deliver_only_checked_witness :
  ∃ e es p, deliver default_settings "https://hooks.example.com/x?y=1" example_payload "f"
              (λ i, example_attempt (if Nat.eqb i 1 then 200 else 503)) = (e, es)
    ∧ p ∈ posts es ∧ post_url p = "https://93.184.216.34:443/x?y=1" ∧ post_sni p = "hooks.example.com"
    ∧ ∃ i, (i < 4)%nat ∧ post_of default_settings (example_attempt (if Nat.eqb i 1 then 200 else 503))
         "https://hooks.example.com/x?y=1" (utf8 (dumps_compact (payload_json example_payload))) "d1" "job.done" p.
Proof.
  eexists _, _, _. split; [vm_compute; reflexivity|]. split; [apply elem_of_cons; left; reflexivity|].
  split; [reflexivity|]. split; [reflexivity|].
  apply (deliver_only_checked default_settings "https://hooks.example.com/x?y=1" example_payload "f"
           (λ i, example_attempt (if Nat.eqb i 1 then 200 else 503)) _ _ _ ltac:(vm_compute; reflexivity)).
  apply elem_of_cons. left. reflexivity.
Defined.

(** ** How often *)

Definition ok_status (a : Attempt) : bool :=
  match at_answer a with Answered n => Z.leb 200 n && Z.ltb n 300 | _ => false end.
Definition retried (a : Attempt) : bool :=
  match at_answer a with Answered n => negb (Z.leb 200 n && Z.ltb n 300) | HttpError => true | OtherException => false end.
Definition reachable_target (cfg : Settings) (url : string) (a : Attempt) : bool :=
  match resolve_url cfg (at_getaddrinfo a) url with Pinned _ _ _ => true | _ => false end.

(** The reference: the first attempt that is not "posted and to be retried" decides. *)
Fixpoint verdict (cfg : Settings) (url : string) (attempts : list Attempt) : DeliverEnd * nat :=
  match attempts with
  | [] => (GaveUp, 0%nat)
  | a :: rest =>
      match resolve_url cfg (at_getaddrinfo a) url with
      | Rejected _ => (GaveUp, 0%nat)
      | UrlValueError => (DeliverRaised, 0%nat)
      | Pinned _ _ _ =>
          if ok_status a then (Delivered, 1%nat)
          else if retried a then let '(e, n) := verdict cfg url rest in (e, S n)
          else (DeliverRaised, 1%nat)
      end
  end.

Lemma resolve_url_urlsplit cfg gai url host ip p :
  resolve_url cfg gai url = Pinned host ip p → is_Some (urlsplit url).
Proof. unfold resolve_url. destruct (urlsplit url); [by eexists|done]. Qed.

Lemma deliver_loop_verdict cfg url body id event todo :
  Forall (λ p, (0 <= p.1)%Q) todo →
  let '(e, es) := deliver_loop cfg url body id event todo in
  (e, length (posts es)) = verdict cfg url (map snd todo)
  ∧ (slept_time es <= foldr (λ p acc, (p.1 + acc)%Q) 0%Q todo)%Q.
Proof.
  induction todo as [|[d a] rest IH]; intros Hd; cbn [deliver_loop map snd verdict].
  { split; [done|]. cbn. lra. }
  inversion Hd as [|? ? Hd0 Hrest]; subst. cbn in Hd0. specialize (IH Hrest).
  assert (∀ es, posts ((if Qeq_bool d 0 then [] else [Slept d]) ++ es) = posts es) as Hsl.
  { intros es. by destruct (Qeq_bool d 0). }
  assert (∀ es, slept_time ((if Qeq_bool d 0 then [] else [Slept d]) ++ es) <= d + slept_time es)%Q as Hst.
  { intros es. destruct (Qeq_bool d 0); unfold slept_time; cbn [app foldr]; set (x := foldr _ _ es); clearbody x; lra. }
  assert (0 <= foldr (λ p acc, (p.1 + acc)%Q) 0 rest)%Q as H0.
  { clear - Hrest. induction Hrest as [|[x y] l Hx _ IH]; cbn [foldr fst] in *; lra. }
  set (sl := if Qeq_bool d 0 then [] else [Slept d]) in *.
  pose proof (Hsl []) as Hs0. pose proof (Hst []) as Ht0. rewrite app_nil_r in Hs0, Ht0. change (slept_time []) with 0%Q in Ht0.
  cbn [foldr fst]. unfold ok_status, retried. set (T := foldr _ _ rest) in *. clearbody T.
  destruct (resolve_url cfg (at_getaddrinfo a) url) as [host ip pt|why|] eqn:Er.
  2:{ rewrite Hs0. split; [done|]. lra. }
  2:{ rewrite Hs0. split; [done|]. lra. }
  destruct (resolve_url_urlsplit _ _ _ _ _ _ Er) as [parts ->].
  set (post := mkPost _ _ _ _).
  pose proof (Hst [Posted post]) as Ht1. change (slept_time [Posted post]) with 0%Q in Ht1.
  destruct (deliver_loop cfg url body id event rest) as [e1 es1]. destruct IH as [IH1 IH2]. rewrite <- IH1.
  pose proof (Hst (Posted post :: es1)) as Ht2. change (slept_time (Posted post :: es1)) with (slept_time es1) in Ht2.
  destruct (at_answer a) as [n| |]; [destruct (Z.leb 200 n && Z.ltb n 300)| |]; cbn [negb];
    rewrite !Hsl; (split; [done|lra]).
Qed.

Lemma verdict_delivered cfg url env l k :
  let '(e', n) := verdict cfg url (map env (seq k l)) in (n ≤ l)%nat ∧
  (e' = Delivered ↔ ∃ i, (i < l)%nat ∧ n = S i ∧ ok_status (env (k + i)%nat) = true
     ∧ ∀ j, (j ≤ i)%nat → reachable_target cfg url (env (k + j)%nat) = true
                         ∧ ((j < i)%nat → retried (env (k + j)%nat) = true)).
Proof.
  revert k. induction l as [|l IH]; intros k; cbn [seq map verdict].
  - split; [lia|]. split; [done|]. intros (i & ? & _). lia.
  - assert (reachable_target cfg url (env k) = match resolve_url cfg (at_getaddrinfo (env k)) url with
              Pinned _ _ _ => true | _ => false end) as Hr by done.
    destruct (resolve_url cfg (at_getaddrinfo (env k)) url) as [host ip pt|why|].
    + assert (ok_status (env k) = true → retried (env k) = false) as Hex.
      { unfold ok_status, retried. destruct (at_answer (env k)) as [n| |]; try done. by intros ->. }
      destruct (ok_status (env k)) eqn:Eo.
      { split; [lia|]. split; [intros _|done]. exists 0%nat. rewrite Nat.add_0_r. repeat split; try done; try lia.
        assert (j = 0%nat) as -> by lia. by rewrite Nat.add_0_r. }
      specialize (IH (S k)). destruct (retried (env k)) eqn:Et.
      * destruct (verdict cfg url (map env (seq (S k) l))) as [e' n]. destruct IH as [IHn IHd]. split; [lia|].
        rewrite IHd. split.
        -- intros (i & Hi & -> & Ho & Hj). exists (S i). rewrite Nat.add_succ_r. repeat split; try done; try lia.
           ++ destruct j as [|j]; [by rewrite Nat.add_0_r|]. rewrite Nat.add_succ_r. apply Hj. lia.
           ++ intros Hlt. destruct j as [|j]; [by rewrite Nat.add_0_r|]. rewrite Nat.add_succ_r. apply Hj; lia.
        -- intros ([|i] & Hi & [= ->] & Ho & Hj); [by rewrite Nat.add_0_r, Eo in Ho|].
           exists i. rewrite Nat.add_succ_r in Ho. repeat split; try done; try lia;
             destruct (Hj (S j) ltac:(lia)) as [Ha Hb]; rewrite Nat.add_succ_r in Ha, Hb; [done|].
           intros Hlt. apply Hb. lia.
      * split; [lia|]. split; [done|]. intros (i & Hi & Hn & Ho & Hj). assert (i = 0%nat) as -> by lia.
        by rewrite Nat.add_0_r, Eo in Ho.
    + split; [lia|]. split; [done|]. intros (i & Hi & [=] & _).
    + split; [lia|]. split; [done|]. intros (i & Hi & [=] & _).
Qed.

(** A delivery makes at most four POSTs and waits at most forty seconds in all.  It
    stops with the first attempt answered 2xx, and reports success exactly then; it goes on
    only after an HTTP error or another status, and gives up at once when the URL no longer
    passes the check. *)
Theorem deliver_retries cfg url pl fresh env :
  let '(e, es) := deliver cfg url pl fresh env in
  (e, length (posts es)) = verdict cfg url (map env (seq 0 4))
  ∧ (length (posts es) ≤ 4)%nat ∧ (slept_time es <= 40)%Q
  ∧ (e = Delivered ↔ ∃ i, (i < 4)%nat ∧ length (posts es) = S i ∧ ok_status (env i) = true
       ∧ ∀ j, (j ≤ i)%nat → reachable_target cfg url (env j) = true ∧ ((j < i)%nat → retried (env j) = true)).
Proof.
  unfold deliver. set (todo := zip _ _).
  pose proof (deliver_loop_verdict cfg url (utf8 (dumps_compact (payload_json pl))) (delivery_id_of pl fresh)
    (pl_event pl) todo ltac:(repeat constructor; vm_compute; discriminate)) as H.
  destruct (deliver_loop _ _ _ _ _ todo) as [e es]. change (map snd todo) with (map env (seq 0 4)) in H.
  destruct H as [H1 H2]. split; [done|].
  pose proof (verdict_delivered cfg url env 4 0) as Hv. cbn [Nat.add] in Hv.
  rewrite <- H1 in Hv. destruct Hv as [Hn Hd]. split; [done|].
  split; [|exact Hd]. eapply Qle_trans; [exact H2|]. vm_compute. discriminate.
Qed.

(** ** The pool *)

(** The senders at work. *)
Definition working (x : Sender) : Prop := match x with Getting | Delivering _ => True | _ => False end.

(** What holds of the pool at any moment: the bounds; ten senders, none ended by an
    exception, all at work until they are cancelled; the count [queue.join()] waits on is
    that of the deliveries waiting or in hand; each accepted delivery is in one place; and a
    join the queue ended came after everything accepted until then was done. *)
Record pool_ok (s : Pool) : Prop := {
  queue_bounded : (length (po_queue s) ≤ MAX_PENDING)%nat;
  ten_senders : length (po_senders s) = SENDERS;
  no_sender_dies : match po_closing s with
                   | Closed _ _ => Forall (λ x, x = Cancelled) (po_senders s)
                   | _ => Forall working (po_senders s)
                   end;
  count_exact : po_unfinished s = (length (po_queue s) + length (in_hand (po_senders s)))%nat;
  nothing_lost : po_accepted s ≡ₚ map fst (po_done s) ++ in_hand (po_senders s) ++ po_queue s ++ po_dropped s;
  open_drops_nothing : match po_closing s with Closed _ _ => True | _ => po_dropped s = [] end;
  ids_set : Forall (λ d, pl_delivery_id (dl_payload d) ≠ None) (po_accepted s ++ po_putters s);
  drained_done : match po_closing s with
                 | Joined true snap | Closed true snap => ∃ later, map fst (po_done s) ≡ₚ snap ++ later
                 | _ => True
                 end
}.

Lemma in_hand_app a b : in_hand (a ++ b) = in_hand a ++ in_hand b.
Proof. apply omap_app. Qed.

Lemma in_hand_take i d l :
  l !! i = Some Getting → in_hand (<[i := Delivering d]> l) ≡ₚ d :: in_hand l.
Proof.
  intros H. rewrite <- (take_drop_middle l i Getting H) at 2.
  rewrite insert_take_drop by (by eapply lookup_lt_Some). rewrite !in_hand_app. cbn. by rewrite Permutation_middle.
Qed.

Lemma in_hand_give i d x l :
  l !! i = Some (Delivering d) → in_hand [x] = [] → in_hand l ≡ₚ d :: in_hand (<[i := x]> l).
Proof.
  intros H Hx. rewrite <- (take_drop_middle l i (Delivering d) H) at 1.
  rewrite insert_take_drop by (by eapply lookup_lt_Some). rewrite !in_hand_app.
  change (in_hand (x :: drop (S i) l)) with (in_hand ([x] ++ drop (S i) l)). rewrite in_hand_app, Hx. cbn.
  by rewrite Permutation_middle.
Qed.

Lemma working_insert i x l : working x → Forall working l → Forall working (<[i := x]> l).
Proof. intros Hx Hl. by apply Forall_insert. Qed.

(** A sender that is not cancelled yet is at work in an open pool. *)
Lemma open_pool s i x :
  pool_ok s → po_senders s !! i = Some x → x ≠ Cancelled → ∀ b snap, po_closing s ≠ Closed b snap.
Proof.
  intros Hok Hi Hx b snap E. pose proof (no_sender_dies _ Hok) as H. rewrite E in H.
  by apply Forall_lookup_1 with (i := i) (x := x) in H.
Qed.

Lemma open_working s : pool_ok s → (∀ b snap, po_closing s ≠ Closed b snap) → Forall working (po_senders s).
Proof.
  intros Hok Ho. pose proof (no_sender_dies _ Hok) as H. destruct (po_closing s) as [| |b snap]; [done..|].
  by destruct (Ho b snap).
Qed.

Lemma working_open c l :
  (∀ b snap, c ≠ Closed b snap) → Forall working l →
  match c with Closed _ _ => Forall (λ x, x = Cancelled) l | _ => Forall working l end.
Proof. intros Ho Hl. destruct c as [| |b snap]; [done..|]. by destruct (Ho b snap). Qed.

Lemma with_id_set p fresh : pl_delivery_id (with_delivery_id p fresh) ≠ None.
Proof. unfold with_delivery_id. by destruct (pl_delivery_id p) eqn:E; cbn; rewrite ?E. Qed.

Lemma put_ok s putters d :
  pool_ok s → full s = false → Forall (λ d, pl_delivery_id (dl_payload d) ≠ None) (po_accepted s ++ [d] ++ putters) →
  pool_ok (put putters d s).
Proof.
  intros [H1 H2 H3 H4 H5 H6 H7 H8] Hf Hi. unfold full in Hf. apply Nat.leb_gt in Hf.
  split; cbn -[in_hand MAX_PENDING]; try done.
  - rewrite length_app. cbn -[in_hand MAX_PENDING]. lia.
  - rewrite length_app. cbn -[in_hand MAX_PENDING]. lia.
  - rewrite H5, <- !app_assoc. do 3 f_equiv. apply Permutation_app_comm.
  - by rewrite <- app_assoc.
Qed.

Lemma sender_step_ok cfg envs s s' : SenderStep cfg envs s s' → pool_ok s → pool_ok s'.
Proof.
  intros Hs Hok. pose proof Hok as [H1 H2 H3 H4 H5 H6 H7 H8].
  destruct Hs as [s a d b E Hf|s i d rest Hi E|s i d fresh Hi].
  - apply put_ok; try done. rewrite E in H7.
    change ([d] ++ a ++ b) with (d :: (a ++ b)). assert (po_accepted s ++ d :: (a ++ b) ≡ₚ po_accepted s ++ a ++ d :: b) as Hp
      by apply Permutation_app_head, Permutation_middle.
    by rewrite Hp.
  - pose proof (open_pool s i _ Hok Hi ltac:(done)) as Ho. rewrite E in H1, H4, H5. cbn in H1, H4.
    pose proof (in_hand_take i d _ Hi) as Hh. split; cbn -[in_hand MAX_PENDING]; try done.
    + lia.
    + by rewrite length_insert.
    + apply working_open; [done|]. apply working_insert; [done|by apply open_working].
    + rewrite Hh. cbn -[in_hand]. lia.
    + rewrite H5, Hh. apply Permutation_app_head. symmetry. apply (Permutation_middle _ (rest ++ po_dropped s)).
  - pose proof (open_pool s i _ Hok Hi ltac:(done)) as Ho. set (e := (deliver _ _ _ _ _).1).
    assert (in_hand [after_delivery e] = [] ∧ working (after_delivery e)) as [He Hw] by (by destruct e).
    pose proof (in_hand_give i d _ _ Hi He) as Hh. pose proof (Permutation_length Hh) as Hl. cbn in Hl.
    unfold finish_delivery. destruct (po_unfinished s) as [|n] eqn:En; [lia|]. cbn [task_done].
    split; cbn -[in_hand MAX_PENDING]; try done.
    + by rewrite length_insert.
    + apply working_open; [done|]. apply working_insert; [done|by apply open_working].
    + lia.
    + rewrite map_app. cbn. rewrite H5, Hh, <- !app_assoc. done.
    + rewrite map_app. cbn. destruct (po_closing s) as [|[] snap|[] snap]; try done;
        destruct H8 as [later E]; exists (later ++ [d]); by rewrite E, app_assoc.
Qed.

Lemma pool_step_ok cfg s s' : PoolStep cfg s s' → pool_ok s → pool_ok s'.
Proof.
  intros Hs Hok. destruct Hs as [s url p fresh|s envs s' Hs|s Hc Hu|s Hc|s b snap Hc]; [|by eapply sender_step_ok|..].
  - unfold submit. destruct (full s) eqn:Ef.
    + destruct Hok as [H1 H2 H3 H4 H5 H6 H7 H8]. split; cbn -[in_hand MAX_PENDING]; try done. rewrite app_assoc. apply Forall_app.
      split; [done|]. constructor; [apply with_id_set|done].
    + apply put_ok; [done..|]. pose proof (ids_set _ Hok) as H7. apply Forall_app in H7 as [H7 H7'].
      apply Forall_app. split; [done|]. constructor; [apply with_id_set|done].
  - destruct Hok as [H1 H2 H3 H4 H5 H6 H7 H8]. rewrite Hc in *. split; cbn -[in_hand MAX_PENDING]; try done. exists [].
    rewrite Hu in H4. rewrite H5, H6.
    by rewrite (nil_length_inv (po_queue s)), (nil_length_inv (in_hand (po_senders s))), !app_nil_r by lia.
  - destruct Hok as [H1 H2 H3 H4 H5 H6 H7 H8]. rewrite Hc in *. by split.
  - destruct Hok as [H1 H2 H3 H4 H5 H6 H7 H8]. rewrite Hc in *.
    set (f := λ x, match x with Dead => Dead | _ => Cancelled end).
    assert (in_hand (map f (po_senders s)) = []) as Hn.
    { clear. induction (po_senders s) as [|x l IH]; [done|]. cbn. by destruct x. }
    split; cbn -[in_hand MAX_PENDING]; fold f; try done.
    + by rewrite length_map.
    + apply Forall_fmap. eapply Forall_impl; [exact H3|]. by intros [].
    + rewrite Hn. cbn -[in_hand]. lia.
    + rewrite Hn, H5, H6, app_nil_r. cbn [app]. apply Permutation_app_head, Permutation_app_comm.
Qed.

Lemma pool_reachable_ok cfg s : rtc (PoolStep cfg) start_pool s → pool_ok s.
Proof.
  intros H. remember start_pool as s0 eqn:E. assert (pool_ok s0) as H0.
  { subst. split; cbn -[in_hand MAX_PENDING]; try done; try lia; repeat constructor. }
  clear E. induction H as [|a b c Hs _ IH]; [done|]. apply IH. by eapply pool_step_ok.
Qed.

(** What is left to do, counted so that each step of the pool takes one away. *)
Definition todo (s : Pool) : nat :=
  3 * length (po_putters s) + 2 * length (po_queue s) + length (in_hand (po_senders s)).

Lemma todo_idle s : todo s = 0 → po_putters s = [] ∧ po_queue s = [] ∧ in_hand (po_senders s) = [].
Proof. unfold todo. intros H. split_and!; apply nil_length_inv; lia. Qed.

(** A pool with something to do does it. *)
Lemma pool_progress cfg envs s :
  pool_ok s → (∀ b snap, po_closing s ≠ Closed b snap) → todo s ≠ 0 →
  ∃ s', SenderStep cfg envs s s' ∧ todo s' < todo s ∧ po_closing s' = po_closing s.
Proof.
  intros Hok Ho Ht. pose proof (open_working s Hok Ho) as Hw. pose proof (count_exact _ Hok) as H4. unfold todo in *.
  destruct (in_hand (po_senders s)) as [|d ds] eqn:Eh.
  - assert (po_senders s !! 0 = Some Getting) as Hi.
    { pose proof (ten_senders _ Hok) as Hs. destruct (po_senders s) as [|x l]; [done|]. apply Forall_inv in Hw. by destruct x. }
    destruct (po_queue s) as [|d rest] eqn:Eq.
    + destruct (po_putters s) as [|d b] eqn:Ep; [done|]. exists (put b d s).
      split; [apply (pool_put _ _ s [] d b Ep); unfold full; by rewrite Eq|]. split; [|done]. cbn -[in_hand]. rewrite Eq, Eh. cbn -[in_hand]. lia.
    + exists (get 0 d rest s). split; [by apply pool_get|]. split; [|done]. cbn -[in_hand].
      rewrite (in_hand_take 0 d _ Hi), Eh. cbn -[in_hand]. lia.
  - assert (∃ i, po_senders s !! i = Some (Delivering d)) as [i Hi].
    { assert (Delivering d ∈ po_senders s) as [i Hi]%list_elem_of_lookup; [|by exists i].
      assert (d ∈ in_hand (po_senders s)) as (x & Hx & Ex)%list_elem_of_omap by (rewrite Eh; set_solver).
      destruct x; try done. by injection Ex as ->. }
    set (e := (deliver cfg (dl_url d) (dl_payload d) "" (envs d)).1).
    assert (in_hand [after_delivery e] = []) as He by (by destruct e).
    pose proof (Permutation_length (in_hand_give i d _ _ Hi He)) as Hl. rewrite Eh in Hl. cbn -[in_hand] in Hl, H4.
    exists (finish_delivery i d e s). split; [by apply pool_finish|]. unfold finish_delivery.
    destruct (po_unfinished s) as [|n]; [lia|]. cbn -[in_hand]. split; [lia|done].
Qed.

Lemma pool_drains cfg envs s :
  pool_ok s → (∀ b snap, po_closing s ≠ Closed b snap) →
  ∃ s', rtc (SenderStep cfg envs) s s' ∧ todo s' = 0 ∧ pool_ok s'.
Proof.
  remember (todo s) as n eqn:En. revert s En. induction (lt_wf n) as [n _ IH]. intros s -> Hok Ho.
  destruct (decide (todo s = 0)) as [Hz|Hz]; [exists s; split_and!; [constructor|done|done]|].
  destruct (pool_progress cfg envs s Hok Ho Hz) as (s1 & Hs & Hlt & Hc).
  pose proof (sender_step_ok _ _ _ _ Hs Hok) as Hok1.
  destruct (IH (todo s1) Hlt s1 eq_refl Hok1) as (s2 & H2 & T2 & O2); [by rewrite Hc|].
  exists s2. split_and!; [by eapply rtc_l|done|done].
Qed.

(** C19: the pool of senders keeps going.  In every state it can reach - submissions at any
    time, deliveries that succeed, give up or raise, a shutdown that drains or runs out of
    time - at most 1000 deliveries wait in the queue, and ten senders exist of which none was
    ended by an exception, so all ten are at work until the shutdown cancels them; the count
    that the shutdown waits on is exactly that of the deliveries waiting or in hand; every
    accepted delivery carries its id and is done, in hand, waiting, or was in the hands of a
    cancelled sender, each in one place; and after a shutdown that did not time out,
    everything accepted by the time its wait ended was done.  From every such state before
    the senders are cancelled, and whatever the outside does to each delivery, the senders
    can still finish everything that waits, the submissions waiting for room included. *)
Theorem pool_invariant (cfg : Settings) (s : Pool) (Hs : rtc (PoolStep cfg) start_pool s) :
  pool_ok s ∧
  ((∀ b snap, po_closing s ≠ Closed b snap) →
   ∀ envs, ∃ s', rtc (SenderStep cfg envs) s s' ∧
     po_putters s' = [] ∧ po_queue s' = [] ∧ in_hand (po_senders s') = [] ∧
     po_accepted s' ≡ₚ map fst (po_done s') ++ po_dropped s').
Proof.
  pose proof (pool_reachable_ok cfg s Hs) as Hok. split; [done|]. intros Ho envs.
  destruct (pool_drains cfg envs s Hok Ho) as (s' & H1 & (T1 & T2 & T3)%todo_idle & H2). exists s'.
  split_and!; try done. by rewrite (nothing_lost _ H2), T2, T3.
Qed.

Lemma pool_invariant_witness :
  ∃ s, rtc (PoolStep default_settings) start_pool s ∧ length (po_queue s) = 1%nat ∧ pool_ok s ∧
    ∃ s', rtc (SenderStep default_settings (λ _ _, mkAttempt (λ _ _, InfoUnicodeError) 0 OtherException)) s s' ∧
      po_queue s' = [].
Proof.
  exists (submit "u" example_payload "f" start_pool).
  assert (rtc (PoolStep default_settings) start_pool (submit "u" example_payload "f" start_pool)) as H.
  { eapply rtc_l; [apply pool_submit|apply rtc_refl]. }
  split; [exact H|]. split; [reflexivity|].
  destruct (pool_invariant default_settings _ H) as [H1 H2]. split; [exact H1|].
  destruct (H2 ltac:(intros b snap; discriminate) (λ _ _, mkAttempt (λ _ _, InfoUnicodeError) 0 OtherException))
    as (s' & S1 & _ & S2 & _).
  exists s'. split; [exact S1|exact S2].
Defined.
