(* ===== verification/Access.v ===== *)
(** * Access to jobs ([src/app/main.py])

    Finding a job for a caller, its status, listing, recent results, downloads, the operator
    requests behind the ownership check, and the estimate shown before a job starts. *)

From Stdlib Require Import ZArith NArith QArith Qround Ascii String Lia.
From stdpp Require Import base strings pretty option sets list.
From S2P Require Import Prelude PyStr Sql Csv Models Regex IpAddress Queue Jobs QueueInv Transitions Errors Sha256 Json Auth.

(** ** Job ids in URLs *)

Definition str_remove (x s : string) : string := re_sub (lit x) "" s.

(** The digits of [int(s, 16)]: single underscores may stand between digits. *)
Fixpoint hex_digits_us (s : string) (acc : N) (after_digit : bool) : option N :=
  match s with
  | EmptyString => if after_digit then Some acc else None
  | String c s' =>
      if Ascii.eqb c "_" then if after_digit then hex_digits_us s' acc false else None
      else if is_hex_digit c then hex_digits_us s' (acc * 16 + hex_digit_value c) true
      else None
  end.

(** [int(s, 16)]; [None]: ValueError.  A sign makes [Some (sign, value)]. *)
Definition int16 (s : string) : option (bool * N) :=
  let s := strip s in
  let '(neg, s) := match s with
                   | String "-" r => (true, r)
                   | String "+" r => (false, r)
                   | _ => (false, s)
                   end in
  let s := match s with
           | String "0" (String x r) =>
               if Ascii.eqb (lower_char x) "x"
               then match r with String "_" r' => r' | _ => r end else s
           | _ => s
           end in
  (λ n, (neg, n)) <$> hex_digits_us s 0 false.

(** [uuid.UUID(s).int] *)
Definition parse_uuid (s : string) : option uuid :=
  let hex := strip_chars "{}" (str_remove "uuid:" (str_remove "urn:" s)) in
  let hex := str_remove "-" hex in
  if negb (Nat.eqb (String.length hex) 32) then None
  else
    match int16 hex with
    | Some (neg, n) => if (neg && negb (N.eqb n 0)) || N.leb (2 ^ 128) n then None else Some n
    | None => None
    end.

(** ** Whose job *)

Definition may_see (who : Principal) (j : Job) : bool :=
  pr_is_admin who || bool_decide (j_owner_id j = pr_user_id who).

(** 404 for an unknown job and for someone else's alike. *)
Definition get_visible (db : DB) (job_id : string) (who : Principal) : Reply Job :=
  match parse_uuid job_id with
  | None => Raise (fault "job_not_found")
  | Some id =>
      match find_row j_id id (jobs db) with
      | None => Raise (fault "job_not_found")
      | Some j => if may_see who j then Return j else Raise (fault "job_not_found")
      end
  end.

Record JobStatusReply := mkJobStatus {
  js_job : Job;
  js_paused : bool;
  js_active_seconds : option Z;
  js_columns : list string;
  js_counts : Counts
}.

Definition columns_of (j : Job) : list string := match j_columns j with [] => ["website"] | cs => cs end.

Definition get_job (db : DB) (now : instant) (job_id : string) (who : Principal) : Reply JobStatusReply :=
  reply_bind (get_visible db job_id who) (λ j,
    Return (mkJobStatus j (bool_decide (j_status j = job_paused)) (active_seconds now j) (columns_of j)
                        (job_counts db (j_id j)))).

(** ** The job list *)

Record Progress := mkProgress {
  pg_done : Z; pg_unique_domains : Z; pg_found : Z; pg_active_seconds : option Z
}.

Definition progress_of (db : DB) (now : instant) (j : Job) : Progress :=
  let rows := keep (of_job (j_id j)) (job_domains db) in
  mkProgress (zcount (state_is st_done) rows) (Z.of_nat (length rows)) (zcount (done_with found) rows)
             (active_seconds now j).

(** [_list_progress]: one entry per job asked for. *)
Definition list_progress (db : DB) (now : instant) (ids : list uuid) : list (uuid * Progress) :=
  match ids with
  | [] => []
  | _ => map (λ j, (j_id j, progress_of db now j)) (keep (λ j, mem (j_id j) ids) (jobs db))
  end.

Definition progress_for (ps : list (uuid * Progress)) (id : uuid) : Progress :=
  default (mkProgress 0 0 0 None) (snd <$> head (keep (λ p, bool_decide (fst p = id)) ps)).

Record JobLine := mkJobLine {
  jl_job_id : uuid; jl_owner : string; jl_progress : Progress; jl_status : JobStatus;
  jl_pause_reason : option string; jl_filename : option string; jl_total : Z;
  jl_created_at : instant; jl_finished_at : option instant
}.

Definition owner_name (users : list User) (j : Job) : string :=
  match j_owner_id j with
  | Some u =>
      match find_row us_id u users with
      | Some x => if nonempty (us_name x) then us_name x else "admin"
      | None => "admin"
      end
  | None => "admin"
  end.

(** Newest first; the earlier row first on ties, which Postgres leaves open. *)
Definition recent_jobs (db : DB) (who : Principal) : list Job :=
  limit 50 (order_by (λ a b, Z.compare (j_created_at b) (j_created_at a))
              (keep (λ j, pr_is_admin who
                          || match pr_user_id who with Some u => null_eq (j_owner_id j) u | None => false end)
                    (jobs db))).

Definition list_jobs (db : DB) (users : list User) (now : instant) (who : Principal) : string * bool * list JobLine :=
  let rows := recent_jobs db who in
  let progress := list_progress db now (map j_id rows) in
  (pr_name who, pr_is_admin who,
   map (λ j, mkJobLine (j_id j) (owner_name users j) (progress_for progress (j_id j)) (j_status j)
                       (j_pause_reason j) (j_filename j) (j_total j) (j_created_at j) (j_finished_at j)) rows).

(** ** Recently finished domains *)

Record RecentDomain := mkRecent {
  rd_domain : string; rd_status : option Status; rd_from_cache : bool; rd_finished_at : option instant;
  rd_best_email : option string; rd_needs_review : option bool; rd_error_reason : option string; rd_pages : Z
}.

(** The fields of the stored document; a document of another shape shows only its reason. *)
Definition recent_row (r : JobDomain) : RecentDomain :=
  let doc := match jd_result r with Some (Dump d) => Some d | _ => None end in
  mkRecent (jd_domain r) (jd_status r) (jd_from_cache r) (jd_finished_at r)
    (doc ≫= r_best_email) (r_needs_review <$> doc) (json_error_reason (jd_result r))
    (match doc with Some d => Z.of_nat (length (r_pages_fetched d)) | None => 0 end).

(** [ORDER BY finished_at DESC]: NULLs first. *)
Definition cmp_finished_desc (a b : JobDomain) : comparison :=
  match jd_finished_at a, jd_finished_at b with
  | None, None => Eq
  | None, Some _ => Lt
  | Some _, None => Gt
  | Some x, Some y => Z.compare y x
  end.

Definition recent_domains (db : DB) (job_id : string) (limit_ : Z) (who : Principal) : Reply (list RecentDomain) :=
  reply_bind (get_visible db job_id who) (λ j,
    Return (map recent_row
      (limit (Z.to_nat (Z.max 1 (Z.min limit_ 50)))
        (order_by cmp_finished_desc
           (keep (λ r, of_job (j_id j) r && state_is st_done r) (job_domains db)))))).

(** ** Downloads *)

Definition last_part (c : ascii) (s : string) : string := (rpartition c s).2.

Definition is_unreserved (c : ascii) : bool :=
  (is_lower c || is_upper c || is_digit09 c) || in_set "_.-~/" c.

Definition hex_upper (n : N) : ascii := ascii_of_N (if N.ltb n 10 then 48 + n else 55 + n).

Definition percent (b : byte) : string :=
  String "%" (String (hex_upper (N.shiftr b 4)) (String (hex_upper (N.land b 15)) "")).

(** [urllib.parse.quote] *)
Definition quote_byte (b : byte) : string :=
  let c := ascii_of_N b in if N.ltb b 128 && is_unreserved c then String c "" else percent b.
Definition url_quote (s : string) : string := foldr (λ b acc, quote_byte b +:+ acc) "" (utf8 s).

Definition attachment_char (c : ascii) : ascii :=
  if (between 0 127 c && is_alnum c) || in_set "-_. " c then c else "_"%char.

Definition dq : string := String "034"%char "".

(** The file name's stem with the suffix, once in ASCII and once percent-encoded. *)
Definition attachment_name (filename : option string) (suffix : string) : string :=
  let name := last_part "\" (last_part "/" (if str_truthy filename then default "" filename else "results")) in
  let name := if has_char "." name then (rpartition "." name).1 else name in
  (if nonempty name then name else "results") +:+ suffix.

Definition attachment (filename : option string) (suffix : string) : string :=
  let name := attachment_name filename suffix in
  "attachment; filename=" +:+ dq +:+ str_map attachment_char name +:+ dq +:+ "; filename*=UTF-8''" +:+ url_quote name.

(** Both downloads: the header of the CSV and its lines, or the lines of JSON. *)
Definition get_results_csv (db : DB) (job_id : string) (who : Principal) : Reply (string * list string) :=
  reply_bind (get_visible db job_id who) (λ j,
    Return (attachment (j_filename j) "_extracted.csv", results_csv db j)).

(** [json_line]: the source columns, then the result's cells under their prefix. *)
Definition json_line (columns : list string) (raw_row : list (string * string)) (result : option DomainResult)
    (pending : option string) (retrying : bool) : string :=
  let base := fold_left (λ d c, dict_set d c (or_blank (dict_get raw_row c))) columns [] in
  let payload := fold_left (λ d kv, dict_set d (EX_PREFIX +:+ kv.1) kv.2) (result_cells result pending retrying) base in
  dumps_unicode (JObj (map (λ kv, (kv.1, JStr kv.2)) payload)) +:+ String lf "".

Definition get_results_json (db : DB) (job_id : string) (who : Principal) : Reply (list string) :=
  reply_bind (get_visible db job_id who) (λ j,
    Return (map (λ '(raw_row, result, pending, retrying), json_line (columns_of j) raw_row result pending retrying)
                (stream_rows db (j_id j)))).

(** ** Operator requests *)

Definition of_answer {A} (a : Answer A) : Reply A := match a with Ok x => Return x | Err c => Raise (fault c) end.

(** The three requests on a job, behind the ownership check. *)
Inductive Operator := op_retry | op_resume | op_cancel.

Definition operate (op : Operator) (db : DB) (now : instant) (id : uuid) : Reply () * DB :=
  match op with
  | op_retry => let '(a, db') := retry_job db now id in (reply_bind (of_answer a) (λ _, Return ()), db')
  | op_resume => let '(a, db') := resume_job db now id in (reply_bind (of_answer a) (λ _, Return ()), db')
  | op_cancel => let '(a, db') := cancel_job db now id in (reply_bind (of_answer a) (λ _, Return ()), db')
  end.

Definition operator_request (op : Operator) (db : DB) (now : instant) (job_id : string) (who : Principal)
    : Reply () * DB :=
  match get_visible db job_id who with
  | Raise e => (Raise e, db)
  | Return j => operate op db now (j_id j)
  end.

(** ** The estimate *)

Definition MAX_ESTIMATE : Z := 50000.
Definition MIN_SAMPLE : Z := 30.
Definition ESTIMATE_WINDOW_MIN : Z := 15.

Definition recently_done (now : instant) (r : JobDomain) : bool :=
  state_is st_done r
  && match jd_finished_at r with Some t => Z.leb (now - seconds (60 * ESTIMATE_WINDOW_MIN))%Z t | None => false end.

Definition max_z (l : list Z) : option Z := match l with [] => None | x :: r => Some (foldr Z.max x r) end.
Definition min_z (l : list Z) : option Z := match l with [] => None | x :: r => Some (foldr Z.min x r) end.

(** How many domains were fetched in the window, and over which span (microseconds). *)
Definition recent_rate (db : DB) (now : instant) : Z * Z :=
  let times := omap jd_finished_at (keep (λ r, recently_done now r && negb (jd_from_cache r)) (job_domains db)) in
  (Z.of_nat (length times),
   match max_z times, min_z times with Some a, Some b => (a - b)%Z | _, _ => 0%Z end).

(** The other people with unfinished work. *)
Definition others_running (db : DB) (who : Principal) : nat :=
  length (remove_dups (map j_owner_id
    (keep (λ j, (bool_decide (j_status j = job_queued) || bool_decide (j_status j = job_running))
                && negb (bool_decide (j_owner_id j = pr_user_id who))
                && any (λ q, of_job (j_id j) q && (state_is st_queued q || state_is st_running q)) (job_domains db))
          (jobs db)))).

Record Estimate := mkEstimate {
  es_domains : Z;
  es_recent : bool;                       (* basis: "recent" or "typical" *)
  es_rate : Q;                            (* before rounding to one place *)
  es_my_rate : Q;
  es_people_running : nat;
  es_eta : option (Z * Z);
  es_blocked_by_jina : bool
}.

Definition estimate (cfg : Settings) (db : DB) (now : instant) (who : Principal) (domains_ : Z) (jina_empty : bool)
    : Reply Estimate :=
  if Z.ltb domains_ 0 || Z.ltb MAX_ESTIMATE domains_ then Raise (fault "validation_error")
  else
    let '(fetched, span) := recent_rate db now in
    let others := others_running db who in
    let '(total, basis) :=
      if Z.leb MIN_SAMPLE fetched
      then let span_min := (inject_Z span / inject_Z (seconds 60))%Q in
           let span_min := if Qle_bool 1 span_min then span_min else 1%Q in
           ((inject_Z fetched / span_min)%Q, true)
      else (typical_domains_per_minute cfg, false) in
    let mine := (total / inject_Z (Z.of_nat (others + 1)))%Q in
    let eta := if Qle_bool mine 0 then None
               else let minutes := (inject_Z domains_ / mine)%Q in
                    Some (round_half_even (minutes * 60 * (7 # 10)), round_half_even (minutes * 60 * (14 # 10))) in
    Return (mkEstimate domains_ basis total mine others eta jina_empty).
