(* ===== verification/AccessProps.v ===== *)
(** * People and each other's jobs; the names of downloads

    Properties of [Access]: what a person is shown depends on nothing but their own jobs,
    their requests leave the others' alone, and the Content-Disposition header of a download
    cannot be broken by the name of the uploaded file. *)

From Stdlib Require Import ZArith NArith QArith Ascii String Lia.
From stdpp Require Import base strings pretty option sets list.
From S2P Require Import Prelude PyStr Sql Csv Models Regex IpAddress Queue QueueInv Jobs JobsProps Transitions Frame Errors Sha256 Json Auth Access.

(** ** Own jobs *)

Definition mine (u : uuid) (j : Job) : bool := bool_decide (j_owner_id j = Some u).

(** Two databases that hold the same jobs of [u], with the same input rows and queue rows,
    whatever they hold of anyone else. *)
Record agree (u : uuid) (db1 db2 : DB) : Prop := {
  ag_jobs : keep (mine u) (jobs db1) = keep (mine u) (jobs db2);
  ag_rows : ∀ j, j ∈ jobs db1 → mine u j = true →
    keep (of_job (j_id j)) (job_domains db1) = keep (of_job (j_id j)) (job_domains db2);
  ag_items : ∀ j, j ∈ jobs db1 → mine u j = true →
    items_of (j_id j) (job_items db1) = items_of (j_id j) (job_items db2)
}.

Section person.
Context (who : Principal) (u : uuid).
Hypothesis (Hnot_admin : pr_is_admin who = false) (Hu : pr_user_id who = Some u).

Lemma may_see_mine j : may_see who j = mine u j.
Proof. unfold may_see, mine. by rewrite Hnot_admin, Hu. Qed.

Lemma get_visible_Return db id j :
  get_visible db id who = Return j → j ∈ jobs db ∧ mine u j = true ∧ parse_uuid id = Some (j_id j).
Proof.
  unfold get_visible. destruct (parse_uuid id) as [i|]; [|done].
  destruct (find_row j_id i (jobs db)) as [x|] eqn:E; [|done]. rewrite may_see_mine.
  destruct (mine u x) eqn:Em; [|done]. intros [= ->]. apply find_row_Some in E as [? <-]. done.
Qed.

Lemma get_visible_Raise db id e : get_visible db id who = Raise e → e = fault "job_not_found".
Proof.
  unfold get_visible. destruct (parse_uuid id); [|by intros [= <-]].
  destruct (find_row _ _ _); [|by intros [= <-]]. by destruct (may_see who _); [|intros [= <-]].
Qed.

Lemma get_visible_own db id j :
  NoDup (map j_id (jobs db)) → j ∈ jobs db → mine u j = true → parse_uuid id = Some (j_id j) →
  get_visible db id who = Return j.
Proof.
  intros Hn Hj Hm Hp. unfold get_visible. rewrite Hp, (find_row_unique j_id _ _ Hn Hj), may_see_mine.
  by rewrite Hm.
Qed.

Section two.
Context (db1 db2 : DB).
Hypotheses (Hn1 : NoDup (map j_id (jobs db1))) (Hn2 : NoDup (map j_id (jobs db2))).
Hypothesis (Ha : agree u db1 db2).

Lemma own_in_both j : mine u j = true → j ∈ jobs db1 ↔ j ∈ jobs db2.
Proof.
  intros Hm. pose proof (ag_jobs _ _ _ Ha) as E.
  assert (∀ db, j ∈ jobs db ↔ j ∈ keep (mine u) (jobs db)) as Hk.
  { intros db. rewrite elem_of_keep. tauto. }
  by rewrite !Hk, E.
Qed.

Lemma get_visible_agree id : get_visible db1 id who = get_visible db2 id who.
Proof.
  destruct (get_visible db1 id who) as [j|e] eqn:E1.
  - apply get_visible_Return in E1 as (Hj & Hm & Hp). symmetry. apply get_visible_own; try done.
    by apply own_in_both.
  - destruct (get_visible db2 id who) as [j|e'] eqn:E2.
    + apply get_visible_Return in E2 as (Hj & Hm & Hp). apply own_in_both in Hj; [|done].
      rewrite (get_visible_own _ _ _ Hn1 Hj Hm Hp) in E1. done.
    + by rewrite (get_visible_Raise _ _ _ E1), (get_visible_Raise _ _ _ E2).
Qed.

Lemma bind_agree {A} id (f g : Job → Reply A) :
  (∀ j, j ∈ jobs db1 → mine u j = true → f j = g j) →
  reply_bind (get_visible db1 id who) f = reply_bind (get_visible db2 id who) g.
Proof.
  intros H. rewrite <- get_visible_agree. destruct (get_visible db1 id who) as [j|e] eqn:E; [|done].
  apply get_visible_Return in E as (? & ? & _). by apply H.
Qed.

Lemma job_counts_agree j : j ∈ jobs db1 → mine u j = true → job_counts db1 (j_id j) = job_counts db2 (j_id j).
Proof.
  intros Hj Hm. unfold job_counts. rewrite (ag_rows _ _ _ Ha j Hj Hm).
  pose proof (ag_items _ _ _ Ha j Hj Hm) as Hi. unfold items_of in Hi. by rewrite Hi.
Qed.

Lemma find_row_of_job j d (t : list JobDomain) :
  find_row jd_key (j, d) t = find_row jd_key (j, d) (keep (of_job j) t).
Proof.
  unfold find_row. rewrite keep_keep. f_equal. apply keep_ext. intros r _.
  destruct (bool_decide_reflect (jd_key r = (j, d))) as [E|]; [|by rewrite andb_false_r].
  rewrite andb_true_r. symmetry. apply bool_decide_eq_true. by injection E.
Qed.

Lemma stream_rows_agree j :
  j ∈ jobs db1 → mine u j = true → stream_rows db1 (j_id j) = stream_rows db2 (j_id j).
Proof.
  intros Hj Hm. rewrite !stream_rows_spec.
  assert (job_items_of db1 (j_id j) = job_items_of db2 (j_id j)) as E.
  { unfold job_items_of. f_equal. apply (ag_items _ _ _ Ha j Hj Hm). }
  rewrite <- E. apply map_ext_in. intros it Hit%list_elem_of_In%job_items_of_job. unfold spec_row, joined.
  destruct (ji_domain it); [|done]. rewrite Hit.
  by rewrite (find_row_of_job _ _ (job_domains db1)), (find_row_of_job _ _ (job_domains db2)), (ag_rows _ _ _ Ha j Hj Hm).
Qed.

Lemma recent_jobs_own db :
  recent_jobs db who
  = limit 50 (order_by (λ a b, Z.compare (j_created_at b) (j_created_at a)) (keep (mine u) (jobs db))).
Proof. unfold recent_jobs. f_equal. f_equal. apply keep_ext. intros j _. by rewrite Hnot_admin, Hu. Qed.

Lemma elem_of_recent db j : j ∈ recent_jobs db who → j ∈ jobs db ∧ mine u j = true.
Proof.
  rewrite recent_jobs_own. intros Hj. apply elem_of_keep, (elem_of_sort_by (λ x y, le_of (Z.compare (j_created_at y) (j_created_at x)))).
  unfold limit in Hj. by apply (subseteq_take 50) in Hj.
Qed.

Lemma recent_jobs_agree : recent_jobs db1 who = recent_jobs db2 who.
Proof. by rewrite !recent_jobs_own, (ag_jobs _ _ _ Ha). Qed.

Lemma recent_rows_own db :
  NoDup (map j_id (jobs db)) →
  let ids := map j_id (recent_jobs db who) in
  keep (λ j, mem (j_id j) ids) (jobs db) = keep (λ j, mem (j_id j) ids) (keep (mine u) (jobs db)).
Proof.
  intros Hn ids. rewrite keep_keep. apply keep_ext. intros j Hj.
  destruct (mem (j_id j) ids) eqn:E; [|by rewrite andb_false_r]. rewrite andb_true_r. symmetry.
  apply bool_decide_eq_true, list_elem_of_fmap in E as (k & Ek & [Hk Hm]%elem_of_recent).
  by rewrite (key_inj j_id (jobs db) j k).
Qed.

Lemma list_jobs_agree users now : list_jobs db1 users now who = list_jobs db2 users now who.
Proof.
  assert (list_progress db1 now (map j_id (recent_jobs db1 who))
          = list_progress db2 now (map j_id (recent_jobs db2 who))) as E.
  { unfold list_progress. rewrite (recent_rows_own db1 Hn1), (recent_rows_own db2 Hn2).
    rewrite <- recent_jobs_agree, <- (ag_jobs _ _ _ Ha). destruct (map j_id (recent_jobs _ _)); [done|].
    apply map_ext_in. intros j [[Hj Hm]%elem_of_keep _]%list_elem_of_In%elem_of_keep. f_equal.
    unfold progress_of. by rewrite (ag_rows _ _ _ Ha j Hj Hm). }
  unfold list_jobs. by rewrite E, recent_jobs_agree.
Qed.

Lemma recent_domains_agree id n : recent_domains db1 id n who = recent_domains db2 id n who.
Proof.
  apply bind_agree. intros j Hj Hm.
  assert (∀ db, keep (λ r, of_job (j_id j) r && state_is st_done r) (job_domains db)
                = keep (state_is st_done) (keep (of_job (j_id j)) (job_domains db))) as Hk.
  { intros db. by rewrite keep_keep. }
  by rewrite !Hk, (ag_rows _ _ _ Ha j Hj Hm).
Qed.
End two.

End person.

(** ** Requests on a job leave the other jobs alone *)

(** Jobs of others, and the queue rows of jobs other than [id], exactly as they were. *)
Definition others_kept (u : uuid) (id : uuid) (db db' : DB) : Prop :=
  keep (λ j, negb (mine u j)) (jobs db') = keep (λ j, negb (mine u j)) (jobs db) ∧
  (∀ k, k ≠ id → keep (of_job k) (job_domains db') = keep (of_job k) (job_domains db)) ∧
  job_items db' = job_items db ∧ domains db' = domains db.

Lemma others_kept_refl u id db : others_kept u id db db.
Proof. by split_and!. Qed.

Lemma others_kept_trans u id db1 db2 db3 :
  others_kept u id db1 db2 → others_kept u id db2 db3 → others_kept u id db1 db3.
Proof.
  intros (A1 & A2 & A3 & A4) (B1 & B2 & B3 & B4). split_and!; [congruence| |congruence..].
  intros k Hk. by rewrite B2, A2.
Qed.

Lemma keep_update_where {R} (q p : R → bool) (f : R → R) (t : list R) :
  (∀ x, x ∈ t → p x = true → q x = false ∧ q (f x) = false) → keep q (update_where p f t) = keep q t.
Proof.
  unfold update_where. induction t as [|x t IH]; intros H; [done|]. cbn.
  assert (keep q (map (λ r, if p r then f r else r) t) = keep q t) as Ht.
  { apply IH. intros y Hy. apply H. set_solver. }
  unfold keep in *. rewrite Ht. destruct (p x) eqn:E; [|done].
  destruct (H x ltac:(set_solver) E) as [-> ->]. done.
Qed.

Section own_job.
Context (u : uuid) (id : uuid).

(** Every job with this id is the person's own. *)
Definition owns_id (db : DB) : Prop := ∀ j, j ∈ jobs db → j_id j = id → mine u j = true.

Lemma others_kept_job_update db p (f : Job → Job) :
  owns_id db → (∀ j, p j = true → j_id j = id) → (∀ j, job_ident (f j) = job_ident j) →
  others_kept u id db (with_jobs db (update_where p f (jobs db))) ∧
  owns_id (with_jobs db (update_where p f (jobs db))).
Proof.
  intros Ho Hp Hf. assert (∀ j, mine u (f j) = mine u j ∧ j_id (f j) = j_id j) as Hm.
  { intros j. injection (Hf j) as Ei Eo _ _. unfold mine. by rewrite Eo. }
  split.
  - split_and!; try done. cbn. apply keep_update_where. intros j Hj Ep.
    by rewrite (proj1 (Hm j)), (Ho j Hj (Hp j Ep)).
  - intros j (x & Hx & ->)%elem_of_update_where Ej. destruct (p x); [|by apply Ho].
    destruct (Hm x) as [-> E]. apply Ho; [done|congruence].
Qed.

Lemma others_kept_row_update db p (f : JobDomain → JobDomain) :
  (∀ r, p r = true → jd_job_id r = id ∧ jd_job_id (f r) = id) →
  others_kept u id db (with_job_domains db (update_where p f (job_domains db))).
Proof.
  intros H. split_and!; try done. intros k Hk. cbn. apply keep_update_where. intros r _ Ep.
  destruct (H r Ep) as [H1 H2]. unfold of_job. rewrite !bool_decide_false by congruence. done.
Qed.

Lemma operate_others op db now : owns_id db → others_kept u id db (operate op db now id).2.
Proof.
  intros Ho. assert (∀ allowed new,
      others_kept u id db (transition db now id allowed new None).2 ∧ owns_id (transition db now id allowed new None).2)
    as Htr.
  { intros allowed new. unfold transition. cbn [snd]. apply others_kept_job_update; [done| |done].
    intros j Hj. by bool_to_prop. }
  destruct op; unfold operate, retry_job, resume_job, cancel_job.
  - assert (others_kept u id db (requeue_failed db now id).2) as Hr.
    { unfold requeue_failed. cbn [snd]. set (db1 := with_job_domains db _).
      assert (others_kept u id db db1) as H1.
      { apply others_kept_row_update. intros r Hr. apply retryable_row_true in Hr as [<- _]. done. }
      destruct (returning _ _) as [|r0 rs]; [done|]. eapply others_kept_trans; [exact H1|].
      apply others_kept_job_update; [done| |done]. intros x Hx. by bool_to_prop. }
    destruct (requeue_failed db now id). destruct (current_status db id) as [[]|]; try apply others_kept_refl; done.
  - specialize (Htr [job_paused] job_running). destruct (transition _ _ _ _ _ _) as [[m|] db1]; [|apply Htr].
    destruct Htr as [H1 H2]. assert (others_kept u id db1 (complete_if_finished db1 now id).2) as Hc.
    { unfold complete_if_finished. cbn [snd]. apply others_kept_job_update; [done| |done].
      intros j Hj. by bool_to_prop. }
    destruct (complete_if_finished db1 now id). cbn. by eapply others_kept_trans.
  - specialize (Htr ACTIVE_STATUSES job_cancelled). destruct (transition _ _ _ _ _ _) as [[m|] db1]; apply Htr.
Qed.
End own_job.

(** C14: people do not share jobs.  What someone who is not the administrator is shown (the
    job list, a job's status and counts, its recent domains, both downloads) is the same in
    any two databases that hold the same jobs of theirs, whatever anyone else has in them,
    and a job of someone else is reported like one that does not exist; their retry, resume
    and cancel requests leave every other person's jobs, and every queue row and input row of
    jobs not their own, exactly as they were. *)
Theorem people_do_not_share_jobs (who : Principal) (u : uuid) (db db2 : DB)
    (Hadm : pr_is_admin who = false) (Hu : pr_user_id who = Some u)
    (Hn : NoDup (map j_id (jobs db))) (Hn2 : NoDup (map j_id (jobs db2))) (Ha : agree u db db2)
    (now : instant) (id : string) :
  (∀ users, list_jobs db users now who = list_jobs db2 users now who) ∧
  get_job db now id who = get_job db2 now id who ∧
  (∀ n, recent_domains db id n who = recent_domains db2 id n who) ∧
  get_results_csv db id who = get_results_csv db2 id who ∧
  get_results_json db id who = get_results_json db2 id who ∧
  (∀ j, j ∈ jobs db → j_owner_id j ≠ Some u → parse_uuid id = Some (j_id j) →
        get_visible db id who = Raise (fault "job_not_found")) ∧
  (∀ op, let db' := (operator_request op db now id who).2 in
         keep (λ j, negb (mine u j)) (jobs db') = keep (λ j, negb (mine u j)) (jobs db) ∧
         (∀ j, j ∈ jobs db → mine u j = false →
               keep (of_job (j_id j)) (job_domains db') = keep (of_job (j_id j)) (job_domains db)) ∧
         job_items db' = job_items db ∧ domains db' = domains db).
Proof.
  pose proof (λ A, bind_agree (A := A) who u Hadm Hu db db2 Hn Hn2 Ha id) as Hb. split_and!.
  - intros users. by apply (list_jobs_agree who u).
  - apply Hb. intros j Hj Hm. by rewrite (job_counts_agree u db db2 Ha j Hj Hm).
  - intros n. by apply (recent_domains_agree who u).
  - apply Hb. intros j Hj Hm. unfold results_csv. by rewrite (stream_rows_agree u db db2 Ha j Hj Hm).
  - apply Hb. intros j Hj Hm. by rewrite (stream_rows_agree u db db2 Ha j Hj Hm).
  - intros j Hj Ho Hp. unfold get_visible. rewrite Hp, (find_row_unique j_id _ _ Hn Hj).
    rewrite (may_see_mine who u Hadm Hu). unfold mine. by rewrite bool_decide_false.
  - intros op db'. unfold db', operator_request.
    destruct (get_visible db id who) as [j|e] eqn:E; [|done].
    apply (get_visible_Return who u Hadm Hu) in E as (Hj & Hm & _).
    destruct (operate_others u (j_id j) op db now) as (H1 & H2 & H3 & H4).
    { intros k Hk Ek. by rewrite (key_inj j_id (jobs db) k j). }
    split_and!; try done. intros k Hk Hkm. apply H2. intros Ek.
    assert (k = j) as -> by (by apply (key_inj j_id (jobs db))). congruence.
Qed.

Definition sample_job (id : uuid) (owner : option uuid) : Job :=
  job_row 0 id 1 job_queued None
    {| n_source_columns := ["website"]; n_filename := None; n_website_column := Some "website";
       n_webhook_url := None; n_fresh := false; n_owner_id := owner;
       n_idempotency_key := None; n_idempotency_fingerprint := None |}.
Definition sample_person : Principal := mkPrincipal (Some 7%N) "Ana" false None.
Definition sample_two : DB :=
  {| jobs := [sample_job 1 (Some 8%N); sample_job 2 (Some 7%N)]; job_items := []; domains := [];
     job_domains := [new_row 0 1%N 0 "acme.com"; new_row 0 2%N 0 "foo.org"] |}.
Definition sample_one : DB :=
  {| jobs := [sample_job 2 (Some 7%N)]; job_items := []; domains := []; job_domains := [new_row 0 2%N 0 "foo.org"] |}.

Lemma people_do_not_share_jobs_witness :
  get_job sample_two 5 "00000000-0000-0000-0000-000000000002" sample_person
  = get_job sample_one 5 "00000000-0000-0000-0000-000000000002" sample_person ∧
  get_visible sample_two "00000000-0000-0000-0000-000000000001" sample_person = Raise (fault "job_not_found").
Proof.
  assert (agree 7%N sample_two sample_one) as Ha.
  { split; [reflexivity|..]; intros j Hj Hm; cbn in Hj;
      repeat (apply elem_of_cons in Hj as [->|Hj]; [try discriminate Hm; reflexivity|]); by apply elem_of_nil in Hj. }
  assert (NoDup (map j_id (jobs sample_two))) as H1 by (cbn; repeat constructor; set_solver).
  assert (NoDup (map j_id (jobs sample_one))) as H2 by (cbn; repeat constructor; set_solver).
  pose proof (people_do_not_share_jobs sample_person 7%N sample_two sample_one eq_refl eq_refl H1 H2 Ha 5) as H.
  split.
  - apply H.
  - destruct (H "00000000-0000-0000-0000-000000000001") as (_ & _ & _ & _ & _ & Hn & _).
    apply (Hn (sample_job 1 (Some 8%N))); [cbn; set_solver|done|vm_compute; reflexivity].
Defined.

(** ** The Content-Disposition header *)

(** Printable ASCII other than the quote and the backslash, which would end or escape the
    quoted file name. *)
Definition name_char (c : ascii) : bool :=
  between 32 126 c && negb (Ascii.eqb c "034"%char) && negb (Ascii.eqb c "092"%char).

(** Percent-decoding, as a browser reads the extended file name. *)
Fixpoint unquote (s : string) : list byte :=
  match s with
  | EmptyString => []
  | String c s1 =>
      if Ascii.eqb c "%" then
        match s1 with
        | String a (String b s2) => (hex_digit_value a * 16 + hex_digit_value b)%N :: unquote s2
        | _ => [code c]
        end
      else code c :: unquote s1
  end.

Lemma quote_byte_cases b :
  (b < 256)%N →
  (∃ c, quote_byte b = String c "" ∧ code c = b ∧ c ≠ "%"%char ∧ name_char c = true) ∨
  (∃ a d, quote_byte b = String "%" (String a (String d "")) ∧ (hex_digit_value a * 16 + hex_digit_value d)%N = b ∧
          name_char a = true ∧ name_char d = true).
Proof.
  intros Hb. set (P := λ b, 
    match quote_byte b with
    | String c "" => N.eqb (code c) b && negb (Ascii.eqb c "%") && name_char c
    | String p (String a (String d "")) =>
        Ascii.eqb p "%" && N.eqb (hex_digit_value a * 16 + hex_digit_value d) b && name_char a && name_char d
    | _ => false
    end).
  assert (forallb (λ n, P (N.of_nat n)) (seq 0 256) = true) as Hall by (vm_compute; reflexivity).
  rewrite forallb_forall in Hall. specialize (Hall (N.to_nat b)). rewrite N2Nat.id in Hall.
  assert (P b = true) as Hp by (apply Hall, in_seq; lia). unfold P in Hp. clear Hall P.
  destruct (quote_byte b) as [|c [|a [|d [|]]]]; try done; bool_to_prop.
  - left. exists c. split_and!; [done|by apply N.eqb_eq|by intros ->|done].
  - right. exists a, d. repeat match goal with H : Ascii.eqb _ _ = true |- _ => apply Ascii.eqb_eq in H; subst end.
    split_and!; [done|by apply N.eqb_eq|done..].
Qed.

Lemma quoted_bytes bs :
  Forall (λ b, (b < 256)%N) bs →
  let q := foldr (λ b acc, quote_byte b +:+ acc) "" bs in unquote q = bs ∧ str_all name_char q = true.
Proof.
  induction 1 as [|b bs Hb _ [IH1 IH2]]; [done|]. cbn [foldr].
  destruct (quote_byte_cases b Hb) as [(c & -> & Ec & Hp & Hn)|(a & d & -> & Ev & Ha & Hd)].
  - rewrite str_all_app. cbn. rewrite Hn, IH2, IH1. apply Ascii.eqb_neq in Hp. rewrite Hp, Ec. done.
  - rewrite str_all_app. cbn. rewrite Ha, Hd, IH1, IH2, Ev. done.
Qed.

Lemma attachment_char_ok c : name_char (attachment_char c) = true.
Proof. destruct c as [[] [] [] [] [] [] [] []]; vm_compute; reflexivity. Qed.

Lemma str_map_name s : str_all name_char (str_map attachment_char s) = true.
Proof. induction s as [|c s IH]; cbn; [done|]. by rewrite attachment_char_ok. Qed.

(** The header naming a download is one quoted ASCII name and one extended name,
    whatever the uploaded file was called: both consist of printable ASCII characters
    without quotes, backslashes or line breaks, so no file name can end the quoted name or
    add a header; percent-decoding the extended name gives the name's UTF-8 bytes back. *)
Theorem attachment_header_safe (filename : option string) (suffix : string) :
  ∃ ascii_name ext_name,
    attachment filename suffix
    = "attachment; filename=" +:+ dq +:+ ascii_name +:+ dq +:+ "; filename*=UTF-8''" +:+ ext_name ∧
    str_all name_char ascii_name = true ∧ str_all name_char ext_name = true ∧
    String.length ascii_name = String.length (attachment_name filename suffix) ∧
    unquote ext_name = utf8 (attachment_name filename suffix).
Proof.
  exists (str_map attachment_char (attachment_name filename suffix)), (url_quote (attachment_name filename suffix)).
  destruct (quoted_bytes _ (utf8_bytes (attachment_name filename suffix))) as [H1 H2].
  split_and!; [done|apply str_map_name|exact H2| |exact H1].
  induction (attachment_name filename suffix) as [|c s IH]; cbn; [done|]. f_equal. apply IH.
  all: destruct (quoted_bytes _ (utf8_bytes s)) as [H3 H4]; done.
Qed.
