(* ===== verification/Api.v ===== *)
(** * The HTTP API ([src/app/main.py])

    Request limits, uploads, creating a job (once per Idempotency-Key), access to jobs,
    listings, downloads and the estimate.  A handler takes the authenticated caller and the
    database and returns its reply with the database it leaves; job creation of one person
    is serialised by an advisory lock held to its commit, so it is one step.  What the
    framework makes of a body (the multipart form, the JSON document after validation) is an
    argument. *)

From Stdlib Require Import ZArith NArith QArith Ascii String Lia.
From stdpp Require Import base strings pretty option sets list.
From S2P Require Import Prelude PyStr Sql Csv Models Regex Url Emails Normalize Queue Jobs QueueInv Transitions Errors Sha256 Json IpAddress NetGuard Webhook Auth Ingest.

Definition MAX_ITEMS_PER_JOB : Z := 50000.
Definition IDEMPOTENCY_KEY_MAX : nat := 200.
Definition mib : Z := 1024 * 1024.

(** ** Body size *)

Definition BODY_LIMIT (cfg : Settings) : Z := (max_upload_bytes cfg + mib)%Z.

(** [str.isdigit] and [int]: [None] when [int] refuses what [isdigit] accepted. *)
Definition dec_of (s : string) : Z :=
  fold_left (λ acc c, acc * 10 + (Z.of_N (N_of_ascii c) - 48))%Z (list_ascii_of_string s) 0%Z.

(** What the middleware does with a request: refuse it unread, or pass on the chunks of the
    body until one goes over the limit. *)
Inductive Passed := RefusedUnread | PassedOn (chunks : list nat) | CutOff (chunks : list nat).

Fixpoint limited_receive (limit seen : Z) (chunks : list nat) : list nat * bool :=
  match chunks with
  | [] => ([], true)
  | c :: rest =>
      let seen' := (seen + Z.of_nat c)%Z in
      if Z.ltb limit seen' then ([], false)
      else let '(got, ok) := limited_receive limit seen' rest in (c :: got, ok)
  end.

(** [declared.isdigit()] is on bytes here, so ASCII digits only. *)
Definition body_size_limit (limit : Z) (declared : option string) (chunks : list nat) : Passed :=
  if match declared with
     | Some d => nonempty d && str_all is_digit09 d && Z.ltb limit (dec_of d)
     | None => false
     end
  then RefusedUnread
  else let '(got, ok) := limited_receive limit 0 chunks in if ok then PassedOn got else CutOff got.

(** ** Upload slots *)

Record Slots := mkSlots { sl_free : nat; sl_held : nat }.

Definition new_slots (cfg : Settings) : Slots := mkSlots (Z.to_nat (Z.max 1 (max_concurrent_uploads cfg))) 0.

(** A waiter gets a slot, or times out. *)
Definition upload_slot (s : Slots) : Reply Slots :=
  match sl_free s with
  | O => Raise (fault_after "busy" 10)
  | S n => Return (mkSlots n (S (sl_held s)))
  end.

Definition release_slot (s : Slots) : Slots := mkSlots (S (sl_free s)) (pred (sl_held s)).

(** ** Uploads *)

Record UploadFile := mkUpload { up_bytes : string; up_filename : option string }.

Inductive FormValue := FormStr (s : string) | FormFile (f : UploadFile).

Abbreviation form := (list (string * FormValue)).

Definition form_str (f : form) (name : string) : option string :=
  match dict_get f name with Some (FormStr s) => if nonempty s then Some s else None | _ => None end.

Definition is_multipart (content_type : option string) : bool :=
  startswith (lower (default "" content_type)) "multipart/form-data".

(** The multipart body; the parser's own refusal is a 400. *)
Definition read_form (cfg : Settings) (content_type content_length : option string) (parsed : option form)
    : Reply form :=
  if negb (is_multipart content_type) then Raise (fault "validation_error")
  else
    let go := match parsed with Some f => Return f | None => Raise (fault "invalid_request") end in
    match content_length with
    | Some d =>
        if isdigit d then
          if negb (str_all is_digit09 d) then Raise (fault "internal_error")
          else if Z.ltb (max_upload_bytes cfg + 65536) (dec_of d) then Raise (fault "file_too_large")
          else go
        else go
    | None => go
    end.

Definition read_upload (cfg : Settings) (f : UploadFile) : Reply (string * string) :=
  if Z.ltb (max_upload_bytes cfg) (Z.of_nat (String.length (up_bytes f))) then Raise (fault "file_too_large")
  else Return (up_bytes f, if str_truthy (up_filename f) then default "" (up_filename f) else "upload.csv").

Section api.
Context `{Tld} `{Idna} `{Codecs} `{Sheets}.

Definition parse_upload (cfg : Settings) (file : option FormValue) : Reply (string * string * ParsedFile) :=
  match file with
  | Some (FormFile f) =>
      reply_bind (read_upload cfg f) (λ '(raw, filename),
        match parse_bytes raw filename with
        | Failed code => Raise (fault code)
        | Escaped => Raise (fault "internal_error")
        | Fine parsed => Return (raw, filename, parsed)
        end)
  | _ => Raise (fault "validation_error")
  end.

(** [column and column not in parsed.headers] *)
Definition unknown_column (parsed : ParsedFile) (col : option string) : bool :=
  str_truthy col && negb (mem (default "" col) (pf_headers parsed)).

Definition jobs_preview (cfg : Settings) (content_type content_length : option string) (parsed_form : option form)
    : Reply (string * Preview) :=
  reply_bind (read_form cfg content_type content_length parsed_form) (λ f,
    let col := form_str f "column" in
    reply_bind (parse_upload cfg (dict_get f "file")) (λ '(_, filename, parsed),
      if unknown_column parsed col then Raise (fault "unknown_column")
      else Return (filename, preview parsed (detect_column parsed) 5 col))).

(** ** Creating a job *)

(** What [request.json()] and the validation of its result give; reading the body of a
    request whose stream was already consumed is a RuntimeError. *)
Inductive JsonBody :=
  | BadJson
  | BadShape
  | BodyConsumed
  | JobBody (items : list string) (webhook_url : option string) (fresh : bool).

Inductive JobRequest :=
  | UploadRequest (content_length : option string) (parsed_form : option form)
  | JsonRequest (body : JsonBody).

Definition TRUE_WORDS : list string := ["1"; "true"; "yes"; "on"].

(** Everything read from the request: the rows, the columns, the name, the chosen column,
    the webhook, the freshness and the content the fingerprint covers. *)
Record Submission := mkSubmission {
  sb_items : list PreparedItem;
  sb_columns : list string;
  sb_filename : option string;
  sb_chosen : string;
  sb_webhook : option string;
  sb_fresh : bool;
  sb_content : list byte
}.

Definition json_opt (s : option string) : json := match s with Some x => JStr x | None => JNull end.

Definition fingerprint (content : list byte) (col : option string) (fresh : bool) (webhook_url : option string) : string :=
  hexdigest (content ++ utf8 (dumps (JArr [json_opt col; JBool fresh; json_opt webhook_url]))).

(** The bytes of an upload. *)
Definition raw_bytes (s : string) : list byte := map code (list_ascii_of_string s).

Definition read_file_submission (cfg : Settings) (file : option FormValue) (col webhook : option string) (fresh : bool)
    : Reply Submission :=
  reply_bind (parse_upload cfg file) (λ '(raw, filename, parsed),
    let guess := detect_column parsed in
    if unknown_column parsed col then Raise (fault "unknown_column")
    else
      match chosen_column col guess with
      | None => Raise (fault "no_website_column")
      | Some chosen =>
          if negb (nonempty chosen) then Raise (fault "no_website_column")
          else
            match prepare_items parsed guess (Some chosen) with
            | None => Raise (fault "internal_error")
            | Some items =>
                Return (mkSubmission items (pf_headers parsed) (Some filename) chosen webhook fresh (raw_bytes raw))
            end
      end).

Definition read_json_submission (body : JsonBody) : Reply Submission :=
  match body with
  | BadJson => Raise (fault "invalid_json")
  | BadShape => Raise (fault "validation_error")
  | BodyConsumed => Raise (fault "internal_error")
  | JobBody items webhook fresh =>
      if Z.ltb MAX_ITEMS_PER_JOB (Z.of_nat (length items)) then Raise (fault "too_many_rows")
      else Return (mkSubmission (prepare_plain items) ["website"] None "website" webhook fresh
                                (utf8 (dumps (JArr (map JStr items)))))
  end.

(** A multipart request whose form has no file part falls through to the JSON branch, where
    the stream has been consumed by the form parser. *)
Definition read_submission (cfg : Settings) (req : JobRequest) : Reply Submission :=
  match req with
  | UploadRequest content_length parsed_form =>
      reply_bind (read_form cfg (Some "multipart/form-data") content_length parsed_form) (λ f,
        match dict_get f "file" with
        | None => read_json_submission BodyConsumed
        | Some file =>
            read_file_submission cfg (Some file) (form_str f "column") (form_str f "webhook_url")
              (mem (lower (default "" (form_str f "fresh"))) TRUE_WORDS)
        end)
  | JsonRequest body => read_json_submission body
  end.

Record CreateReply := mkCreateReply {
  cr_job_id : uuid;
  cr_total : Z;
  cr_unique_domains : Z;
  cr_cached : Z;
  cr_queued : Z;
  cr_replayed : bool
}.

(** Whose job it is, as the lookup compares it: NULL for the bootstrap key. *)
Definition owned_by (who : Principal) (j : Job) : bool :=
  match pr_user_id who with None => is_null (j_owner_id j) | Some u => null_eq (j_owner_id j) u end.

Definition find_replay (db : DB) (who : Principal) (key : string) : option Job :=
  head (keep (λ j, null_eq (j_idempotency_key j) key && owned_by who j) (jobs db)).

Definition replay (db : DB) (who : Principal) (key fp : string) : option (Reply CreateReply) :=
  match find_replay db who key with
  | None => None
  | Some job =>
      if str_truthy (j_idempotency_fingerprint job)
         && negb (bool_decide (j_idempotency_fingerprint job = Some fp))
      then Some (Raise (fault "idempotency_conflict"))
      else
        let k := job_counts db (j_id job) in
        Some (Return (mkCreateReply (j_id job) (k_total k) (k_unique_domains k) (k_cached k)
                                    (k_unique_domains k - k_cached k) true))
  end.

Definition active_jobs (db : DB) (who : Principal) : Z :=
  zcount (λ j, match pr_user_id who with Some u => null_eq (j_owner_id j) u | None => false end
               && mem (j_status j) ACTIVE_STATUSES) (jobs db).

Definition bad_idempotency_key (key : option string) : bool :=
  match key with
  | Some k => negb (nonempty k && Nat.leb (String.length k) IDEMPOTENCY_KEY_MAX)
  | None => false
  end.

(** The transaction: everything after the request has been read. *)
Definition create_submitted (cfg : Settings) (getaddrinfo : string → Z → AddrInfo) (who : Principal)
    (key : option string) (now : instant) (new_id : uuid) (sb : Submission) (db : DB) : Reply CreateReply * DB :=
  let fp := fingerprint (sb_content sb) (Some (sb_chosen sb)) (sb_fresh sb) (sb_webhook sb) in
  if Z.ltb MAX_ITEMS_PER_JOB (Z.of_nat (length (sb_items sb))) then (Raise (fault "too_many_rows"), db)
  else if Nat.eqb (length (sb_items sb)) 0 then (Raise (fault "no_rows"), db)
  else if bad_idempotency_key key then (Raise (fault "validation_error"), db)
  else
    match (match key with Some k => replay db who k fp | None => None end) with
    | Some r => (r, db)
    | None =>
        match validate_webhook_url cfg getaddrinfo (sb_webhook sb) with
        | UrlRejected => (Raise (fault "invalid_webhook_url"), db)
        | UrlCrashed => (Raise (fault "internal_error"), db)
        | UrlAccepted =>
            if negb (pr_is_admin who) && Z.leb (max_active_jobs_per_user cfg) (active_jobs db who)
            then (Raise (fault "job_limit_reached"), db)
            else
              let '((job, to_run, cached), db') :=
                create_job cfg db now new_id (sb_items sb)
                  {| n_source_columns := sb_columns sb; n_filename := sb_filename sb;
                     n_website_column := Some (sb_chosen sb); n_webhook_url := sb_webhook sb;
                     n_fresh := sb_fresh sb; n_owner_id := pr_user_id who; n_idempotency_key := key;
                     n_idempotency_fingerprint := match key with Some _ => Some fp | None => None end |} in
              (Return (mkCreateReply (j_id job) (Z.of_nat (length (sb_items sb)))
                         (Z.of_nat (length to_run + length cached)) (Z.of_nat (length cached))
                         (Z.of_nat (length to_run)) false), db')
        end
    end.

Definition post_jobs (cfg : Settings) (getaddrinfo : string → Z → AddrInfo) (who : Principal) (key : option string)
    (now : instant) (new_id : uuid) (req : JobRequest) (db : DB) : Reply CreateReply * DB :=
  match read_submission cfg req with
  | Raise e => (Raise e, db)
  | Return sb => create_submitted cfg getaddrinfo who key now new_id sb db
  end.
End api.
