(* ===== verification/ApiProps.v ===== *)
(** * Properties of the HTTP API

    Which codes a caller can see and that a refusal changes nothing, that a retried request
    finds the job it made, the limits on bodies, uploads and unfinished jobs, that people do
    not see or touch each other's jobs, and what a download is called. *)

From Stdlib Require Import ZArith NArith QArith Ascii String Lia.
From stdpp Require Import base strings pretty option sets list.
From S2P Require Import Prelude PyStr Sql Csv Models Regex Url Emails Normalize Queue QueueInv Jobs JobsProps Transitions Frame System Errors Sha256 Json IpAddress NetGuard Webhook Auth Ingest IngestProps Access Api.

(** ** Codes *)

Lemma reply_bind_listed {A B} (r : Reply A) (k : A → Reply B) :
  reply_listed r → (∀ a, reply_listed (k a)) → reply_listed (reply_bind r k).
Proof. destruct r; cbn; auto. Qed.

Ltac refused := repeat first [ listed | apply reply_bind_listed; [|intros] | break ].

(** A refusal carries a listed code and leaves the database alone. *)
Definition refuses_cleanly {A} (db : DB) (out : Reply A * DB) : Prop :=
  match out with (Raise e, db') => listed (f_code e) ∧ db' = db | (Return _, _) => True end.

Section codes.
Context `{Tld} `{Idna} `{Codecs} `{Sheets}.

Lemma read_form_listed cfg ct cl f : reply_listed (read_form cfg ct cl f).
Proof. unfold read_form. refused. Qed.

Lemma parse_upload_listed cfg file : reply_listed (parse_upload cfg file).
Proof.
  unfold parse_upload. destruct file as [[s|f]|]; [listed| |listed].
  apply reply_bind_listed; [unfold read_upload; refused|]. intros [raw filename].
  pose proof (parse_bytes_cases raw filename) as Hp. destruct (parse_bytes raw filename); [exact I|exact Hp|by eexists].
Qed.

Lemma jobs_preview_listed cfg ct cl f : reply_listed (jobs_preview cfg ct cl f).
Proof.
  unfold jobs_preview. apply reply_bind_listed; [apply read_form_listed|]. intros form_.
  apply reply_bind_listed; [apply parse_upload_listed|]. intros [[raw name] parsed]. refused.
Qed.

Lemma read_submission_listed cfg req : reply_listed (read_submission cfg req).
Proof.
  assert (∀ b, reply_listed (read_json_submission b)) as Hj by (intros []; cbn; refused).
  destruct req as [cl f|b]; [|apply Hj]. cbn [read_submission].
  apply reply_bind_listed; [apply read_form_listed|]. intros form_.
  destruct (dict_get form_ "file") as [file|]; [|apply Hj]. unfold read_file_submission.
  apply reply_bind_listed; [apply parse_upload_listed|]. intros [[raw name] parsed]. refused.
Qed.

Lemma create_submitted_refuses cfg gai who key now id sb db :
  refuses_cleanly db (create_submitted cfg gai who key now id sb db).
Proof.
  unfold create_submitted. do 3 (break; [split; [listed|done]|]).
  destruct (match key with Some k => _ | None => None end) as [r|] eqn:E.
  { destruct key as [k|]; [|done]. unfold replay in E.
    destruct (find_replay db who k); [|done]. break_in E; injection E as <-; [split; [listed|done]|done]. }
  destruct (validate_webhook_url cfg gai (sb_webhook sb)); [|split; [listed|done]..].
  break; [split; [listed|done]|]. by destruct (create_job _ _ _ _ _ _) as [[[??]?]?].
Qed.
End codes.

Lemma get_visible_listed db id who : reply_listed (get_visible db id who).
Proof. unfold get_visible. refused. Qed.

Lemma with_jobs_same db : with_jobs db (jobs db) = db.
Proof. by destruct db. Qed.

Lemma transition_None db now id allowed new reason db' :
  transition db now id allowed new reason = (None, db') → db' = db.
Proof.
  unfold transition. destruct (any _ (jobs db)) eqn:E; [done|]. intros [= <-].
  by rewrite update_where_none, with_jobs_same.
Qed.

Lemma operate_refuses op db now id : refuses_cleanly db (operate op db now id).
Proof.
  destruct op; unfold operate, retry_job, resume_job, cancel_job.
  - destruct (current_status db id) as [[]|]; try (split; [listed|done]);
      by destruct (requeue_failed db now id).
  - destruct (transition _ _ _ _ _ _) as [[m|] db1] eqn:E.
    + by destruct (complete_if_finished db1 now id).
    + apply transition_None in E as ->. split; [listed|done].
  - destruct (transition _ _ _ _ _ _) as [[m|] db1] eqn:E; [done|].
    apply transition_None in E as ->. split; [listed|done].
Qed.

(** C21: whatever a request of the jobs API is refused for, the code is one of the documented
    table, so it gets that code's status and not a crash inside the error handler, and a
    refused creation, retry, resume or cancel leaves the database exactly as it was. *)
Theorem refusals_are_clean `{Tld} `{Idna} `{Codecs} `{Sheets}
    (cfg : Settings) (gai : string → Z → AddrInfo) (who : Principal) (now : instant) (db : DB) :
  (∀ key new_id req, refuses_cleanly db (post_jobs cfg gai who key now new_id req db)) ∧
  (∀ op job_id, refuses_cleanly db (operator_request op db now job_id who)) ∧
  (∀ ct cl f, reply_listed (jobs_preview cfg ct cl f)) ∧
  (∀ job_id, reply_listed (get_job db now job_id who)) ∧
  (∀ job_id n, reply_listed (recent_domains db job_id n who)) ∧
  (∀ job_id, reply_listed (get_results_csv db job_id who) ∧ reply_listed (get_results_json db job_id who)) ∧
  (∀ n empty, reply_listed (estimate cfg db now who n empty)).
Proof.
  split_and!.
  - intros key new_id req. unfold post_jobs. pose proof (read_submission_listed cfg req) as Hr.
    destruct (read_submission cfg req); [apply create_submitted_refuses|done].
  - intros op job_id. unfold operator_request. pose proof (get_visible_listed db job_id who) as Hv.
    destruct (get_visible db job_id who); [apply operate_refuses|done].
  - intros. apply jobs_preview_listed.
  - intros. apply reply_bind_listed; [apply get_visible_listed|done].
  - intros. apply reply_bind_listed; [apply get_visible_listed|done].
  - intros. split; (apply reply_bind_listed; [apply get_visible_listed|done]).
  - intros. unfold estimate. refused.
Qed.

(** ** Creating a job once *)

Lemma hexdigest_nonempty msg : nonempty (hexdigest msg) = true.
Proof.
  unfold hexdigest. pose proof (length_sha256 msg) as Hl. by destruct (sha256 msg) as [|b l].
Qed.

(** Jobs looked up by what never changes about them. *)
Definition asked (who : Principal) (key : string) (i : uuid * option uuid * option string * option string) : bool :=
  let '(_, owner, k, _) := i in
  null_eq k key && match pr_user_id who with None => is_null owner | Some u => null_eq owner u end.

Lemma head_keep_map {A B} (f : A → B) (p : B → bool) (l : list A) :
  f <$> head (keep (λ x, p (f x)) l) = head (keep p (map f l)).
Proof. induction l as [|x l IH]; [done|]. cbn. by destruct (p (f x)). Qed.

Lemma find_replay_ident db who key :
  job_ident <$> find_replay db who key = head (keep (asked who key) (map job_ident (jobs db))).
Proof. apply (head_keep_map job_ident (asked who key)). Qed.

Lemma find_replay_stays db db' who key j :
  rows_stay db db' → find_replay db who key = Some j →
  ∃ j', find_replay db' who key = Some j' ∧ job_ident j' = job_ident j.
Proof.
  intros Hs Hf. pose proof (find_replay_ident db who key) as E. rewrite Hf in E.
  pose proof (find_replay_ident db' who key) as E'. destruct (fr_ident _ _ Hs) as [l El].
  rewrite El, keep_app in E'. destruct (keep (asked who key) (map job_ident (jobs db))); [done|].
  cbn in E, E'. destruct (find_replay db' who key) as [j'|]; [|done]. exists j'. split; [done|].
  cbn in E'. congruence.
Qed.

Lemma find_replay_Some db who key j :
  find_replay db who key = Some j → j ∈ jobs db ∧ j_idempotency_key j = Some key ∧ owned_by who j = true.
Proof.
  unfold find_replay. intros H.
  assert (j ∈ keep (λ j, null_eq (j_idempotency_key j) key && owned_by who j) (jobs db)) as Hj.
  { destruct (keep _ (jobs db)); [done|]. injection H as <-. set_solver. }
  apply elem_of_keep in Hj as [Hj [Hk Ho]%andb_true_iff]. split_and!; try done.
  by apply bool_decide_eq_true in Hk.
Qed.

(** The queue rows of a job are counted alike in every later state. *)
Lemma rows_stay_count issued issued' db db' id :
  db_ok issued db → db_ok issued' db' → rows_stay db db' → known db id →
  length (keep (of_job id) (job_domains db')) = length (keep (of_job id) (job_domains db)).
Proof.
  intros H H' Hs Hk. rewrite <- (length_map jd_key (keep _ (job_domains db'))).
  rewrite <- (length_map jd_key (keep _ (job_domains db))). apply Permutation_length.
  assert (∀ t, NoDup (map jd_key t) → NoDup (map jd_key (keep (of_job id) t))) as Hn.
  { intros t. induction t as [|r t IH]; [done|]. cbn. intros [Hni Hnd]%NoDup_cons.
    destruct (of_job id r); [|by apply IH]. constructor; [|by apply IH].
    intros (x & E & [Hx _]%elem_of_keep)%list_elem_of_fmap. apply Hni, list_elem_of_fmap. eauto. }
  apply NoDup_Permutation; [apply Hn, H'|apply Hn, H|]. intros k. rewrite !list_elem_of_fmap. split.
  - intros (r & -> & [Hr Ho]%elem_of_keep). apply bool_decide_eq_true in Ho.
    destruct (fr_new _ _ Hs r Hr) as [(r0 & Hr0 & E)|Hn0]; [|by rewrite Ho in Hn0].
    exists r0. split; [done|]. apply elem_of_keep. split; [done|]. apply bool_decide_eq_true.
    by rewrite (jd_key_job _ _ E).
  - intros (r & -> & [Hr Ho]%elem_of_keep). apply bool_decide_eq_true in Ho.
    destruct (fr_old _ _ Hs r Hr) as (r0 & Hr0 & E). exists r0. split; [done|].
    apply elem_of_keep. split; [done|]. apply bool_decide_eq_true. by rewrite (jd_key_job _ _ E).
Qed.

Lemma steps_stay cfg be ls s s' :
  steps cfg be ls s s' → sys_ok s → sys_ok s' ∧ rows_stay (s_db s) (s_db s').
Proof.
  induction 1 as [|ls s s1 l s2 H IH Hs]; intros Hok; [split; [done|apply rows_stay_refl]|].
  destruct (IH Hok) as [Hok1 H1]. pose proof (step_keeps_all _ _ _ _ _ Hs Hok1) as Hk. split; [apply Hk|].
  eapply rows_stay_trans; [exact H1|apply Hk].
Qed.

Definition fp_of (sb : Submission) : string :=
  fingerprint (sb_content sb) (Some (sb_chosen sb)) (sb_fresh sb) (sb_webhook sb).

(** The size checks that come before the database is asked. *)
Definition in_limits (key : option string) (sb : Submission) : Prop :=
  Z.ltb MAX_ITEMS_PER_JOB (Z.of_nat (length (sb_items sb))) = false ∧
  Nat.eqb (length (sb_items sb)) 0 = false ∧ bad_idempotency_key key = false.

Definition new_job_of (who : Principal) (key : option string) (sb : Submission) : NewJob :=
  {| n_source_columns := sb_columns sb; n_filename := sb_filename sb; n_website_column := Some (sb_chosen sb);
     n_webhook_url := sb_webhook sb; n_fresh := sb_fresh sb; n_owner_id := pr_user_id who;
     n_idempotency_key := key; n_idempotency_fingerprint := match key with Some _ => Some (fp_of sb) | None => None end |}.

(** The answer to a request that created a job. *)
Definition created (sb : Submission) (out : Job * list string * list string) : CreateReply :=
  let '(job, to_run, cached) := out in
  mkCreateReply (j_id job) (Z.of_nat (length (sb_items sb))) (Z.of_nat (length to_run + length cached))
                (Z.of_nat (length cached)) (Z.of_nat (length to_run)) false.

Definition replayed_reply (db : DB) (j : Job) : CreateReply :=
  let k := job_counts db (j_id j) in
  mkCreateReply (j_id j) (k_total k) (k_unique_domains k) (k_cached k) (k_unique_domains k - k_cached k) true.

Definition fp_matches (j : Job) (sb : Submission) : bool :=
  negb (str_truthy (j_idempotency_fingerprint j)
        && negb (bool_decide (j_idempotency_fingerprint j = Some (fp_of sb)))).

(** A request that found the job of an earlier one. *)
Lemma create_submitted_again cfg gai who k now id sb db j :
  in_limits (Some k) sb → find_replay db who k = Some j →
  create_submitted cfg gai who (Some k) now id sb db
  = (if fp_matches j sb then Return (replayed_reply db j) else Raise (fault "idempotency_conflict"), db).
Proof.
  intros (H1 & H2 & H3) Hf. unfold create_submitted. rewrite H1, H2, H3. unfold replay. rewrite Hf.
  unfold fp_matches, fp_of. by destruct (str_truthy _ && _).
Qed.

(** A request that was answered: it found its job, or made it. *)
Lemma create_submitted_cases cfg gai who key now id sb db r db' :
  create_submitted cfg gai who key now id sb db = (Return r, db') →
  in_limits key sb ∧
  ((∃ k j, key = Some k ∧ find_replay db who k = Some j ∧ fp_matches j sb = true ∧
           r = replayed_reply db j ∧ db' = db) ∨
   ((∀ k, key = Some k → find_replay db who k = None) ∧
    (pr_is_admin who = true ∨ (active_jobs db who < max_active_jobs_per_user cfg)%Z) ∧
    validate_webhook_url cfg gai (sb_webhook sb) = UrlAccepted ∧
    r = created sb (create_job cfg db now id (sb_items sb) (new_job_of who key sb)).1 ∧
    db' = (create_job cfg db now id (sb_items sb) (new_job_of who key sb)).2)).
Proof.
  unfold create_submitted, in_limits. break; [done|]. break; [done|]. break; [done|]. intros H.
  split; [done|]. destruct (match key with Some k => _ | None => None end) as [o|] eqn:E.
  - left. destruct key as [k|]; [|done]. unfold replay in E. destruct (find_replay db who k) as [j|] eqn:Ef; [|done].
    exists k, j. unfold fp_matches, fp_of. break_in E; injection E as <-; [done|].
    injection H as <- <-. by split_and!.
  - right. split.
    { intros k ->. unfold replay in E. destruct (find_replay db who k) as [j|]; [|done]. by break_in E. }
    destruct (validate_webhook_url _ _ _); [|done..]. break_in H; [done|]. split.
    { apply andb_false_iff in Heqb2 as [Hb|Hb]; [left; by apply negb_false_iff|right]. by apply Z.leb_gt. }
    split; [done|]. unfold new_job_of, fp_of. destruct (create_job _ _ _ _ _ _) as [[[job to_run] cached] db1].
    by injection H as <- <-.
Qed.

Lemma create_job_ident cfg db now id items a :
  map job_ident (jobs (create_job cfg db now id items a).2)
  = map job_ident (jobs db) ++ [(id, n_owner_id a, n_idempotency_key a, n_idempotency_fingerprint a)]
  ∧ job_ident (create_job cfg db now id items a).1.1.1
    = (id, n_owner_id a, n_idempotency_key a, n_idempotency_fingerprint a).
Proof. unfold create_job. cbn. rewrite map_app. by destruct (unique_domains items). Qed.

(** Input rows belong to jobs. *)
Definition items_known (db : DB) : Prop := ∀ it, it ∈ job_items db → known db (ji_job_id it).

Lemma reachable_items cfg be s : reachable cfg be s → items_known (s_db s).
Proof.
  intros (now & ls & H). destruct (steps_stay _ _ _ _ _ H) as [_ Hs].
  { split; [apply db_ok_empty|]. cbn. set_solver. }
  intros it Hit. destruct (fr_new_items _ _ Hs it Hit) as [Hold|]; [|done]. by apply elem_of_nil in Hold.
Qed.

Lemma items_of_item_rows id items : items_of id (map (item_row id) items) = map (item_row id) items.
Proof.
  apply keep_all. intros it (x & -> & _)%list_elem_of_fmap. by apply bool_decide_eq_true.
Qed.

(** The input rows of a new job are those submitted. *)
Lemma created_items cfg db now id items a :
  items_known db → ¬ known db id →
  items_of id (job_items (create_job cfg db now id items a).2) = map (item_row id) items.
Proof.
  intros Hit Hk. unfold create_job. cbn [snd job_items]. unfold items_of. rewrite keep_app, keep_none.
  - rewrite <- concat_map, concat_chunks by lia. apply items_of_item_rows.
  - intros it Hin. apply bool_decide_eq_false. intros <-. by apply Hk, Hit.
Qed.

Lemma created_counts cfg issued db now id who key sb :
  db_ok issued db → items_known db → ¬ known db id →
  let out := create_job cfg db now id (sb_items sb) (new_job_of who key sb) in
  k_total (job_counts out.2 id) = cr_total (created sb out.1) ∧
  k_unique_domains (job_counts out.2 id) = cr_unique_domains (created sb out.1) ∧
  cr_job_id (created sb out.1) = id.
Proof.
  intros Hok Hit Hk out. assert (find_row j_id id (jobs db) = None) as Hf.
  { apply find_row_None. intros j Hj E. apply Hk. by exists j. }
  pose proof (create_job_rows cfg issued db now id (sb_items sb) (new_job_of who key sb) Hok Hf) as Hr.
  pose proof (create_job_splits cfg issued db now id (sb_items sb) (new_job_of who key sb) Hok) as Hl.
  pose proof (create_job_ident cfg db now id (sb_items sb) (new_job_of who key sb)) as [_ Hi].
  assert (items_of id (job_items out.2) = map (item_row id) (sb_items sb)) as Hitems by by apply created_items.
  fold out in Hr, Hl, Hi. clearbody out. destruct out as [[[job to_run] cached] db'].
  cbn -[items_of] in *. unfold items_of in Hitems. rewrite Hitems, Hr, length_map. split_and!; [done| |].
  - assert (∀ ds seq, length (rows_from now id seq ds) = length ds) as Hlen.
    { induction ds as [|d ds IH]; intros seq; cbn; [done|]. by rewrite IH. }
    rewrite Hlen. lia.
  - by injection Hi.
Qed.

(** The job a request with key [k] was answered with, as later requests find it. *)
Lemma answered_job cfg gai who k now id sb db r db' issued :
  db_ok issued db → items_known db → ¬ known db id →
  create_submitted cfg gai who (Some k) now id sb db = (Return r, db') →
  db_ok issued db' ∧ in_limits (Some k) sb ∧
  ∃ j, find_replay db' who k = Some j ∧ fp_matches j sb = true ∧ j_id j = cr_job_id r ∧
       k_total (job_counts db' (j_id j)) = cr_total r ∧
       k_unique_domains (job_counts db' (j_id j)) = cr_unique_domains r ∧
       (cr_replayed r = false → j_idempotency_fingerprint j = Some (fp_of sb)).
Proof.
  intros Hok Hit Hk Hc. apply create_submitted_cases in Hc as [Hl [(k' & j & [= <-] & Hf & Hm & -> & ->)|
    (Hf & _ & _ & -> & ->)]]; [by split_and!; [..|exists j; split_and!]|].
  specialize (Hf k eq_refl). split; [|split; [done|]].
  { apply create_job_ok; [done|]. intros j Hj E. apply Hk. by exists j. }
  pose proof (created_counts cfg issued db now id who (Some k) sb Hok Hit Hk) as (H1 & H2 & H3).
  pose proof (create_job_ident cfg db now id (sb_items sb) (new_job_of who (Some k) sb)) as [Hids _].
  set (out := create_job _ _ _ _ _ _) in *. clearbody out.
  pose proof (find_replay_ident db who k) as E. rewrite Hf in E.
  pose proof (find_replay_ident out.2 who k) as E'. rewrite Hids, keep_app in E'.
  destruct (keep (asked who k) (map job_ident (jobs db))); [|done]. cbn [app] in E'.
  assert (asked who k (id, pr_user_id who, Some k, Some (fp_of sb)) = true) as Ha.
  { cbn. unfold null_eq. rewrite bool_decide_true by done. cbn. destruct (pr_user_id who); [|done].
    by apply bool_decide_eq_true. }
  change (keep (asked who k) [_]) with
    (if asked who k (id, pr_user_id who, Some k, Some (fp_of sb))
     then [(id, pr_user_id who, Some k, Some (fp_of sb))] else []) in E'. rewrite Ha in E'.
  destruct (find_replay out.2 who k) as [j|]; [|done]. exists j. injection E' as <- _ _ Hfp.
  split_and!; try done. unfold fp_matches. rewrite Hfp, bool_decide_true by done. by rewrite andb_false_r.
Qed.

(** The state after a request left the database [db]. *)
Definition after (s : Sys) (db : DB) : Sys := mkSys db (s_now s) (s_issued s) (s_procs s) (s_events s).

Definition same_job (r r' : CreateReply) : Prop :=
  cr_job_id r' = cr_job_id r ∧ cr_total r' = cr_total r ∧ cr_unique_domains r' = cr_unique_domains r.

(** C13: a request to create a job that was answered, repeated with its Idempotency-Key at
    any later time (whatever workers, loops and other requests did in between, whether or not
    the webhook's host still resolves, with the job limit reached or not), is answered with
    the same job, the same number of rows and of unique domains, and changes nothing; the
    key sent with a different file, column or setting is refused as a conflict. *)
Theorem retried_post_same_job (cfg cfg' : Settings) (be : string) (s s' : Sys) (ls : list Label)
    (gai gai' : string → Z → AddrInfo) (who : Principal) (k : string) (id id' : uuid) (now' : instant)
    (sb : Submission) (r : CreateReply) (db' : DB)
    (Hr : reachable cfg be s) (Hid : ¬ known (s_db s) id)
    (Hc : create_submitted cfg gai who (Some k) (s_now s) id sb (s_db s) = (Return r, db'))
    (Hs : steps cfg be ls (after s db') s') :
  (∃ r', create_submitted cfg' gai' who (Some k) now' id' sb (s_db s') = (Return r', s_db s') ∧
         same_job r r' ∧ cr_replayed r' = true) ∧
  (cr_replayed r = false → ∀ sb', in_limits (Some k) sb' → fp_of sb' ≠ fp_of sb →
   create_submitted cfg' gai' who (Some k) now' id' sb' (s_db s')
   = (Raise (fault "idempotency_conflict"), s_db s')).
Proof.
  pose proof (reachable_sys_ok _ _ _ Hr) as [Hok Hp].
  destruct (answered_job _ _ _ _ _ _ _ _ _ _ _ Hok (reachable_items _ _ _ Hr) Hid Hc)
    as (Hok' & Hl & j & Hf & Hm & Hj & Ht & Hu & Hfp).
  destruct (steps_stay _ _ _ _ _ Hs) as [[Hok2 _] Hst]; [by split|]. cbn [after s_db] in Hst.
  destruct (find_replay_stays _ _ _ _ _ Hst Hf) as (j' & Hf' & [= Ei Eo Ek Ef]).
  assert (known db' (j_id j)) as Hkn by (exists j; split; [by eapply find_replay_Some|done]).
  split.
  - exists (replayed_reply (s_db s') j'). split; [|split; [|done]].
    + rewrite (create_submitted_again _ _ _ _ _ _ _ _ _ Hl Hf'). unfold fp_matches in *. by rewrite Ef, Hm.
    + unfold same_job, replayed_reply, job_counts in *. cbn in *. rewrite Ei. split_and!; [done| |].
      * pose proof (fr_items _ _ Hst (j_id j) Hkn) as Hi. unfold items_of in Hi. by rewrite Hi.
      * by rewrite (rows_stay_count _ _ _ _ _ Hok' Hok2 Hst Hkn).
  - intros Hn sb' Hl' Hne. rewrite (create_submitted_again _ _ _ _ _ _ _ _ _ Hl' Hf'). unfold fp_matches.
    rewrite Ef, (Hfp Hn), bool_decide_false by congruence.
    replace (str_truthy (Some (fp_of sb))) with true; [done|]. symmetry. apply hexdigest_nonempty.
Qed.

Definition demo_person : Principal := mkPrincipal (Some 7%N) "Ana" false None.
Definition demo_row (i : Z) (d : string) : PreparedItem :=
  {| p_row_index := i; p_input_value := d; p_domain := Some d; p_status := None; p_reason := None;
     p_domain_source := "website"; p_raw_row := [("website", d)] |}.
Definition demo_submission : Submission :=
  mkSubmission [demo_row 0 "acme.com"; demo_row 1 "foo.org"; demo_row 2 "acme.com"] ["website"] None "website" None
               false (utf8 "items").
Definition demo_other : Submission :=
  mkSubmission [demo_row 0 "bar.net"] ["website"] None "website" None false (utf8 "other items").
Definition no_dns (host : string) (port : Z) : AddrInfo := InfoOSError.

Definition demo_post (sb : Submission) (id : uuid) (db : DB) : Reply CreateReply * DB :=
  create_submitted default_settings no_dns demo_person (Some "k1") 0 id sb db.
Definition demo_posted : DB := (demo_post demo_submission 1%N empty_db).2.
Definition demo_later : Sys := mkSys (reap demo_posted 0).2 0 [] [] [].

Lemma retried_post_same_job_witness :
  (∃ r', demo_post demo_submission 2%N (s_db demo_later) = (Return r', s_db demo_later) ∧
         same_job (mkCreateReply 1%N 3 2 0 2 false) r' ∧ cr_replayed r' = true) ∧
  demo_post demo_other 2%N (s_db demo_later) = (Raise (fault "idempotency_conflict"), s_db demo_later).
Proof.
  destruct (retried_post_same_job default_settings default_settings "jina" (sys0 0) demo_later ([] ++ [Other])
    no_dns no_dns demo_person "k1" 1%N 2%N 0 demo_submission (mkCreateReply 1%N 3 2 0 2 false) demo_posted)
    as [H1 H2].
  - exists 0%Z, []. constructor.
  - intros (k & Hk & _). by apply elem_of_nil in Hk.
  - vm_compute. reflexivity.
  - apply steps_snoc with (after (sys0 0) demo_posted); [constructor|].
    apply (s_reap _ _ (after (sys0 0) demo_posted)).
  - split; [exact H1|]. apply H2; [done|by split_and!|]. vm_compute. discriminate.
Defined.

(** ** Limits *)

Lemma active_jobs_new cfg db now id items a who :
  (active_jobs (create_job cfg db now id items a).2 who ≤ active_jobs db who + 1)%Z.
Proof.
  unfold active_jobs, create_job, zcount, count. cbn [snd jobs]. rewrite keep_app, length_app.
  pose proof (length_keep_le (λ j, match pr_user_id who with Some u => null_eq (j_owner_id j) u | None => false end
                                   && mem (j_status j) ACTIVE_STATUSES)
    [match unique_domains items with
     | [] => job_row now id (Z.of_nat (length items)) job_done (Some now) a
     | _ :: _ => job_row now id (Z.of_nat (length items)) job_queued None a
     end]) as Hl. cbn [length] in Hl. lia.
Qed.

Lemma limited_receive_sum limit seen chunks :
  (seen ≤ limit)%Z →
  let '(got, ok) := limited_receive limit seen chunks in
  got `prefix_of` chunks ∧
  (seen + Z.of_nat (sum_list got) ≤ limit)%Z ∧
  (ok = true ↔ (seen + Z.of_nat (sum_list chunks) ≤ limit)%Z) ∧ (ok = true → got = chunks).
Proof.
  revert seen. induction chunks as [|c chunks IH]; intros seen Hs; cbn.
  - split_and!; try done; lia.
  - destruct (Z.ltb_spec limit (seen + Z.of_nat c)) as [Hlt|Hle].
    + split_and!; [apply prefix_nil|cbn; lia| |done]. split; [done|]. lia.
    + specialize (IH (seen + Z.of_nat c)%Z Hle).
      destruct (limited_receive limit (seen + Z.of_nat c) chunks) as [got ok].
      destruct IH as (H1 & H2 & H3 & H4). split_and!; [by apply prefix_cons|cbn; lia| |].
      * rewrite H3. split; lia.
      * intros Hok. by rewrite H4.
Qed.

(** A request that created a job was within every limit: between 1 and 50,000 rows, a
    well-formed key, a webhook that passed its check, and for anyone but the administrator
    no more unfinished jobs than allowed, the new one included; its job is the caller's own,
    its rows are those submitted and its queue holds each distinct domain once. *)
Theorem created_within_limits (cfg : Settings) (gai : string → Z → AddrInfo) (who : Principal)
    (key : option string) (now : instant) (id : uuid) (sb : Submission) (issued : list string) (db db' : DB)
    (r : CreateReply) (Hok : db_ok issued db) (Hid : ¬ known db id)
    (Hc : create_submitted cfg gai who key now id sb db = (Return r, db')) (Hn : cr_replayed r = false) :
  (1 ≤ cr_total r ≤ MAX_ITEMS_PER_JOB)%Z ∧
  validate_webhook_url cfg gai (sb_webhook sb) = UrlAccepted ∧
  (pr_is_admin who = false → (active_jobs db' who ≤ max_active_jobs_per_user cfg)%Z) ∧
  (∃ j, jobs db' = jobs db ++ [j] ∧ j_id j = id ∧ j_owner_id j = pr_user_id who ∧ cr_job_id r = id) ∧
  map jd_domain (keep (of_job id) (job_domains db')) = unique_domains (sb_items sb) ∧
  cr_unique_domains r = Z.of_nat (length (unique_domains (sb_items sb))).
Proof.
  apply create_submitted_cases in Hc as [(H1 & H2 & _) [(k & j & _ & _ & _ & -> & _)|
    (_ & Ha & Hw & -> & ->)]]; [done|]. clear Hn.
  assert (find_row j_id id (jobs db) = None) as Hf.
  { apply find_row_None. intros j Hj E. apply Hid. by exists j. }
  pose proof (create_job_rows cfg issued db now id (sb_items sb) (new_job_of who key sb) Hok Hf) as Hr.
  pose proof (create_job_splits cfg issued db now id (sb_items sb) (new_job_of who key sb) Hok) as Hl.
  pose proof (active_jobs_new cfg db now id (sb_items sb) (new_job_of who key sb) who) as Hact.
  apply Z.ltb_ge in H1. apply Nat.eqb_neq in H2. split; [cbn; lia|]. split_and!.
  - done.
  - intros Hadm. destruct Ha as [Ha|Ha]; [congruence|]. lia.
  - exists (create_job cfg db now id (sb_items sb) (new_job_of who key sb)).1.1.1.
    unfold create_job. cbn. by destruct (unique_domains (sb_items sb)).
  - rewrite Hr. clear Hr Hl Hact. generalize 0%Z. induction (unique_domains (sb_items sb)) as [|d ds IH]; intros z; cbn; [done|].
    by rewrite IH.
  - unfold created. destruct (create_job _ _ _ _ _ _) as [[[job to_run] cached] db1]. cbn. lia.
Qed.

Lemma created_within_limits_witness :
  map jd_domain (keep (of_job 1%N) (job_domains demo_posted)) = ["acme.com"; "foo.org"] ∧
  (active_jobs demo_posted demo_person ≤ max_active_jobs_per_user default_settings)%Z.
Proof.
  destruct (created_within_limits default_settings no_dns demo_person (Some "k1") 0 1%N demo_submission []
    empty_db demo_posted (mkCreateReply 1%N 3 2 0 2 false)) as (_ & _ & H1 & _ & H2 & _).
  - apply db_ok_empty.
  - intros (k & Hk & _). by apply elem_of_nil in Hk.
  - vm_compute. reflexivity.
  - reflexivity.
  - split; [exact H2|]. apply H1. reflexivity.
Defined.

(** A request body is refused unread or cut off while it streams in exactly when it is,
    or is declared to be, over the limit; a handler never receives more than the limit, and
    a body within it and not declared otherwise reaches the handler whole. *)
Theorem body_limit_exact (limit : Z) (declared : option string) (chunks : list nat) (H : (0 ≤ limit)%Z) :
  match body_size_limit limit declared chunks with
  | RefusedUnread => ∃ d, declared = Some d ∧ str_all is_digit09 d = true ∧ (limit < dec_of d)%Z
  | PassedOn got => got = chunks ∧ (Z.of_nat (sum_list chunks) ≤ limit)%Z
  | CutOff got =>
      got `prefix_of` chunks ∧ (Z.of_nat (sum_list got) ≤ limit < Z.of_nat (sum_list chunks))%Z
  end.
Proof.
  unfold body_size_limit.
  destruct (match declared with Some d => _ | None => false end) eqn:E.
  - destruct declared as [d|]; [|done]. bool_to_prop. exists d. split_and!; done.
  - pose proof (limited_receive_sum limit 0 chunks H) as Hl.
    destruct (limited_receive limit 0 chunks) as [got []]; destruct Hl as (H1 & H2 & H3 & H4).
    + split; [by apply H4|]. by apply H3.
    + split; [done|]. split; [lia|]. apply Z.nle_gt. intros Hle. by apply H3 in Hle.
Qed.

Lemma body_limit_exact_witness :
  [3; 4]%nat `prefix_of` [3; 4; 5]%nat ∧ (Z.of_nat (sum_list [3; 4]%nat) ≤ 10 < Z.of_nat (sum_list [3; 4; 5]%nat))%Z.
Proof. apply (body_limit_exact 10 (Some "9") [3; 4; 5]%nat). lia. Defined.
