(* ===== verification/Delivery.v ===== *)
(** * From an upload to its download

    The parts of the program in a row: the table a person uploads ([Ingest]), the job it
    becomes ([Api], [Jobs]), whatever the queue, the workers and other people do after that
    ([System]), and the rows the download streams. *)

From Stdlib Require Import ZArith NArith Ascii String Lia Sorted.
From stdpp Require Import base strings option sets list.
From S2P Require Import Prelude PyStr Sql Csv Models Regex Url Emails Normalize Queue QueueInv Jobs JobsProps Transitions Frame System.
From S2P Require Import Errors Sha256 Json IpAddress NetGuard Webhook Auth Ingest IngestProps Access Api ApiProps.

(** ** Sorting what is sorted *)

Lemma sort_by_sorted {A} (le : A → A → bool) l : StronglySorted (λ x y, le x y = true) l → sort_by le l = l.
Proof.
  induction 1 as [|x l Hs IH Hall]; [done|]. cbn [sort_by]. rewrite IH. destruct l as [|y l]; [done|].
  cbn. apply Forall_inv in Hall. by rewrite Hall.
Qed.

(** Rows numbered in order come out of [ORDER BY row_index] as they went in. *)
Lemma order_by_index k l :
  (∀ i it, l !! i = Some it → ji_row_index it = (k + Z.of_nat i)%Z) → order_by cmp_index l = l.
Proof.
  intros Hl. apply sort_by_sorted. revert k Hl. induction l as [|x l IH]; intros k Hl; constructor.
  - apply (IH (k + 1)%Z). intros i it Hi. rewrite (Hl (S i) it Hi). lia.
  - apply Forall_forall. intros y (i & Hi)%list_elem_of_lookup. pose proof (Hl 0%nat x eq_refl) as E0.
    pose proof (Hl (S i) y Hi) as E1. unfold le_of, cmp_index. rewrite E0, E1.
    destruct (Z.compare_spec (k + Z.of_nat 0) (k + Z.of_nat (S i))); [lia|done|lia].
Qed.

Section delivery.
Context `{Tld} `{IpLiteral} `{Idna}.

(** ** The rows of a file as items of a job *)

(** The item of row [i]: its number, the row itself, and a domain exactly when the input was
    taken. *)
Lemma prepare_items_lookup p g col items i it :
  prepare_items p g col = Some items → items !! i = Some it →
  p_row_index it = Z.of_nat i ∧ pf_rows p !! i = Some (p_raw_row it) ∧
  match p_domain it with Some d => d ≠ "" ∧ p_status it = None | None => p_status it = Some invalid_input end.
Proof.
  unfold prepare_items. destruct (chosen_column col g) as [c|]; [|done]. break; [|done]. intros [= <-].
  rewrite list_lookup_imap. intros (rn & Hz & ->)%fmap_Some.
  apply lookup_zip_with_Some in Hz as (row & n & -> & Hr & Hn).
  unfold normalize_column in Hn. rewrite list_lookup_fmap in Hn. apply fmap_Some in Hn as (v & _ & ->).
  cbn. split_and!; [done|done|]. destruct (nz_domain (normalize_value _ v)) as [d|] eqn:Ed.
  - split; [by eapply normalize_value_nonempty|]. by rewrite (proj2 (normalize_value_ok _ v)) by (rewrite Ed; by eexists).
  - destruct (nz_ok (normalize_value _ v)) eqn:Eo; [|done]. apply normalize_value_ok in Eo as [d Ed']. congruence.
Qed.
(** ** What a download says of one input row *)

(** A row without a domain is reported as invalid input; one with a domain has the result
    stored in that domain's row of the queue exactly while that row is done. *)
Definition delivered (db : DB) (id : uuid) (it : PreparedItem) (res : option DomainResult) : Prop :=
  match p_domain it with
  | None => res = Some (invalid_result (item_row id it))
  | Some d =>
      ∃ r, r ∈ job_domains db ∧ jd_key r = (id, d) ∧
        ((jd_state r = st_done ∧ ∃ x, res = Some x ∧ jd_result r = Some (Dump x)) ∨
         (jd_state r ≠ st_done ∧ res = None))
  end.

Definition job_is_done (db : DB) (id : uuid) : Prop := ∃ j, j ∈ jobs db ∧ j_id j = id ∧ j_status j = job_done.

(** The row [it] of a queue that has its domain. *)
Lemma spec_row_delivered issued db id it :
  db_ok issued db →
  match p_domain it with
  | Some d => p_status it = None ∧ ∃ r, r ∈ job_domains db ∧ jd_key r = (id, d)
  | None => p_status it = Some invalid_input
  end →
  ∃ res retrying, spec_row db (item_row id it) = (p_raw_row it, res, p_domain it, retrying) ∧
    delivered db id it res ∧ (job_is_done db id → is_Some res).
Proof.
  intros Hok Hit. unfold spec_row, delivered, or_invalid, joined. cbn. destruct (p_domain it) as [d|].
  2:{ rewrite Hit. cbn. do 2 eexists. split_and!; [done..|by eexists]. }
  destruct Hit as (-> & r & Hr & Hk). rewrite <- Hk, find_row_unique by (done || apply Hok).
  assert (QueueInv.row_ok r) as Hrow by (eapply Forall_forall; [apply Hok|done]).
  do 2 eexists. split; [reflexivity|]. unfold finished_raw. destruct (state_is st_done r) eqn:Es.
  - apply state_is_true in Es. destruct (ok_done _ Hrow Es) as (_ & x & _ & Ex). rewrite Ex. cbn.
    split; [|by eexists]. exists r. split_and!; [done..|]. left. eauto.
  - assert (jd_state r ≠ st_done) as Hn by (intros E%state_is_true; congruence). cbn. split.
    + exists r. split_and!; [done..|]. by right.
    + intros (j & Hj & Eid & Ej). destruct Hn. apply (db_done _ _ Hok j r); try done.
      rewrite Eid. by injection Hk.
Qed.

Lemma created_known cfg db now id items a : known (create_job cfg db now id items a).2 id.
Proof.
  pose proof (create_job_ident cfg db now id items a) as [E _]. unfold known.
  set (out := create_job _ _ _ _ _ _) in *. clearbody out.
  assert ((id, n_owner_id a, n_idempotency_key a, n_idempotency_fingerprint a) ∈ map job_ident (jobs out.2))
    as (j & Ej & Hj)%list_elem_of_fmap by (rewrite E; set_solver). exists j. split; [done|]. by injection Ej.
Qed.

(** The rows of a job created from [items], in any later state. *)
Lemma created_rows_stay cfg issued db now id items a db' it d :
  db_ok issued db → ¬ known db id → rows_stay (create_job cfg db now id items a).2 db' →
  it ∈ items → p_domain it = Some d → d ≠ "" → ∃ r, r ∈ job_domains db' ∧ jd_key r = (id, d).
Proof.
  intros Hok Hk Hs Hit Hd Hne. assert (find_row j_id id (jobs db) = None) as Hf.
  { apply find_row_None. intros j Hj E. apply Hk. by exists j. }
  pose proof (create_job_rows cfg issued db now id items a Hok Hf) as Hr.
  assert (d ∈ unique_domains items) as (n & Hn)%list_elem_of_lookup by (apply elem_of_unique_domains; by exists it).
  apply (rows_from_lookup now id 0) in Hn. rewrite <- Hr in Hn. apply list_elem_of_lookup_2 in Hn.
  apply elem_of_keep in Hn as [Hn _]. apply (fr_old _ _ Hs) in Hn. done.
Qed.

(** C6: what was uploaded comes back.  Take a file a person uploaded and the job made of its
    rows, and let anything happen after that: workers claim, finish, lose and requeue rows,
    loops run, jobs are paused, cancelled, resumed and retried, other jobs come and go.  The
    download of that job has one row for each row of the file, in the file's order and with
    its cells; a row whose input was refused says so, any other one shows the result stored
    for its own domain exactly while that domain is finished in this job, and once the job is
    done there is no row without a result. *)
Theorem upload_comes_back (cfg : Settings) (be : string) (s s' : Sys) (ls : list Label)
    (gai : string → Z → AddrInfo) (who : Principal) (key : option string) (id : uuid)
    (p : ParsedFile) (g : ColumnGuess) (col : option string)
    (sb : Submission) (r : CreateReply) (db' : DB)
    (Hr : reachable cfg be s) (Hid : ¬ known (s_db s) id)
    (Hi : prepare_items p g col = Some (sb_items sb))
    (Hc : create_submitted cfg gai who key (s_now s) id sb (s_db s) = (Return r, db'))
    (Hn : cr_replayed r = false)
    (Hs : steps cfg be ls (after s db') s') :
  length (stream_rows (s_db s') id) = length (pf_rows p) ∧
  ∀ i row, pf_rows p !! i = Some row →
    ∃ it res retrying,
      sb_items sb !! i = Some it ∧
      stream_rows (s_db s') id !! i = Some (row, res, p_domain it, retrying) ∧
      delivered (s_db s') id it res ∧
      (job_is_done (s_db s') id → is_Some res).
Proof.
  pose proof (reachable_sys_ok _ _ _ Hr) as [Hok Hp].
  apply create_submitted_cases in Hc as [_ [(k & j & _ & _ & _ & -> & _)|(_ & _ & _ & _ & ->)]]; [done|].
  set (a := new_job_of who key sb) in *.
  destruct (steps_stay _ _ _ _ _ Hs) as [[Hok' _] Hst].
  { split; [|exact Hp]. apply create_job_ok; [done|]. intros j Hj E. apply Hid. by exists j. }
  cbn [after s_db] in Hst.
  assert (job_items_of (s_db s') id = map (item_row id) (sb_items sb)) as Hitems.
  { unfold job_items_of. change (keep _ (job_items (s_db s'))) with (items_of id (job_items (s_db s'))).
    rewrite (fr_items _ _ Hst), created_items by (done || by eapply reachable_items || apply created_known).
    apply (order_by_index 0). intros i it. rewrite list_lookup_fmap. intros (x & Hx & ->)%fmap_Some.
    destruct (prepare_items_lookup _ _ _ _ _ _ Hi Hx) as (E & _). cbn. by rewrite E. }
  destruct (prepare_items_column _ _ _ _ Hi) as (c & Hcol & _).
  destruct (prepare_items_spec _ _ _ _ _ Hcol Hi) as [Hlen _].
  rewrite stream_rows_spec, Hitems, !length_map. split; [done|]. intros i row Hrow.
  destruct (lookup_lt_is_Some_2 (sb_items sb) i) as [it Hit]; [apply lookup_lt_Some in Hrow; lia|].
  destruct (prepare_items_lookup _ _ _ _ _ _ Hi Hit) as (_ & Hraw & Hdom).
  destruct (spec_row_delivered _ (s_db s') id it Hok') as (res & retrying & E & Hd & Hdone).
  { destruct (p_domain it) as [d|] eqn:Ed; [|done]. destruct Hdom as [Hne Hst0]. split; [done|].
    apply (created_rows_stay cfg (s_issued s) (s_db s) (s_now s) id (sb_items sb) a _ it); try done.
    by eapply list_elem_of_lookup_2. }
  exists it, res, retrying. split_and!; try done. rewrite !list_lookup_fmap, Hit. cbn. rewrite E. congruence.
Qed.
End delivery.

Definition demo_upload : Submission :=
  mkSubmission (default [] (prepare_items example_file (detect_column example_file) None)) ["Website"]
               (Some "leads.csv") "Website" None false (utf8 "leads").
Definition demo_uploaded : DB := (demo_post demo_upload 1%N empty_db).2.

(** The three rows of the file, two of the same domain and an empty one, a moment later. *)
Lemma upload_comes_back_witness :
  length (stream_rows (reap demo_uploaded 0).2 1%N) = 3%nat ∧
  ∃ it res retrying,
    sb_items demo_upload !! 2%nat = Some it ∧
    stream_rows (reap demo_uploaded 0).2 1%N !! 2%nat = Some ([("Website", "")], res, p_domain it, retrying) ∧
    delivered (reap demo_uploaded 0).2 1%N it res.
Proof.
  destruct (upload_comes_back default_settings "jina" (sys0 0) (after (sys0 0) (reap demo_uploaded 0).2) ([] ++ [Other])
    no_dns demo_person (Some "k1") 1%N example_file (detect_column example_file) None demo_upload
    (mkCreateReply 1%N 3 1 0 1 false) demo_uploaded) as [H1 H2].
  - exists 0%Z, []. constructor.
  - intros (k & Hk & _). by apply elem_of_nil in Hk.
  - vm_compute. reflexivity.
  - vm_compute. reflexivity.
  - reflexivity.
  - apply steps_snoc with (after (sys0 0) demo_uploaded); [constructor|].
    apply (s_reap _ _ (after (sys0 0) demo_uploaded)).
  - split; [exact H1|]. destruct (H2 2%nat [("Website", "")] eq_refl) as (it & res & retrying & Hit & Hs & Hd & _).
    exists it, res, retrying. by split_and!.
Defined.
