(* ===== verification/ProviderKeys.v ===== *)
(** * Provider keys and balances ([src/app/provider_keys.py], [src/app/providers.py])

    The Jina and TypeSafe keys an administrator saves: encrypted in a table, copied into each
    process, and used instead of the environment's; the checks before a key is saved, the
    limit on changes, the balances shown and what processes report about themselves.  AES-GCM
    is a third-party library: a class, with the law that opening what was sealed gives the
    text back.  Times are microseconds. *)

From Stdlib Require Import ZArith NArith Ascii String Lia.
From stdpp Require Import base strings pretty option sets list.
From S2P Require Import Prelude PyStr Sql Models Queue Jobs QueueInv Transitions Errors Sha256 Json Auth.

(** ** Base 64, as the standard library has it *)

Definition b64_char (v : N) : ascii :=
  ascii_of_N (if N.ltb v 26 then 65 + v else if N.ltb v 52 then 71 + v
              else if N.ltb v 62 then v - 4 else if N.eqb v 62 then 43 else 47).

Fixpoint b64encode (bs : list byte) : string :=
  match bs with
  | [] => ""
  | [a] => String (b64_char (a / 4)) (String (b64_char (a mod 4 * 16)) "==")
  | [a; b] =>
      String (b64_char (a / 4)) (String (b64_char (a mod 4 * 16 + b / 16)) (String (b64_char (b mod 16 * 4)) "="))
  | a :: b :: c :: rest =>
      String (b64_char (a / 4)) (String (b64_char (a mod 4 * 16 + b / 16))
        (String (b64_char (b mod 16 * 4 + c / 64)) (String (b64_char (c mod 64)) (b64encode rest))))
  end%N.

Definition b64_value (c : ascii) : option N :=
  if is_upper c then Some (code c - 65)%N
  else if is_lower c then Some (code c - 71)%N
  else if is_digit09 c then Some (code c + 4)%N
  else if Ascii.eqb c "+" then Some 62%N
  else if Ascii.eqb c "/" then Some 63%N
  else None.

(** [binascii.a2b_base64]: the position in the group of four, the padding seen and the bits
    left over; characters outside the alphabet are skipped.  [None] is binascii.Error. *)
Fixpoint a2b (s : string) (quad pads : nat) (left_ : N) : option (list byte) :=
  match s with
  | EmptyString => match quad with O => Some [] | _ => None end
  | String c s' =>
      if Ascii.eqb c "=" then
        if Nat.leb 2 quad then if Nat.leb 4 (quad + S pads) then Some [] else a2b s' quad (S pads) left_
        else a2b s' quad pads left_
      else
        match b64_value c with
        | None => a2b s' quad pads left_
        | Some v =>
            match quad with
            | 0 => a2b s' 1 0 v
            | 1 => cons (left_ * 4 + v / 16)%N <$> a2b s' 2 0 (v mod 16)
            | 2 => cons (left_ * 16 + v / 4)%N <$> a2b s' 3 0 (v mod 4)
            | _ => cons (left_ * 64 + v)%N <$> a2b s' 0 0 0
            end
        end
  end%nat.

(** [base64.b64decode] of a str: a non-ASCII one is a ValueError too. *)
Definition b64decode (s : string) : option (list byte) := if isascii s then a2b s 0 0 0 else None.

(** [bytes.decode()] on the text of the model, code points up to 255. *)
Fixpoint utf8_decode (bs : list byte) : option string :=
  match bs with
  | [] => Some ""
  | b :: rest =>
      if N.ltb b 128 then String (ascii_of_N b) <$> utf8_decode rest
      else if N.eqb b 194 || N.eqb b 195 then
        match rest with
        | d :: rest' =>
            if N.leb 128 d && N.ltb d 192 then String (ascii_of_N ((b - 192) * 64 + (d - 128))) <$> utf8_decode rest'
            else None
        | [] => None
        end
      else None
  end.

(** ** Sealing *)

(** [AESGCM(key).encrypt(nonce, data, ad)] and [.decrypt]; [None] is InvalidTag. *)
Class Aead := {
  aead_seal : list byte → list byte → list byte → list byte → list byte;
  aead_open : list byte → list byte → list byte → list byte → option (list byte)
}.

Class AeadLaws `{Aead} : Prop := {
  open_seal key nonce ad pt :
    length key = 32%nat → Forall (λ b, (b < 256)%N) pt → aead_open key nonce ad (aead_seal key nonce ad pt) = Some pt;
  seal_bytes key nonce ad pt : Forall (λ b, (b < 256)%N) pt → Forall (λ b, (b < 256)%N) (aead_seal key nonce ad pt)
}.

Definition PROVIDERS : list string := ["jina"; "typesafe"].
Definition REFRESH_S : Z := 30.

(** The master key; [None] is KeyStoreUnavailable. *)
Definition master_key (cfg : Settings) : option (list byte) :=
  let raw := provider_key_encryption_key cfg in
  if negb (nonempty raw) then None
  else match b64decode raw with
       | Some key => if Nat.eqb (length key) 32 then Some key else None
       | None => None
       end.

Section sealing.
Context `{Aead}.

Definition encrypt (cfg : Settings) (nonce : list byte) (provider secret : string) : option (string * string) :=
  match master_key cfg with
  | Some key => Some (b64encode (aead_seal key nonce (utf8 provider) (utf8 secret)), b64encode nonce)
  | None => None
  end.

Definition decrypt (cfg : Settings) (provider ciphertext nonce : string) : option string :=
  match master_key cfg, b64decode nonce, b64decode ciphertext with
  | Some key, Some n, Some ct => aead_open key n (utf8 provider) ct ≫= utf8_decode
  | _, _, _ => None
  end.
End sealing.

(** ** Tables and the copy each process keeps *)

Record KeyRow := mkKeyRow {
  kr_provider : string; kr_ciphertext : string; kr_nonce : string;
  kr_last4 : string; kr_updated_by : string; kr_updated_at : instant
}.

Record AuditRow := mkAudit {
  au_provider : string; au_action : string; au_last4 : option string; au_actor : string;
  au_request_id : option string; au_at : instant
}.

Record ProcessRow := mkProcess { ps_name : string; ps_status : list (string * json); ps_updated_at : instant }.

Record KeyTables := mkTables {
  kt_keys : list KeyRow;
  kt_audit : list AuditRow;
  kt_status : list ProcessRow
}.

Record Meta := mkMeta { mt_last4 : string; mt_updated_by : string; mt_updated_at : instant }.

Record KeyStore := mkStore {
  ks_keys : list (string * string);
  ks_meta : list (string * Meta);
  ks_failed : list string;
  ks_loaded_at : instant;
  ks_process_name : option string
}.

Definition empty_store : KeyStore := mkStore [] [] [] 0 None.

Definition env_key (cfg : Settings) (provider : string) : string :=
  if String.eqb provider "jina" then jina_api_key cfg else typesafe_api_key cfg.

Definition in_dict {V} (k : string) (d : list (string * V)) : bool := negb (is_null (dict_get d k)).

Definition current (cfg : Settings) (ks : KeyStore) (provider : string) : string :=
  if mem provider (ks_failed ks) then ""
  else match dict_get (ks_keys ks) provider with
       | Some key => key
       | None => env_key cfg provider
       end.

Definition source (cfg : Settings) (ks : KeyStore) (provider : string) : string :=
  if mem provider (ks_failed ks) then "unreadable"
  else if in_dict provider (ks_keys ks) then "portal"
  else if nonempty (current cfg ks provider) then "environment" else "none".

(** [s[-4:]] *)
Definition last4 (s : string) : string := str_drop (String.length s - 4) s.

Record KeyInfo := mkInfo {
  ki_source : string; ki_decrypt_failed : bool; ki_last4 : option string;
  ki_updated_by : option string; ki_updated_at : option instant
}.

Definition describe (cfg : Settings) (ks : KeyStore) : list (string * KeyInfo) :=
  map (λ p,
    let key := current cfg ks p in
    let meta := dict_get (ks_meta ks) p in
    (p, mkInfo (source cfg ks p) (mem p (ks_failed ks))
               (if in_dict p (ks_keys ks) || mem p (ks_failed ks) then mt_last4 <$> meta
                else if nonempty key then Some (last4 key) else None)
               (mt_updated_by <$> meta) (mt_updated_at <$> meta))) PROVIDERS.

(** ** What a process reports about itself *)

(** [jsonb || jsonb] on objects. *)
Definition jsonb_merge (a b : list (string * json)) : list (string * json) :=
  fold_left (λ d kv, dict_set d kv.1 kv.2) b a.

Definition merge_status (name : string) (fields : list (string * json)) (now : instant) (t : list ProcessRow)
    : list ProcessRow :=
  if any (λ r, String.eqb (ps_name r) name) t
  then update_where (λ r, String.eqb (ps_name r) name)
         (λ r, mkProcess (ps_name r) (jsonb_merge (ps_status r) fields) now) t
  else t ++ [mkProcess name fields now].

Definition key_report (cfg : Settings) (ks : KeyStore) : list (string * json) :=
  map (λ p, let l := last4 (current cfg ks p) in
            (p, JObj [("source", JStr (source cfg ks p)); ("last4", if nonempty l then JStr l else JNull)])) PROVIDERS.

(** [_report]: a failure is rolled back and logged. *)
Definition report (cfg : Settings) (ks : KeyStore) (now : instant) (fails : bool) (t : KeyTables) : KeyTables :=
  match ks_process_name ks with
  | Some name =>
      if nonempty name && negb fails
      then mkTables (kt_keys t) (kt_audit t) (merge_status name (key_report cfg ks) now (kt_status t)) else t
  | None => t
  end.

Definition report_health (ks : KeyStore) (health : list (string * json)) (now : instant) (t : KeyTables) : KeyTables :=
  match ks_process_name ks with
  | Some name =>
      if nonempty name then mkTables (kt_keys t) (kt_audit t) (merge_status name [("health", JObj health)] now (kt_status t))
      else t
  | None => t
  end.

Definition processes (t : KeyTables) : list (string * (list (string * json) * instant)) :=
  fold_left (λ d r, dict_set d (ps_name r) (ps_status r, ps_updated_at r)) (kt_status t) [].

Definition audit (provider action : string) (l4 : option string) (actor : string) (request_id : option string)
    (now : instant) (t : KeyTables) : KeyTables :=
  mkTables (kt_keys t) (kt_audit t ++ [mkAudit provider action l4 actor request_id now]) (kt_status t).

(** Newest first; the earlier row first on ties, which Postgres leaves open. *)
Definition recent_audit (n : nat) (t : KeyTables) : list AuditRow :=
  limit n (order_by (λ a b, Z.compare (au_at b) (au_at a)) (kt_audit t)).

Section store.
Context `{Aead} (cfg : Settings).

(** The loop of [refresh] over the rows. *)
Fixpoint load_rows (rows : list KeyRow) (keys : list (string * string)) (meta : list (string * Meta))
    (failed : list string) : list (string * string) * list (string * Meta) * list string :=
  match rows with
  | [] => (keys, meta, failed)
  | r :: rest =>
      let meta := dict_set meta (kr_provider r) (mkMeta (kr_last4 r) (kr_updated_by r) (kr_updated_at r)) in
      match decrypt cfg (kr_provider r) (kr_ciphertext r) (kr_nonce r) with
      | Some key => load_rows rest (dict_set keys (kr_provider r) key) meta failed
      | None => load_rows rest keys meta (if mem (kr_provider r) failed then failed else failed ++ [kr_provider r])
      end
  end.

(** [before] and [after] are the readings of the monotonic clock, [now] the database's. *)
Definition refresh (force : bool) (before after now : instant) (report_fails : bool) (t : KeyTables) (ks : KeyStore)
    : KeyTables * KeyStore :=
  if negb force && Z.ltb (before - ks_loaded_at ks) (seconds REFRESH_S) then (t, ks)
  else
    let '(keys, meta, failed) := load_rows (kt_keys t) [] [] [] in
    let ks' := mkStore keys meta failed after (ks_process_name ks) in
    (report cfg ks' now report_fails t, ks').

Definition upsert_key (row : KeyRow) (t : list KeyRow) : list KeyRow :=
  if any (λ r, String.eqb (kr_provider r) (kr_provider row)) t
  then update_where (λ r, String.eqb (kr_provider r) (kr_provider row)) (λ _, row) t
  else t ++ [row].

(** [None]: KeyStoreUnavailable, before anything is written. *)
Definition save (provider secret who : string) (request_id : option string) (nonce : list byte)
    (now mono : instant) (t : KeyTables) (ks : KeyStore) : option (KeyTables * KeyStore) :=
  match encrypt cfg nonce provider secret with
  | None => None
  | Some (c, n) =>
      let t1 := mkTables (upsert_key (mkKeyRow provider c n (last4 secret) who now) (kt_keys t)) (kt_audit t) (kt_status t) in
      let t2 := audit provider "saved" (Some (last4 secret)) who request_id now t1 in
      Some (refresh true mono mono now false t2 ks)
  end.

Definition clear (provider who : string) (request_id : option string) (now mono : instant) (t : KeyTables)
    (ks : KeyStore) : KeyTables * KeyStore :=
  let t1 := mkTables (keep (λ r, negb (String.eqb (kr_provider r) provider)) (kt_keys t)) (kt_audit t) (kt_status t) in
  let t2 := audit provider "removed" None who request_id now t1 in
  refresh true mono mono now false t2 ks.

(** What the worker asks after an account error: did a forced reload change the key? *)
Definition reload_changed (before mono now : instant) (t : KeyTables) (ks : KeyStore) : bool * KeyStore :=
  let ks' := (refresh true before mono now false t ks).2 in
  (negb (String.eqb (current cfg ks' "jina") (current cfg ks "jina")), ks').
End store.

(** ** Asking the vendors *)

Definition jina_state (cfg : Settings) (balance : option Z) : string :=
  match balance with
  | None => "unknown"
  | Some b => if Z.leb b 0 then "empty" else if Z.ltb b (jina_low_balance_tokens cfg) then "low" else "ok"
  end.

(** [int(x)] of a float: nan is a ValueError, an infinity an OverflowError. *)
Inductive FloatInt := Whole (n : Z) | NotANumber | Infinite.

(** An answer of the wallet endpoint: an httpx error, or a status and the body, [None] when
    it is not JSON. *)
Inductive WalletAnswer := WalletError | WalletReply (status : Z) (body : option json).

(** The balance, or an exception that is not caught (AttributeError, OverflowError). *)
Inductive Balance := Tokens (n : option Z) | BalanceCrash.

Definition json_truthy (j : json) : bool :=
  match j with
  | JNull => false
  | JBool b => b
  | JInt n => negb (Z.eqb n 0)
  | JFloat r => negb (mem r ["0.0"; "-0.0"])
  | JStr s => nonempty s
  | JArr l => negb (Nat.eqb (length l) 0)
  | JObj l => negb (Nat.eqb (length l) 0)
  end.

(** [(x or {})] as a dict; [None] when [.get] is an AttributeError. *)
Definition or_dict (j : json) : option (list (string * json)) :=
  if json_truthy j then match j with JObj l => Some l | _ => None end else Some [].

Definition jina_balance (float_int : string → FloatInt) (a : WalletAnswer) : Balance :=
  match a with
  | WalletError => Tokens None
  | WalletReply status body =>
      let wallet :=
        if Z.eqb status 200
        then match body with
             | None => Some None                                      (* ValueError *)
             | Some j => match or_dict j with
                         | None => None
                         | Some d => Some (Some (default JNull (dict_get d "wallet")))
                         end
             end
        else Some (Some (JObj [])) in
      match wallet with
      | None => BalanceCrash
      | Some None => Tokens None
      | Some (Some w) =>
          match or_dict w with
          | None => BalanceCrash
          | Some d =>
              match dict_get d "total_balance" with
              | Some (JInt n) => Tokens (Some n)
              | Some (JBool b) => Tokens (Some (if b then 1 else 0))
              | Some (JFloat r) =>
                  match float_int r with
                  | Whole n => Tokens (Some n)
                  | NotANumber => Tokens None
                  | Infinite => BalanceCrash
                  end
              | _ => Tokens None
              end
          end
      end
  end%Z.

(** [None]: an httpx error. *)
Definition typesafe_key_status (answer : option Z) : string :=
  match answer with
  | None => "unknown"
  | Some st =>
      if Z.eqb st 200 then "ok"
      else if Z.eqb st 401 || Z.eqb st 403 then "rejected"
      else if Z.eqb st 402 then "empty" else "unknown"
  end.

(** The vendors' part of the status strip. *)
Record Vendors := mkVendors {
  vn_jina : string; vn_balance : option Z; vn_typesafe : string; vn_checked_at : instant
}.

Definition CACHE_S : Z := 300.
Definition WORKER_SILENT_S : Z := 120.

(** Asks both vendors; [None] when the balance could not be read for an uncaught reason. *)
Definition ask_vendors (cfg : Settings) (ks : KeyStore) (jina : Balance) (typesafe : option Z) (now : instant)
    : option Vendors :=
  let ts := if nonempty (current cfg ks "typesafe") then typesafe_key_status typesafe else "not_configured" in
  if nonempty (current cfg ks "jina") then
    match jina with
    | Tokens b => Some (mkVendors (jina_state cfg b) b ts now)
    | BalanceCrash => None
    end
  else Some (mkVendors "not_configured" None ts now).

(** The cache of [provider_status]: the vendors' answer and when it was taken. *)
Definition vendor_status (cfg : Settings) (ks : KeyStore) (cache : option (instant * Vendors)) (mono now : instant)
    (jina : Balance) (typesafe : option Z) : Reply Vendors * option (instant * Vendors) :=
  let ask :=
    match ask_vendors cfg ks jina typesafe now with
    | Some v => (Return v, Some (mono, v))
    | None => (Raise (fault "internal_error"), cache)
    end in
  match cache with
  | Some (at_, v) => if Z.ltb (seconds CACHE_S) (mono - at_) then ask else (Return v, cache)
  | None => ask
  end.

Definition cached_jina_status (cache : option (instant * Vendors)) : string :=
  match cache with Some (_, v) => vn_jina v | None => "unknown" end.

(** The usage of the month that began at [month]. *)
Definition usage (month : instant) (db : DB) : Z * Z * Z :=
  let rows := keep (λ r, state_is st_done r
                         && match jd_finished_at r with Some t => Z.leb month t | None => false end) (job_domains db) in
  (sum_tokens rows, zcount jd_typesafe_called rows, zcount (λ r, negb (jd_from_cache r)) rows).

Record WorkerHealth := mkHealth { wh_status : string; wh_last_seen_s : option Z; wh_fields : list (string * json) }.

(** Seconds since the last report, truncated, and what it said ([report_health] always writes
    an object). *)
Definition worker_health (now : instant) (t : KeyTables) : WorkerHealth :=
  match head (keep (λ r, String.eqb (ps_name r) "worker") (kt_status t)) with
  | None => mkHealth "never_seen" None []
  | Some r =>
      let age := Z.quot (now - ps_updated_at r) 1000000 in
      let health := default [] (or_dict (default JNull (dict_get (ps_status r) "health"))) in
      mkHealth (if Z.ltb age WORKER_SILENT_S then "ok" else "silent") (Some age)
        (map (λ k, (k, default JNull (dict_get health k))) ["in_flight"; "concurrency"; "last_claim_at"; "breaker"])
  end.

(** ** Saving and removing keys through the API *)

Definition KEY_CHANGES_PER_MINUTE : nat := 10.

(** Everything these requests touch. *)
Record Portal := mkPortal {
  po_db : DB;
  po_tables : KeyTables;
  po_store : KeyStore;
  po_changes : list (string * list instant);
  po_cache : option (instant * Vendors)
}.

(** [_limit_key_changes]: the wait asked for, or the changes remembered from now on. *)
Definition limit_key_changes (who : string) (mono : instant) (changes : list (string * list instant))
    : Z + list (string * list instant) :=
  let recent := keep (λ t, Z.ltb (mono - t) (seconds 60)) (default [] (dict_get changes who)) in
  match recent with
  | first :: _ =>
      if Nat.leb KEY_CHANGES_PER_MINUTE (length recent)
      then inl (Z.quot (seconds 60 - (mono - first)) 1000000 + 1)%Z
      else inr (dict_set changes who (recent ++ [mono]))
  | [] => inr (dict_set changes who [mono])
  end.

(** [\S] of the validator's regular expressions. *)
Definition rust_space (c : ascii) : bool := between 9 13 c || N.eqb (code c) 32 || N.eqb (code c) 133 || N.eqb (code c) 160.

Definition key_body_ok (key : string) : bool :=
  Nat.leb 10 (String.length key) && Nat.leb (String.length key) 300 && str_all (λ c, negb (rust_space c)) key.

(** The guards both requests share: the caller, the provider's name, the limit. *)
Definition key_change (who : Principal) (name : string) (mono : instant) (p : Portal) : Reply (list (string * list instant)) :=
  if negb (pr_is_admin who) then Raise (fault "forbidden")
  else if negb (mem name PROVIDERS) then Raise (fault "not_found")
  else match limit_key_changes (pr_name who) mono (po_changes p) with
       | inl wait => Raise (fault_after "key_rate_limited" wait)
       | inr changes => Return changes
       end.

Definition with_changes (p : Portal) (c : list (string * list instant)) : Portal :=
  mkPortal (po_db p) (po_tables p) (po_store p) c (po_cache p).

(** The provider's verdict on the key: its status and balance. *)
Definition check_key (cfg : Settings) (name : string) (jina : Balance) (typesafe : option Z) : Reply (string * option Z) :=
  if String.eqb name "jina" then
    match jina with
    | BalanceCrash => Raise (fault "internal_error")
    | Tokens None => Raise (fault "invalid_provider_key")
    | Tokens (Some b) => Return (jina_state cfg (Some b), Some b)
    end
  else
    let status := typesafe_key_status typesafe in
    if String.eqb status "rejected" then Raise (fault "invalid_provider_key")
    else if String.eqb status "unknown" then Raise (mkFault "invalid_provider_key" (Some 503%Z) (Some 30%Z))
    else Return (status, None).

Record KeyReply := mkKeyReply {
  ky_provider : string; ky_status : string; ky_balance : option Z; ky_last4 : string; ky_resumed : nat
}.

Section portal.
Context `{Aead} (cfg : Settings).

Definition put_provider_key (who : Principal) (name key : string) (request_id : option string) (nonce : list byte)
    (mono now : instant) (jina : Balance) (typesafe : option Z) (p : Portal) : Reply KeyReply * Portal :=
  if negb (key_body_ok key) then (Raise (fault "validation_error"), p)
  else
    match key_change who name mono p with
    | Raise e => (Raise e, p)
    | Return changes =>
        let p := with_changes p changes in
        match check_key cfg name jina typesafe with
        | Raise e => (Raise e, p)
        | Return (status, balance) =>
            match save cfg name key (pr_name who) request_id nonce now mono (po_tables p) (po_store p) with
            | None => (Raise (fault "key_store_unavailable"), p)
            | Some (tables, store) =>
                let '(resumed, db) :=
                  match balance with
                  | Some b =>
                      if String.eqb name "jina" && Z.leb (jina_resume_min_tokens cfg) b
                      then resume_paused_for (po_db p) now "jina_account" else (0%nat, po_db p)
                  | None => (0%nat, po_db p)
                  end in
                (Return (mkKeyReply name status balance (last4 key) resumed),
                 mkPortal db tables store (po_changes p) None)
            end
        end
    end.

Definition delete_provider_key (who : Principal) (name : string) (request_id : option string)
    (mono now : instant) (p : Portal) : Reply (option KeyInfo) * Portal :=
  match key_change who name mono p with
  | Raise e => (Raise e, p)
  | Return changes =>
      let '(tables, store) := clear cfg name (pr_name who) request_id now mono (po_tables p) (po_store p) in
      (Return (dict_get (describe cfg store) name), mkPortal (po_db p) tables store changes None)
  end.

(** Where each key comes from, whether keys can be saved, the processes and the audit. *)
Definition get_provider_keys (who : Principal) (mono now : instant) (p : Portal)
    : Reply (list (string * KeyInfo) * bool * list (string * (list (string * json) * instant)) * list AuditRow) * Portal :=
  if negb (pr_is_admin who) then (Raise (fault "forbidden"), p)
  else
    let '(tables, store) := refresh cfg true mono mono now false (po_tables p) (po_store p) in
    (Return (describe cfg store, nonempty (provider_key_encryption_key cfg), processes tables, recent_audit 10 tables),
     mkPortal (po_db p) tables store (po_changes p) (po_cache p)).

(** [GET /providers/status] ([provider_status]): the vendors (asked again when the last answer
    is old), this month's usage, the threshold and the worker.  [before] and [after] are the
    clock readings of the reload, [mono] the one that follows. *)
Record StatusReply := mkStatusReply {
  sr_vendors : Vendors; sr_usage : Z * Z * Z; sr_jina_low_threshold : Z; sr_worker : WorkerHealth
}.

Definition provider_status (before after mono now month : instant) (report_fails : bool) (jina : Balance)
    (typesafe : option Z) (p : Portal) : Reply StatusReply * Portal :=
  let '(tables, store) := refresh cfg false before after now report_fails (po_tables p) (po_store p) in
  let '(vendors, cache) := vendor_status cfg store (po_cache p) mono now jina typesafe in
  (reply_bind vendors (λ v,
     Return (mkStatusReply v (usage month (po_db p)) (jina_low_balance_tokens cfg) (worker_health now tables))),
   mkPortal (po_db p) tables store (po_changes p) cache).
End portal.
