(* ===== verification/ProviderKeysProps.v ===== *)
(** * Properties of the provider keys

    Base 64 round trips; the key a process uses refines the abstract table of saved keys and
    never falls back to the environment while a saved key cannot be read; what is shown of a
    key depends on its last four characters only; what saving a key does; the limit on
    changes. *)

From Stdlib Require Import ZArith NArith Ascii String Lia ZifyN Sorted.
From stdpp Require Import base strings pretty option sets list.
From S2P Require Import Prelude PyStr Sql Models Queue Jobs JobsProps QueueInv Transitions Errors Sha256 Json Auth ProviderKeys.

(** ** Base 64 *)

Lemma b64_char_value v :
  (v < 64)%N → b64_value (b64_char v) = Some v ∧ Ascii.eqb (b64_char v) "=" = false ∧ N.ltb (code (b64_char v)) 128 = true.
Proof.
  intros Hv. set (P := λ v, bool_decide (b64_value (b64_char v) = Some v)
    && negb (Ascii.eqb (b64_char v) "=") && N.ltb (code (b64_char v)) 128).
  assert (forallb (λ n, P (N.of_nat n)) (seq 0 64) = true) as Hall by (vm_compute; reflexivity).
  rewrite forallb_forall in Hall. specialize (Hall (N.to_nat v)). rewrite N2Nat.id in Hall.
  assert (P v = true) as Hp by (apply Hall, in_seq; lia). unfold P in Hp. bool_to_prop. by split_and!.
Qed.

(** One character of the alphabet, at each position of its group. *)
Lemma a2b_0 v s p l : (v < 64)%N → a2b (String (b64_char v) s) 0 p l = a2b s 1 0 v.
Proof. intros Hv. destruct (b64_char_value v Hv) as (E1 & E2 & _). cbn [a2b]. by rewrite E2, E1. Qed.
Lemma a2b_1 v s p l :
  (v < 64)%N → a2b (String (b64_char v) s) 1 p l = cons (l * 4 + v / 16)%N <$> a2b s 2 0 (v mod 16).
Proof. intros Hv. destruct (b64_char_value v Hv) as (E1 & E2 & _). cbn [a2b]. by rewrite E2, E1. Qed.
Lemma a2b_2 v s p l :
  (v < 64)%N → a2b (String (b64_char v) s) 2 p l = cons (l * 16 + v / 4)%N <$> a2b s 3 0 (v mod 4).
Proof. intros Hv. destruct (b64_char_value v Hv) as (E1 & E2 & _). cbn [a2b]. by rewrite E2, E1. Qed.
Lemma a2b_3 v s p l : (v < 64)%N → a2b (String (b64_char v) s) 3 p l = cons (l * 64 + v)%N <$> a2b s 0 0 0.
Proof. intros Hv. destruct (b64_char_value v Hv) as (E1 & E2 & _). cbn [a2b]. by rewrite E2, E1. Qed.

Ltac bytes := zify; Z.div_mod_to_equations; lia.

Definition bytes_ok (bs : list byte) : Prop := Forall (λ b, (b < 256)%N) bs.

Ltac split_bytes :=
  unfold bytes_ok in *; repeat match goal with H : Forall _ (_ :: _) |- _ => apply Forall_cons in H as [? H] end.

(** Induction in groups of three. *)
Lemma triples_ind (P : list byte → Prop) :
  P [] → (∀ a, P [a]) → (∀ a b, P [a; b]) → (∀ a b c l, P l → P (a :: b :: c :: l)) → ∀ l, P l.
Proof.
  intros H0 H1 H2 H3. fix IH 1. intros [|a [|b [|c l]]]; [apply H0|apply H1|apply H2|apply H3, IH].
Qed.

Lemma a2b_pad2 l : a2b "==" 2 0 l = Some [].
Proof. reflexivity. Qed.
Lemma a2b_pad1 l : a2b "=" 3 0 l = Some [].
Proof. reflexivity. Qed.

Lemma a2b_b64encode bs : bytes_ok bs → a2b (b64encode bs) 0 0 0 = Some bs.
Proof.
  induction bs as [|a|a b|a b c l IH] using triples_ind; intros Hb; [done|..]; cbn [b64encode];
    split_bytes;
    rewrite a2b_0, a2b_1 by bytes.
  - rewrite a2b_pad2. cbn [fmap option_fmap option_map]. do 2 f_equal. bytes.
  - rewrite a2b_2, a2b_pad1 by bytes. cbn [fmap option_fmap option_map]. do 2 f_equal; [|f_equal]; bytes.
  - rewrite a2b_2, a2b_3, IH by (done || bytes). cbn [fmap option_fmap option_map].
    do 2 f_equal; [|f_equal; [|f_equal]]; bytes.
Qed.

Lemma isascii_b64encode bs : bytes_ok bs → isascii (b64encode bs) = true.
Proof.
  assert (∀ v s, (v < 64)%N → isascii s = true → isascii (String (b64_char v) s) = true) as Hc.
  { intros v s Hv Hs. destruct (b64_char_value v Hv) as (_ & _ & E). unfold isascii in *. cbn [str_all].
    rewrite Hs, andb_true_r. unfold between. apply N.ltb_lt in E. apply andb_true_iff. split; apply N.leb_le; lia. }
  induction bs as [|a|a b|a b c l IH] using triples_ind; intros Hb; [done|..]; cbn [b64encode];
    split_bytes.
  all: repeat (apply Hc; [bytes|]); first [done|by apply IH].
Qed.

(** Decoding undoes encoding. *)
Lemma b64decode_b64encode bs : bytes_ok bs → b64decode (b64encode bs) = Some bs.
Proof. intros Hb. unfold b64decode. by rewrite isascii_b64encode, a2b_b64encode. Qed.

Lemma utf8_decode_utf8 s : utf8_decode (utf8 s) = Some s.
Proof.
  induction s as [|c s IH]; [done|]. cbn [utf8]. pose proof (N_ascii_bounded c) as Hc. fold (code c) in Hc.
  destruct (N.ltb_spec (code c) 128) as [Hl|Hl].
  - cbn [utf8_decode]. rewrite (proj2 (N.ltb_lt _ _) Hl), IH. cbn. unfold code. by rewrite ascii_N_embedding.
  - assert (code c / 64 = 2 ∨ code c / 64 = 3)%N as Hq by bytes.
    assert (128 ≤ 128 + code c mod 64 < 192)%N as [Hm1 Hm2] by bytes.
    cbn [utf8_decode]. rewrite (proj2 (N.ltb_ge _ _)) by lia.
    assert ((N.eqb (192 + code c / 64) 194 || N.eqb (192 + code c / 64) 195) = true) as ->.
    { destruct Hq as [-> | ->]; reflexivity. }
    rewrite (proj2 (N.leb_le _ _) Hm1), (proj2 (N.ltb_lt _ _) Hm2), IH. cbn. f_equal.
    replace ((192 + code c / 64 - 192) * 64 + (128 + code c mod 64 - 128))%N with (code c)
      by bytes.
    unfold code. by rewrite ascii_N_embedding.
Qed.

(** ** The table of saved keys *)

Section saved.
Context `{Aead} (cfg : Settings).

(** The abstract view of the table: nothing saved, a saved key that cannot be read, or the
    key. *)
Definition saved (t : list KeyRow) (p : string) : option (option string) :=
  (λ r, decrypt cfg p (kr_ciphertext r) (kr_nonce r)) <$> find_row kr_provider p t.

(** The key to use, by the abstract view. *)
Definition spec_key (t : list KeyRow) (p : string) : string :=
  match saved t p with
  | None => env_key cfg p
  | Some None => ""
  | Some (Some key) => key
  end.

Definition spec_source (t : list KeyRow) (p : string) : string :=
  match saved t p with
  | None => if nonempty (env_key cfg p) then "environment" else "none"
  | Some None => "unreadable"
  | Some (Some _) => "portal"
  end.

(** The loop keeps what it has for providers not among the rows. *)
Lemma load_rows_spec rows keys meta failed p :
  NoDup (map kr_provider rows) →
  let '(keys', meta', failed') := load_rows cfg rows keys meta failed in
  dict_get keys' p = match saved rows p with Some (Some key) => Some key | _ => dict_get keys p end ∧
  (p ∈ failed' ↔ p ∈ failed ∨ saved rows p = Some None) ∧
  dict_get meta' p = match find_row kr_provider p rows with
                     | Some r => Some (mkMeta (kr_last4 r) (kr_updated_by r) (kr_updated_at r))
                     | None => dict_get meta p
                     end.
Proof.
  revert keys meta failed. induction rows as [|r rows IH]; intros keys meta failed Hn; cbn [load_rows].
  { cbn. split_and!; try done. set_solver. }
  apply NoDup_cons in Hn as [Hr Hn].
  assert (kr_provider r = p → find_row kr_provider p rows = None) as Hp.
  { intros <-. apply find_row_None. intros x Hx E. apply Hr. rewrite <- E. by apply list_elem_of_fmap_2. }
  assert (saved (r :: rows) p
          = if String.eqb (kr_provider r) p then Some (decrypt cfg p (kr_ciphertext r) (kr_nonce r)) else saved rows p) as Es.
  { unfold saved, find_row. cbn. destruct (String.eqb_spec (kr_provider r) p) as [->|Hne].
    - by rewrite bool_decide_true.
    - by rewrite bool_decide_false. }
  assert (find_row kr_provider p (r :: rows) = if String.eqb (kr_provider r) p then Some r else find_row kr_provider p rows) as Ef.
  { unfold find_row. cbn. destruct (String.eqb_spec (kr_provider r) p) as [->|Hne].
    - by rewrite bool_decide_true.
    - by rewrite bool_decide_false. }
  rewrite Es, Ef. set (meta1 := dict_set meta _ _).
  destruct (decrypt cfg (kr_provider r) (kr_ciphertext r) (kr_nonce r)) as [key|] eqn:Ed.
  - specialize (IH (dict_set keys (kr_provider r) key) meta1 failed Hn).
    destruct (load_rows _ _ _ _ _) as [[k' m'] f']. destruct IH as (I1 & I2 & I3).
    rewrite I1, I2, I3, dict_get_set. unfold meta1. rewrite dict_get_set.
    destruct (String.eqb_spec (kr_provider r) p) as [<-|Hne]; [|by split_and!].
    unfold saved. rewrite Hp, Ed by done. cbn. split_and!; try done. split; intros [?|?]; try done; by left.
  - specialize (IH keys meta1 (if mem (kr_provider r) failed then failed else failed ++ [kr_provider r]) Hn).
    destruct (load_rows _ _ _ _ _) as [[k' m'] f']. destruct IH as (I1 & I2 & I3).
    rewrite I1, I2, I3. unfold meta1. rewrite dict_get_set.
    assert (p ∈ (if mem (kr_provider r) failed then failed else failed ++ [kr_provider r])
            ↔ p ∈ failed ∨ kr_provider r = p) as Hm.
    { unfold mem. destruct (bool_decide_reflect (kr_provider r ∈ failed)); set_solver. }
    rewrite Hm. destruct (String.eqb_spec (kr_provider r) p) as [<-|Hne].
    + unfold saved. rewrite Hp, Ed by done. cbn. split_and!; try done. split; intros; tauto.
    + split_and!; try done. split; intros; tauto.
Qed.

Lemma report_keys ks now fails t : kt_keys (report cfg ks now fails t) = kt_keys t.
Proof. unfold report. destruct (ks_process_name ks); [|done]. by break. Qed.

Lemma refresh_spec before after_ now fails t ks p :
  NoDup (map kr_provider (kt_keys t)) →
  let '(t', ks') := refresh cfg true before after_ now fails t ks in
  kt_keys t' = kt_keys t ∧ current cfg ks' p = spec_key (kt_keys t) p ∧ source cfg ks' p = spec_source (kt_keys t) p.
Proof.
  intros Hn. unfold refresh. cbn [negb andb].
  pose proof (load_rows_spec (kt_keys t) [] [] [] p Hn) as Hl.
  destruct (load_rows _ _ _ _ _) as [[keys meta] failed]. destruct Hl as (H1 & H2 & _).
  split; [apply report_keys|]. unfold source, in_dict, current, spec_key, spec_source. cbn. rewrite H1. unfold mem.
  destruct (saved (kt_keys t) p) as [[key|]|].
  - rewrite bool_decide_false; [done|]. intros [?%elem_of_nil|?]%H2; done.
  - rewrite bool_decide_true; [done|]. apply H2. by right.
  - rewrite bool_decide_false; [done|]. intros [?%elem_of_nil|?]%H2; done.
Qed.

Lemma NoDup_upsert row t : NoDup (map kr_provider t) → NoDup (map kr_provider (upsert_key row t)).
Proof.
  intros Hn. unfold upsert_key. destruct (any _ t) eqn:E.
  - replace (map kr_provider (update_where _ _ t)) with (map kr_provider t); [done|].
    unfold update_where. rewrite map_map. apply map_ext. intros r.
    by destruct (String.eqb_spec (kr_provider r) (kr_provider row)).
  - rewrite map_app. apply NoDup_app. split_and!; [done| |apply NoDup_singleton].
    intros x (r & -> & Hr)%list_elem_of_fmap Hx%list_elem_of_singleton.
    assert (any (λ r, String.eqb (kr_provider r) (kr_provider row)) t = true) as He; [|by rewrite He in E].
    apply existsb_exists. exists r. split; [by apply list_elem_of_In|by apply String.eqb_eq].
Qed.

Lemma find_upsert row t p :
  find_row kr_provider p (upsert_key row t)
  = if String.eqb p (kr_provider row) then Some row else find_row kr_provider p t.
Proof.
  unfold upsert_key. destruct (any _ t) eqn:E.
  - rewrite find_row_update_where by (intros r ->%String.eqb_eq; done).
    destruct (String.eqb_spec p (kr_provider row)) as [->|Hne].
    + apply existsb_exists in E as (r & Hr%list_elem_of_In & Er%String.eqb_eq).
      destruct (find_row kr_provider (kr_provider row) t) as [x|] eqn:Ex.
      * apply find_row_Some in Ex as [_ Ex]. cbn. by rewrite Ex, String.eqb_refl.
      * by destruct (proj1 (find_row_None _ _ _) Ex r Hr).
    + destruct (find_row kr_provider p t) as [x|] eqn:Ex; [|done]. apply find_row_Some in Ex as [_ Ex]. cbn.
      rewrite Ex. by rewrite (proj2 (String.eqb_neq _ _) Hne).
  - unfold find_row. rewrite keep_app. destruct (String.eqb_spec p (kr_provider row)) as [->|Hne].
    + rewrite keep_none; [cbn; by rewrite bool_decide_true|]. intros r Hr. apply bool_decide_eq_false. intros Er.
      assert (any (λ r, String.eqb (kr_provider r) (kr_provider row)) t = true) as He; [|by rewrite He in E].
      apply existsb_exists. exists r. split; [by apply list_elem_of_In|by apply String.eqb_eq].
    + rewrite (keep_none _ [row]); [by rewrite app_nil_r|]. intros r ->%list_elem_of_singleton.
      apply bool_decide_eq_false. congruence.
Qed.

Lemma find_cleared p q t :
  find_row kr_provider q (keep (λ r, negb (String.eqb (kr_provider r) p)) t)
  = if String.eqb q p then None else find_row kr_provider q t.
Proof.
  unfold find_row. rewrite keep_keep. destruct (String.eqb_spec q p) as [->|Hne].
  - rewrite keep_none; [done|]. intros r _. destruct (String.eqb_spec (kr_provider r) p) as [->|]; [done|].
    cbn. by rewrite bool_decide_false.
  - f_equal. apply keep_ext. intros r _. destruct (bool_decide_reflect (kr_provider r = q)) as [->|]; [|by rewrite andb_false_r].
    by rewrite (proj2 (String.eqb_neq _ _) Hne).
Qed.

Lemma decrypt_encrypt `{!AeadLaws} nonce provider secret c n :
  bytes_ok nonce → encrypt cfg nonce provider secret = Some (c, n) → decrypt cfg provider c n = Some secret.
Proof.
  unfold encrypt, decrypt. intros Hn E. destruct (master_key cfg) as [key|] eqn:Ek; [|done]. injection E as <- <-.
  rewrite (b64decode_b64encode nonce Hn), b64decode_b64encode by (apply seal_bytes, utf8_bytes).
  rewrite open_seal; [cbn; apply utf8_decode_utf8| |apply utf8_bytes]. unfold master_key in Ek. break_in Ek; [done|].
  destruct (b64decode _); [|done]. break_in Ek; [|done]. injection Ek as <-. by apply Nat.eqb_eq.
Qed.

(** What an operation leaves, given the abstract table it should leave. *)
Lemma after_reload t2 ks before now (view : string → option (option string)) t' ks' :
  NoDup (map kr_provider (kt_keys t2)) → (∀ q, saved (kt_keys t2) q = view q) →
  refresh cfg true before before now false t2 ks = (t', ks') →
  NoDup (map kr_provider (kt_keys t')) ∧ (∀ q, saved (kt_keys t') q = view q) ∧
  ∀ q, current cfg ks' q = spec_key (kt_keys t') q ∧ source cfg ks' q = spec_source (kt_keys t') q.
Proof.
  intros Hn Hv E. pose proof (λ q, refresh_spec before before now false t2 ks q Hn) as Hr. rewrite E in Hr.
  destruct (Hr "") as [Hk _]. rewrite Hk. split_and!; [done|done|]. intros q. by destruct (Hr q).
Qed.

Lemma save_spec `{!AeadLaws} p secret who rid nonce now before t ks t' ks' :
  bytes_ok nonce → NoDup (map kr_provider (kt_keys t)) →
  save cfg p secret who rid nonce now before t ks = Some (t', ks') →
  is_Some (master_key cfg) ∧ NoDup (map kr_provider (kt_keys t')) ∧
  (∀ q, saved (kt_keys t') q = if String.eqb q p then Some (Some secret) else saved (kt_keys t) q) ∧
  ∀ q, current cfg ks' q = spec_key (kt_keys t') q ∧ source cfg ks' q = spec_source (kt_keys t') q.
Proof.
  intros Hb Hn. unfold save. destruct (encrypt cfg nonce p secret) as [[c n]|] eqn:Ee; [|done].
  pose proof (decrypt_encrypt nonce p secret c n Hb Ee) as Hd. intros [= E]. split.
  { unfold encrypt in Ee. by destruct (master_key cfg). }
  eapply after_reload; [..|exact E]; [by apply NoDup_upsert|].
  intros q. unfold saved. cbn [audit kt_keys]. rewrite find_upsert. cbn [kr_provider].
  destruct (String.eqb_spec q p) as [->|]; [cbn; by rewrite Hd|done].
Qed.

Lemma clear_spec p who rid now before t ks t' ks' :
  NoDup (map kr_provider (kt_keys t)) → clear cfg p who rid now before t ks = (t', ks') →
  NoDup (map kr_provider (kt_keys t')) ∧
  (∀ q, saved (kt_keys t') q = if String.eqb q p then None else saved (kt_keys t) q) ∧
  ∀ q, current cfg ks' q = spec_key (kt_keys t') q ∧ source cfg ks' q = spec_source (kt_keys t') q.
Proof.
  intros Hn E. eapply after_reload; [..|exact E].
  - cbn [audit kt_keys]. revert Hn. induction (kt_keys t) as [|r l IH]; [done|]. cbn. intros [Hr Hl]%NoDup_cons.
    destruct (negb _); [|by apply IH]. cbn. constructor; [|by apply IH].
    intros (x & Ex & [Hx _]%elem_of_keep)%list_elem_of_fmap. apply Hr. rewrite Ex. by apply list_elem_of_fmap_2.
  - intros q. unfold saved. cbn [audit kt_keys]. rewrite find_cleared. by destruct (String.eqb q p).
Qed.

(** The view of one provider decides its key. *)
Lemma spec_key_view t t' q : saved t' q = saved t q → spec_key t' q = spec_key t q.
Proof. unfold spec_key. by intros ->. Qed.
End saved.

(** C20: the keys a process uses refine the abstract table of saved keys.  A reload makes
    every provider's key the saved one, nothing at all while a saved key cannot be decrypted
    here (never the environment's), and the environment's only when none is saved, and the
    reported source says which; saving a key makes it the one in use and leaves the other
    providers' alone, and fails, before anything is written, exactly when there is no usable
    master key; removing one makes the environment's apply again. *)
Theorem provider_keys_refine `{A : Aead} `{L : !AeadLaws} (cfg : Settings) (t : KeyTables) (ks : KeyStore) (before now : instant)
    (Hn : NoDup (map kr_provider (kt_keys t))) :
  (∀ p, let ks' := (refresh cfg true before before now false t ks).2 in
        current cfg ks' p = spec_key cfg (kt_keys t) p ∧ source cfg ks' p = spec_source cfg (kt_keys t) p) ∧
  (∀ p secret who rid nonce, bytes_ok nonce →
     match save cfg p secret who rid nonce now before t ks with
     | None => master_key cfg = None
     | Some (t', ks') =>
         is_Some (master_key cfg) ∧ NoDup (map kr_provider (kt_keys t')) ∧
         current cfg ks' p = secret ∧ source cfg ks' p = "portal" ∧
         ∀ q, q ≠ p → saved cfg (kt_keys t') q = saved cfg (kt_keys t) q ∧ current cfg ks' q = spec_key cfg (kt_keys t) q
     end) ∧
  (∀ p who rid,
     let '(t', ks') := clear cfg p who rid now before t ks in
     NoDup (map kr_provider (kt_keys t')) ∧ current cfg ks' p = env_key cfg p ∧
     ∀ q, q ≠ p → saved cfg (kt_keys t') q = saved cfg (kt_keys t) q ∧ current cfg ks' q = spec_key cfg (kt_keys t) q).
Proof.
  split_and!.
  - intros p ks'. pose proof (refresh_spec cfg before before now false t ks p Hn) as Hr. unfold ks'.
    destruct (refresh _ _ _ _ _ _ _ _). by destruct Hr as (_ & ? & ?).
  - intros p secret who rid nonce Hb.
    destruct (save cfg p secret who rid nonce now before t ks) as [[t' ks']|] eqn:E.
    + destruct (save_spec cfg _ _ _ _ _ _ _ _ _ _ _ Hb Hn E) as (Hm & Hn' & Hs & Hc).
      split_and!; [done|done|..].
      * rewrite (proj1 (Hc p)). unfold spec_key. by rewrite Hs, String.eqb_refl.
      * rewrite (proj2 (Hc p)). unfold spec_source. by rewrite Hs, String.eqb_refl.
      * intros q Hq. specialize (Hs q). rewrite (proj2 (String.eqb_neq _ _) Hq) in Hs. split; [done|].
        rewrite (proj1 (Hc q)). by apply spec_key_view.
    + unfold save, encrypt in E. by destruct (master_key cfg).
  - intros p who rid. destruct (clear cfg p who rid now before t ks) as [t' ks'] eqn:E.
    destruct (clear_spec cfg _ _ _ _ _ _ _ _ _ Hn E) as (Hn' & Hs & Hc). split_and!; [done|..].
    + rewrite (proj1 (Hc p)). unfold spec_key. by rewrite Hs, String.eqb_refl.
    + intros q Hq. specialize (Hs q). rewrite (proj2 (String.eqb_neq _ _) Hq) in Hs. split; [done|].
      rewrite (proj1 (Hc q)). by apply spec_key_view.
Qed.

(** ** A concrete scheme, for the examples: the text with a keyed digest appended *)

Definition tag (key nonce ad pt : list byte) : list byte :=
  map (λ b, b mod 256)%N (hmac_sha256 key (nonce ++ 0%N :: ad ++ 0%N :: pt)).

#[export] Instance tagged : Aead := {|
  aead_seal key nonce ad pt := pt ++ tag key nonce ad pt;
  aead_open key nonce ad ct :=
    let pt := take (length ct - 32) ct in
    if bool_decide (drop (length ct - 32) ct = tag key nonce ad pt) then Some pt else None
|}.

Lemma length_tag key nonce ad pt : length (tag key nonce ad pt) = 32%nat.
Proof. unfold tag, hmac_sha256. rewrite length_map. apply length_sha256. Qed.

Lemma tagged_laws : AeadLaws.
Proof.
  split; intros key nonce ad pt.
  - intros _ _. cbn [aead_open aead_seal tagged]. rewrite length_app, length_tag, Nat.add_sub, take_app_length, drop_app_length.
    by rewrite bool_decide_true.
  - intros Hp. apply Forall_app. split; [done|]. apply Forall_forall. intros b (x & -> & _)%list_elem_of_fmap.
    apply N.mod_lt. lia.
Qed.

(** The default settings with a master key and a Jina key in the environment. *)
Definition keyed_settings (master : string) : Settings :=
  {| api_key := api_key default_settings; database_url := database_url default_settings;
     redis_url := redis_url default_settings; fetch_backend := fetch_backend default_settings;
     jina_api_key := "env-jina-key"; jina_rpm := jina_rpm default_settings;
     jina_timeout_s := jina_timeout_s default_settings; provider_key_encryption_key := master;
     jina_resume_min_tokens := jina_resume_min_tokens default_settings; jina_low_balance_tokens := jina_low_balance_tokens default_settings;
     rate_limit_backend := rate_limit_backend default_settings; typesafe_api_key := typesafe_api_key default_settings;
     typesafe_model := typesafe_model default_settings; typesafe_concurrency := typesafe_concurrency default_settings;
     typesafe_confidence_min := typesafe_confidence_min default_settings; typesafe_belongs_min := typesafe_belongs_min default_settings;
     global_fetch_concurrency := global_fetch_concurrency default_settings; per_domain_concurrency := per_domain_concurrency default_settings;
     max_pages_per_domain := max_pages_per_domain default_settings; max_page_bytes := max_page_bytes default_settings;
     max_page_tokens := max_page_tokens default_settings; early_stop_on_first_good := early_stop_on_first_good default_settings;
     collect_all_emails := collect_all_emails default_settings; cache_days := cache_days default_settings;
     connect_timeout_s := connect_timeout_s default_settings; read_timeout_s := read_timeout_s default_settings;
     fetch_guard_private_addresses := fetch_guard_private_addresses default_settings; domain_timeout_s := domain_timeout_s default_settings;
     max_domain_attempts := max_domain_attempts default_settings; retry_pass_delay_s := retry_pass_delay_s default_settings;
     user_agent := user_agent default_settings; db_pool_size := db_pool_size default_settings;
     db_max_overflow := db_max_overflow default_settings; max_active_jobs_per_user := max_active_jobs_per_user default_settings;
     rate_limit_per_minute := rate_limit_per_minute default_settings; max_upload_bytes := max_upload_bytes default_settings;
     max_concurrent_uploads := max_concurrent_uploads default_settings; typical_domains_per_minute := typical_domains_per_minute default_settings;
     upload_wait_s := upload_wait_s default_settings; webhook_timeout_s := webhook_timeout_s default_settings;
     webhook_secret := webhook_secret default_settings; allow_http_webhooks := allow_http_webhooks default_settings;
     debug_store_html := debug_store_html default_settings; html_store_dir := html_store_dir default_settings;
     log_level := log_level default_settings |}.

Definition master32 : string := b64encode (replicate 32 7%N).
Definition key_cfg : Settings := keyed_settings master32.
Definition no_tables : KeyTables := mkTables [] [] [].
Definition nonce12 : list byte := replicate 12 1%N.

Definition demo_saved : option (KeyTables * KeyStore) :=
  save (H := tagged) key_cfg "jina" "jina_secret_0123" "Ana" None nonce12 5 5 no_tables empty_store.
Definition demo_tables : KeyTables := default no_tables (fst <$> demo_saved).

(** A process with another master key: the saved key is unreadable, and is not replaced by
    the environment's. *)
Definition stranger_cfg : Settings := keyed_settings (b64encode (replicate 32 8%N)).

Lemma provider_keys_refine_witness :
  current key_cfg (refresh (H := tagged) key_cfg true 9 9 9 false demo_tables empty_store).2 "jina" = "jina_secret_0123" ∧
  current stranger_cfg (refresh (H := tagged) stranger_cfg true 9 9 9 false demo_tables empty_store).2 "jina" = "".
Proof.
  assert (NoDup (map kr_provider (kt_keys demo_tables))) as Hn.
  { replace (map kr_provider (kt_keys demo_tables)) with ["jina"] by (vm_compute; reflexivity). apply NoDup_singleton. }
  split.
  - rewrite (proj1 (proj1 (provider_keys_refine (A := tagged) (L := tagged_laws) key_cfg demo_tables empty_store
      9 9 Hn) "jina")). vm_compute. reflexivity.
  - rewrite (proj1 (proj1 (provider_keys_refine (A := tagged) (L := tagged_laws) stranger_cfg demo_tables
      empty_store 9 9 Hn) "jina")). vm_compute. reflexivity.
Defined.

(** ** What is shown of a key *)

(** Two stores that differ only in the keys themselves, beyond their last four characters. *)
Record same_but_keys (cfg1 cfg2 : Settings) (ks1 ks2 : KeyStore) : Prop := {
  sb_failed : ks_failed ks1 = ks_failed ks2;
  sb_meta : ks_meta ks1 = ks_meta ks2;
  sb_in p : in_dict p (ks_keys ks1) = in_dict p (ks_keys ks2);
  sb_last4 p : last4 (current cfg1 ks1 p) = last4 (current cfg2 ks2 p)
}.

Lemma last4_empty s : nonempty (last4 s) = nonempty s.
Proof.
  unfold last4. assert (∀ n s, (n < String.length s)%nat → nonempty (str_drop n s) = true) as Hd.
  { induction n as [|n IH]; intros [|c t] Hl; cbn in *; try done; try lia. apply IH. lia. }
  destruct s as [|c s]; [done|]. rewrite Hd; [done|]. cbn. lia.
Qed.

Lemma source_same cfg1 cfg2 ks1 ks2 p :
  same_but_keys cfg1 cfg2 ks1 ks2 → source cfg1 ks1 p = source cfg2 ks2 p.
Proof.
  intros H. unfold source. rewrite (sb_failed _ _ _ _ H), (sb_in _ _ _ _ H).
  rewrite <- (last4_empty (current cfg1 ks1 p)), <- (last4_empty (current cfg2 ks2 p)).
  by rewrite (sb_last4 _ _ _ _ H).
Qed.

(** Only the last four characters of a key leave: two processes whose keys differ, but
    not in their last four characters, show the same description of the keys and report the
    same about themselves. *)
Theorem only_last4_leaves (cfg1 cfg2 : Settings) (ks1 ks2 : KeyStore) (H : same_but_keys cfg1 cfg2 ks1 ks2) :
  describe cfg1 ks1 = describe cfg2 ks2 ∧ key_report cfg1 ks1 = key_report cfg2 ks2.
Proof.
  assert (∀ p, nonempty (current cfg1 ks1 p) = nonempty (current cfg2 ks2 p)) as Hne.
  { intros p. rewrite <- (last4_empty (current cfg1 ks1 p)), <- (last4_empty (current cfg2 ks2 p)).
    by rewrite (sb_last4 _ _ _ _ H). }
  split; apply map_ext; intros p; cbv zeta.
  - by rewrite (source_same _ _ _ _ p H), (sb_failed _ _ _ _ H), (sb_meta _ _ _ _ H), (sb_in _ _ _ _ H), Hne,
      (sb_last4 _ _ _ _ H).
  - by rewrite (source_same _ _ _ _ p H), (sb_last4 _ _ _ _ H).
Qed.

Lemma dict_get_one {V} k (v : V) p : dict_get [(k, v)] p = if String.eqb k p then Some v else None.
Proof. unfold dict_get, keep. cbn [List.filter fst]. by destruct (String.eqb k p). Qed.

Lemma only_last4_leaves_witness :
  describe key_cfg (mkStore [("jina", "first-key-7890")] [("jina", mkMeta "7890" "Ana" 5)] [] 0 None)
  = describe key_cfg (mkStore [("jina", "second-7890")] [("jina", mkMeta "7890" "Ana" 5)] [] 0 None).
Proof.
  apply (only_last4_leaves key_cfg key_cfg _ _). split; [reflexivity|reflexivity|..]; intros p.
  - unfold in_dict. cbn [ks_keys]. rewrite !dict_get_one. by destruct (String.eqb "jina" p).
  - unfold current. cbn [ks_failed ks_keys]. rewrite !dict_get_one. by destruct (mem p []), (String.eqb "jina" p).
Defined.

(** ** The limit on changes *)

(** The accepted changes of one person in a series of attempts. *)
Fixpoint accepted (who : string) (changes : list (string * list instant)) (times : list instant) : list instant :=
  match times with
  | [] => []
  | t :: rest =>
      match limit_key_changes who t changes with
      | inl _ => accepted who changes rest
      | inr changes' => t :: accepted who changes' rest
      end
  end.

Definition within (now : instant) (t : instant) : bool := Z.ltb (now - t) (seconds 60).

Lemma limit_inr who now changes changes' :
  limit_key_changes who now changes = inr changes' →
  let recent := keep (within now) (default [] (dict_get changes who)) in
  (length recent < KEY_CHANGES_PER_MINUTE)%nat ∧ dict_get changes' who = Some (recent ++ [now]).
Proof.
  unfold limit_key_changes, within. set (recent := keep _ _). clearbody recent. intros E.
  destruct recent as [|x recent].
  - injection E as <-. rewrite dict_get_set, String.eqb_refl. split; [cbn; unfold KEY_CHANGES_PER_MINUTE; lia|done].
  - destruct (Nat.leb_spec KEY_CHANGES_PER_MINUTE (length (x :: recent))); [done|]. injection E as <-.
    by rewrite dict_get_set, String.eqb_refl.
Qed.

Lemma within_later now now' t : (now ≤ now')%Z → within now' t = true → within now t = true.
Proof. unfold within. rewrite !Z.ltb_lt. lia. Qed.

Lemma keep_within_later now now' l :
  (now ≤ now')%Z → keep (within now') (keep (within now) l) = keep (within now') l.
Proof.
  intros Hl. rewrite keep_keep. apply keep_ext. intros t _.
  destruct (within now' t) eqn:E; [|by rewrite andb_false_r]. by rewrite (within_later now now').
Qed.

(** The minute that ends at [w]. *)
Definition in_minute (w t : instant) : bool := Z.leb t w && within w t.

Lemma count_in_minute past t w :
  (∀ x, x ∈ past → (x ≤ t)%Z) → (length (keep (within t) past) < KEY_CHANGES_PER_MINUTE)%nat →
  (count (in_minute w) past ≤ KEY_CHANGES_PER_MINUTE)%nat →
  (count (in_minute w) (past ++ [t]) ≤ KEY_CHANGES_PER_MINUTE)%nat.
Proof.
  intros Hp Hr Hw. unfold count in *. rewrite keep_app, length_app.
  destruct (Z.le_gt_cases t w) as [Ht|Ht].
  - assert (length (keep (in_minute w) past) ≤ length (keep (within t) past))%nat as Hle.
    { rewrite (keep_ext (in_minute w) (λ x, within t x && in_minute w x)).
      - rewrite <- keep_keep. apply length_keep_le.
      - intros x _. unfold in_minute. destruct (within w x) eqn:E; [|by rewrite !andb_false_r].
        by rewrite (within_later t w). }
    pose proof (length_keep_le (in_minute w) [t]) as H1. cbn [length] in H1. lia.
  - rewrite (keep_none _ [t]); [cbn; lia|]. intros x ->%list_elem_of_singleton. unfold in_minute.
    by rewrite (proj2 (Z.leb_gt _ _) Ht).
Qed.

Lemma accepted_bound who times : ∀ changes past now,
  Sorted Z.le (now :: times) → (∀ x, x ∈ past → (x ≤ now)%Z) →
  (∀ w, (now ≤ w)%Z → keep (within w) (default [] (dict_get changes who)) = keep (within w) past) →
  (∀ w, (count (in_minute w) past ≤ KEY_CHANGES_PER_MINUTE)%nat) →
  ∀ w, (count (in_minute w) (past ++ accepted who changes times) ≤ KEY_CHANGES_PER_MINUTE)%nat.
Proof.
  induction times as [|t times IH]; intros changes past now Hs Hp Hk Hw w; cbn [accepted].
  { by rewrite app_nil_r. }
  apply Sorted_inv in Hs as [Hs Ht]. apply HdRel_inv in Ht.
  destruct (limit_key_changes who t changes) as [?|changes'] eqn:E.
  - apply (IH changes past t); [done| | |done].
    + intros x Hx. specialize (Hp x Hx). lia.
    + intros w' Hw'. apply Hk. lia.
  - apply limit_inr in E as [Hl Hd]. rewrite (Hk t Ht) in Hl, Hd.
    assert (∀ x, x ∈ past → (x ≤ t)%Z) as Hpt by (intros x Hx; specialize (Hp x Hx); lia).
    rewrite cons_middle, app_assoc. apply (IH changes' (past ++ [t]) t); [done| | |].
    + intros x [Hx| ->%list_elem_of_singleton]%elem_of_app; [by apply Hpt|lia].
    + intros w' Hw'. rewrite Hd. cbn [from_option]. unfold id. by rewrite !keep_app, keep_within_later.
    + intros w'. by apply count_in_minute.
Qed.

(** In any minute one administrator gets at most ten key changes past the limit, however
    many they try, as long as the clock does not go back. *)
Theorem key_changes_per_minute (who : string) (times : list instant) (w : instant) (H : Sorted Z.le times) :
  (count (in_minute w) (accepted who [] times) ≤ KEY_CHANGES_PER_MINUTE)%nat.
Proof.
  destruct times as [|t times]; [unfold count; cbn; lia|].
  apply (accepted_bound who (t :: times) [] [] t); try done.
  - constructor; [done|]. by constructor.
  - intros x Hx%elem_of_nil. done.
  - intros w'. unfold count. cbn. lia.
Qed.

Lemma key_changes_per_minute_witness :
  (count (in_minute 30) (accepted "Ana" [] [0; 1; 2; 3; 4; 5; 6; 7; 8; 9; 10; 11; 12]%Z) ≤ KEY_CHANGES_PER_MINUTE)%nat.
Proof. apply (key_changes_per_minute "Ana"). repeat constructor; lia. Defined.

(** ** Saving a key through the API *)

(** Nothing but the count of attempts differs. *)
Definition only_counted (p p' : Portal) : Prop :=
  po_db p' = po_db p ∧ po_tables p' = po_tables p ∧ po_store p' = po_store p ∧ po_cache p' = po_cache p.

Lemma key_change_cases who name mono p :
  match key_change who name mono p with
  | Raise e => listed (f_code e)
  | Return _ => pr_is_admin who = true ∧ name ∈ PROVIDERS
  end.
Proof.
  unfold key_change. destruct (pr_is_admin who); [|listed]. cbn [negb].
  destruct (mem name PROVIDERS) eqn:E; [|listed]. cbn [negb]. apply bool_decide_eq_true in E.
  destruct (limit_key_changes _ _ _); [listed|done].
Qed.

Lemma check_key_cases cfg name jina typesafe :
  match check_key cfg name jina typesafe with
  | Raise e => listed (f_code e)
  | Return (_, balance) =>
      if String.eqb name "jina" then ∃ b, jina = Tokens (Some b) ∧ balance = Some b
      else balance = None ∧ typesafe_key_status typesafe ∈ ["ok"; "empty"]
  end.
Proof.
  unfold check_key. destruct (String.eqb name "jina").
  - destruct jina as [[b|]|]; [by exists b|listed|listed].
  - unfold typesafe_key_status. destruct typesafe as [st|]; [|listed].
    destruct (Z.eqb st 200); [split; [done|set_solver]|]. destruct (Z.eqb st 401 || Z.eqb st 403); [listed|].
    destruct (Z.eqb st 402); [split; [done|set_solver]|listed].
Qed.

(** A key is saved only for an administrator, a known provider, a key of a sensible
    shape and after the provider accepted it; from then on it is the key in use, the cached
    balances are forgotten, and the jobs that paused because Jina ran out are resumed exactly
    when it is a Jina key with enough credit, otherwise no job is touched.  Every refusal has
    a documented code and leaves jobs, saved keys and the keys in use as they were. *)
Theorem put_provider_key_effects `{A : Aead} `{L : !AeadLaws} (cfg : Settings) (who : Principal) (name key : string)
    (rid : option string) (nonce : list byte) (mono now : instant) (jina : Balance) (typesafe : option Z) (p : Portal)
    (Hnonce : bytes_ok nonce) (Hn : NoDup (map kr_provider (kt_keys (po_tables p)))) :
  match put_provider_key cfg who name key rid nonce mono now jina typesafe p with
  | (Raise e, p') => listed (f_code e) ∧ only_counted p p'
  | (Return r, p') =>
      pr_is_admin who = true ∧ name ∈ PROVIDERS ∧ key_body_ok key = true ∧
      (if String.eqb name "jina" then ∃ b, jina = Tokens (Some b) ∧ ky_balance r = Some b
       else typesafe_key_status typesafe ∈ ["ok"; "empty"]) ∧
      current cfg (po_store p') name = key ∧ po_cache p' = None ∧
      po_db p' = match ky_balance r with
                 | Some b => if Z.leb (jina_resume_min_tokens cfg) b
                             then (resume_paused_for (po_db p) now "jina_account").2 else po_db p
                 | None => po_db p
                 end
  end.
Proof.
  unfold put_provider_key. destruct (key_body_ok key) eqn:Eb; [|split; [listed|by split_and!]]. cbn [negb].
  pose proof (key_change_cases who name mono p) as Hk. destruct (key_change who name mono p) as [changes|e];
    [|split; [done|by split_and!]]. destruct Hk as [Ha Hname].
  pose proof (check_key_cases cfg name jina typesafe) as Hc.
  destruct (check_key cfg name jina typesafe) as [[status balance]|e]; [|split; [done|by split_and!]].
  cbn [with_changes po_tables po_store po_db po_changes].
  destruct (save _ _ _ _ _ _ _ _ _ _) as [[tables store]|] eqn:Es; [|split; [listed|by split_and!]].
  destruct (save_spec cfg _ _ _ _ _ _ _ _ _ _ _ Hnonce Hn Es) as (_ & _ & Hs & Hcur).
  assert (current cfg store name = key) as Hkey.
  { rewrite (proj1 (Hcur name)). unfold spec_key. by rewrite Hs, String.eqb_refl. }
  destruct (String.eqb name "jina") eqn:Ej.
  - destruct Hc as (b & -> & ->). cbn [andb]. destruct (Z.leb (jina_resume_min_tokens cfg) b) eqn:El.
    + destruct (resume_paused_for _ _ _) as [n db] eqn:Er. cbn. rewrite El. split_and!; eauto.
    + cbn. rewrite El. split_and!; eauto.
  - destruct Hc as [-> Ht]. cbn. by split_and!.
Qed.

Definition demo_portal : Portal := mkPortal empty_db no_tables empty_store [] None.
Definition demo_admin : Principal := mkPrincipal None "admin" true None.

Lemma put_provider_key_effects_witness :
  match put_provider_key (H := tagged) key_cfg demo_admin "jina" "jina_secret_0123" None nonce12 5 5
          (Tokens (Some 20000000%Z)) None demo_portal with
  | (Raise _, _) => False
  | (Return r, p') => ky_last4 r = "0123" ∧ current key_cfg (po_store p') "jina" = "jina_secret_0123"
  end.
Proof.
  assert (bytes_ok nonce12) as Hb by (repeat constructor).
  pose proof (put_provider_key_effects (A := tagged) (L := tagged_laws) key_cfg demo_admin "jina" "jina_secret_0123" None
    nonce12 5 5 (Tokens (Some 20000000%Z)) None demo_portal Hb (NoDup_nil_2)) as H.
  destruct (put_provider_key _ _ _ _ _ _ _ _ _ _ _) as [[r|e] p'] eqn:E; [|vm_compute in E; discriminate].
  split; [vm_compute in E; by injection E as <- _|]. apply H.
Defined.

(** ** The vendors are not asked often *)

(** A request for the status: the clock reading and what the vendors would answer. *)
Record StatusCall := mkStatusCall { sc_mono : instant; sc_now : instant; sc_jina : Balance; sc_typesafe : option Z }.

Section status_calls.
Context (cfg : Settings) (ks : KeyStore).

Definition ask_status (cache : option (instant * Vendors)) (c : StatusCall) : Reply Vendors * option (instant * Vendors) :=
  vendor_status cfg ks cache (sc_mono c) (sc_now c) (sc_jina c) (sc_typesafe c).

(** The readings at which a new answer was stored. *)
Fixpoint stored_at (cache : option (instant * Vendors)) (cs : list StatusCall) : list instant :=
  match cs with
  | [] => []
  | c :: rest =>
      let cache' := (ask_status cache c).2 in
      (match cache' with
       | Some (t, _) => if bool_decide (fst <$> cache = Some t) then [] else [t]
       | None => []
       end) ++ stored_at cache' rest
  end.

Lemma ask_status_cases cache c :
  (ask_status cache c).2 = cache ∨
  (∃ v, (ask_status cache c).2 = Some (sc_mono c, v) ∧ (ask_status cache c).1 = Return v ∧
        ∀ t w, cache = Some (t, w) → (seconds CACHE_S < sc_mono c - t)%Z).
Proof.
  unfold ask_status, vendor_status. destruct cache as [[t v]|].
  - destruct (Z.ltb_spec (seconds CACHE_S) (sc_mono c - t)); [|by left].
    destruct (ask_vendors _ _ _ _ _) as [w|]; [|by left]. right. exists w. split_and!; [done..|]. by intros ? ? [= <- <-].
  - destruct (ask_vendors _ _ _ _ _) as [w|]; [|by left]. right. by exists w.
Qed.

(** A stored answer is kept for [CACHE_S]: between two that are stored more than that passes,
    however many requests come, at whatever times. *)
Theorem vendors_asked_rarely cache cs :
  Sorted (λ a b, (seconds CACHE_S < b - a)%Z)
    (match cache with Some (t, _) => [t] | None => [] end ++ stored_at cache cs).
Proof.
  revert cache. induction cs as [|c cs IH]; intros cache; cbn [stored_at].
  - rewrite app_nil_r. destruct cache as [[t v]|]; repeat constructor.
  - destruct (ask_status_cases cache c) as [E|(v & E & _ & Hgap)].
    + rewrite E. specialize (IH cache). destruct cache as [[t v]|]; [|done]. cbn. by rewrite bool_decide_true.
    + rewrite E. specialize (IH (Some (sc_mono c, v))). destruct cache as [[t w]|]; cbn in *.
      * specialize (Hgap t w eq_refl). rewrite bool_decide_false.
        { cbn. constructor; [done|]. constructor. done. }
        intros [= ->]. unfold seconds, CACHE_S in Hgap. lia.
      * done.
Qed.
End status_calls.
