(* ===== verification/Fetchers.v ===== *)
(** * The fetchers ([HttpxFetcher], [JinaFetcher] and the factories of [src/app/pipeline/fetch.py])

    What one call of [get_html] or [get_text] does, from the URL to the page or the error:
    the guarded request, the decoding, the reading of the reader service's JSON, the
    retries.  The network is the record [Net]; pydantic's reading of a token count is the
    class [TokenCount]. *)

From Stdlib Require Import ZArith QArith NArith Ascii String Lia.
From stdpp Require Import base strings pretty option sets list.
From S2P Require Import Prelude PyStr Models RateLimit Regex Url UrlJoin Emails HtmlScan Html Jobs Json Ingest.
From S2P Require Import JsonLoads RetryAfter JudgeClient IpAddress NetGuard ProviderKeys Fetch.

Definition JINA_BASE : string := "https://r.jina.ai/".
Definition RETRY_AFTER_CAP : Q := 30.
Definition CLIENT_MARGIN_S : Z := 5.

(** [FetchResult.jina_tokens]: the value, or a ValidationError. *)
Class TokenCount := token_count : json → option (option Z).

(** The reader service's answer; the body is [None] when it is not JSON. *)
Record JinaAnswer := mkJinaAnswer { ja_status : Z; ja_retry_after : option string; ja_body : option json }.

(** What the network and the gate do in the attempts of one call. *)
Record Net := mkNet {
  net_getaddrinfo : nat → nat → string → Z → AddrInfo;  (* by attempt and hop *)
  net_stream : nat → nat → string → Response + Thrown;  (* by attempt and hop *)
  net_charset : Response → option string;              (* [response.charset_encoding] *)
  net_str_url : string → string;                       (* [str(httpx.URL(url))] *)
  net_jina : nat → string → list (string * string) → JinaAnswer + Thrown;
  net_open : nat → bool;                               (* the gate raises CircuitOpen *)
  net_random : nat → Q;
  net_now : nat → Z;
  net_local : nat → Z
}.

(** ** Direct fetches *)

Definition host_of `{IpLiteral} (url : string) : option string :=
  parts ← urlsplit url; Some (lower (hostname parts)).

Section direct.
Context `{IpLiteral} `{Codecs} (cfg : Settings) (net : Net).

Definition decode_body (raw : string) (charset : option string) : string :=
  match first_decoding raw (keep nonempty [default "" charset; "utf-8"; "cp1252"]) with
  | Some (t, _) => t
  | None => decode_replace raw
  end.

Definition resolution (l : Lookup) : Resolution :=
  match l with
  | Addresses _ => PublicAddresses
  | PrivateAddr => PrivateHost
  | LookupOSError => OSErr
  | LookupValueError => ValueErr
  end.

(** The guard's check before the request of attempt [i] and hop [hop]. *)
Definition guard (i hop : nat) (url : string) : Guard :=
  guard_url (fetch_guard_private_addresses cfg) (λ h p, resolution (resolve_public (net_getaddrinfo net i hop) h p)) url.

Definition cap : nat := Z.to_nat (max_page_bytes cfg).

(** [_raw_get] of attempt [i], with the URLs it requested. *)
Definition get_raw (i : nat) (url : string) : Got * list (nat * string) :=
  raw_get (guard i) (net_stream net i) cap (S MAX_REDIRECTS) url [].

Definition private_error (url : string) : FetchError :=
  mkFetchError PERMANENT "private_address" (default "" (parts ← urlsplit url; Some (hostname parts))) None None false.

(** [go]: [read] makes a page of the answer, its URL, its length and its text. *)
Definition direct_attempt (read : Response → string → nat → string → FetchResult + FetchError) (url : string) (i : nat)
    : Attempt :=
  if net_open net i then Refused
  else
    match (get_raw i url).1 with
    | GotBody r final raw =>
        match read r (net_str_url net final) (String.length raw) (decode_body raw (net_charset net r)) with
        | inl page => Succeeded page
        | inr e => Failed e
        end
    | GotPrivate u => Failed (private_error u)
    | GotValueError => Threw (NotHttp "ValueError")
    | GotThrown x => Threw x
    | GotTooManyRedirects => Threw TooManyRedirects
    end.

Definition read_html (url : string) (r : Response) (final : string) (n : nat) (body : string) : FetchResult + FetchError :=
  httpx_html url final r n pretty body.

Definition read_text (url : string) (r : Response) (final : string) (n : nat) (body : string) : FetchResult + FetchError :=
  match classify_site_status (rs_status r) body with
  | Some cls => inr (mkFetchError cls "not_html" ("HTTP " +:+ pretty (rs_status r)) (Some (rs_status r)) None false)
  | None => inl (mkFetchResult url final (rs_status r) body n None)
  end.

Definition httpx_get_html (url : string) : Final * Trace :=
  attempt_with_retries false (direct_attempt (read_html url) url) (net_random net).

Definition httpx_get_text (url : string) : Final * Trace :=
  attempt_with_retries false (direct_attempt (read_text url) url) (net_random net).
End direct.

(** ** The reader service *)

(** [JinaFetcher._headers] *)
Definition REMOVE_SELECTOR : string :=
  "style, svg, img, iframe, noscript, link, meta, .swiper, .slick-slider, .owl-carousel".

Definition quoted (s : string) : string := str_map (λ c, if Ascii.eqb c "'" then "034"%char else c) s.
Definition TARGET_SELECTOR : string :=
  quoted ("footer, [id*='footer' i], [class*='footer' i], a[href^='mailto:'], [class*='contact' i], "
          +:+ "[id*='contact' i], header, [class*='topbar' i], [class*='top-bar' i], [data-cfemail], "
          +:+ "a[href*='email-protection'], a[href^='tel:'], script[type='application/ld+json']").

Definition jina_headers (cfg : Settings) (key : string) : list (string * string) :=
  [("Authorization", "Bearer " +:+ key); ("Accept", "application/json"); ("X-Engine", "direct");
   ("X-Respond-With", "html"); ("X-Retain-Images", "none"); ("X-Timeout", pretty (jina_timeout_s cfg));
   ("X-Remove-Selector", REMOVE_SELECTOR); ("X-Target-Selector", TARGET_SELECTOR);
   ("X-Token-Budget", pretty (max_page_tokens cfg))].

(** [_timeout]: the read and write deadlines, and those to connect and to get a connection. *)
Definition jina_timeout (cfg : Settings) : Z * Z := ((jina_timeout_s cfg + CLIENT_MARGIN_S)%Z, connect_timeout_s cfg).

Section jina.
Context `{TokenCount} (cfg : Settings).

Notation "'get!' x := m 'in' k" := (or_raise m (λ x, k)) (at level 200, x name, m at level 100, k at level 200).

(** [int(v or 200)], or the exception. *)
Definition int_or_200 (v : json) : string + Z :=
  if negb (truthy v) then inr 200%Z
  else match v with
       | JInt n => inr n
       | JBool _ => inr 1%Z
       | JFloat r => match float_of_text r with
                     | Some (Fin q) => inr (Z.quot (Qnum q) (Zpos (Qden q)))
                     | Some (Inf _) => inl "OverflowError"
                     | _ => inl "ValueError"
                     end
       | JStr s => match py_int s with Some n => inr n | None => inl "ValueError" end
       | _ => inl "TypeError"
       end.

(** [v or ""] when it is text; anything else truthy has no [strip]. *)
Definition html_text (v : json) : option string :=
  if truthy v then match v with JStr s => Some s | _ => None end else Some "".

(** What the payload's [data] says of the site. *)
Definition read_data (url : string) (data : json) : string + (FetchResult + FetchError) :=
  get! h := get_key data "html" in
  get! s := get_key data "httpStatus" in
  get! site_status := int_or_200 s in
  match html_text h with
  | None =>
      if is_2xx site_status || mem site_status [403; 503]%Z then inl "AttributeError"
      else inr (match classify_site_status site_status "" with
                | Some cls => inr (site_error cls "site HTTP " (pretty site_status) site_status)
                | None => inr (mkFetchError TRANSIENT "homepage" "jina empty html" None None false)
                end)
  | Some html =>
      match classify_site_status site_status html with
      | Some cls => inr (inr (site_error cls "site HTTP " (pretty site_status) site_status))
      | None =>
          if negb (nonempty (strip html))
          then inr (inr (mkFetchError TRANSIENT "homepage" "jina empty html" None None false))
          else if looks_blocked site_status html
          then inr (inr (mkFetchError BLOCKED "blocked" "challenge page" (Some site_status) None false))
          else
            get! usage := get_or_empty data "usage" in
            get! tokens := get_key usage "tokens" in
            get! u := get_key data "url" in
            get! final := (if truthy u then match u with JStr x => inr x | _ => inl "ValidationError" end else inr url) in
            match token_count tokens with
            | None => inl "ValidationError"
            | Some t =>
                inr (inl (mkFetchResult url final site_status
                            (str_take (Z.to_nat (max_page_bytes cfg)) (strip_non_jsonld_scripts html))
                            (String.length html) t))
            end
      end
  end.

(** [f-string] of the payload's code, for the log. *)
Definition code_text (v : json) : string := match v with JStr s => s | JInt n => pretty n | JNull => "None" | _ => "" end.

(** [JinaFetcher.get_html]'s [go] from the answer on; the flag says the bucket is penalized. *)
Definition read_jina (url : string) (now local : Z) (a : JinaAnswer) : Attempt * bool :=
  match classify_provider_status (ja_status a) with
  | Some cls =>
      if bool_decide (cls = TRANSIENT) && (ja_status a =? 429)%Z
      then (match parse_retry_after now local RETRY_AFTER_CAP (ja_retry_after a) with
            | NoWait => Failed (mkFetchError cls "homepage" "jina 429" (Some 429%Z) None false)
            | WaitFor q => Failed (mkFetchError cls "homepage" "jina 429" (Some 429%Z) (Some q) false)
            | WaitRaises => Threw (NotHttp "OverflowError")
            end, true)
      else (Failed (mkFetchError cls (account_or_blocked cls (ja_status a)) ("jina HTTP " +:+ pretty (ja_status a))
                      (Some (ja_status a)) None (mem cls [TRANSIENT; PROVIDER_ACCOUNT])), false)
  | None =>
      (match ja_body a with
       | None => Failed (mkFetchError TRANSIENT "homepage" "jina non-json body" None None true)
       | Some (JObj l) =>
           match default JNull (dict_get l "data") with
           | JObj d =>
               match read_data url (JObj d) with
               | inl e => Threw (NotHttp e)
               | inr (inl page) => Succeeded page
               | inr (inr e) => Failed e
               end
           | _ => Failed (mkFetchError TRANSIENT "homepage" ("jina payload " +:+ code_text (default JNull (dict_get l "code")))
                            None None true)
           end
       | Some _ => Threw (NotHttp "AttributeError")
       end, false)
  end.

Definition jina_attempt (net : Net) (key url : string) (i : nat) : Attempt :=
  if net_open net i then Refused
  else match net_jina net i (JINA_BASE +:+ url) (jina_headers cfg key) with
       | inl a => (read_jina url (net_now net i) (net_local net i) a).1
       | inr x => Threw x
       end.

Definition jina_get_html (net : Net) (ks : KeyStore) (url : string) : Final * Trace :=
  attempt_with_retries true (jina_attempt net (current cfg ks "jina") url) (net_random net).
End jina.

(** ** The factories *)

Inductive Fetcher := JinaFetcher | HttpxFetcher.
Definition build_fetcher (cfg : Settings) : Fetcher :=
  match fetch_backend cfg with backend_jina => JinaFetcher | backend_httpx => HttpxFetcher end.

(** What the gates are made of: the rate, where its bucket lives, the semaphores. *)
Record GateSpec := mkGateSpec {
  gs_rate_per_minute : option Z;
  gs_shared_bucket : bool;
  gs_global : Z;
  gs_per_domain : Z;
  gs_provider : string
}.

Definition backend_name (b : FetchBackend) : string := match b with backend_jina => "jina" | backend_httpx => "httpx" end.

Definition build_direct_gate (cfg : Settings) : GateSpec :=
  mkGateSpec None false (global_fetch_concurrency cfg) (per_domain_concurrency cfg) "direct".

Definition build_gate (cfg : Settings) : GateSpec :=
  let rpm := match fetch_backend cfg with backend_jina => Some (jina_rpm cfg) | backend_httpx => None end in
  mkGateSpec rpm
    (match rpm with Some r => negb (Z.eqb r 0) && match rate_limit_backend cfg with rate_redis => true | rate_local => false end | None => false end)
    (global_fetch_concurrency cfg) (per_domain_concurrency cfg) (backend_name (fetch_backend cfg)).

Section fetchers.
Context `{IpLiteral} `{Codecs} `{TokenCount} (cfg : Settings).

Definition get_html (net : Net) (ks : KeyStore) (url : string) : Final * Trace :=
  match build_fetcher cfg with
  | JinaFetcher => jina_get_html cfg net ks url
  | HttpxFetcher => httpx_get_html cfg net url
  end.

(** Both backends fetch text directly. *)
Definition get_text (net : Net) (url : string) : Final * Trace := httpx_get_text cfg net url.
End fetchers.
