(* ===== verification/FetchersProps.v ===== *)
(** * What the fetchers promise *)

From Stdlib Require Import ZArith QArith Lqa NArith Ascii String Lia.
From stdpp Require Import base strings pretty option sets list.
From S2P Require Import Prelude PyStr Models RateLimit Regex Url UrlJoin Emails HtmlScan Html Jobs Json Ingest.
From S2P Require Import JsonLoads RetryAfter JudgeClient IpAddress NetGuard ProviderKeys Fetch Fetchers.

(** ** Through the retry loop *)

(** The attempts made and how they are reported. *)
Lemma attempts_made pb outcome random :
  ∃ k, (k ≤ 2)%nat ∧ (attempt_with_retries pb outcome random).1 = final_of pb (outcome k) ∧
    tr_records (attempt_with_retries pb outcome random).2 = concat (map (λ j, record_of pb (outcome j)) (seq 0 (S k))) ∧
    length (tr_sleeps (attempt_with_retries pb outcome random).2) = k.
Proof.
  destruct (retry_loop_spec pb outcome random 0 RETRY_DELAYS (mkTrace [] [])) as (k & H1 & _ & H2 & _ & H3 & H4).
  exists k. by split_and!.
Qed.

Lemma result_of_attempt pb outcome random r :
  (attempt_with_retries pb outcome random).1 = FinalResult r → ∃ k, (k ≤ 2)%nat ∧ outcome k = Succeeded r.
Proof.
  destruct (attempts_made pb outcome random) as (k & Hk & -> & _). intros E. exists k. split; [done|].
  destruct (outcome k); cbn in E; try done. by injection E as ->.
Qed.

(** The waits: as told, or the jittered delay. *)
Definition wait_ok (a : Attempt) : Prop :=
  ∀ e q, a = Failed e → fe_retry_after e = Some q → (0 <= q)%Q ∧ (q <= 30)%Q.

Lemma jitter_bounds d r : (1 <= d)%Q → (d <= 3)%Q → (0 <= r)%Q → (r < 1)%Q →
  (0 <= d * (1 + r * (1 # 2)))%Q ∧ (d * (1 + r * (1 # 2)) <= 30)%Q.
Proof. intros. split; nra. Qed.

Lemma wait_after_bounds e d r :
  (1 <= d)%Q → (d <= 3)%Q → (0 <= r)%Q → (r < 1)%Q → wait_ok (Failed e) →
  (0 <= wait_after e d r)%Q ∧ (wait_after e d r <= 30)%Q.
Proof.
  intros H1 H2 H3 H4 Hw. unfold wait_after. destruct (fe_retry_after e) as [q|] eqn:E; [|by apply jitter_bounds].
  destruct (Qeq_bool q 0); [by apply jitter_bounds|]. by apply (Hw e q).
Qed.

Lemma retry_sleeps pb outcome random i delays t :
  (∀ j, (0 <= random j)%Q ∧ (random j < 1)%Q) → (∀ j, wait_ok (outcome j)) →
  Forall (λ d, (1 <= d)%Q ∧ (d <= 3)%Q) delays → Forall (λ q, (0 <= q)%Q ∧ (q <= 30)%Q) (tr_sleeps t) →
  Forall (λ q, (0 <= q)%Q ∧ (q <= 30)%Q) (tr_sleeps (retry_loop pb outcome random i delays t).2).
Proof.
  intros Hr Hw. revert i t. induction delays as [|d delays IH]; intros i t Hd Ht; cbn [retry_loop].
  { by destruct (outcome i). }
  apply Forall_cons in Hd as [[D1 D2] Hd]. destruct (Hr i) as [R1 R2].
  destruct (outcome i) as [r| |e|x] eqn:E; [done|done| |].
  - destruct (retryable e); [|done]. apply IH; [done|]. cbn. apply Forall_app. split; [done|]. apply Forall_singleton.
    apply wait_after_bounds; try done. rewrite <- E. apply Hw.
  - destruct (retryable _); [|done]. apply IH; [done|]. cbn. apply Forall_app. split; [done|]. apply Forall_singleton.
    by apply jitter_bounds.
Qed.

(** ** Direct fetches *)

Section direct.
Context `{IpLiteral} `{Codecs} (cfg : Settings) (net : Net).

(** The port the guard looks up. *)
Definition guarded_port (parts : SplitResult) (p : option Z) : Z :=
  match p with
  | Some n => if (n =? 0)%Z then (if String.eqb (u_scheme parts) "https" then 443 else 80)%Z else n
  | None => (if String.eqb (u_scheme parts) "https" then 443 else 80)%Z
  end.

(** What the guard found for the request of attempt [i] and hop [hop]: its own lookup of the
    URL's host and port gave public addresses only, or failed; or there was nothing to look
    up, because the URL has no host or its port is no number [urlsplit] takes. *)
Definition public_target (i hop : nat) (url : string) : Prop :=
  ∃ parts, urlsplit url = Some parts ∧
    match port parts with
    | Some p =>
        hostname parts = "" ∨
        match resolve_public (net_getaddrinfo net i hop) (hostname parts) (guarded_port parts p) with
        | Addresses l => l ≠ [] ∧ Forall (λ a, is_public a = true) l
        | LookupOSError => True
        | _ => False
        end
    | None => True
    end.

Lemma guard_public i hop url :
  fetch_guard_private_addresses cfg = true → guard cfg net i hop url = Allowed → public_target i hop url.
Proof.
  intros Hon. unfold guard, guard_url. rewrite Hon. cbn [negb].
  destruct (urlsplit url) as [parts|] eqn:Eu; [|done]. intros Hg. exists parts. split; [done|].
  destruct (port parts) as [p|]; [|done]. destruct (nonempty (hostname parts)) eqn:Eh; cbn [negb] in Hg.
  2:{ left. unfold nonempty in Eh. by apply negb_false_iff, String.eqb_eq in Eh. }
  right. unfold guarded_port. destruct (resolve_public _ _ _) as [l| | |] eqn:El; try done.
  by apply resolve_public_Addresses in El.
Qed.

(** The requests of the attempts that were made, with their attempt and hop. *)
Definition requests (url : string) (attempts : nat) : list (nat * nat * string) :=
  concat (map (λ i, if net_open net i then [] else map (λ '(h, u), (i, h, u)) (get_raw cfg net i url).2)
              (seq 0 attempts)).

Lemma requests_allowed url n :
  Forall (λ '(i, h, u), guard cfg net i h u = Allowed) (requests url n) ∧ (length (requests url n) ≤ 6 * n)%nat.
Proof.
  unfold requests. induction n as [|n [I1 I2]]; [split; [constructor|cbn; lia]|].
  rewrite seq_S, map_app, concat_app, length_app. cbn [map concat]. rewrite app_nil_r, Nat.add_0_l.
  set (l := if net_open net n then _ else _).
  assert (Forall (λ '(i, h, u), guard cfg net i h u = Allowed) l ∧ (length l ≤ 6)%nat) as [H1 H2].
  { unfold l. destruct (net_open net n); [split; [constructor|cbn; lia]|]. unfold get_raw.
    pose proof (raw_get_guarded (guard cfg net n) (net_stream net n) (cap cfg) (S MAX_REDIRECTS) url [] ltac:(constructor)) as Hg.
    destruct (raw_get _ _ _ _ _ _) as [got req]. destruct Hg as (G1 & G2 & _). cbn [snd]. rewrite length_map.
    split; [|unfold MAX_REDIRECTS in G2; cbn in *; lia]. apply Forall_fmap. eapply Forall_impl; [exact G1|]. by intros []. }
  split; [by apply Forall_app|]. lia.
Qed.

Lemma direct_body read url i r :
  direct_attempt cfg net read url i = Succeeded r →
  ∃ resp final raw, net_open net i = false ∧ (get_raw cfg net i url).1 = GotBody resp final raw ∧
    read resp (net_str_url net final) (String.length raw) (decode_body raw (net_charset net resp)) = inl r.
Proof.
  unfold direct_attempt. destruct (net_open net i); [done|].
  destruct (get_raw cfg net i url).1 as [resp final raw| | | |]; try done.
  destruct (read _ _ _ _) as [page|e] eqn:E; [|done]. intros [= ->]. by exists resp, final, raw.
Qed.
End direct.

(** ** Pages *)

Lemma classify_none status html : classify_site_status status html = None → is_2xx status = true.
Proof. unfold classify_site_status. destruct (is_2xx status); [done|]. by repeat case_match. Qed.

(** A page worth extracting from: the site's status is 2xx, the text [body] it sent shows no
    challenge, and the page is what is left of that text without scripts, styles and
    pictures. *)
Definition page_of (status : Z) (body : string) (page : FetchResult) : Prop :=
  fr_status page = status ∧ is_2xx status = true ∧ looks_blocked status body = false ∧
  ∃ n, fr_html page = str_take n (strip_non_jsonld_scripts body).

Lemma read_html_page url r final n body page :
  read_html url r final n body = inl page → page_of (rs_status r) body page ∧ fr_url page = url ∧ fr_final_url page = final.
Proof.
  unfold read_html, httpx_html. destruct (classify_site_status _ _) eqn:Ec; [done|]. apply classify_none in Ec.
  destruct (_ && _ && _); [done|]. destruct (looks_blocked _ _) eqn:Eb; [done|]. intros [= <-].
  split_and!; try done. split_and!; try done. exists (String.length (strip_non_jsonld_scripts body)). cbn.
  symmetry. by apply str_take_all.
Qed.

Section jina.
Context `{TokenCount} (cfg : Settings).

(** The reader's [data] holds the page: its [html] is the text, its [httpStatus] the site's
    status, or says nothing, which counts as 200. *)
Definition data_page (url : string) (d : list (string * json)) (page : FetchResult) : Prop :=
  ∃ status body, dict_get d "html" = Some (JStr body) ∧
    int_or_200 (default JNull (dict_get d "httpStatus")) = inr status ∧ page_of status body page ∧
    (fr_final_url page = url ∨ dict_get d "url" = Some (JStr (fr_final_url page))).

Lemma read_data_page url d page :
  read_data cfg url (JObj d) = inr (inl page) →
  data_page url d page ∧ fr_url page = url ∧ (String.length (fr_html page) ≤ Z.to_nat (max_page_bytes cfg))%nat.
Proof.
  unfold read_data, or_raise, get_key. destruct (int_or_200 _) as [|status] eqn:Es; [done|].
  destruct (html_text _) as [body|] eqn:Eh; [|by repeat case_match].
  destruct (classify_site_status _ _) eqn:Ec; [done|]. apply classify_none in Ec.
  destruct (negb (nonempty (strip body))) eqn:En; [done|]. destruct (looks_blocked _ _) eqn:Eb; [done|].
  destruct (get_or_empty _ _) as [|usage]; [done|]. destruct usage; try done.
  set (u := default JNull (dict_get d "url")). destruct (if truthy u then _ else _) as [|final] eqn:Ef; [done|].
  destruct (token_count _) as [t|]; [|done]. intros [= <-]. split_and!; [|done|cbn; apply length_str_take].
  exists status, body. split_and!; [|done| |].
  - unfold html_text in Eh. destruct (truthy _) eqn:Et; [|by injection Eh as <-].
    destruct (dict_get d "html") as [v|]; [|done]. cbn in Eh. destruct v; try done. by injection Eh as ->.
  - split_and!; try done. by eexists.
  - cbn. unfold u in Ef. destruct (dict_get d "url") as [v|]; cbn in Ef; [|left; by injection Ef].
    destruct (truthy v); [|left; by injection Ef]. destruct v; try done. right. by injection Ef as ->.
Qed.

(** The reader service answered attempt [k] of the call with the page. *)
Definition reader_page (net : Net) (ks : KeyStore) (url : string) (page : FetchResult) : Prop :=
  ∃ k a l d, (k ≤ 2)%nat ∧ net_open net k = false ∧
    net_jina net k (JINA_BASE +:+ url) (jina_headers cfg (current cfg ks "jina")) = inl a ∧
    is_2xx (ja_status a) = true ∧ ja_body a = Some (JObj l) ∧ dict_get l "data" = Some (JObj d) ∧
    data_page url d page.

Lemma read_jina_page url now local a page :
  (read_jina cfg url now local a).1 = Succeeded page →
  is_2xx (ja_status a) = true ∧
  (∃ l d, ja_body a = Some (JObj l) ∧ dict_get l "data" = Some (JObj d) ∧ data_page url d page) ∧ fr_url page = url.
Proof.
  unfold read_jina. destruct (classify_provider_status (ja_status a)) as [cls|] eqn:Ec.
  { destruct (_ && _); cbn [fst]; [|done]. by destruct (parse_retry_after _ _ _ _). }
  assert (is_2xx (ja_status a) = true) as ->.
  { unfold classify_provider_status in Ec. destruct (is_2xx (ja_status a)); [done|]. by repeat case_match. }
  cbn [fst]. destruct (ja_body a) as [[| | | | | |l]|]; try done.
  destruct (dict_get l "data") as [v|] eqn:Ed; [|done]. unfold default, from_option, id. destruct v as [| | | | | |d]; try done.
  destruct (read_data cfg url (JObj d)) as [x|[p|e']] eqn:E; try done. intros [= ->].
  apply read_data_page in E as (E1 & E2 & _). split; [done|]. split; [|done]. by exists l, d.
Qed.

(** What the site did is never the provider's fault, and has no wait of its own. *)
Lemma read_data_blame url data e :
  read_data cfg url data = inr (inr e) → fe_provider e = false ∧ fe_retry_after e = None.
Proof. unfold read_data, or_raise. intros E. repeat (case_match; try done); injection E as <-; done. Qed.

Lemma jina_wait_ok net key url i : wait_ok (jina_attempt cfg net key url i).
Proof.
  intros e q. unfold jina_attempt. destruct (net_open net i); [done|]. destruct (net_jina net i _ _) as [a|x]; [|done].
  unfold read_jina. destruct (classify_provider_status _) as [cls|].
  - destruct (_ && _); cbn [fst].
    + destruct (parse_retry_after _ _ _ _) eqn:E; try done; intros [= <-]; cbn; intros [= <-].
      apply (parse_retry_after_bounds _ _ RETRY_AFTER_CAP _ _ (proj1 (Qle_bool_iff 0 30) eq_refl) E).
    + intros [= <-] Hq; discriminate Hq.
  - cbn [fst]. destruct (ja_body a) as [[]|]; try (intros [= <-] Hq; discriminate Hq); [done..|].
    destruct (default JNull (dict_get l "data")); try (intros [= <-] Hq; discriminate Hq).
    destruct (read_data _ _ _) as [x|[p|e']] eqn:E; [done|done|]. intros [= <-].
    apply read_data_blame in E as [_ ->]. done.
Qed.
End jina.

(** ** Theorems *)

Section promises.
Context `{IpLiteral} `{Codecs} `{TokenCount} (cfg : Settings).

(** The site answered attempt [k] of the call with the page, after redirects or at once. *)
Definition direct_page (net : Net) (url : string) (page : FetchResult) : Prop :=
  ∃ k hop resp final raw, (k ≤ 2)%nat ∧ net_open net k = false ∧
    (get_raw cfg net k url).1 = GotBody resp final raw ∧ (hop, final) ∈ (get_raw cfg net k url).2 ∧
    net_stream net k hop final = inl resp ∧ fr_final_url page = net_str_url net final ∧
    page_of (rs_status resp) (decode_body raw (net_charset net resp)) page.

(** Where a page comes from: the answer of the backend in use. *)
Definition fetched_page (net : Net) (ks : KeyStore) (url : string) (page : FetchResult) : Prop :=
  match build_fetcher cfg with JinaFetcher => reader_page cfg net ks url page | HttpxFetcher => direct_page net url page end.

Lemma get_html_page net ks url r :
  (get_html cfg net ks url).1 = FinalResult r → fetched_page net ks url r ∧ fr_url r = url.
Proof.
  unfold get_html, fetched_page. destruct (build_fetcher cfg); intros (k & Hk & E)%result_of_attempt.
  - unfold jina_attempt in E. destruct (net_open net k) eqn:Eo; [done|]. destruct (net_jina net k _ _) as [a|] eqn:Ej; [|done].
    apply read_jina_page in E as (E1 & (l & d & E2 & E3 & E4) & E5). split; [|done]. exists k, a, l, d. by split_and!.
  - apply direct_body in E as (resp & final & raw & Eo & Eg & E). apply read_html_page in E as (E1 & E2 & E3).
    split; [|done]. unfold get_raw in *.
    pose proof (raw_get_guarded (guard cfg net k) (net_stream net k) (cap cfg) (S MAX_REDIRECTS) url [] ltac:(constructor)) as Hg.
    destruct (raw_get _ _ _ _ _ _) as [got req] eqn:Er. cbn [fst] in Eg. subst got. destruct Hg as (_ & _ & h & G1 & G2 & _).
    exists k, h, resp, final, raw. unfold get_raw. rewrite Er. by split_and!.
Qed.

(** C17: direct fetches are guarded hop by hop.  With the guard on, whatever the sites answer,
    wherever they redirect and however the attempts end, each request a call makes is for a
    URL the guard has just checked: for that very request it looked up the URL's host and
    port, and got public addresses only, or the lookup failed (an unknown name).  Not looked
    up are a URL without a host and one whose port [urlsplit] refuses; those are left to the
    HTTP client.  A call makes at most three attempts of at most six requests.  This holds of
    the text both backends fetch (robots.txt, sitemaps) and of the pages of the direct
    backend.  The lookups may differ from one to the next; the one the client itself makes to
    connect comes after the guard's and is not part of the claim. *)
Theorem direct_fetches_public (net : Net) (url : string) (Hon : fetch_guard_private_addresses cfg = true) :
  let attempts t := S (length (tr_sleeps (t : Final * Trace).2)) in
  ∀ t, t = httpx_get_html cfg net url ∨ t = get_text cfg net url →
  Forall (λ '(i, hop, u), public_target net i hop u) (requests cfg net url (attempts t)) ∧
  (length (requests cfg net url (attempts t)) ≤ 18)%nat.
Proof.
  intros attempts t Ht. destruct (requests_allowed cfg net url (attempts t)) as [R1 R2]. split.
  - eapply Forall_impl; [exact R1|]. intros [[i hop] u] Hu. by apply (guard_public cfg).
  - assert (attempts t ≤ 3)%nat; [|lia]. subst attempts. cbn beta.
    destruct Ht as [-> | ->].
    + destruct (attempts_made false (direct_attempt cfg net (read_html url) url) (net_random net)) as (k & Hk & _ & _ & E).
      unfold httpx_get_html. rewrite E. lia.
    + destruct (attempts_made false (direct_attempt cfg net (read_text url) url) (net_random net)) as (k & Hk & _ & _ & E).
      unfold get_text, httpx_get_text. rewrite E. lia.
Qed.





Lemma direct_no_wait read url net i :
  (∀ r f n b e, read r f n b = inr e → fe_retry_after e = None) → wait_ok (direct_attempt cfg net read url i).
Proof.
  intros Hr e q. unfold direct_attempt. destruct (net_open net i); [done|].
  destruct (get_raw cfg net i url).1 as [r f raw|u| |x|]; try done.
  - destruct (read _ _ _ _) eqn:E; [done|]. intros [= <-]. apply Hr in E as ->. done.
  - by intros [= <-].
Qed.

Lemma read_html_no_wait url r f n b e : read_html url r f n b = inr e → fe_retry_after e = None.
Proof. unfold read_html, httpx_html, site_error. intros E. by repeat (case_match; try done); injection E as <-. Qed.

Lemma read_text_no_wait url r f n b e : read_text url r f n b = inr e → fe_retry_after e = None.
Proof. unfold read_text. intros E. by case_match; [injection E as <-|]. Qed.




(** C33: no answer makes a fetch wait long.  Whatever Retry-After says (seconds, a date, an
    infinity or nonsense), each wait between two attempts is at least 0 and at most 30
    seconds, and there are at most two. *)
Theorem fetch_waits_bounded (net : Net) (ks : KeyStore) (url : string)
    (Hrandom : ∀ i, (0 <= net_random net i)%Q ∧ (net_random net i < 1)%Q) :
  ∀ t, t = (get_html cfg net ks url).2 ∨ t = (get_text cfg net url).2 →
  (length (tr_sleeps t) ≤ 2)%nat ∧ Forall (λ q, (0 <= q)%Q ∧ (q <= 30)%Q) (tr_sleeps t).
Proof.
  assert (∀ pb outcome, (∀ j, wait_ok (outcome j)) →
    (length (tr_sleeps (attempt_with_retries pb outcome (net_random net)).2) ≤ 2)%nat ∧
    Forall (λ q, (0 <= q)%Q ∧ (q <= 30)%Q) (tr_sleeps (attempt_with_retries pb outcome (net_random net)).2)) as Hgo.
  { intros pb outcome Hw. split.
    - destruct (attempts_made pb outcome (net_random net)) as (k & Hk & _ & _ & ->). lia.
    - apply retry_sleeps; [done|done| |constructor]. unfold RETRY_DELAYS.
      repeat (apply Forall_cons; split; [split; apply Qle_bool_iff; reflexivity|]). constructor. }
  intros t [-> | ->].
  - unfold get_html. destruct (build_fetcher cfg); apply Hgo; intros j; [apply jina_wait_ok|].
    apply direct_no_wait. apply read_html_no_wait.
  - apply Hgo. intros j. apply direct_no_wait. apply read_text_no_wait.
Qed.
End promises.

(** ** A site that redirects into the private network *)

#[local] Instance latin1 : Codecs := {| decode_as e s := if String.eqb e "cp1252" then Some s else None; decode_replace s := s; sniff _ := None |}.
#[local] Instance tokens : TokenCount := λ v, match v with JInt n => Some (Some n) | JNull => Some None | _ => None end.

Definition sample_page : string := "<html><body>Write to info@acme.com<script>track()</script></body></html>".

Definition sample_site (url : string) : Response + Thrown :=
  if String.eqb url "https://acme.com/" then inl (mkResponse 200 None "text/html" [sample_page])
  else if String.eqb url "https://evil.com/" then inl (mkResponse 302 (Some "http://127.0.0.1:8080/admin") "text/html" [])
  else inr ConnectTimeout.

Definition sample_reader (i : nat) : JinaAnswer + Thrown :=
  match i with
  | O => inl (mkJinaAnswer 429 (Some "Fri, 01 Jan 2100 00:00:00 GMT") None)
  | 1%nat => inr ConnectTimeout
  | _ => inl (mkJinaAnswer 200 None (Some (JObj [("data", JObj [("html", JStr sample_page); ("url", JStr "https://www.acme.com/");
                                                             ("usage", JObj [("tokens", JInt 12)])])])))
  end.

Definition sample_net : Net := mkNet (λ _ _ _ _, Infos ["93.184.216.34"]) (λ _ _, sample_site) (λ _, None) (λ u, u) (λ i _ _, sample_reader i)
  (λ _, false) (λ _, 1 # 2) (λ _, 0%Z) (λ _, 0%Z).

(** A port that [urlsplit] refuses keeps the guard from looking the host up. *)
Example odd_port_not_looked_up :
  guard default_settings sample_net 0 0 "http://10.0.0.1:80/" = PrivateAddress ∧
  guard default_settings sample_net 0 0 "http://10.0.0.1:+80/" = Allowed.
Proof. vm_compute. split; reflexivity. Qed.

Lemma direct_fetches_public_witness :
  requests default_settings sample_net "https://evil.com/" 1 = [(0%nat, 0%nat, "https://evil.com/")] ∧
  Forall (λ '(i, hop, u), public_target sample_net i hop u) (requests default_settings sample_net "https://evil.com/" 1) ∧
  (httpx_get_html default_settings sample_net "https://evil.com/").1 =
    FinalError (mkFetchError PERMANENT "private_address" "127.0.0.1" None None false).
Proof.
  split; [vm_compute; reflexivity|]. split; [|vm_compute; reflexivity].
  exact (proj1 (direct_fetches_public default_settings sample_net "https://evil.com/" eq_refl
    (httpx_get_html default_settings sample_net "https://evil.com/") (or_introl eq_refl))).
Defined.

Lemma fetch_waits_bounded_witness :
  (get_html default_settings sample_net empty_store "https://acme.com/").1 =
    FinalResult (mkFetchResult "https://acme.com/" "https://www.acme.com/" 200
      "<html><body>Write to info@acme.com </body></html>" (String.length sample_page) (Some 12%Z)) ∧
  tr_sleeps (get_html default_settings sample_net empty_store "https://acme.com/").2 = [30%Q; 3 * (1 + (1 # 2) * (1 # 2))]%Q ∧
  (length (tr_sleeps (get_html default_settings sample_net empty_store "https://acme.com/").2) ≤ 2)%nat.
Proof.
  split; [vm_compute; reflexivity|]. split; [vm_compute; reflexivity|].
  exact (proj1 (fetch_waits_bounded default_settings sample_net empty_store "https://acme.com/"
    ltac:(intros i; split; [apply Qle_bool_iff; reflexivity|apply Qlt_alt; reflexivity]) _ (or_introl eq_refl))).
Defined.
