(* ===== verification/EndToEnd.v ===== *)
(** * From the network to the reported addresses

    The pipeline of [Run] on the fetchers of [Fetchers]: the pages an attempt sees are what
    [get_html] returns, the text what [get_text] returns. *)

From Stdlib Require Import ZArith QArith NArith Ascii String Lia.
From stdpp Require Import base strings pretty option sets list.
From S2P Require Import Prelude PyStr Models Regex Url Emails Html Json Ingest Fetch JsonLoads JsonLd Fields JudgeClient NetGuard ProviderKeys.
From S2P Require Import Fetchers FetchersProps Normalize FilterRank Site Run RunProps.

Section end_to_end.
Context `{Tld} `{IpLiteral} `{Wide} `{Html5} `{Dom} `{RecursionLimit} `{Phones} `{Codecs} `{TokenCount}.
Context (cfg : Settings) (ks : KeyStore).

(** Discovery takes a text that cannot be fetched, for whatever reason, as empty. *)
Definition fetch_text_or_blank (net : Net) (url : string) : string :=
  match (get_text cfg net url).1 with FinalResult r => fr_html r | _ => "" end.

(** [nets url] is what the network does while [url] is fetched. *)
Definition world_of (nets : string → Net) (dns : string → string → Answer) (judge : json → option json) : World := {|
  wd_dns := dns;
  wd_html url :=
    match (get_html cfg (nets url) ks url).1 with
    | FinalResult r => Page r
    | FinalRefused => PageRefused
    | FinalError e => PageError e
    end;
  wd_text url := fetch_text_or_blank (nets url) url;
  wd_post := judge
|}.

(** C27: an address is reported only from a page that was really fetched.  For every behaviour
    of DNS, the sites, the reader service and the judging service, and wherever the deadline
    falls: each listed address of a finished attempt occurs, letter case aside, in the text
    extraction reads of a page one of the (at most three) requests for its URL was answered
    with, and the page's URL is among the sources it is listed with.  Of the direct backend
    that answer is the site's own, with a 2xx status; of the reader service it is a 2xx answer
    of the service whose [data.html] is the page and whose [data.httpStatus] is 2xx or not
    given (the code takes a missing one for 200).  The text is what is left of that very body
    without scripts, styles and pictures, and that body showed no challenge. *)
Theorem reported_addresses_fetched (nets : string → Net) (dns : string → string → Answer) (judge : json → option json)
    (domain : string) (deadline : option nat) (r : DomainResult)
    (Hrun : attempt_domain cfg (world_of nets dns judge) domain deadline = Finished r) :
  ∀ o, o ∈ r_all_emails r →
  ∃ url page, (get_html cfg (nets url) ks url).1 = FinalResult page ∧ fetched_page cfg (nets url) ks url page ∧
    fr_final_url page ∈ out_source_urls o ∧ stands_on (fr_html page) (out_email o).
Proof.
  pose proof (attempt_ok cfg (world_of nets dns judge) domain deadline) as Ha. rewrite Hrun in Ha. destruct Ha as [_ Hb].
  intros o Ho. destruct (Hb o Ho) as (p & (url & page & E & Eu & Eh) & Hsrc & _ & Hs).
  cbn in E. destruct (get_html cfg (nets url) ks url).1 as [r'| |e] eqn:Eg; try done. injection E as ->.
  exists url, page. rewrite <- Eu, <- Eh. split_and!; try done. by apply get_html_page in Eg as [? _].
Qed.
End end_to_end.

(** A reader service that has the homepage and refuses the rest. *)
#[local] Instance no_phones : Phones := {
  number := unit;
  phone_parse _ _ := None;
  is_valid_number _ := false;
  format_e164 _ := "";
  phone_matches _ _ := []
}.
#[local] Instance ample : RecursionLimit := {| scan_limit := 50; walk_limit := 50 |}.
#[local] Existing Instances FetchersProps.latin1 FetchersProps.tokens.
#[local] Existing Instance FlatDom.flat_dom.
#[local] Existing Instance FlatDom.plain_wide.
#[local] Existing Instance FlatDom.few_names.

Definition sample_dns (name kind : string) : Answer := if String.eqb kind "A" then (["192.0.2.1"], None) else ([], None).

Definition home_only : Net := mkNet (λ _ _ _ _, InfoOSError) (λ _ _ _, inr ConnectTimeout) (λ _, None) (λ u, u)
  (λ _ u _, if String.eqb u "https://r.jina.ai/https://acme.com/"
            then inl (mkJinaAnswer 200 None (Some (JObj [("data", JObj [("html", JStr "<p>Write to info@acme.com</p>"); ("httpStatus", JInt 200)])])))
            else inl (mkJinaAnswer 422 None None))
  (λ _, false) (λ _, 0%Q) (λ _, 0%Z) (λ _, 0%Z).

Definition sample_attempt : Attempt :=
  attempt_domain default_settings (world_of default_settings empty_store (λ _, home_only) sample_dns (λ _, None)) "acme.com" None.

Definition emails_of (a : Attempt) : list string :=
  match a with Finished r => map out_email (r_all_emails r) | _ => [] end.

Lemma reported_addresses_fetched_witness :
  ∃ r, sample_attempt = Finished r ∧ map out_email (r_all_emails r) = ["info@acme.com"] ∧
       ∀ o, o ∈ r_all_emails r → ∃ url page, (get_html default_settings home_only empty_store url).1 = FinalResult page ∧
         fetched_page default_settings home_only empty_store url page ∧ fr_final_url page ∈ out_source_urls o.
Proof.
  assert (emails_of sample_attempt = ["info@acme.com"]) as Em by (vm_compute; reflexivity).
  destruct sample_attempt as [r| |] eqn:E; [|discriminate Em..].
  exists r. split; [reflexivity|]. split; [exact Em|].
  intros o Ho. destruct (reported_addresses_fetched default_settings empty_store (λ _, home_only) sample_dns (λ _, None)
    "acme.com" None r E o Ho) as (url & page & E1 & E2 & E3 & _). exists url, page. split; [exact E1|]. split; [exact E2|exact E3].
Defined.
