(* ===== verification/Extract.v ===== *)
(** * One lookup over HTTP, and small pieces around the pipeline

    [POST /extract], the refusal of a body that is too large and [_fetcher] of
    [src/app/main.py]; the pause between the attempts of a domain ([_retry_delay] of
    [src/app/pipeline/run.py]); the breaker's part of [Worker.health]. *)

From Stdlib Require Import ZArith QArith Qminmax Ascii String Lia Lqa.
From stdpp Require Import base strings pretty option gmap sets list.
From S2P Require Import Prelude PyStr Models Jobs RateLimit Breaker Url Emails FilterRank Normalize Sha256 Json Html PageText JsonLoads.
From S2P Require Import JsonLd Fields JudgeClient Worker Run Errors.

(** ** [POST /extract] *)

Section extract.
Context `{Tld} `{IpLiteral} `{Wide} `{Html5} `{Dom} `{RecursionLimit} `{Phones} `{Idna}.
Context (cfg : Settings).

Definition quota_message (backend : string) : string :=
  "the " +:+ backend +:+ " account is out of credit or rejecting our key; lookups resume once it is topped up".

(** The result, or what is raised. *)
Definition extract (backend url : string) (worlds : nat → World) (deadlines : nat → option nat) : DomainResult + Raised :=
  match process_input cfg url worlds deadlines with
  | Returned r => inl r
  | AccountError => inr (RaisedApi (fault "provider_quota_exhausted") (quota_message backend) [])
  | Worker.OtherError => inr (RaisedOther (mkExc OtherError None None false))
  end.
End extract.

(** ** A body over the limit *)

Definition over_limit_message (cfg : Settings) : string :=
  "request body is over the " +:+ pretty (max_upload_bytes cfg / (1024 * 1024))%Z +:+ " MB limit".

(** [error_body] as the document it is, without details. *)
Definition body_json (b : Body) : json :=
  JObj [("error", JObj [("code", JStr (b_code b)); ("message", JStr (b_message b));
                        ("retry_after", match b_retry_after b with Some n => JInt n | None => JNull end);
                        ("details", JNull)]);
        ("detail", JStr (b_detail b));
        ("request_id", match b_request_id b with Some r => JStr r | None => JNull end)].

(** [BodySizeLimit._reject]: the start message's status and headers, and the body's bytes. *)
Definition reject (cfg : Settings) (rid : option string) : Z * list (string * string) * list byte :=
  let body := utf8 (dumps (body_json (error_body "file_too_large" (over_limit_message cfg) rid [] None))) in
  (413%Z,
   [("content-type", "application/json"); ("content-length", pretty (Z.of_nat (length body)))]
   ++ match rid with Some r => if nonempty r then [("x-request-id", r)] else [] | None => [] end,
   body).

(** ** Pauses and health *)

Definition MIN_RETRY_DELAY_S : Q := 1.
Definition MAX_RETRY_DELAY_S : Q := 60.

Definition jittered (base fraction random : Q) : Q := (base * (1 + random * fraction))%Q.

(** A fetcher without a breaker waits the least. *)
Definition retry_delay (now random : Q) (breaker : option Breaker) : Q :=
  let remaining := match breaker with Some b => (seconds_until_close now b).1 | None => 0%Q end in
  jittered (Qmin' (Qmax' remaining MIN_RETRY_DELAY_S) MAX_RETRY_DELAY_S) (1 # 2)%Q random.

Record BreakerHealth := mkBreakerHealth {
  bh_state : BreakerState;
  bh_open_for_s : Q;
  bh_opened_count : nat;
  bh_last_open_reasons : gmap string nat
}.

(** [round(x, 1)]: to the nearest tenth, ties to even. *)
Definition round1 (x : Q) : Q := (inject_Z (round_half_even (x * 10)) / 10)%Q.

Definition breaker_health (now : Q) (b : Breaker) : BreakerHealth :=
  let b' := state now b in mkBreakerHealth (state_field b') (round1 (open_for b')) (opened_count b') (last_open_reasons b').

(** The pause is at least the minimum and at most one and a half times the maximum. *)
Lemma retry_delay_bounds now random breaker :
  (0 <= random)%Q → (random <= 1)%Q → (1 <= retry_delay now random breaker)%Q ∧ (retry_delay now random breaker <= 90)%Q.
Proof.
  intros H0 H1. unfold retry_delay, jittered.
  generalize (match breaker with Some b => (seconds_until_close now b).1 | None => 0%Q end). intros rem.
  set (m := Qmin' (Qmax' rem MIN_RETRY_DELAY_S) MAX_RETRY_DELAY_S).
  assert (1 <= m)%Q as Hm1.
  { unfold m, Qmin', Qmax', MIN_RETRY_DELAY_S, MAX_RETRY_DELAY_S. destruct (Qle_bool rem 1) eqn:E1.
    - done.
    - destruct (Qle_bool rem 60); [|done]. apply Qlt_le_weak, Qnot_le_lt. intros Hle%Qle_bool_iff. congruence. }
  assert (m <= 60)%Q as Hm2.
  { unfold m, Qmin'. destruct (Qle_bool _ _) eqn:E; [by apply Qle_bool_iff|]. apply Qle_refl. }
  split; nra.
Qed.

(** Whoever answers a body over the limit, the middleware or the application's handler, the
    caller gets the same status and the same document. *)
Lemma reject_matches_handler cfg rid :
  let r := answer_exception rid (RaisedApi (fault "file_too_large") (over_limit_message cfg) []) in
  rs_status r = (reject cfg rid).1.1 ∧ utf8 (dumps (body_json (rs_body r))) = (reject cfg rid).2.
Proof. done. Qed.
