(* ===== verification/Evaluation.v ===== *)
(** * The evaluation script ([src/scripts/eval.py])

    Reading the labelled file, choosing the rows, running them concurrently with the results
    streamed to a buffered file, and the report.  What [process_domain] answers for a domain is a
    parameter, as is the shuffle of [--sample]; the printed durations and averages are left
    out. *)

From Stdlib Require Import ZArith QArith Ascii String Lia Permutation.
From stdpp Require Import base strings pretty option sets list.
From S2P Require Import Prelude PyStr Models Csv Jobs Worker Groups HtmlScan Url Emails FilterRank Normalize Ingest Run.

Definition WEBSITE_COLS : list string :=
  ["website"; "websiteurl"; "companywebsite"; "companydomain"; "domain"; "url"; "site"].
Definition EMAIL_COLS : list string := ["email"; "contactemail"; "workemail"; "emailaddress"].

(** ** Reading the file *)

Definition pick_column (headers candidates : list string) : option string :=
  let normed := rev (map (λ h, (norm_header h, h)) headers) in
  head (omap (dict_get normed) candidates).

(** A row of [csv.DictReader]: a missing cell is None, a later column of the same name wins. *)
Definition row_get (headers : list string) (cells : list string) (col : string) : option (option string) :=
  dict_get (rev (zip headers (map Some cells ++ repeat None (length headers)))) col.

Definition or_column (given : option string) (headers candidates : list string) : option string :=
  match given with Some c => if nonempty c then Some c else pick_column headers candidates | None => pick_column headers candidates end.

(** [load_rows]; [None]: no website column, the script ends. *)
Definition load_rows (headers : list string) (lines : list (list string)) (website_col email_col : option string)
    : option (list (option string * string) * string * option string) :=
  let ecol := or_column email_col headers EMAIL_COLS in
  wcol ← or_column website_col headers WEBSITE_COLS;
  Some (map (λ cells,
          (default (Some "") (row_get headers cells wcol),
           match ecol with
           | Some c => default "" (default (Some "") (row_get headers cells c))
           | None => ""
           end)) (keep (λ cells, negb (bool_decide (cells = []))) lines),
        wcol, ecol).

(** ** Choosing the rows ([main]) *)

Record Args := mkArgs {
  a_limit : Z;
  a_sample : Z;
  a_labeled_only : bool;
  a_dedupe : bool
}.

(** [rows[:n]] *)
Definition slice_to {A} (n : Z) (l : list A) : list A :=
  if Z.ltb n 0 then take (Z.to_nat (Z.of_nat (length l) + n)) l else take (Z.to_nat n) l.

(** An input and its label. *)
Abbreviation Row := (string * string)%type.

Section evaluation.
Context `{Tld} `{Idna} `{IpLiteral}.

(** The key two rows of one domain share. *)
Definition dedupe_key (w : string) : string :=
  match nz_domain (normalize_input w) with
  | Some d => if nonempty d then d else lower (strip w)
  | None => lower (strip w)
  end.

Fixpoint dedupe (seen : list string) (rows : list (string * string)) : list (string * string) :=
  match rows with
  | [] => []
  | (w, e) :: rest =>
      if mem (dedupe_key w) seen then dedupe seen rest else (w, e) :: dedupe (dedupe_key w :: seen) rest
  end.

Definition choose (shuffle : list (string * string) → list (string * string)) (args : Args)
    (rows : list (option string * string)) : list (string * string) :=
  let rows := keep (λ we, nonempty (strip we.1)) (map (λ we, (default "" we.1, we.2)) rows) in
  let rows := if a_labeled_only args then keep (λ we, nonempty (strip we.2)) rows else rows in
  let rows := if a_dedupe args then dedupe [] rows else rows in
  if negb (Z.eqb (a_sample args) 0) then slice_to (a_sample args) (shuffle rows)
  else if negb (Z.eqb (a_limit args) 0) then slice_to (a_limit args) rows
  else rows.

(** ** One line of the output *)

Inductive Cell := CText (s : string) | CInt (n : Z).

Definition method_str (m : ExtractionMethod) : string :=
  match m with
  | mailto => "mailto" | jsonld => "jsonld" | cloudflare => "cloudflare"
  | text => "text" | attribute => "attribute" | script => "script"
  end.

Definition ROW_HEADER : list string :=
  ["input"; "label"; "domain"; "final_domain"; "status"; "best_email"; "rank1_method"; "all_emails"; "phones";
   "form"; "tokens"; "reason"; "n_pages"; "best_from"; "best_page_index"; "pages"; "n_emails"; "emails_ranked"].

Fixpoint index_of (x : string) (l : list string) : option nat :=
  match l with [] => None | y :: l' => if String.eqb y x then Some 0 else S <$> index_of x l' end.

(** The page the winning address came from and its place among the fetched ones. *)
Definition best_from (r : DomainResult) : string * string :=
  if str_truthy (r_best_email r) then
    match head (keep (λ c, bool_decide (Some (out_email c) = r_best_email r) && negb (bool_decide (out_source_urls c = [])))
                     (r_all_emails r)) with
    | Some c =>
        let page := default "" (head (out_source_urls c)) in
        (page, match index_of page (r_pages_fetched r) with Some i => pretty (Z.of_nat i) | None => "" end)
    | None => ("", "")
    end
  else ("", "").

Definition row_for (raw label : string) (r : DomainResult) : list Cell :=
  let '(from, idx) := best_from r in
  [CText raw; CText label; CText (r_domain r); CText (or_blank (r_final_domain r)); CText (status_str (r_status r));
   CText (or_blank (r_best_email r));
   CText (match r_all_emails r with c :: _ => method_str (out_method c) | [] => "" end);
   CText (join ", " (map out_email (r_all_emails r))); CText (join ", " (r_phones r));
   CText (or_blank (r_contact_form_url r)); CInt (r_jina_tokens r); CText (or_blank (r_error_reason r));
   CInt (Z.of_nat (length (r_pages_fetched r))); CText from; CText idx; CText (join " | " (r_pages_fetched r));
   CInt (Z.of_nat (length (r_all_emails r)));
   CText (join " | " (map (λ c, out_email c +:+ ":r" +:+ pretty (out_rank c) +:+ ":" +:+ method_str (out_method c)) (r_all_emails r)))].

(** [write_csv]: the short form, without the rows that have no result. *)
Definition SHORT_HEADER : list string :=
  ["input"; "label"; "domain"; "final_domain"; "status"; "best_email"; "rank1_method"; "all_emails"; "phones";
   "form"; "tokens"; "reason"].
Definition short_row (raw label : string) (r : DomainResult) : list Cell :=
  [CText raw; CText label; CText (r_domain r); CText (or_blank (r_final_domain r)); CText (status_str (r_status r));
   CText (or_blank (r_best_email r));
   CText (match r_all_emails r with c :: _ => method_str (out_method c) | [] => "" end);
   CText (join ", " (map out_email (r_all_emails r))); CText (join ", " (r_phones r));
   CText (or_blank (r_contact_form_url r)); CInt (r_jina_tokens r); CText (or_blank (r_error_reason r))].
Definition write_csv (results : list (Row * option DomainResult)) : list (list Cell) :=
  map CText SHORT_HEADER :: omap (λ x, short_row x.1.1 x.1.2 <$> x.2) results.

(** ** The file *)

(** [csv.writer(fh)]: lines end with a carriage return and a newline. *)
Definition cell_text (c : Cell) : string := match c with CText s => s | CInt n => pretty n end.
Definition eval_field (s : string) : string :=
  if str_any (λ c, needs_quotes c || Ascii.eqb c cr) s then quoted s else s.
Definition eval_line (cells : list Cell) : string :=
  join (String comma "") (map (λ c, eval_field (cell_text c)) cells) +:+ String cr (String lf "").
Definition file_text (lines : list (list Cell)) : string := String.concat "" (map eval_line lines).

(** What a write leaves on disk of the text written so far: the buffer may pass on any part
    of what it holds. *)
Definition spilled (k : nat) (disk text : string) : string :=
  if (String.length disk <=? k)%nat then str_take k text else disk.

(** [every: int = 100] *)
Definition EVERY : Z := 100.

(** ** Running the rows *)

Inductive RunState := Going | Failing | Closed | Aborted | Crashed.

(** The tasks not begun, those in [process_domain], those the run lost, and what [record]
    keeps; the lock makes [record] atomic.  [ev_lines] is what was written to [fh],
    [ev_disk] the part of its text that has left the buffer. *)
Record Eval := mkEval {
  ev_ready : list Row;
  ev_running : list Row;
  ev_lost : list Row;
  ev_results : list (Row * DomainResult);
  ev_lines : list (list Cell);
  ev_disk : string;
  ev_done : Z;
  ev_tokens : Z;
  ev_found : Z;
  ev_state : RunState
}.

Definition start_eval (rows : list Row) : Eval := mkEval rows [] [] [] [map CText ROW_HEADER] "" 0 0 0 Going.

Definition with_tasks (s : Eval) (ready running lost : list Row) : Eval :=
  mkEval ready running lost (ev_results s) (ev_lines s) (ev_disk s) (ev_done s) (ev_tokens s) (ev_found s) (ev_state s).

(** The [finally] of [run]: the file is flushed and closed. *)
Definition close (s : Eval) (st : RunState) : Eval :=
  mkEval (ev_ready s) (ev_running s) (ev_lost s) (ev_results s) (ev_lines s) (file_text (ev_lines s)) (ev_done s)
    (ev_tokens s) (ev_found s) st.
Definition with_state (s : Eval) (st : RunState) : Eval :=
  mkEval (ev_ready s) (ev_running s) (ev_lost s) (ev_results s) (ev_lines s) (ev_disk s) (ev_done s) (ev_tokens s)
    (ev_found s) st.

(** [record]; [k] is how far the write pushes the buffer out. *)
Definition record (k : nat) (s : Eval) (row : Row) (r : DomainResult) : Eval :=
  let lines := ev_lines s ++ [row_for row.1 row.2 r] in
  let done := (ev_done s + 1)%Z in
  mkEval (ev_ready s) (ev_running s) (ev_lost s) (ev_results s ++ [(row, r)]) lines
    (if Z.eqb (done mod EVERY) 0 then file_text lines else spilled k (ev_disk s) (file_text lines))
    done (ev_tokens s + r_jina_tokens r) (ev_found s + (if str_truthy (r_best_email r) then 1 else 0)) (ev_state s).

(** The line of an input that is no site. *)
Definition invalid_result (raw : string) : DomainResult :=
  let norm := normalize_input raw in
  let domain := or_blank (nz_domain norm) in
  let name := if nonempty domain then domain else if nonempty (str_take 255 raw) then str_take 255 raw else "-" in
  set_error_reason (blank_result name invalid_input) (nz_reason norm).

(** [one] for a row, the provider account error and the clean-up of [run].  [answers d o]:
    [process_domain] may end with [o] for the domain [d]. *)
Section run.
Context (concurrency : nat) (answers : string → Outcome → Prop).

Definition site_of (row : Row) : option string :=
  let norm := normalize_input row.1 in if nz_ok norm then nz_domain norm else None.

Inductive estep : Eval → Eval → Prop :=
  | e_invalid s l row r k :
      ev_state s = Going ∨ ev_state s = Failing → ev_ready s = l ++ row :: r → site_of row = None →
      estep s (record k (with_tasks s (l ++ r) (ev_running s) (ev_lost s)) row (invalid_result row.1))
  | e_enter s l row r d :
      ev_state s = Going ∨ ev_state s = Failing → ev_ready s = l ++ row :: r → site_of row = Some d →
      (length (ev_running s) < concurrency)%nat →
      estep s (with_tasks s (l ++ r) (ev_running s ++ [row]) (ev_lost s))
  | e_finish s l row r d res k :
      ev_state s = Going ∨ ev_state s = Failing → ev_running s = l ++ row :: r → site_of row = Some d →
      answers d (Returned res) →
      estep s (record k (with_tasks s (ev_ready s) (l ++ r) (ev_lost s)) row res)
  | e_account s l row r d :                       (* the first one ends [gather], later ones are dropped *)
      ev_state s = Going ∨ ev_state s = Failing → ev_running s = l ++ row :: r → site_of row = Some d →
      answers d AccountError →
      estep s (with_state (with_tasks s (ev_ready s) (l ++ r) (row :: ev_lost s)) Failing)
  | e_error s l row r d :
      ev_state s = Going → ev_running s = l ++ row :: r → site_of row = Some d → answers d OtherError →
      estep s (close (with_tasks s [] [] (row :: ev_ready s ++ (l ++ r) ++ ev_lost s)) Crashed)
  | e_abort s :                                   (* the other tasks are cancelled *)
      ev_state s = Failing →
      estep s (close (with_tasks s [] [] (ev_ready s ++ ev_running s ++ ev_lost s)) Aborted)
  | e_close s :                                   (* [gather] returns *)
      ev_state s = Going → ev_ready s = [] → ev_running s = [] → estep s (close s Closed).

Inductive esteps : nat → Eval → Eval → Prop :=
  | es_refl s : esteps 0 s s
  | es_snoc n s1 s2 s3 : esteps n s1 s2 → estep s2 s3 → esteps (S n) s1 s3.

(** The row re-run the script suggests after an abort. *)
Definition resume_row (s : Eval) : Z := ev_done s.
End run.

(** ** The report *)

Definition own_domain (email site : string) : bool := is_own (local_and_domain email).2 site.

(** The labels of a row: semicolons or commas between them. *)
Definition truth (label : string) : list string :=
  keep nonempty (map (λ e, lower (strip e)) (split_on (λ c, Ascii.eqb c ";" || Ascii.eqb c ",") label)).

Record Report := mkReport {
  rp_total : nat;
  rp_found : nat;
  rp_with_any : nat;
  rp_addresses : nat;
  rp_correct : nat;
  rp_leak : nat;
  rp_picks : nat;
  rp_needs_review : nat;
  rp_typesafe : nat;
  rp_tokens : Z;
  rp_statuses : list (Status * nat)
}.

Definition pick_of (r : DomainResult) : option string := if str_truthy (r_best_email r) then r_best_email r else None.

Definition is_correct (lr : string * DomainResult) : bool :=
  match pick_of lr.2 with Some e => mem (lower e) (truth lr.1) | None => false end.
Definition is_leak (lr : string * DomainResult) : bool :=
  match pick_of lr.2 with
  | Some e => negb (mem (lower e) (truth lr.1))
              && negb (own_domain e (if str_truthy (r_final_domain lr.2) then or_blank (r_final_domain lr.2) else r_domain lr.2))
  | None => false
  end.

Fixpoint count_status (s : Status) (l : list (Status * nat)) : list (Status * nat) :=
  match l with
  | [] => [(s, 1)]
  | (s', n) :: l' => if bool_decide (s' = s) then (s', S n) :: l' else (s', n) :: count_status s l'
  end.

Definition finished (results : list (Row * option DomainResult)) : list DomainResult := omap snd results.
Definition labeled (results : list (Row * option DomainResult)) : list (string * DomainResult) :=
  omap (λ x, if nonempty (strip x.1.2) then pair x.1.2 <$> x.2 else None) results.

Definition report (results : list (Row * option DomainResult)) : Report :=
  let done := finished results in
  let lab := labeled results in
  {| rp_total := length results;
     rp_found := count (λ r, str_truthy (r_best_email r)) done;
     rp_with_any := count (λ r, negb (bool_decide (length (r_all_emails r) = 0))) done;
     rp_addresses := foldr plus 0 (map (λ r, length (r_all_emails r)) done);
     rp_correct := count is_correct lab;
     rp_leak := count is_leak lab;
     rp_picks := count (λ lr, str_truthy (r_best_email lr.2)) lab;
     rp_needs_review := count r_needs_review done;
     rp_typesafe := count r_typesafe_called done;
     rp_tokens := foldr Z.add 0%Z (map r_jina_tokens done);
     rp_statuses := fold_left (λ l r, count_status (r_status r) l) done [] |}.

(** The share the report returns. *)
Definition hit (rp : Report) : Q := inject_Z (Z.of_nat (rp_found rp)) / inject_Z (Z.of_nat (Nat.max (rp_total rp) 1)).
End evaluation.

(** * The evaluation script: what its runs and its report add up to *)

Section runs.
Context `{Tld} `{Idna} `{IpLiteral} (concurrency : nat) (answers : string → Outcome → Prop).

Definition line_of (x : Row * DomainResult) : list Cell := row_for x.1.1 x.1.2 x.2.
Definition explained (x : Row * DomainResult) : Prop :=
  match site_of x.1 with
  | None => x.2 = invalid_result x.1.1
  | Some d => answers d (Returned x.2)
  end.

Definition live (st : RunState) : bool := match st with Going | Failing => true | _ => false end.
Definition measure (s : Eval) : nat :=
  2 * length (ev_ready s) + length (ev_running s) + (if live (ev_state s) then 1 else 0).

Record eval_inv (rows : list Row) (s : Eval) : Prop := {
  ei_rows : Permutation rows (ev_ready s ++ ev_running s ++ ev_lost s ++ map fst (ev_results s));
  ei_running : length (ev_running s) ≤ concurrency;
  ei_sites : Forall (λ row, is_Some (site_of row)) (ev_running s);
  ei_lines : ev_lines s = map CText ROW_HEADER :: map line_of (ev_results s);
  ei_disk : ∃ buffered, file_text (ev_lines s) = ev_disk s +:+ buffered;
  ei_flushed : 100 ≤ length (ev_results s) →
    ∃ more, ev_disk s = file_text (take (1 + 100 * (length (ev_results s) / 100)) (ev_lines s)) +:+ more;
  ei_closed : live (ev_state s) = false →
    ev_disk s = file_text (ev_lines s) ∧ ev_ready s = [] ∧ ev_running s = [] ∧ (ev_state s = Closed → ev_lost s = []);
  ei_done : ev_done s = Z.of_nat (length (ev_results s));
  ei_tokens : ev_tokens s = foldr Z.add 0%Z (map (λ x, r_jina_tokens x.2) (ev_results s));
  ei_found : ev_found s = Z.of_nat (count (λ x, str_truthy (r_best_email x.2)) (ev_results s));
  ei_going : ev_state s = Going → ev_lost s = [];
  ei_explained : Forall explained (ev_results s)
}.

Ltac fields :=
  cbn [record with_tasks with_state close start_eval ev_ready ev_running ev_lost ev_results ev_lines ev_disk ev_done ev_tokens ev_found ev_state].

Lemma sum_snoc l x : foldr Z.add 0%Z (l ++ [x]) = (foldr Z.add 0 l + x)%Z.
Proof. induction l as [|y l IH]; cbn; [lia|]. rewrite IH. lia. Qed.

Lemma count_snoc {A} (p : A → bool) l x : count p (l ++ [x]) = count p l + (if p x then 1 else 0).
Proof. unfold count, keep. rewrite List.filter_app, length_app. cbn. by destruct (p x). Qed.

Lemma start_inv rows : eval_inv rows (start_eval rows).
Proof. split; fields; try done; [by rewrite !app_nil_r|cbn; lia|by eexists|cbn; lia]. Qed.

Lemma file_text_app a b : file_text (a ++ b) = file_text a +:+ file_text b.
Proof. unfold file_text. by rewrite map_app, concat_app_str. Qed.

(** What was written is a beginning of what will have been. *)
Lemma file_text_take n lines : ∃ more, file_text lines = file_text (take n lines) +:+ more.
Proof. exists (file_text (drop n lines)). by rewrite <- file_text_app, take_drop. Qed.

Lemma spilled_grows k disk buffered text more :
  text = disk +:+ buffered → (∃ b, spilled k disk (text +:+ more) = disk +:+ b) ∧ ∃ b, text +:+ more = spilled k disk (text +:+ more) +:+ b.
Proof.
  intros ->. unfold spilled. destruct (Nat.leb_spec (String.length disk) k) as [Hk|Hk].
  - split; [|exists (str_drop k ((disk +:+ buffered) +:+ more)); by rewrite str_take_drop].
    clear -Hk. revert k Hk. induction disk as [|c disk IH]; intros k Hk; cbn; [by eexists|].
    destruct k as [|k]; [cbn in Hk; lia|]. destruct (IH k) as [b E]; [cbn in Hk; lia|]. exists b. cbn. by rewrite E.
  - split; [exists ""; by rewrite app_nil_str|]. exists (buffered +:+ more). by rewrite app_assoc_str.
Qed.

(** The two properties of the disk survive a [record]. *)
Lemma record_disk k s row r :
  (∃ buffered, file_text (ev_lines s) = ev_disk s +:+ buffered) → length (ev_lines s) = S (length (ev_results s)) →
  ev_done s = Z.of_nat (length (ev_results s)) →
  (100 ≤ length (ev_results s) →
     ∃ more, ev_disk s = file_text (take (1 + 100 * (length (ev_results s) / 100)) (ev_lines s)) +:+ more) →
  let s' := record k s row r in
  (∃ buffered, file_text (ev_lines s') = ev_disk s' +:+ buffered) ∧
  (100 ≤ length (ev_results s') →
     ∃ more, ev_disk s' = file_text (take (1 + 100 * (length (ev_results s') / 100)) (ev_lines s')) +:+ more).
Proof.
  intros [buffered E] Hlen Hdone Hfl s'. set (line := row_for row.1 row.2 r). unfold s'. fields. fold line.
  rewrite length_app. cbn [length]. set (n := length (ev_results s)) in *.
  destruct (Z.eqb_spec ((ev_done s + 1) mod EVERY) 0) as [Hz|Hz].
  - split; [exists ""; by rewrite app_nil_str|]. intros _. apply file_text_take.
  - rewrite file_text_app. destruct (spilled_grows k (ev_disk s) buffered _ (file_text [line]) E) as [[b1 E1] [b2 E2]].
    split; [by exists b2|]. intros Hn.
    assert ((n + 1) / 100 = n / 100) as Eq.
    { rewrite Hdone in Hz. unfold EVERY in Hz. change 100%Z with (Z.of_nat 100) in Hz. change 1%Z with (Z.of_nat 1) in Hz.
      rewrite <- Nat2Z.inj_add, <- Nat2Z.inj_mod in Hz. pose proof (Nat.div_mod_eq (n + 1) 100) as Hd.
      pose proof (Nat.mod_upper_bound (n + 1) 100 ltac:(lia)).
      apply (Nat.div_unique n 100 _ ((n + 1) mod 100 - 1)); lia. }
    assert (100 ≤ n) as Hn' by (destruct (decide (n = 99)) as [E99|]; [rewrite E99 in Hdone; rewrite Hdone in Hz; by destruct Hz|lia]).
    destruct (Hfl Hn') as [more Em]. rewrite Eq, take_app_le; [|pose proof (Nat.Div0.mul_div_le n 100); lia].
    exists (more +:+ b1). by rewrite E1, Em, app_assoc_str.
Qed.

(** Recording a row that was taken out of the tasks. *)
Lemma record_inv rows s row r ready running k :
  eval_inv rows s → Permutation (ev_ready s ++ ev_running s) (row :: ready ++ running) →
  length running ≤ concurrency → Forall (λ row, is_Some (site_of row)) running → explained (row, r) →
  live (ev_state s) = true →
  eval_inv rows (record k (with_tasks s ready running (ev_lost s)) row r).
Proof.
  intros [I1 I2 I3 I4 D1 D2 D3 I5 I6 I7 I8 I9] Hp Hr Hs He Hlive.
  destruct (record_disk k (with_tasks s ready running (ev_lost s)) row r D1) as [R1 R2]; [by fields; rewrite I4; cbn; rewrite length_map|done|done|].
  split; fields; [| | | |exact R1|exact R2| | | | | |]; try done.
  - rewrite I1, map_app, !(assoc_L (++)), Hp. cbn. rewrite <- Permutation_cons_append. by rewrite <- !(assoc_L (++)).
  - by rewrite I4, map_app.
  - intros Hx. by rewrite Hlive in Hx.
  - rewrite length_app. cbn. lia.
  - rewrite map_app. cbn [map]. by rewrite sum_snoc, I6.
  - rewrite count_snoc, I7. cbn [snd]. destruct (str_truthy _); lia.
  - apply Forall_app. by repeat constructor.
Qed.

Lemma live_cases s : ev_state s = Going ∨ ev_state s = Failing → live (ev_state s) = true.
Proof. by intros [-> | ->]. Qed.

Lemma estep_inv rows s s' : eval_inv rows s → estep concurrency answers s s' → eval_inv rows s'.
Proof.
  intros I. destruct 1 as [s l row r k Hl Er Es|s l row r d Hl Er Es Hc|s l row r d res k Hl Er Es Ha|s l row r d Hl Er Es Ha|s l row r d Hg Er Es Ha|s Hf|s Hg Ey Er];
    try apply live_cases in Hl.
  - apply record_inv; [done| |apply I|apply I| |done].
    + rewrite Er. rewrite <- !app_assoc. cbn. by rewrite <- Permutation_middle.
    + unfold explained. cbn. by rewrite Es.
  - destruct I as [I1 I2 I3 I4 D1 D2 D3 I5 I6 I7 I8 I9]. split; fields; try done.
    + rewrite I1, Er, <- Permutation_middle, <- (Permutation_cons_append (ev_running s)). cbn. apply Permutation_middle.
    + rewrite length_app. cbn. lia.
    + apply Forall_app. split; [done|]. repeat constructor. by rewrite Es.
    + intros Hx. by rewrite Hl in Hx.
  - pose proof (ei_running _ _ I) as Hn. pose proof (ei_sites _ _ I) as Hs. rewrite Er in Hn, Hs. apply record_inv; [done| | | | |done].
    + by rewrite Er, <- !Permutation_middle.
    + rewrite length_app in *. cbn in Hn. lia.
    + apply Forall_app in Hs as [H1' [_ H2']%Forall_cons]. by apply Forall_app.
    + unfold explained. cbn. by rewrite Es.
  - destruct I as [I1 I2 I3 I4 D1 D2 D3 I5 I6 I7 I8 I9]. rewrite Er in I1, I2, I3. split; fields; try done.
    + rewrite I1, <- (Permutation_middle l r row). apply Permutation_app_head. apply Permutation_middle.
    + rewrite length_app in *. cbn in I2. lia.
    + apply Forall_app in I3 as [H1' [_ H2']%Forall_cons]. by apply Forall_app.
  - destruct I as [I1 I2 I3 I4 D1 D2 D3 I5 I6 I7 I8 I9]. rewrite Er in I1. split; fields; try done; [|cbn; lia|exists ""; by rewrite app_nil_str|intros _; apply file_text_take].
    rewrite I1, <- (Permutation_middle l r row). cbn. rewrite <- Permutation_middle. by rewrite <- !(assoc_L (++)).
  - destruct I as [I1 I2 I3 I4 D1 D2 D3 I5 I6 I7 I8 I9]. split; fields; try done; [|cbn; lia|exists ""; by rewrite app_nil_str|intros _; apply file_text_take].
    cbn. by rewrite I1, <- !(assoc_L (++)).
  - destruct I as [I1 I2 I3 I4 D1 D2 D3 I5 I6 I7 I8 I9]. split; fields; try done; [exists ""; by rewrite app_nil_str|intros _; apply file_text_take|].
    intros _. split_and!; auto.
Qed.

Lemma estep_measure s s' : estep concurrency answers s s' → measure s' < measure s.
Proof.
  unfold measure. destruct 1 as [s l row r k Hl Er Es|s l row r d Hl Er Es Hc|s l row r d res k Hl Er Es Ha|s l row r d Hl Er Es Ha|s l row r d Hg Er Es Ha|s Hf|s Hg Ey Er];
    fields; rewrite ?Er, ?Ey, ?length_app; try (destruct Hl as [-> | ->]); try rewrite Hg; try rewrite Hf; cbn; rewrite ?length_app; lia.
Qed.

Lemma esteps_inv n rows s : esteps concurrency answers n (start_eval rows) s → eval_inv rows s ∧ n + measure s ≤ 2 * length rows + 1.
Proof.
  remember (start_eval rows) as s0 eqn:E. induction 1 as [s|n s1 s2 s3 Hr IH Hs]; subst.
  - split; [apply start_inv|]. cbn. lia.
  - destruct (IH eq_refl) as [I Hm]. split; [by eapply estep_inv|]. apply estep_measure in Hs. lia.
Qed.

(** A run that has not ended has a step. *)
Lemma eval_progress rows s :
  eval_inv rows s → live (ev_state s) = true → 0 < concurrency → (∀ d, ∃ o, answers d o) → ∃ s', estep concurrency answers s s'.
Proof.
  intros I Hlive Hc Ha. destruct (ev_state s) eqn:Hg; try done; [|by eexists; apply e_abort].
  destruct (ev_running s) as [|row run] eqn:Er.
  - destruct (ev_ready s) as [|row rest] eqn:Ey; [by eexists; apply e_close|]. destruct (site_of row) as [d|] eqn:Es.
    + eexists. eapply (e_enter _ _ s [] row rest); eauto. rewrite Er. cbn. lia.
    + eexists. eapply (e_invalid _ _ s [] row rest 0); eauto.
  - pose proof (ei_sites _ _ I) as Hs. rewrite Er in Hs. apply Forall_cons in Hs as [[d Ed] _]. destruct (Ha d) as [[res| |] Ho].
    + eexists. eapply (e_finish _ _ s [] row run _ _ 0); eauto.
    + eexists. eapply (e_account _ _ s [] row run); eauto.
    + eexists. eapply (e_error _ _ s [] row run); eauto.
Qed.

(** C40: a run of the evaluation in any schedule takes at most two steps per row and one
    more.  At every moment no more than the allowed number of domains is in progress; every
    row is waiting, in progress, lost to an abort or recorded, once; the counters are those
    of the recorded rows, and each recorded result is what the pipeline answered for the
    row's site or the refusal of the input.  Were the process to die at that moment, the
    file would hold a beginning of the header and the recorded lines in their order: it is
    flushed at every hundredth row only, so that it has the header and all recorded rows up
    to the last hundred, and what was recorded after that may be missing in part or whole.
    A run that has not ended goes on; once it has ended, for any reason, the file has the
    header and every recorded line, and when it ended without an error every row is
    recorded. *)
Theorem evaluation_complete n rows s :
  esteps concurrency answers n (start_eval rows) s → 0 < concurrency → (∀ d, ∃ o, answers d o) →
  n ≤ 2 * length rows + 1 ∧ eval_inv rows s ∧
  (live (ev_state s) = true → ∃ s', estep concurrency answers s s') ∧
  (live (ev_state s) = false → ev_disk s = file_text (map CText ROW_HEADER :: map line_of (ev_results s))) ∧
  (ev_state s = Closed → Permutation rows (map fst (ev_results s))).
Proof.
  intros Hr Hc Ha. destruct (esteps_inv n rows s Hr) as [I Hm]. split_and!; [lia|done|intros Hl; by eapply eval_progress| |].
  - intros Hl. destruct (ei_closed _ _ I Hl) as [-> _]. by rewrite (ei_lines _ _ I).
  - intros Hcl. assert (live (ev_state s) = false) as Hl by by rewrite Hcl.
    destruct (ei_closed _ _ I Hl) as (_ & E1 & E2 & E3). by rewrite (ei_rows _ _ I), E1, E2, (E3 Hcl).
Qed.
End runs.

(** ** A run, and an aborted one *)

Definition found_at (d : string) (o : Outcome) : Prop := o = Returned (blank_result d no_contact_info).

Lemma evaluation_complete_witness :
  ∃ s, esteps 1 found_at 4 (start_eval [("acme.com", ""); ("n/a", "")]) s ∧ length (ev_lines s) = 3 ∧
    ev_disk s = file_text (map CText ROW_HEADER :: map line_of (ev_results s)).
Proof.
  set (row := ("acme.com", "") : Row). set (bad := ("n/a", "") : Row). set (s0 := start_eval [row; bad]).
  set (s1 := with_tasks s0 [bad] [row] []). set (s2 := record 0 (with_tasks s1 [] [row] []) bad (invalid_result "n/a")).
  set (s3 := record 10 (with_tasks s2 [] [] []) row (blank_result "acme.com" no_contact_info)). set (s4 := close s3 Closed).
  assert (esteps 1 found_at 4 s0 s4) as Hr.
  { apply (es_snoc _ _ 3 s0 s3); [apply (es_snoc _ _ 2 s0 s2); [apply (es_snoc _ _ 1 s0 s1); [apply (es_snoc _ _ 0 s0 s0); [apply es_refl|]|]|]|].
    - apply (e_enter 1 found_at s0 [] row [bad] "acme.com"); [by left|done|by vm_compute|cbn; lia].
    - apply (e_invalid 1 found_at s1 [] bad []); [by left|done|by vm_compute].
    - apply (e_finish 1 found_at s2 [] row [] "acme.com"); [by left|done|by vm_compute|done].
    - by apply e_close. }
  exists s4. split; [exact Hr|].
  destruct (evaluation_complete 1 found_at 4 _ _ Hr) as (_ & I & _ & Hd & _); [lia|by intros d; eexists|].
  split; [by rewrite (ei_lines _ _ _ _ I)|by apply Hd].
Defined.

(** Two rows are recorded and the file has nothing yet: a crash here loses both. *)
Example recorded_not_on_disk :
  let s := record 0 (record 0 (start_eval []) ("a", "") (invalid_result "a")) ("b", "") (invalid_result "b") in
  ev_done s = 2%Z ∧ ev_disk s = "".
Proof. vm_compute. done. Qed.

(** After an abort the number of recorded rows is no place to go on from: the rows finish in
    any order, so the rows before it need not be the recorded ones. *)
Example resume_row_skips_rows :
  let first := ("acme.com", "") in let second := ("n/a", "") in
  ∃ s, esteps 1 (λ _ o, o = AccountError) 4 (start_eval [first; second]) s ∧
    ev_state s = Aborted ∧ resume_row s = 1%Z ∧ map fst (ev_results s) = [second].
Proof.
  intros first second. eexists. split.
  { eapply es_snoc; [eapply es_snoc; [eapply es_snoc; [eapply es_snoc; [apply es_refl|]|]|]|].
    - apply (e_enter 1 _ (start_eval [first; second]) [] first [second] "acme.com"); [by left|done|by vm_compute|cbn; lia].
    - apply (e_invalid 1 _ _ [] second [] 0); [by left|done|by vm_compute].
    - apply (e_account 1 _ _ [] first [] "acme.com"); [by left|done|by vm_compute|done].
    - by apply e_abort. }
  done.
Qed.

(** ** The report *)

Section reports.
Context `{Tld}.

Lemma count_le_length {A} (p : A → bool) l : count p l ≤ length l.
Proof. unfold count, keep. induction l as [|x l IH]; cbn; [lia|]. destruct (p x); cbn; lia. Qed.

Lemma count_disjoint {A} (p q r : A → bool) l :
  (∀ x, p x = true → q x = true → False) → (∀ x, p x || q x = true → r x = true) → count p l + count q l ≤ count r l.
Proof.
  intros Hd Hs. unfold count, keep. induction l as [|x l IH]; cbn; [lia|]. specialize (Hd x). specialize (Hs x).
  destruct (p x), (q x), (r x); cbn in *; try lia; exfalso; (by apply Hd) || by discriminate Hs.
Qed.

Lemma length_omap_le {A B} (f : A → option B) l : length (omap f l) ≤ length l.
Proof. induction l as [|x l IH]; cbn; [lia|]. destruct (f x); cbn; lia. Qed.

Lemma labeled_finished (p : DomainResult → bool) results :
  count (λ lr, p lr.2) (labeled results) ≤ count p (finished results).
Proof.
  unfold labeled, finished, count, keep. induction results as [|[row [r|]] results IH]; cbn; [lia| |].
  - destruct (nonempty _); cbn; destruct (p r); cbn; lia.
  - destruct (nonempty _); cbn; lia.
Qed.

Lemma pick_of_truthy r : str_truthy (r_best_email r) = match pick_of r with Some _ => true | None => false end.
Proof. unfold pick_of. destruct (str_truthy (r_best_email r)) eqn:E; [|done]. by destruct (r_best_email r). Qed.

(** The tally: every status once, with its number. *)
Definition tally (l : list (Status * nat)) (s : Status) : nat :=
  default 0 (snd <$> head (keep (λ x, bool_decide (x.1 = s)) l)).

Lemma count_status_spec s l :
  NoDup (map fst l) → NoDup (map fst (count_status s l)) ∧
  (∀ s', s' ∈ map fst (count_status s l) ↔ s' = s ∨ s' ∈ map fst l) ∧
  (∀ s', tally (count_status s l) s' = tally l s' + if bool_decide (s = s') then 1 else 0).
Proof.
  induction l as [|[t n] l IH]; intros Hnd.
  - split_and!; [apply NoDup_singleton|intros s'; cbn; by rewrite elem_of_cons|]. intros s'. unfold tally, keep. cbn. by repeat case_bool_decide.
  - cbn in Hnd. apply NoDup_cons in Hnd as [Hni Hnd]. destruct (IH Hnd) as (J1 & J2 & J3). cbn [count_status].
    case_bool_decide as E; [subst t|].
    + cbn. split_and!; [by constructor|intros s'; rewrite elem_of_cons; tauto|]. intros s'. unfold tally, keep. cbn. case_bool_decide; cbn; lia.
    + cbn. split_and!; [constructor; [by rewrite J2; intros [?|?]|done]|intros s'; rewrite !elem_of_cons, J2; tauto|]. intros s'. specialize (J3 s'). unfold tally, keep in *. cbn.
      destruct (decide (t = s')) as [<-|Hne]; [rewrite bool_decide_true by done|rewrite (bool_decide_false (t = s')) by done; exact J3].
      cbn. rewrite bool_decide_false by done. lia.
Qed.

Lemma tally_all rs l : NoDup (map fst l) →
  let l' := fold_left (λ l r, count_status (r_status r) l) rs l in
  NoDup (map fst l') ∧ ∀ s, tally l' s = tally l s + count (λ r, bool_decide (r_status r = s)) rs.
Proof.
  revert l. induction rs as [|r rs IH]; intros l Hnd; cbn; [split; [done|]; unfold count, keep; cbn; lia|].
  destruct (count_status_spec (r_status r) l Hnd) as (J1 & _ & J3). destruct (IH _ J1) as [K1 K2]. split; [done|].
  intros s. rewrite K2, J3. unfold count, keep. cbn. case_bool_decide; cbn; lia.
Qed.

(** The report adds up: right answers and third-party leaks are among the labelled rows
    with a pick, those are among the rows with a pick and those among all rows, so the hit
    rate lies between 0 and 1; and every status is listed once with the number of finished
    rows that have it. *)
Theorem report_consistent results :
  let rp := report results in
  rp_correct rp + rp_leak rp ≤ rp_picks rp ∧ rp_picks rp ≤ rp_found rp ∧ rp_found rp ≤ rp_total rp ∧
  (0 <= hit rp)%Q ∧ (hit rp <= 1)%Q ∧ NoDup (map fst (rp_statuses rp)) ∧
  ∀ s, tally (rp_statuses rp) s = count (λ r, bool_decide (r_status r = s)) (finished results).
Proof.
  intros rp. assert (rp_found rp ≤ rp_total rp) as Hf.
  { etrans; [apply count_le_length|apply length_omap_le]. }
  split.
  { apply count_disjoint.
    - intros lr. unfold is_correct, is_leak. destruct (pick_of lr.2); [|done]. by intros ->.
    - intros lr. rewrite pick_of_truthy. unfold is_correct, is_leak. by destruct (pick_of lr.2). }
  split; [apply (labeled_finished (λ r, str_truthy (r_best_email r)))|]. split; [done|].
  destruct (tally_all (finished results) [] ltac:(apply NoDup_nil_2)) as [T1 T2].
  assert (0 < inject_Z (Z.of_nat (Nat.max (rp_total rp) 1)))%Q as Hpos by (change 0%Q with (inject_Z 0); rewrite <- Zlt_Qlt; lia).
  split_and!; [| |exact T1|intros s; by rewrite T2].
  - unfold hit. apply Qle_shift_div_l; [done|]. rewrite Qmult_0_l. change 0%Q with (inject_Z 0). rewrite <- Zle_Qle. lia.
  - unfold hit. apply Qle_shift_div_r; [done|]. rewrite Qmult_1_l, <- Zle_Qle. lia.
Qed.
End reports.

(** [--dedupe] keeps the first row of every domain, in order. *)
Lemma dedupe_spec `{Tld} `{Idna} `{IpLiteral} seen rows :
  NoDup (map (λ we, dedupe_key we.1) (dedupe seen rows)) ∧
  (∀ k, k ∈ map (λ we, dedupe_key we.1) (dedupe seen rows) ↔ k ∈ map (λ we, dedupe_key we.1) rows ∧ k ∉ seen) ∧
  sublist (dedupe seen rows) rows.
Proof.
  revert seen. induction rows as [|[w e] rows IH]; intros seen; cbn [dedupe map].
  - split_and!; [apply NoDup_nil_2|set_solver|constructor].
  - destruct (mem (dedupe_key w) seen) eqn:E.
    + apply mem_true in E. destruct (IH seen) as (I1 & I2 & I3). split_and!; [done| |by constructor].
      intros k. rewrite I2, elem_of_cons. cbn. split; [tauto|]. intros [[->|Hk] Hs]; done.
    + apply mem_false in E. destruct (IH (dedupe_key w :: seen)) as (I1 & I2 & I3). cbn. split_and!; [| |by constructor].
      * constructor; [|done]. rewrite I2, elem_of_cons. tauto.
      * intros k. rewrite !elem_of_cons, I2, elem_of_cons. destruct (decide (k = dedupe_key w)) as [->|]; tauto.
Qed.

(** The short file has the first twelve columns of the streamed one. *)
Lemma write_csv_prefix results :
  write_csv (map (λ x, (x.1, Some x.2)) results) = map (take 12) (map CText ROW_HEADER :: map line_of results).
Proof.
  unfold write_csv. cbn [map]. f_equal. induction results as [|[[raw label] r] results IH]; [done|]. cbn [map omap list_omap].
  cbn [fst snd fmap option_fmap option_map]. f_equal; [|exact IH]. unfold line_of, row_for. cbn [fst snd]. by destruct (best_from r).
Qed.
