(* ===== verification/Schema.v ===== *)
(** * Database schemas and the operations of a migration

    Tables by name with their columns by name, indexes, and enumerated types: what the
    operations of [src/migrations/versions] and the declarations of [src/app/models.py] say.
    An operation that PostgreSQL refuses is [None].  Adding a column that is NOT NULL
    without a default counts as refused, since it is on a table with rows. *)

From Stdlib Require Import Lia.
From stdpp Require Import base strings option gmap sets list.
From S2P Require Import Prelude.

Inductive ColType := TUuid | TText | TInteger | TBigInteger | TBoolean | TFloat | TTimestamptz | TJsonb | TEnum (name : string).
#[export] Instance ColType_eq_dec : EqDecision ColType.
Proof. solve_decision. Defined.

Inductive OnDelete := CASCADE | SET_NULL.
#[export] Instance OnDelete_eq_dec : EqDecision OnDelete.
Proof. solve_decision. Defined.

Record Column := mkColumn {
  col_type : ColType;
  col_nullable : bool;
  col_default : option string;
  col_unique : bool;
  col_pk : bool;
  col_autoincrement : bool;
  col_fk : option (string * string * OnDelete)
}.
#[export] Instance Column_eq_dec : EqDecision Column.
Proof. solve_decision. Defined.

(** [ix_uses]: the columns the keys, their expressions and the condition mention. *)
Record Index := mkIndex {
  ix_table : string;
  ix_keys : list string;
  ix_unique : bool;
  ix_where : option string;
  ix_uses : list string
}.
#[export] Instance Index_eq_dec : EqDecision Index.
Proof. solve_decision. Defined.

Abbreviation Table := (gmap string Column).

Record Schema := mkSchema {
  tables : gmap string Table;
  indexes : gmap string Index;
  enums : gmap string (list string)
}.
#[export] Instance Schema_eq_dec : EqDecision Schema.
Proof. solve_decision. Defined.

Definition empty_schema : Schema := mkSchema ∅ ∅ ∅.

(** ** Columns as they are declared *)

Definition column (ty : ColType) : Column := mkColumn ty true None false false false None.
Definition not_null (c : Column) : Column :=
  mkColumn (col_type c) false (col_default c) (col_unique c) (col_pk c) (col_autoincrement c) (col_fk c).
Definition default_to (d : string) (c : Column) : Column :=
  mkColumn (col_type c) (col_nullable c) (Some d) (col_unique c) (col_pk c) (col_autoincrement c) (col_fk c).
Definition unique (c : Column) : Column :=
  mkColumn (col_type c) (col_nullable c) (col_default c) true (col_pk c) (col_autoincrement c) (col_fk c).
(** A primary key is NOT NULL. *)
Definition primary_key (c : Column) : Column :=
  mkColumn (col_type c) false (col_default c) (col_unique c) true (col_autoincrement c) (col_fk c).
Definition autoincrement (c : Column) : Column :=
  mkColumn (col_type c) (col_nullable c) (col_default c) (col_unique c) (col_pk c) true (col_fk c).
Definition references (t k : string) (d : OnDelete) (c : Column) : Column :=
  mkColumn (col_type c) (col_nullable c) (col_default c) (col_unique c) (col_pk c) (col_autoincrement c) (Some (t, k, d)).

Definition table_of (cols : list (string * Column)) : Table := list_to_map cols.

(** ** Operations *)

Inductive Op :=
  | CreateEnum (name : string) (values : list string)      (* [checkfirst=True] *)
  | DropEnum (name : string)                               (* [checkfirst=True] *)
  | AddEnumValue (name value : string)                     (* [IF NOT EXISTS] *)
  | CreateTable (name : string) (cols : list (string * Column))
  | DropTable (name : string)
  | AddColumn (table name : string) (c : Column)
  | DropColumn (table name : string)
  | CreateIndex (name : string) (ix : Index)
  | DropIndex (name table : string)
  | Execute (sql : string) (cols lits : list (string * string)).
      (* an UPDATE: the columns it names, and the literals of enumerated types *)

Definition with_tables (s : Schema) (t : gmap string Table) : Schema := mkSchema t (indexes s) (enums s).
Definition with_indexes (s : Schema) (i : gmap string Index) : Schema := mkSchema (tables s) i (enums s).
Definition with_enums (s : Schema) (e : gmap string (list string)) : Schema := mkSchema (tables s) (indexes s) e.

Definition known (s : Schema) (table col : string) : bool :=
  match tables s !! table with Some t => bool_decide (is_Some (t !! col)) | None => false end.

(** The types and the referenced columns of a column exist. *)
Definition column_ok (s : Schema) (c : Column) : bool :=
  (match col_type c with TEnum e => bool_decide (is_Some (enums s !! e)) | _ => true end)
  && match col_fk c with Some (t, k, _) => known s t k | None => true end.

Definition refers_to (table : string) (c : Column) : bool :=
  match col_fk c with Some (t, _, _) => String.eqb t table | None => false end.
Definition refers_to_column (table col : string) (c : Column) : bool :=
  match col_fk c with Some (t, k, _) => String.eqb t table && String.eqb k col | None => false end.
Definition has_type (enum : string) (c : Column) : bool :=
  match col_type c with TEnum e => String.eqb e enum | _ => false end.

(** Some column of some table, [but] apart. *)
Definition any_column (p : Column → bool) (but : option string) (s : Schema) : bool :=
  any (λ nt, negb (bool_decide (but = Some nt.1)) && any (λ nc, p nc.2) (map_to_list (nt.2 : Table))) (map_to_list (tables s)).

Definition uses (table col : string) (ix : Index) : bool :=
  String.eqb (ix_table ix) table && mem col (ix_uses ix).

Definition drop_indexes (p : Index → bool) (s : Schema) : gmap string Index := filter (λ ni, p ni.2 = false) (indexes s).

Definition has_value (s : Schema) (enum value : string) : bool :=
  match enums s !! enum with Some vs => mem value vs | None => false end.

Definition apply_op (o : Op) (s : Schema) : option Schema :=
  match o with
  | CreateEnum e vs =>
      Some (match enums s !! e with Some _ => s | None => with_enums s (<[e := vs]> (enums s)) end)
  | DropEnum e =>
      match enums s !! e with
      | None => Some s
      | Some _ => if any_column (has_type e) None s then None else Some (with_enums s (delete e (enums s)))
      end
  | AddEnumValue e v =>
      vs ← enums s !! e;
      Some (if mem v vs then s else with_enums s (<[e := vs ++ [v]]> (enums s)))
  | CreateTable t cols =>
      match tables s !! t with
      | Some _ => None
      | None =>
          if bool_decide (NoDup (map fst cols)) && all (λ nc, column_ok s nc.2) cols
             && negb (bool_decide (is_Some (indexes s !! t)))
          then Some (with_tables s (<[t := table_of cols]> (tables s))) else None
      end
  | DropTable t =>
      match tables s !! t with
      | None => None
      | Some _ =>
          if any_column (refers_to t) (Some t) s then None
          else Some (mkSchema (delete t (tables s)) (drop_indexes (λ ix, String.eqb (ix_table ix) t) s) (enums s))
      end
  | AddColumn t n c =>
      match tables s !! t with
      | None => None
      | Some cols =>
          match cols !! n with
          | Some _ => None
          | None => if column_ok s c && (col_nullable c || bool_decide (is_Some (col_default c)))
                    then Some (with_tables s (<[t := <[n := c]> cols]> (tables s))) else None
          end
      end
  | DropColumn t n =>
      match tables s !! t with
      | None => None
      | Some cols =>
          match cols !! n with
          | None => None
          | Some _ =>
              if any_column (refers_to_column t n) None s then None
              else Some (mkSchema (<[t := delete n cols]> (tables s)) (drop_indexes (uses t n) s) (enums s))
          end
      end
  | CreateIndex n ix =>
      if bool_decide (is_Some (indexes s !! n)) || bool_decide (is_Some (tables s !! n))
         || negb (all (known s (ix_table ix)) (ix_uses ix)) || negb (bool_decide (is_Some (tables s !! ix_table ix)))
      then None else Some (with_indexes s (<[n := ix]> (indexes s)))
  | DropIndex n t =>
      match indexes s !! n with
      | Some ix => if String.eqb (ix_table ix) t then Some (with_indexes s (delete n (indexes s))) else None
      | None => None
      end
  | Execute _ cols lits =>
      if all (λ tc, known s tc.1 tc.2) cols && all (λ ev, has_value s ev.1 ev.2) lits then Some s else None
  end.

(** The operations in order, each in the state the previous one left. *)
Fixpoint run (ops : list Op) (s : Schema) : option Schema :=
  match ops with [] => Some s | o :: rest => s' ← apply_op o s; run rest s' end.

Lemma run_app a b s : run (a ++ b) s = s' ← run a s; run b s'.
Proof. revert s. induction a as [|o a IH]; intros s; cbn; [done|]. destruct (apply_op o s); cbn; [apply IH|done]. Qed.

(** ** Well-formed schemas *)

Record schema_ok (s : Schema) : Prop := {
  so_columns : ∀ t cols n c, tables s !! t = Some cols → cols !! n = Some c → column_ok s c = true;
  so_indexes : ∀ n ix, indexes s !! n = Some ix →
    is_Some (tables s !! ix_table ix) ∧ ∀ col, col ∈ ix_uses ix → known s (ix_table ix) col = true
}.

Lemma any_column_false p but s :
  any_column p but s = false ↔
  ∀ t cols n c, tables s !! t = Some cols → but ≠ Some t → cols !! n = Some c → p c = false.
Proof.
  unfold any_column. rewrite any_false. split.
  - intros Ha t cols n c Ht Hb Hc. specialize (Ha (t, cols) (proj2 (elem_of_map_to_list _ _ _) Ht)). cbn in Ha.
    rewrite (bool_decide_false _ Hb) in Ha. cbn in Ha. rewrite any_false in Ha.
    exact (Ha (n, c) (proj2 (elem_of_map_to_list _ _ _) Hc)).
  - intros Hf [t cols] Hin%elem_of_map_to_list. cbn. case_bool_decide as Hb; [done|]. cbn.
    apply any_false. intros [n c] Hc%elem_of_map_to_list. cbn. by apply (Hf t cols n c).
Qed.

Lemma known_insert s t cols t' col :
  (tables s !! t = None ∨ ∃ old, tables s !! t = Some old ∧ old ⊆ cols) → known s t' col = true →
  known (with_tables s (<[t := cols]> (tables s))) t' col = true.
Proof.
  unfold known. cbn. intros Hold Hk. destruct (decide (t = t')) as [->|Hne].
  - rewrite lookup_insert_eq. destruct Hold as [E|(old & E & Hsub)]; rewrite E in Hk; [done|].
    apply bool_decide_eq_true in Hk as [c Hc]. apply bool_decide_eq_true. exists c. by eapply lookup_weaken.
  - by rewrite lookup_insert_ne.
Qed.

Lemma column_ok_mono s s' c :
  (∀ e, is_Some (enums s !! e) → is_Some (enums s' !! e)) → (∀ t k, known s t k = true → known s' t k = true) →
  column_ok s c = true → column_ok s' c = true.
Proof.
  unfold column_ok. intros He Hk [H1 H2]%andb_true_iff. apply andb_true_iff. split.
  - destruct (col_type c); try done. apply bool_decide_eq_true in H1. apply bool_decide_eq_true. auto.
  - destruct (col_fk c) as [[[t k] d]|]; [|done]. auto.
Qed.

(** Adding tables, columns and values keeps what is there. *)
Lemma schema_ok_grow s s' :
  schema_ok s →
  (∀ e, is_Some (enums s !! e) → is_Some (enums s' !! e)) → (∀ t k, known s t k = true → known s' t k = true) →
  (∀ t, is_Some (tables s !! t) → is_Some (tables s' !! t)) →
  (∀ t cols n c, tables s' !! t = Some cols → cols !! n = Some c →
     column_ok s c = true ∨ ∃ cols0, tables s !! t = Some cols0 ∧ cols0 !! n = Some c) →
  indexes s' = indexes s → schema_ok s'.
Proof.
  intros [C I] He Hk Ht Hc Hi. split.
  - intros t cols n c E1 E2. destruct (Hc t cols n c E1 E2) as [Hx|(cols0 & F1 & F2)].
    + by eapply column_ok_mono.
    + eapply column_ok_mono; [done|done|]. by eapply C.
  - rewrite Hi. intros n ix E. destruct (I n ix E) as [J1 J2]. split; auto.
Qed.

Lemma create_table_ok s t cols :
  schema_ok s → tables s !! t = None → Forall (λ nc, column_ok s nc.2 = true) cols →
  schema_ok (with_tables s (<[t := table_of cols]> (tables s))).
Proof.
  intros Hs Et Hc. apply (schema_ok_grow s); cbn; try done.
  - intros t' k Hk. apply known_insert; [by left|done].
  - intros t' Ht'. destruct (decide (t = t')) as [->|]; [by rewrite lookup_insert_eq|by rewrite lookup_insert_ne].
  - intros t' cols' n c E1 E2. destruct (decide (t = t')) as [->|]; [|rewrite lookup_insert_ne in E1 by done; right; eauto].
    rewrite lookup_insert_eq in E1. injection E1 as <-. left.
    apply elem_of_list_to_map_2 in E2. rewrite Forall_forall in Hc. by apply (Hc (n, c)).
Qed.

Lemma add_column_ok s t cols n c :
  schema_ok s → tables s !! t = Some cols → cols !! n = None → column_ok s c = true →
  schema_ok (with_tables s (<[t := <[n := c]> cols]> (tables s))).
Proof.
  intros Hs Et En Hc. apply (schema_ok_grow s); cbn; try done.
  - intros t' k Hk. apply known_insert; [|done]. right. exists cols. split; [done|]. by apply insert_subseteq.
  - intros t' Ht'. destruct (decide (t = t')) as [->|]; [by rewrite lookup_insert_eq|by rewrite lookup_insert_ne].
  - intros t' cols' n' c' E1 E2. destruct (decide (t = t')) as [->|]; [|rewrite lookup_insert_ne in E1 by done; right; eauto].
    rewrite lookup_insert_eq in E1. injection E1 as <-. destruct (decide (n = n')) as [->|].
    + rewrite lookup_insert_eq in E2. injection E2 as <-. by left.
    + rewrite lookup_insert_ne in E2 by done. right. eauto.
Qed.

(** Taking away what nothing mentions keeps the rest. *)
Lemma schema_ok_shrink s s' (gone : string → string → Prop) :
  schema_ok s →
  (∀ t cols n c, tables s' !! t = Some cols → cols !! n = Some c →
     (∃ cols0, tables s !! t = Some cols0 ∧ cols0 !! n = Some c) ∧
     (∀ t' k d, col_fk c = Some (t', k, d) → ¬ gone t' k) ∧ (∀ e, col_type c = TEnum e → enums s' !! e = enums s !! e)) →
  (∀ t k, known s t k = true → ¬ gone t k → known s' t k = true) →
  (∀ n ix, indexes s' !! n = Some ix → indexes s !! n = Some ix ∧ is_Some (tables s' !! ix_table ix) ∧
     ∀ col, col ∈ ix_uses ix → ¬ gone (ix_table ix) col) →
  schema_ok s'.
Proof.
  intros [C I] Hc Hk Hi. split.
  - intros t cols n c E1 E2. destruct (Hc t cols n c E1 E2) as ((cols0 & F1 & F2) & Hfk & Hen).
    specialize (C t cols0 n c F1 F2). unfold column_ok in *. apply andb_true_iff in C as [C1 C2]. apply andb_true_iff. split.
    + destruct (col_type c); try done. by rewrite (Hen _ eq_refl).
    + destruct (col_fk c) as [[[t' k] d]|]; [|done]. apply Hk; [done|by eapply Hfk].
  - intros n ix E. destruct (Hi n ix E) as (E' & Ht & Hg). destruct (I n ix E') as [_ J]. split; [done|].
    intros col Hcol. apply Hk; [by apply J|by apply Hg].
Qed.

Lemma drop_indexes_Some p s n ix : drop_indexes p s !! n = Some ix ↔ indexes s !! n = Some ix ∧ p ix = false.
Proof. unfold drop_indexes. by rewrite map_lookup_filter_Some. Qed.

Lemma drop_enum_ok s e : schema_ok s → any_column (has_type e) None s = false →
  schema_ok (with_enums s (delete e (enums s))).
Proof.
  intros Hs Ha. rewrite any_column_false in Ha. apply (schema_ok_shrink s _ (λ _ _, False)); cbn; [done| |done|].
  - intros t cols n c E1 E2. split; [by eexists|]. split; [tauto|]. intros e' Ht. rewrite lookup_delete_ne; [done|].
    intros ->. specialize (Ha t cols n c E1 ltac:(done) E2). unfold has_type in Ha. by rewrite Ht, String.eqb_refl in Ha.
  - intros n ix E. split; [done|]. split; [by apply (so_indexes _ Hs n)|tauto].
Qed.

Lemma drop_table_ok s t : schema_ok s → any_column (refers_to t) (Some t) s = false →
  schema_ok (mkSchema (delete t (tables s)) (drop_indexes (λ ix, String.eqb (ix_table ix) t) s) (enums s)).
Proof.
  intros Hs Ha. rewrite any_column_false in Ha. apply (schema_ok_shrink s _ (λ t' _, t' = t)); cbn; [done| | |].
  - intros t' cols n c [Hne E1]%lookup_delete_Some E2. split; [by eexists|]. split; [|done].
    intros t2 k d Hfk ->. specialize (Ha t' cols n c E1 ltac:(congruence) E2). unfold refers_to in Ha.
    by rewrite Hfk, String.eqb_refl in Ha.
  - intros t' k Hk Hne. unfold known in *. cbn. by rewrite lookup_delete_ne.
  - intros n ix [E Ht%String.eqb_neq]%drop_indexes_Some. split; [done|]. split; [|done].
    rewrite lookup_delete_ne by done. by apply (so_indexes _ Hs n).
Qed.

Lemma drop_column_ok s t n cols : schema_ok s → tables s !! t = Some cols →
  any_column (refers_to_column t n) None s = false →
  schema_ok (mkSchema (<[t := delete n cols]> (tables s)) (drop_indexes (uses t n) s) (enums s)).
Proof.
  intros Hs Et Ha. rewrite any_column_false in Ha. apply (schema_ok_shrink s _ (λ t' k, t' = t ∧ k = n)); cbn; [done| | |].
  - intros t' cols' n' c E1 E2. assert (∃ cols0, tables s !! t' = Some cols0 ∧ cols0 !! n' = Some c) as (cols0 & F1 & F2).
    { apply lookup_insert_Some in E1 as [[<- <-]|[Hne E1]]; [|by eexists]. exists cols. split; [done|].
      by apply lookup_delete_Some in E2 as [_ E2]. }
    split; [by exists cols0|]. split; [|done]. intros t2 k d Hfk [-> ->].
    specialize (Ha t' cols0 n' c F1 ltac:(done) F2). unfold refers_to_column in Ha. by rewrite Hfk, !String.eqb_refl in Ha.
  - intros t' k Hk Hg. unfold known in *. cbn. destruct (decide (t = t')) as [->|]; [|by rewrite lookup_insert_ne].
    rewrite lookup_insert_eq. rewrite Et in Hk. apply bool_decide_eq_true in Hk. apply bool_decide_eq_true.
    rewrite lookup_delete_ne; [done|]. intros ->. by apply Hg.
  - intros m ix [E Hu]%drop_indexes_Some. split; [done|]. split.
    + destruct (so_indexes _ Hs m ix E) as [Ht _]. destruct (decide (t = ix_table ix)) as [->|];
        [by rewrite lookup_insert_eq|by rewrite lookup_insert_ne].
    + intros col Hcol [Eq ->]. unfold uses in Hu. rewrite Eq, String.eqb_refl in Hu. cbn in Hu.
      by apply mem_false in Hu.
Qed.

(** Every operation keeps a schema well formed. *)
Lemma apply_op_ok o s s' : schema_ok s → apply_op o s = Some s' → schema_ok s'.
Proof.
  intros Hs. destruct o as [e vs|e|e v|t cols|t|t n c|t n|n ix|n t|sql cols lits]; cbn [apply_op].
  - intros [= <-]. destruct (enums s !! e) eqn:E; [done|]. apply (schema_ok_grow s); cbn; try done; [|eauto].
    intros e' [x Hx]. destruct (decide (e = e')) as [->|]; [by rewrite lookup_insert_eq|by rewrite lookup_insert_ne].
  - destruct (enums s !! e); [|by intros [= <-]]. destruct (any_column _ _ _) eqn:E; [done|]. intros [= <-]. by apply drop_enum_ok.
  - destruct (enums s !! e) eqn:E; [|done]. cbn. intros [= <-]. destruct (mem v l); [done|].
    apply (schema_ok_grow s); cbn; try done; [|eauto]. intros e' [x Hx].
    destruct (decide (e = e')) as [->|]; [by rewrite lookup_insert_eq|by rewrite lookup_insert_ne].
  - destruct (tables s !! t) eqn:E; [done|]. destruct (_ && _ && _) eqn:Ec; [|done]. intros [= <-].
    apply create_table_ok; [done|done|]. apply andb_true_iff in Ec as [[_ Ec]%andb_true_iff _].
    rewrite all_true in Ec. by apply Forall_forall.
  - destruct (tables s !! t); [|done]. destruct (any_column _ _ _) eqn:E; [done|]. intros [= <-]. by apply drop_table_ok.
  - destruct (tables s !! t) as [cols|] eqn:E; [|done]. destruct (cols !! n) eqn:En; [done|].
    destruct (_ && _) eqn:Ec; [|done]. intros [= <-]. apply andb_true_iff in Ec as [Ec _]. by apply add_column_ok.
  - destruct (tables s !! t) as [cols|] eqn:E; [|done]. destruct (cols !! n); [|done].
    destruct (any_column _ _ _) eqn:Ea; [done|]. intros [= <-]. by apply drop_column_ok.
  - destruct (_ || _ || _ || _) eqn:Ec; [done|]. intros [= <-]. apply orb_false_iff in Ec as [Ec Et].
    apply orb_false_iff in Ec as [_ Ea]. apply negb_false_iff, bool_decide_eq_true in Et. apply negb_false_iff in Ea.
    rewrite all_true in Ea. destruct Hs as [C I]. split; [done|]. cbn. intros m jx [[<- <-]|[_ E]]%lookup_insert_Some; [done|].
    by apply (I m).
  - destruct (indexes s !! n) as [ix|]; [|done]. destruct (String.eqb _ _); [|done]. intros [= <-].
    destruct Hs as [C I]. split; [done|]. cbn. intros m jx [_ E]%lookup_delete_Some. by apply (I m).
  - destruct (_ && _); [|done]. by intros [= <-].
Qed.

Lemma run_ok ops s s' : schema_ok s → run ops s = Some s' → schema_ok s'.
Proof.
  revert s. induction ops as [|o ops IH]; intros s Hs; cbn; [by intros [= <-]|].
  destruct (apply_op o s) as [s1|] eqn:E; [|done]. cbn. apply IH. by eapply apply_op_ok.
Qed.

(** ** Undoing *)

(** The operation that takes back a creation. *)
Definition undo (o : Op) : option Op :=
  match o with
  | CreateTable t _ => Some (DropTable t)
  | AddColumn t n _ => Some (DropColumn t n)
  | CreateIndex n ix => Some (DropIndex n (ix_table ix))
  | Execute sql _ _ => Some (Execute sql [] [])
  | _ => None
  end.

Lemma filter_all {V} (P : string * V → Prop) `{∀ x, Decision (P x)} (m : gmap string V) :
  (∀ k v, m !! k = Some v → P (k, v)) → filter P m = m.
Proof. intros Hp. apply map_filter_id. auto. Qed.

Lemma schema_eta s : mkSchema (tables s) (indexes s) (enums s) = s.
Proof. by destruct s. Qed.

(** Nothing of a well-formed schema mentions a table or a column it does not have. *)
Lemma no_fk_to_unknown s t n c cols0 m :
  schema_ok s → tables s !! m = Some cols0 → cols0 !! n = Some c → tables s !! t = None → refers_to t c = false.
Proof.
  intros Hs E1 E2 Et. pose proof (so_columns _ Hs _ _ _ _ E1 E2) as Hc. apply andb_true_iff in Hc as [_ Hc].
  unfold refers_to. destruct (col_fk c) as [[[t' k] d]|]; [|done]. destruct (String.eqb_spec t' t) as [->|]; [|done].
  unfold known in Hc. by rewrite Et in Hc.
Qed.

Lemma undo_op o u s s' : schema_ok s → undo o = Some u → apply_op o s = Some s' → apply_op u s' = Some s.
Proof.
  intros Hs. destruct o as [e vs|e|e v|t cols|t|t n c|t n|n ix|n t|sql cols lits]; try done; intros [= <-]; cbn [apply_op].
  - destruct (tables s !! t) eqn:E; [done|]. destruct (_ && _ && _) eqn:Ec; [|done]. intros [= <-]. cbn.
    rewrite lookup_insert_eq.
    assert (any_column (refers_to t) (Some t) (with_tables s (<[t := table_of cols]> (tables s))) = false) as ->.
    { apply any_column_false. cbn. intros t' cols' n c E1 Hne E2. rewrite lookup_insert_ne in E1 by congruence.
      by eapply no_fk_to_unknown. }
    f_equal. rewrite delete_insert_id by done. unfold drop_indexes. cbn. rewrite filter_all; [apply schema_eta|].
    intros k ix Hk. cbn [snd]. apply String.eqb_neq. intros Eq. destruct (so_indexes _ Hs k ix Hk) as [[x Hx] _]. congruence.
  - destruct (tables s !! t) as [cols|] eqn:E; [|done]. destruct (cols !! n) eqn:En; [done|].
    destruct (_ && _) eqn:Ec; [|done]. intros [= <-]. cbn. rewrite lookup_insert_eq, lookup_insert_eq.
    apply andb_true_iff in Ec as [Ec _].
    assert (known s t n = false) as Hunk by (unfold known; rewrite E, En; done).
    assert (∀ c', column_ok s c' = true → refers_to_column t n c' = false) as Hfk.
    { intros c' [_ Hc]%andb_true_iff. unfold refers_to_column. destruct (col_fk c') as [[[t' k] d]|]; [|done].
      destruct (String.eqb_spec t' t) as [->|]; [|done]. destruct (String.eqb_spec k n) as [->|]; [|done]. congruence. }
    assert (any_column (refers_to_column t n) None (with_tables s (<[t := <[n := c]> cols]> (tables s))) = false) as ->.
    { apply any_column_false. cbn. intros t' cols' n' c' E1 _ E2. apply Hfk.
      apply lookup_insert_Some in E1 as [[<- <-]|[_ E1]]; [|by apply (so_columns _ Hs _ _ _ _ E1 E2)].
      apply lookup_insert_Some in E2 as [[_ <-]|[_ E2]]; [done|by apply (so_columns _ Hs _ _ _ _ E E2)]. }
    f_equal. rewrite delete_insert_id, insert_insert_eq, insert_id by done. unfold drop_indexes. cbn.
    rewrite filter_all; [apply schema_eta|]. intros k ix Hk. cbn [snd]. unfold uses. destruct (String.eqb (ix_table ix) t) eqn:Eq; [|done].
    apply String.eqb_eq in Eq. apply mem_false. intros Hin. destruct (so_indexes _ Hs k ix Hk) as [_ Hu]. specialize (Hu n Hin). congruence.
  - destruct (_ || _ || _ || _) eqn:Ec; [done|]. intros [= <-]. cbn. rewrite lookup_insert_eq, String.eqb_refl.
    apply orb_false_iff in Ec as [[[Ec _]%orb_false_iff _]%orb_false_iff _]. apply bool_decide_eq_false in Ec.
    f_equal. unfold with_indexes. cbn. rewrite delete_insert_id; [apply schema_eta|].
    destruct (indexes s !! n); [by destruct Ec; eexists|done].
  - destruct (_ && _); [|done]. by intros [= <-].
Qed.

(** Undoing a list of creations, last first. *)
Lemma undo_run ops us s s' :
  schema_ok s → mapM undo ops = Some us → run ops s = Some s' → run (rev us) s' = Some s.
Proof.
  revert us s. induction ops as [|o ops IH]; intros us s Hs; cbn.
  - intros [= <-] [= <-]. done.
  - destruct (undo o) as [u|] eqn:Eu; [|done]. cbn. destruct (mapM undo ops) as [us'|]; [|done]. cbn. intros [= <-].
    destruct (apply_op o s) as [s1|] eqn:Eo; [|done]. cbn. intros Hr.
    rewrite run_app, (IH us' s1); [|by eapply apply_op_ok|done|done]. cbn. by rewrite (undo_op o u s s1 Hs Eu Eo).
Qed.

(** ** Statements on the data, and operations that can be exchanged *)

(** A statement that names nothing. *)
Definition idle (o : Op) : bool := match o with Execute _ [] [] => true | _ => false end.

Lemma run_strip ops s : run (keep (λ o, negb (idle o)) ops) s = run ops s.
Proof.
  revert s. induction ops as [|o ops IH]; intros s; [done|]. destruct (idle o) eqn:Ei.
  - by destruct o as [| | | | | | | | |sql [|] [|]].
  - unfold keep. cbn [List.filter]. rewrite Ei. cbn [negb run]. destruct (apply_op o s); cbn; [apply IH|done].
Qed.

(** A column of a built-in type that references nothing. *)
Definition plain (c : Column) : bool :=
  match col_type c with TEnum _ => false | _ => bool_decide (col_fk c = None) end.

Lemma plain_ok s c : plain c = true → column_ok s c = true.
Proof. unfold plain, column_ok. destruct (col_type c); try done; intros ->%bool_decide_eq_true; done. Qed.

Definition add_columns (t : string) (cols : list (string * Column)) : list Op := map (λ nc, AddColumn t nc.1 nc.2) cols.

Lemma add_column_swap t a b s s' :
  plain a.2 = true → plain b.2 = true → run (add_columns t [a; b]) s = Some s' → run (add_columns t [b; a]) s = Some s'.
Proof.
  destruct a as [a ca], b as [b cb]. cbn. intros Ha Hb. destruct (tables s !! t) as [cols|] eqn:E; [|done].
  rewrite !plain_ok by done. cbn. destruct (cols !! a) eqn:Ea; [done|].
  destruct (col_nullable ca || _) eqn:Na; [|done]. cbn. rewrite lookup_insert_eq. destruct (decide (a = b)) as [->|Hne].
  { by rewrite lookup_insert_eq. }
  rewrite lookup_insert_ne by done. destruct (cols !! b) eqn:Eb; [done|]. rewrite plain_ok by done. cbn.
  destruct (col_nullable cb || _) eqn:Nb; [|done]. cbn. rewrite lookup_insert_eq, lookup_insert_ne, Ea by done.
  rewrite plain_ok by done. cbn. intros [= <-]. unfold with_tables. cbn. rewrite !insert_insert_eq. by rewrite insert_insert_ne.
Qed.

(** Plain columns can be added in any order. *)
Lemma add_columns_perm t cols cols' s s' :
  Permutation cols cols' → Forall (λ nc, plain nc.2 = true) cols →
  run (add_columns t cols) s = Some s' → run (add_columns t cols') s = Some s'.
Proof.
  intros Hp. revert s. induction Hp as [|x l l' Hp IH|x y l|l1 l2 l3 Hp IH Hp' IH']; intros s Hf.
  - done.
  - inversion Hf; subst. unfold add_columns. cbn [map run]. destruct (apply_op _ s); cbn; [by apply IH|done].
  - inversion Hf as [|? ? Hy Hf']; subst. inversion Hf' as [|? ? Hx Hl]; subst.
    change (add_columns t (y :: x :: l)) with (add_columns t [y; x] ++ add_columns t l).
    change (add_columns t (x :: y :: l)) with (add_columns t [x; y] ++ add_columns t l). rewrite !run_app.
    destruct (run (add_columns t [y; x]) s) as [s1|] eqn:E; [|done]. by rewrite (add_column_swap t y x s s1).
  - intros Hr. apply IH'; [|by apply IH]. by rewrite <- Hp.
Qed.

(** Adding a value to an enumerated type does not change what the other operations do. *)
Definition enum_free (o : Op) : bool :=
  match o with AddColumn _ _ c => plain c | CreateIndex _ _ | Execute _ _ [] => true | _ => false end.

Lemma enum_free_op o s s' E :
  enum_free o = true → apply_op o s = Some s' → apply_op o (with_enums s E) = Some (with_enums s' E).
Proof.
  destruct o as [| | | | |t n c| |n ix| |sql cols [|]]; try done; cbn [enum_free apply_op with_enums tables indexes].
  - intros Hp. rewrite !plain_ok by done. destruct (tables s !! t) as [cols|]; [|done]. destruct (cols !! n); [done|].
    destruct (_ && _); [|done]. by intros [= <-].
  - intros _. change (known (with_enums s E)) with (known s). destruct (_ || _ || _ || _); [done|]. by intros [= <-].
  - intros _. change (known (with_enums s E)) with (known s). destruct (all _ cols); [|done]. by intros [= <-].
Qed.

Lemma enum_free_run ops s s' E :
  all enum_free ops = true → run ops s = Some s' → run ops (with_enums s E) = Some (with_enums s' E) ∧ enums s' = enums s.
Proof.
  revert s. induction ops as [|o ops IH]; intros s; cbn [all run].
  - by intros _ [= <-].
  - intros [Ho Hr]%andb_true_iff. destruct (apply_op o s) as [s1|] eqn:E1; [|done]. cbn. intros Hrun.
    rewrite (enum_free_op o s s1 E Ho E1). cbn. destruct (IH s1 Hr Hrun) as [-> ->]. split; [done|].
    destruct o; try done; revert E1; cbn.
    + destruct (tables s !! table); [|done]. destruct (_ !! _); [done|]. destruct (_ && _); [|done]. by intros [= <-].
    + destruct (_ || _ || _ || _); [done|]. by intros [= <-].
    + destruct (_ && _); [|done]. by intros [= <-].
Qed.

(** A new enumerated type can be dropped again. *)
Lemma undo_create_enum s e vs s' :
  schema_ok s → enums s !! e = None → apply_op (CreateEnum e vs) s = Some s' → apply_op (DropEnum e) s' = Some s.
Proof.
  intros Hs E. cbn. rewrite E. intros [= <-]. cbn. rewrite lookup_insert_eq.
  assert (any_column (has_type e) None (with_enums s (<[e := vs]> (enums s))) = false) as ->.
  { apply any_column_false. cbn. intros t cols n c E1 _ E2. pose proof (so_columns _ Hs _ _ _ _ E1 E2) as Hc.
    apply andb_true_iff in Hc as [Hc _]. unfold has_type. destruct (col_type c); try done.
    destruct (String.eqb_spec name e) as [->|]; [|done]. by rewrite E in Hc. }
  f_equal. unfold with_enums. cbn. rewrite delete_insert_id by done. apply schema_eta.
Qed.

Lemma empty_schema_ok : schema_ok empty_schema.
Proof. split; cbn; intros ? ?; by rewrite ?lookup_empty. Qed.
