(* ===== verification/Migrations.v ===== *)
(** * The migrations and the schema the models declare

    The operations of [src/migrations/versions/0001 .. 0011], in the order they are written,
    and the tables, indexes and enumerated types of [src/app/models.py].  The UPDATE
    statements of 0003, 0006 and 0007 are [Execute] operations, with the columns and the
    enum literals they name; what they do to the rows is [update_data], over the row types of
    [Models].  The rows of [users] are there for the unique index on them. *)

From Stdlib Require Import ZArith.
From stdpp Require Import base strings option gmap list.
From S2P Require Import Prelude PyStr Sql Models Queue Auth Schema.

Local Open Scope string_scope.

(** ** Declarations the versions and the models share *)

Definition JOB_STATUSES_0001 : list string := ["queued"; "running"; "paused"; "done"; "failed"].
Definition JOB_STATUSES : list string := ["queued"; "running"; "paused"; "done"; "failed"; "cancelled"].
Definition DOMAIN_STAGES : list string := ["pending"; "dns"; "discovery"; "fetching"; "extracting"; "judging"; "done"].

Definition timestamp_now : Column := not_null (default_to "now()" (column TTimestamptz)).
Definition flag : Column := not_null (default_to "false" (column TBoolean)).
Definition zero : Column := not_null (default_to "0" (column TInteger)).
Definition required (ty : ColType) : Column := not_null (column ty).
Definition serial_id : Column := autoincrement (primary_key (column TBigInteger)).
Definition index (t : string) (keys : list string) : Index := mkIndex t keys false None keys.
Definition index_where (t : string) (keys : list string) (cond : string) (uses : list string) : Index :=
  mkIndex t keys false (Some cond) uses.

Record Migration := mkMigration {
  revision : string;
  down_revision : option string;
  upgrade : list Op;
  downgrade : list Op
}.

(** ** 0001 *)

Definition jobs_0001 : list (string * Column) := [
  ("id", primary_key (column TUuid));
  ("created_at", timestamp_now);
  ("finished_at", column TTimestamptz);
  ("status", default_to "queued" (required (TEnum "job_status")));
  ("total", zero); ("done_count", zero); ("failed_count", zero);
  ("webhook_url", column TText);
  ("filename", column TText);
  ("columns", column TJsonb);
  ("website_column", column TText);
  ("pause_reason", column TText)].

Definition job_items_0001 : list (string * Column) := [
  ("id", serial_id);
  ("job_id", references "jobs" "id" CASCADE (required TUuid));
  ("row_index", required TInteger);
  ("input_value", required TText);
  ("domain", column TText);
  ("status", column TText);
  ("reason", column TText);
  ("domain_source", column TText);
  ("raw_row", column TJsonb)].

Definition domains_0001 : list (string * Column) := [
  ("domain", primary_key (column TText));
  ("stage", default_to "pending" (required (TEnum "domain_stage")));
  ("status", column TText);
  ("result", column TJsonb);
  ("attempts", zero);
  ("updated_at", timestamp_now);
  ("finished_at", column TTimestamptz)].

Definition pages_0001 : list (string * Column) := [
  ("id", serial_id);
  ("domain", references "domains" "domain" CASCADE (required TText));
  ("url", required TText);
  ("http_status", required TInteger);
  ("bytes", zero);
  ("jina_tokens", column TInteger);
  ("score", zero);
  ("fetched_at", timestamp_now)].

Definition v0001 : Migration := {|
  revision := "0001"; down_revision := None;
  upgrade := [
    CreateEnum "job_status" JOB_STATUSES_0001;
    CreateEnum "domain_stage" DOMAIN_STAGES;
    CreateTable "jobs" jobs_0001;
    CreateTable "job_items" job_items_0001;
    CreateIndex "ix_job_items_job_id_row_index" (index "job_items" ["job_id"; "row_index"]);
    CreateTable "domains" domains_0001;
    CreateIndex "ix_domains_finished_at" (index "domains" ["finished_at"]);
    CreateTable "pages" pages_0001;
    CreateIndex "ix_pages_domain_fetched_at" (index "pages" ["domain"; "fetched_at"])];
  downgrade := [
    DropIndex "ix_pages_domain_fetched_at" "pages";
    DropTable "pages";
    DropIndex "ix_domains_finished_at" "domains";
    DropTable "domains";
    DropIndex "ix_job_items_job_id_row_index" "job_items";
    DropTable "job_items";
    DropTable "jobs";
    DropEnum "domain_stage";
    DropEnum "job_status"] |}.

(** ** 0002 *)

Definition users_0002 : list (string * Column) := [
  ("id", primary_key (column TUuid));
  ("name", unique (required TText));
  ("key_hash", unique (required TText));
  ("is_admin", flag);
  ("created_at", timestamp_now);
  ("revoked_at", column TTimestamptz)].

Definition job_domains_0002 : list (string * Column) := [
  ("job_id", primary_key (references "jobs" "id" CASCADE (column TUuid)));
  ("domain", primary_key (column TText));
  ("seq", required TInteger);
  ("state", default_to "queued" (required TText));
  ("attempts", zero);
  ("available_at", timestamp_now);
  ("claimed_by", column TText);
  ("heartbeat_at", column TTimestamptz);
  ("finished_at", column TTimestamptz);
  ("from_cache", flag);
  ("jina_tokens", zero)].

Definition v0002 : Migration := {|
  revision := "0002"; down_revision := Some "0001";
  upgrade := [
    CreateTable "users" users_0002;
    AddColumn "jobs" "owner_id" (references "users" "id" SET_NULL (column TUuid));
    AddColumn "jobs" "fresh" flag;
    CreateIndex "ix_jobs_owner_id_created_at" (index "jobs" ["owner_id"; "created_at"]);
    CreateTable "job_domains" job_domains_0002;
    CreateIndex "ix_job_domains_job_state_seq" (index "job_domains" ["job_id"; "state"; "seq"]);
    CreateIndex "ix_job_domains_running"
      (index_where "job_domains" ["claimed_by"] "state = 'running'" ["claimed_by"; "state"]);
    AddColumn "domains" "lock_owner" (column TText);
    AddColumn "domains" "lock_until" (column TTimestamptz)];
  downgrade := [
    DropColumn "domains" "lock_until";
    DropColumn "domains" "lock_owner";
    DropIndex "ix_job_domains_running" "job_domains";
    DropIndex "ix_job_domains_job_state_seq" "job_domains";
    DropTable "job_domains";
    DropIndex "ix_jobs_owner_id_created_at" "jobs";
    DropColumn "jobs" "fresh";
    DropColumn "jobs" "owner_id";
    DropTable "users"] |}.

(** ** 0003 to 0005 *)

(** The columns of a table that a statement names. *)
Definition columns_of (table : string) (names : list string) : list (string * string) := map (pair table) names.

Definition v0003 : Migration := {|
  revision := "0003"; down_revision := Some "0002";
  upgrade := [
    AddColumn "job_domains" "status" (column TText);
    AddColumn "job_domains" "result" (column TJsonb);
    Execute "snapshot" (columns_of "job_domains" ["status"; "result"; "domain"; "state"]
                        ++ columns_of "domains" ["status"; "result"; "domain"])%list [];
    CreateIndex "ix_job_items_job_id_domain" (index "job_items" ["job_id"; "domain"]);
    CreateIndex "ix_domains_lock_owner"
      (index_where "domains" ["lock_owner"] "lock_owner IS NOT NULL" ["lock_owner"]);
    AddEnumValue "job_status" "cancelled";
    Execute "orphans" (columns_of "jobs" ["status"; "pause_reason"; "id"] ++ columns_of "job_domains" ["job_id"]
                       ++ columns_of "job_items" ["job_id"; "domain"])%list
            (map (pair "job_status") ["failed"; "queued"; "running"; "paused"])];
  downgrade := [
    DropIndex "ix_domains_lock_owner" "domains";
    DropIndex "ix_job_items_job_id_domain" "job_items";
    DropColumn "job_domains" "result";
    DropColumn "job_domains" "status"] |}.

Definition v0004 : Migration := {|
  revision := "0004"; down_revision := Some "0003";
  upgrade := [AddColumn "users" "is_service" flag];
  downgrade := [DropColumn "users" "is_service"] |}.

Definition v0005 : Migration := {|
  revision := "0005"; down_revision := Some "0004";
  upgrade := [AddColumn "jobs" "paused_at" (column TTimestamptz)];
  downgrade := [DropColumn "jobs" "paused_at"] |}.

(** ** 0006 and 0007 *)

Definition FLAGS : list string := ["needs_review"; "typesafe_called"; "has_phone"; "has_form"; "has_linkedin"].

Definition v0006 : Migration := {|
  revision := "0006"; down_revision := Some "0005";
  upgrade := [
    CreateIndex "ix_job_domains_done_recent"
      (index_where "job_domains" ["job_id"; "finished_at DESC"] "state = 'done'" ["job_id"; "finished_at"; "state"]);
    AddColumn "job_domains" "needs_review" flag;
    AddColumn "job_domains" "typesafe_called" flag;
    AddColumn "job_domains" "has_phone" flag;
    AddColumn "job_domains" "has_form" flag;
    AddColumn "job_domains" "has_linkedin" flag;
    Execute "flags" (columns_of "job_domains" ("result" :: FLAGS)) [];
    AddColumn "jobs" "started_at" (column TTimestamptz);
    AddColumn "jobs" "paused_seconds" (default_to "0" (required TFloat));
    AddColumn "jobs" "idempotency_key" (column TText);
    CreateIndex "ux_jobs_owner_idempotency"
      (mkIndex "jobs" ["coalesce(owner_id::text, 'admin')"; "idempotency_key"] true
               (Some "idempotency_key IS NOT NULL") ["owner_id"; "idempotency_key"])];
  downgrade := [
    DropIndex "ux_jobs_owner_idempotency" "jobs";
    DropColumn "jobs" "idempotency_key";
    DropColumn "jobs" "paused_seconds";
    DropColumn "jobs" "started_at"]
    ++ map (DropColumn "job_domains") FLAGS
    ++ [DropIndex "ix_job_domains_done_recent" "job_domains"] |}.

Definition v0007 : Migration := {|
  revision := "0007"; down_revision := Some "0006";
  upgrade := [
    Execute "cached calls" (columns_of "job_domains" ["typesafe_called"; "from_cache"]) [];
    Execute "empty text" (columns_of "job_domains" ["has_form"; "has_linkedin"; "result"]) [];
    CreateIndex "ux_users_lower_name" (mkIndex "users" ["lower(name)"] true None ["name"]);
    AddColumn "jobs" "idempotency_fingerprint" (column TText);
    Execute "cancelled jobs" (columns_of "jobs" ["finished_at"; "paused_at"; "status"]) []];
  downgrade := [
    DropColumn "jobs" "idempotency_fingerprint";
    DropIndex "ux_users_lower_name" "users"] |}.

(** ** 0008 to 0011 *)

Definition provider_keys_0008 : list (string * Column) := [
  ("provider", primary_key (column TText));
  ("ciphertext", required TText);
  ("nonce", required TText);
  ("last4", required TText);
  ("updated_by", required TText);
  ("updated_at", timestamp_now)].

Definition v0008 : Migration := {|
  revision := "0008"; down_revision := Some "0007";
  upgrade := [CreateTable "provider_keys" provider_keys_0008];
  downgrade := [DropTable "provider_keys"] |}.

Definition provider_key_audit_0009 : list (string * Column) := [
  ("id", serial_id);
  ("provider", required TText);
  ("action", required TText);
  ("last4", column TText);
  ("actor", required TText);
  ("request_id", column TText);
  ("at", timestamp_now)].

Definition process_status_0009 : list (string * Column) := [
  ("name", primary_key (column TText));
  ("status", required TJsonb);
  ("updated_at", timestamp_now)].

Definition v0009 : Migration := {|
  revision := "0009"; down_revision := Some "0008";
  upgrade := [
    CreateTable "provider_key_audit" provider_key_audit_0009;
    CreateIndex "ix_provider_key_audit_at" (index "provider_key_audit" ["at"]);
    CreateTable "process_status" process_status_0009;
    CreateIndex "ix_job_domains_done_finished_at"
      (index_where "job_domains" ["finished_at"] "state = 'done'" ["finished_at"; "state"])];
  downgrade := [
    DropIndex "ix_job_domains_done_finished_at" "job_domains";
    DropTable "process_status";
    DropIndex "ix_provider_key_audit_at" "provider_key_audit";
    DropTable "provider_key_audit"] |}.

Definition v0010 : Migration := {|
  revision := "0010"; down_revision := Some "0009";
  upgrade := [
    CreateIndex "ix_jobs_active"
      (index_where "jobs" ["status"; "created_at"] "status IN ('queued', 'running', 'paused')" ["status"; "created_at"])];
  downgrade := [DropIndex "ix_jobs_active" "jobs"] |}.

Definition v0011 : Migration := {|
  revision := "0011"; down_revision := Some "0010";
  upgrade := [AddColumn "job_domains" "requeued_at" (column TTimestamptz)];
  downgrade := [DropColumn "job_domains" "requeued_at"] |}.

Definition versions : list Migration :=
  [v0001; v0002; v0003; v0004; v0005; v0006; v0007; v0008; v0009; v0010; v0011].

(** ** Following the chain *)

(** From a revision to a later one the upgrades in order, from a revision to an earlier one
    the downgrades, last first; a revision by its place in [versions]. *)
Definition upgrade_between (a b : nat) (s : Schema) : option Schema :=
  run (concat (map upgrade (take (b - a) (drop a versions)))) s.
Definition downgrade_between (b a : nat) (s : Schema) : option Schema :=
  run (concat (rev (map downgrade (take (b - a) (drop a versions))))) s.

(** The versions name each other in the order they are applied. *)
Fixpoint linked (prev : option string) (ms : list Migration) : bool :=
  match ms with
  | [] => true
  | m :: rest => bool_decide (down_revision m = prev) && linked (Some (revision m)) rest
  end.

(** ** The schema of the models *)

Definition User_columns : list (string * Column) := [
  ("id", primary_key (column TUuid));
  ("name", unique (required TText));
  ("key_hash", unique (required TText));
  ("is_admin", flag); ("is_service", flag);
  ("created_at", timestamp_now);
  ("revoked_at", column TTimestamptz)].

Definition Job_columns : list (string * Column) := [
  ("id", primary_key (column TUuid));
  ("created_at", timestamp_now);
  ("finished_at", column TTimestamptz);
  ("status", default_to "queued" (required (TEnum "job_status")));
  ("total", zero); ("done_count", zero); ("failed_count", zero);
  ("webhook_url", column TText);
  ("filename", column TText); ("columns", column TJsonb); ("website_column", column TText);
  ("pause_reason", column TText); ("paused_at", column TTimestamptz); ("started_at", column TTimestamptz);
  ("paused_seconds", default_to "0" (required TFloat));
  ("idempotency_key", column TText); ("idempotency_fingerprint", column TText);
  ("owner_id", references "users" "id" SET_NULL (column TUuid));
  ("fresh", flag)].

Definition JobDomain_columns : list (string * Column) := [
  ("job_id", primary_key (references "jobs" "id" CASCADE (column TUuid)));
  ("domain", primary_key (column TText));
  ("seq", required TInteger);
  ("state", default_to "queued" (required TText));
  ("attempts", zero);
  ("available_at", timestamp_now);
  ("claimed_by", column TText); ("heartbeat_at", column TTimestamptz); ("finished_at", column TTimestamptz);
  ("from_cache", flag);
  ("jina_tokens", zero);
  ("status", column TText); ("result", column TJsonb);
  ("needs_review", flag); ("typesafe_called", flag); ("has_phone", flag); ("has_form", flag); ("has_linkedin", flag);
  ("requeued_at", column TTimestamptz)].

Definition JobItem_columns : list (string * Column) := [
  ("id", serial_id);
  ("job_id", references "jobs" "id" CASCADE (required TUuid));
  ("row_index", required TInteger); ("input_value", required TText);
  ("domain", column TText);
  ("status", column TText); ("reason", column TText); ("domain_source", column TText);
  ("raw_row", column TJsonb)].

Definition Domain_columns : list (string * Column) := [
  ("domain", primary_key (column TText));
  ("stage", default_to "pending" (required (TEnum "domain_stage")));
  ("status", column TText); ("result", column TJsonb);
  ("attempts", zero);
  ("updated_at", timestamp_now); ("finished_at", column TTimestamptz);
  ("lock_owner", column TText); ("lock_until", column TTimestamptz)].

Definition Page_columns : list (string * Column) := [
  ("id", serial_id);
  ("domain", references "domains" "domain" CASCADE (required TText));
  ("url", required TText); ("http_status", required TInteger);
  ("bytes", zero); ("jina_tokens", column TInteger); ("score", zero);
  ("fetched_at", timestamp_now)].

Definition ProviderKey_columns : list (string * Column) := [
  ("provider", primary_key (column TText));
  ("ciphertext", required TText); ("nonce", required TText); ("last4", required TText);
  ("updated_by", required TText); ("updated_at", timestamp_now)].

Definition ProviderKeyAudit_columns : list (string * Column) := [
  ("id", serial_id);
  ("provider", required TText); ("action", required TText); ("last4", column TText);
  ("actor", required TText); ("request_id", column TText); ("at", timestamp_now)].

Definition ProcessStatus_columns : list (string * Column) := [
  ("name", primary_key (column TText)); ("status", required TJsonb); ("updated_at", timestamp_now)].

Definition User_indexes : list (string * Index) := [
  ("ux_users_lower_name", mkIndex "users" ["lower(name)"] true None ["name"])].
Definition Job_indexes : list (string * Index) := [
  ("ix_jobs_owner_id_created_at", index "jobs" ["owner_id"; "created_at"]);
  ("ix_jobs_active",
    index_where "jobs" ["status"; "created_at"] "status IN ('queued', 'running', 'paused')" ["status"; "created_at"]);
  ("ux_jobs_owner_idempotency",
    mkIndex "jobs" ["coalesce(owner_id::text, 'admin')"; "idempotency_key"] true
            (Some "idempotency_key IS NOT NULL") ["owner_id"; "idempotency_key"])].
Definition JobDomain_indexes : list (string * Index) := [
  ("ix_job_domains_job_state_seq", index "job_domains" ["job_id"; "state"; "seq"]);
  ("ix_job_domains_done_recent",
    index_where "job_domains" ["job_id"; "finished_at DESC"] "state = 'done'" ["job_id"; "finished_at"; "state"]);
  ("ix_job_domains_done_finished_at",
    index_where "job_domains" ["finished_at"] "state = 'done'" ["finished_at"; "state"]);
  ("ix_job_domains_running",
    index_where "job_domains" ["claimed_by"] "state = 'running'" ["claimed_by"; "state"])].
Definition JobItem_indexes : list (string * Index) := [
  ("ix_job_items_job_id_row_index", index "job_items" ["job_id"; "row_index"]);
  ("ix_job_items_job_id_domain", index "job_items" ["job_id"; "domain"])].
Definition Domain_indexes : list (string * Index) := [
  ("ix_domains_finished_at", index "domains" ["finished_at"]);
  ("ix_domains_lock_owner", index_where "domains" ["lock_owner"] "lock_owner IS NOT NULL" ["lock_owner"])].
Definition Page_indexes : list (string * Index) := [
  ("ix_pages_domain_fetched_at", index "pages" ["domain"; "fetched_at"])].
Definition ProviderKeyAudit_indexes : list (string * Index) := [
  ("ix_provider_key_audit_at", index "provider_key_audit" ["at"])].

Definition models_schema : Schema := {|
  tables := list_to_map [
    ("users", table_of User_columns); ("jobs", table_of Job_columns); ("job_domains", table_of JobDomain_columns);
    ("job_items", table_of JobItem_columns); ("domains", table_of Domain_columns); ("pages", table_of Page_columns);
    ("provider_keys", table_of ProviderKey_columns); ("provider_key_audit", table_of ProviderKeyAudit_columns);
    ("process_status", table_of ProcessStatus_columns)];
  indexes := list_to_map (User_indexes ++ Job_indexes ++ JobDomain_indexes ++ JobItem_indexes ++ Domain_indexes
                          ++ Page_indexes ++ ProviderKeyAudit_indexes)%list;
  enums := list_to_map [("job_status", JOB_STATUSES); ("domain_stage", DOMAIN_STAGES)] |}.

(** ** What the upgrades do to the rows *)

(** A result column as the statements read it: the texts under ['contact_form_url'] and
    ['socials'->'linkedin'], and the two casts and the array length of 0006, which PostgreSQL
    refuses on a document where they are no booleans or no array. *)
Record Reader := mkReader {
  rd_flags : Stored → option (option bool * option bool * nat);
  rd_form : Stored → option string;
  rd_linkedin : Stored → option string
}.

(** The dump of a result, and through [old] a document of another shape. *)
Definition reader (old : Reader) : Reader := {|
  rd_flags d := match d with
    | Dump r => Some (Some (r_needs_review r), Some (r_typesafe_called r), length (r_phones r))
    | _ => rd_flags old d end;
  rd_form d := match d with Dump r => r_contact_form_url r | _ => rd_form old d end;
  rd_linkedin d := match d with Dump r => dict_get (r_socials r) "linkedin" | _ => rd_linkedin old d end |}.

Definition set_snapshot (status : option Status) (result : option Stored) (r : JobDomain) : JobDomain :=
  mkJobDomain (jd_job_id r) (jd_domain r) (jd_seq r) (jd_state r) (jd_attempts r) (jd_available_at r) (jd_claimed_by r)
    (jd_heartbeat_at r) (jd_finished_at r) (jd_from_cache r) (jd_jina_tokens r) status result (jd_needs_review r)
    (jd_typesafe_called r) (jd_has_phone r) (jd_has_form r) (jd_has_linkedin r) (jd_requeued_at r).
Definition set_flags (review called phone form linkedin : bool) (r : JobDomain) : JobDomain :=
  mkJobDomain (jd_job_id r) (jd_domain r) (jd_seq r) (jd_state r) (jd_attempts r) (jd_available_at r) (jd_claimed_by r)
    (jd_heartbeat_at r) (jd_finished_at r) (jd_from_cache r) (jd_jina_tokens r) (jd_status r) (jd_result r) review
    called phone form linkedin (jd_requeued_at r).
Definition set_requeued_at (t : option instant) (r : JobDomain) : JobDomain :=
  mkJobDomain (jd_job_id r) (jd_domain r) (jd_seq r) (jd_state r) (jd_attempts r) (jd_available_at r) (jd_claimed_by r)
    (jd_heartbeat_at r) (jd_finished_at r) (jd_from_cache r) (jd_jina_tokens r) (jd_status r) (jd_result r)
    (jd_needs_review r) (jd_typesafe_called r) (jd_has_phone r) (jd_has_form r) (jd_has_linkedin r) t.

Definition on_rows (f : JobDomain → JobDomain) (db : DB) : DB := with_job_domains db (map f (job_domains db)).
Definition on_jobs (f : Job → Job) (db : DB) : DB := with_jobs db (map f (jobs db)).

(** 0003: [UPDATE job_domains jd SET status = d.status, result = d.result FROM domains d]. *)
Definition snapshot_row (ds : list Domain) (r : JobDomain) : JobDomain :=
  match head (keep (λ d, String.eqb (d_domain d) (jd_domain r)) ds) with
  | Some d => if state_is st_done r then set_snapshot (d_status d) (d_result d) r else r
  | None => r
  end.

(** 0003: jobs from before the queue have no queue rows and could never complete. *)
Definition orphaned (db : DB) (j : Job) : bool :=
  mem (j_status j) [job_queued; job_running; job_paused]
  && negb (any (of_job (j_id j)) (job_domains db))
  && any (λ i, bool_decide (ji_job_id i = j_id j) && negb (is_null (ji_domain i))) (job_items db).
Definition fail_orphan (j : Job) : Job :=
  set_job j job_failed (j_finished_at j) (j_done_count j) (Some "orphaned_by_queue_migration") (j_paused_at j)
          (j_started_at j) (j_paused_seconds j).

(** 0006: the flags out of the result; 0007: the corrections. *)
Definition flags_0006 (rd : Reader) (r : JobDomain) : option JobDomain :=
  match jd_result r with
  | None => Some r
  | Some d =>
      '(review, called, phones) ← rd_flags rd d;
      Some (set_flags (coalesce review false) (coalesce called false) (Nat.ltb 0 phones)
                      (negb (is_null (rd_form rd d))) (negb (is_null (rd_linkedin rd d))) r)
  end.
Definition cached_calls (r : JobDomain) : JobDomain :=
  if jd_from_cache r && jd_typesafe_called r
  then set_flags (jd_needs_review r) false (jd_has_phone r) (jd_has_form r) (jd_has_linkedin r) r else r.
Definition nullif (c : option string) (v : string) : option string := if bool_decide (c = Some v) then None else c.
Definition empty_text (rd : Reader) (r : JobDomain) : JobDomain :=
  match jd_result r with
  | None => r
  | Some d => set_flags (jd_needs_review r) (jd_typesafe_called r) (jd_has_phone r)
                        (negb (is_null (nullif (rd_form rd d) ""))) (negb (is_null (nullif (rd_linkedin rd d) ""))) r
  end.
Definition finish_cancelled (now : instant) (j : Job) : Job :=
  if bool_decide (j_status j = job_cancelled) && is_null (j_finished_at j)
  then set_job j (j_status j) (Some (coalesce (j_paused_at j) now)) (j_done_count j) (j_pause_reason j) (j_paused_at j)
               (j_started_at j) (j_paused_seconds j)
  else j.

(** The UPDATE statements by the names the versions above give them. *)
Definition update_data (old : Reader) (now : instant) (sql : string) (db : DB) : option DB :=
  if String.eqb sql "snapshot" then Some (on_rows (snapshot_row (domains db)) db)
  else if String.eqb sql "orphans" then Some (with_jobs db (update_where (orphaned db) fail_orphan (jobs db)))
  else if String.eqb sql "flags" then with_job_domains db <$> mapM (flags_0006 (reader old)) (job_domains db)
  else if String.eqb sql "cached calls" then Some (on_rows cached_calls db)
  else if String.eqb sql "empty text" then Some (on_rows (empty_text (reader old)) db)
  else if String.eqb sql "cancelled jobs" then Some (on_jobs (finish_cancelled now) db)
  else None.

(** A new column holds its default, or NULL, in every row. *)
Definition fill_row (name : string) (r : JobDomain) : JobDomain :=
  if String.eqb name "status" then set_snapshot None (jd_result r) r
  else if String.eqb name "result" then set_snapshot (jd_status r) None r
  else if String.eqb name "requeued_at" then set_requeued_at None r
  else if String.eqb name "needs_review" then
    set_flags false (jd_typesafe_called r) (jd_has_phone r) (jd_has_form r) (jd_has_linkedin r) r
  else if String.eqb name "typesafe_called" then
    set_flags (jd_needs_review r) false (jd_has_phone r) (jd_has_form r) (jd_has_linkedin r) r
  else if String.eqb name "has_phone" then
    set_flags (jd_needs_review r) (jd_typesafe_called r) false (jd_has_form r) (jd_has_linkedin r) r
  else if String.eqb name "has_form" then
    set_flags (jd_needs_review r) (jd_typesafe_called r) (jd_has_phone r) false (jd_has_linkedin r) r
  else if String.eqb name "has_linkedin" then
    set_flags (jd_needs_review r) (jd_typesafe_called r) (jd_has_phone r) (jd_has_form r) false r
  else r.

Definition fill_job (name : string) (j : Job) : Job :=
  let set paused_at started_at paused_seconds key fingerprint :=
    mkJob (j_id j) (j_created_at j) (j_finished_at j) (j_status j) (j_total j) (j_done_count j) (j_webhook_url j)
      (j_filename j) (j_columns j) (j_website_column j) (j_pause_reason j) paused_at started_at paused_seconds
      key fingerprint (j_owner_id j) (j_fresh j) in
  if String.eqb name "paused_at" then
    set None (j_started_at j) (j_paused_seconds j) (j_idempotency_key j) (j_idempotency_fingerprint j)
  else if String.eqb name "started_at" then
    set (j_paused_at j) None (j_paused_seconds j) (j_idempotency_key j) (j_idempotency_fingerprint j)
  else if String.eqb name "paused_seconds" then
    set (j_paused_at j) (j_started_at j) 0%Z (j_idempotency_key j) (j_idempotency_fingerprint j)
  else if String.eqb name "idempotency_key" then
    set (j_paused_at j) (j_started_at j) (j_paused_seconds j) None (j_idempotency_fingerprint j)
  else if String.eqb name "idempotency_fingerprint" then
    set (j_paused_at j) (j_started_at j) (j_paused_seconds j) (j_idempotency_key j) None
  else j.

Definition fill_column (table name : string) (db : DB) : DB :=
  if String.eqb table "job_domains" then on_rows (fill_row name) db
  else if String.eqb table "jobs" then on_jobs (fill_job name) db
  else db.

(** The rows of the tables that the versions after 0002 touch. *)
Record Data := mkData { dt_db : DB; dt_users : list User }.

Definition fill_user (name : string) (u : User) : User :=
  if String.eqb name "is_service"
  then mkUser (us_id u) (us_name u) (us_key_hash u) (us_is_admin u) false (us_created_at u) (us_revoked_at u)
  else u.

(** The keys of the rows under a unique index, where its condition holds. *)
Definition user_keys (us : list User) : list string := map (λ u, lower (us_name u)) us.
Definition idempotency_keys (js : list Job) : list (option uuid * string) :=
  omap (λ j, pair (j_owner_id j) <$> j_idempotency_key j) js.

(** PostgreSQL builds a unique index only over keys that differ. *)
Definition index_fits (name : string) (ix : Index) (d : Data) : bool :=
  negb (ix_unique ix)
  || if String.eqb name "ux_users_lower_name" then bool_decide (NoDup (user_keys (dt_users d)))
     else if String.eqb name "ux_jobs_owner_idempotency" then bool_decide (NoDup (idempotency_keys (jobs (dt_db d))))
     else false.

(** The rows through the operations of an upgrade from 0002 on. *)
Definition migrate_op (old : Reader) (now : instant) (o : Op) (d : Data) : option Data :=
  match o with
  | AddColumn t n _ =>
      Some (mkData (fill_column t n (dt_db d)) (if String.eqb t "users" then map (fill_user n) (dt_users d) else dt_users d))
  | Execute sql _ _ => (λ db, mkData db (dt_users d)) <$> update_data old now sql (dt_db d)
  | CreateIndex n ix => if index_fits n ix d then Some d else None
  | _ => Some d
  end.
Fixpoint migrate (old : Reader) (now : instant) (ops : list Op) (d : Data) : option Data :=
  match ops with [] => Some d | o :: rest => d' ← migrate_op old now o d; migrate old now rest d' end.
