(* ===== verification/MigrationProps.v ===== *)
(** * What the migrations do

    The chain of upgrades builds the schema the models declare; the downgrades undo the
    upgrades; and the rows of an older database come out as the running code writes them. *)

From Stdlib Require Import ZArith Lia Permutation.
From stdpp Require Import base strings option gmap list.
From S2P Require Import Prelude PyStr Sql Models Queue Auth Schema Migrations.

Local Open Scope string_scope.

(** ** The chain *)

(** C36: upgrading an empty database applies every operation of the eleven versions without
    an error and gives exactly the tables, columns, indexes and enumerated types the models
    declare; going back from there to any version and up again gives the same schema, and
    going back all the way leaves an empty database. *)
Theorem migrations_build_models :
  linked None versions = true ∧
  upgrade_between 0 11 empty_schema = Some models_schema ∧
  downgrade_between 11 0 models_schema = Some empty_schema ∧
  ∀ k, downgrade_between 11 k models_schema ≫= upgrade_between k 11 = Some models_schema.
Proof.
  split; [by vm_compute|]. split; [by apply (bool_decide_unpack _); vm_compute|].
  split; [by apply (bool_decide_unpack _); vm_compute|]. intros k.
  destruct (decide (k < 11)) as [Hk|Hk];
    [|unfold downgrade_between, upgrade_between; by replace (11 - k) with 0 by lia].
  assert (all (λ k, bool_decide (downgrade_between 11 k models_schema ≫= upgrade_between k 11 = Some models_schema))
              (seq 0 11) = true) as Hall by by vm_compute.
  rewrite all_true in Hall. apply (bool_decide_eq_true_1 _). apply Hall, elem_of_seq. lia.
Qed.

(** ** Undoing one version *)

(** A version whose downgrade takes its creations back, last first. *)
Lemma undoes m us s s' :
  mapM undo (upgrade m) = Some us →
  keep (λ o, negb (idle o)) (rev us) = downgrade m →
  schema_ok s → run (upgrade m) s = Some s' → run (downgrade m) s' = Some s.
Proof. intros Hu <- Hs Hr. rewrite run_strip. by eapply undo_run. Qed.

Lemma v0001_undone s s' :
  schema_ok s → enums s !! "job_status" = None → enums s !! "domain_stage" = None →
  run (upgrade v0001) s = Some s' → run (downgrade v0001) s' = Some s.
Proof.
  intros Hs E1 E2. change (upgrade v0001) with (take 2 (upgrade v0001) ++ drop 2 (upgrade v0001))%list.
  rewrite run_app. destruct (run (take 2 _) s) as [s2|] eqn:E; [|done]. cbn [mbind option_bind]. intros Hr.
  change (downgrade v0001) with (take 7 (downgrade v0001) ++ drop 7 (downgrade v0001))%list.
  assert (schema_ok s2) as Hs2 by by eapply run_ok.
  rewrite run_app. erewrite (undoes (mkMigration "" None (drop 2 (upgrade v0001)) (take 7 (downgrade v0001))));
    [|reflexivity|reflexivity|exact Hs2|exact Hr]. revert E. cbn [take upgrade v0001 run].
  destruct (apply_op (CreateEnum "job_status" _) s) as [s1|] eqn:F1; [|done]. cbn [mbind option_bind].
  destruct (apply_op (CreateEnum "domain_stage" _) s1) as [s2'|] eqn:F2; [|done]. cbn [mbind option_bind]. intros [= ->].
  change (drop 7 (downgrade v0001)) with [DropEnum "domain_stage"; DropEnum "job_status"]. cbn [run].
  assert (enums s1 !! "domain_stage" = None) as E3.
  { revert F1. cbn. rewrite E1. intros [= <-]. cbn. by rewrite lookup_insert_ne. }
  rewrite (undo_create_enum s1 _ _ _ (apply_op_ok _ _ _ Hs F1) E3 F2). cbn [mbind option_bind].
  by rewrite (undo_create_enum s _ _ _ Hs E1 F1).
Qed.

(** 0003 leaves the new enum value behind. *)
Lemma v0003_undone s s' :
  schema_ok s → run (upgrade v0003) s = Some s' → run (downgrade v0003) s' = Some (with_enums s (enums s')).
Proof.
  intros Hs. change (upgrade v0003) with (take 5 (upgrade v0003) ++ drop 5 (upgrade v0003))%list.
  rewrite run_app. destruct (run (take 5 _) s) as [s1|] eqn:E; [|done]. cbn [mbind option_bind].
  destruct (drop 5 (upgrade v0003)) as [|o1 [|o2 [|]]] eqn:Ed; try discriminate Ed. injection Ed as <- <-. cbn [run].
  destruct (apply_op (AddEnumValue _ _) s1) as [s2|] eqn:Ev; [|done]. cbn [mbind option_bind apply_op].
  destruct (_ && _); [|done]. intros [= ->].
  destruct (enum_free_run (take 5 (upgrade v0003)) _ _ (enums s') eq_refl E) as [E' En].
  assert (s' = with_enums s1 (enums s')) as Es'.
  { revert Ev. cbn. destruct (enums s1 !! _); [|done]. cbn. intros [= <-]. destruct (mem _ _); [symmetry; apply schema_eta|done]. }
  assert (apply_op (AddEnumValue "job_status" "cancelled") s = Some (with_enums s (enums s'))) as Ev0.
  { revert Ev. cbn. rewrite En. destruct (enums s !! _); [|done]. cbn. intros [= <-]. f_equal.
    destruct (mem _ _); [|done]. rewrite En. symmetry. apply schema_eta. }
  eapply (undoes (mkMigration "" None (take 5 (upgrade v0003)) (downgrade v0003))); [reflexivity|reflexivity| |].
  - by eapply apply_op_ok.
  - cbn [upgrade]. by rewrite Es' at 2.
Qed.

(** 0006 drops the flags in the order it added them. *)
Lemma v0006_undone s s' :
  schema_ok s → run (upgrade v0006) s = Some s' → run (downgrade v0006) s' = Some s.
Proof.
  set (flags := map (λ n, (n, flag)) FLAGS).
  change (upgrade v0006) with (take 1 (upgrade v0006) ++ add_columns "job_domains" flags ++ drop 6 (upgrade v0006))%list.
  intros Hs Hr.
  apply (undoes (mkMigration "" None (take 1 (upgrade v0006) ++ add_columns "job_domains" (rev flags) ++ drop 6 (upgrade v0006))%list
                             (downgrade v0006)) _ _ _ eq_refl eq_refl Hs). cbn [upgrade].
  revert Hr. rewrite !run_app. destruct (run (take 1 _) s) as [s1|]; [|done]. cbn [mbind option_bind].
  rewrite !run_app. destruct (run (add_columns _ flags) s1) as [s2|] eqn:E; [|done]. cbn [mbind option_bind].
  rewrite (add_columns_perm _ flags (rev flags) s1 s2); [done|apply Permutation_rev| |done]. by repeat constructor.
Qed.

(** What a downgrade cannot take back: a value of an enumerated type. *)
Definition left_behind (m : Migration) (s s' : Schema) : gmap string (list string) :=
  if String.eqb (revision m) "0003" then enums s' else enums s.

(** C37: undoing a version: on any well-formed schema on which a version's upgrade succeeds,
    its downgrade succeeds and gives back the schema before, index for index and column for
    column; 0003 leaves the enum value it added, and 0001 is undone when the two types it
    creates were not there. *)
Theorem downgrade_restores m s s' :
  m ∈ versions → schema_ok s →
  (revision m = "0001" → enums s !! "job_status" = None ∧ enums s !! "domain_stage" = None) →
  run (upgrade m) s = Some s' → run (downgrade m) s' = Some (with_enums s (left_behind m s s')).
Proof.
  intros Hm Hs H1 Hr. unfold left_behind. destruct (String.eqb_spec (revision m) "0003") as [E3|E3].
  { unfold versions in Hm. repeat (apply elem_of_cons in Hm as [->|Hm]; [discriminate E3 || by apply v0003_undone|]).
    by apply elem_of_nil in Hm. }
  assert (with_enums s (enums s) = s) as -> by apply schema_eta.
  unfold versions in Hm. apply elem_of_cons in Hm as [->|Hm]; [by apply v0001_undone; try apply H1|].
  repeat (apply elem_of_cons in Hm as [->|Hm]; [first [by destruct E3 | by apply v0006_undone | by eapply undoes]|]).
  by apply elem_of_nil in Hm.
Qed.

Lemma downgrade_restores_witness :
  let s := with_tables empty_schema (<["users" := table_of users_0002]> ∅) in
  let s' := with_tables empty_schema (<["users" := <["is_service" := flag]> (table_of users_0002)]> ∅) in
  run (downgrade v0004) s' = Some (with_enums s (left_behind v0004 s s')).
Proof.
  intros s s'. apply downgrade_restores.
  - unfold versions. do 3 (apply elem_of_cons; right). apply elem_of_cons. by left.
  - apply (run_ok [CreateTable "users" users_0002] empty_schema); [apply empty_schema_ok|reflexivity].
  - done.
  - apply (bool_decide_unpack _). by vm_compute.
Defined.

(** ** The rows *)

Section Rows.
Variables (old : Reader) (now : instant).

(** The tables other than [users]. *)
Definition db_op (o : Op) (db : DB) : option DB :=
  match o with
  | AddColumn t n _ => Some (fill_column t n db)
  | Execute sql _ _ => update_data old now sql db
  | _ => Some db
  end.
Fixpoint db_ops (ops : list Op) (db : DB) : option DB :=
  match ops with [] => Some db | o :: rest => db' ← db_op o db; db_ops rest db' end.

(** The upgrade of one row and of one job. *)
Definition row_op (ds : list Domain) (o : Op) (r : JobDomain) : option JobDomain :=
  match o with
  | AddColumn t n _ => Some (if String.eqb t "job_domains" then fill_row n r else r)
  | Execute sql _ _ =>
      if String.eqb sql "snapshot" then Some (snapshot_row ds r)
      else if String.eqb sql "flags" then flags_0006 (reader old) r
      else if String.eqb sql "cached calls" then Some (cached_calls r)
      else if String.eqb sql "empty text" then Some (empty_text (reader old) r)
      else Some r
  | _ => Some r
  end.
Definition job_op (db : DB) (o : Op) (j : Job) : Job :=
  match o with
  | AddColumn t n _ => if String.eqb t "jobs" then fill_job n j else j
  | Execute sql _ _ =>
      if String.eqb sql "orphans" then (if orphaned db j then fail_orphan j else j)
      else if String.eqb sql "cancelled jobs" then finish_cancelled now j else j
  | _ => j
  end.
Fixpoint row_ops (ds : list Domain) (ops : list Op) (r : JobDomain) : option JobDomain :=
  match ops with [] => Some r | o :: rest => r' ← row_op ds o r; row_ops ds rest r' end.
Definition job_ops (db : DB) (ops : list Op) (j : Job) : Job := fold_left (λ j o, job_op db o j) ops j.

Definition known_sql (o : Op) : bool :=
  match o with
  | Execute sql _ _ => mem sql ["snapshot"; "orphans"; "flags"; "cached calls"; "empty text"; "cancelled jobs"]
  | _ => true
  end.

Lemma mapM_total {A B} (f : A → option B) (g : A → B) (l : list A) :
  (∀ x, f x = Some (g x)) → mapM f l = Some (map g l).
Proof. intros Hf. induction l as [|x l IH]; cbn; [done|]. by rewrite Hf, IH. Qed.

Lemma map_same {A} (f : A → A) (l : list A) : (∀ x, f x = x) → map f l = l.
Proof. intros Hf. induction l as [|x l IH]; cbn; [done|]. by rewrite Hf, IH. Qed.

Lemma mapM_same {A} (f : A → option A) (l : list A) : (∀ x, f x = Some x) → mapM f l = Some l.
Proof. intros Hf. rewrite (mapM_total f id l Hf). by rewrite map_same. Qed.

Lemma mapM_compose {A B C} (f : A → option B) (g : B → option C) (l : list A) :
  mapM (λ x, y ← f x; g y) l = ys ← mapM f l; mapM g ys.
Proof.
  induction l as [|x l IH]; cbn; [done|]. rewrite IH. destruct (f x) as [y|]; cbn; [|done].
  destruct (mapM f l) as [ys|]; cbn; [done|]. by destruct (g y).
Qed.

Lemma mapM_same_job f (l l' : list JobDomain) :
  (∀ r r', f r = Some r' → jd_job_id r' = jd_job_id r) → mapM f l = Some l' → map jd_job_id l' = map jd_job_id l.
Proof.
  intros Hf. revert l'. induction l as [|r l IH]; cbn; intros l'; [by intros [= <-]|].
  destruct (f r) as [r'|] eqn:E; [|done]. cbn. destruct (mapM f l) as [l1|]; [|done]. cbn. intros [= <-]. cbn.
  by rewrite (Hf r r' E), (IH l1).
Qed.

Lemma row_op_job ds o r r' : row_op ds o r = Some r' → jd_job_id r' = jd_job_id r.
Proof.
  destruct o; cbn; try (by intros [= <-]).
  - intros [= <-]. unfold fill_row. repeat case_match; done.
  - repeat case_match; try (intros [= <-]); try done.
    + unfold snapshot_row. repeat case_match; done.
    + unfold flags_0006. destruct (jd_result r); [|by intros [= <-]]. destruct (rd_flags _ _) as [[[]]|]; [|done]. by intros [= <-].
    + unfold cached_calls. by case_match.
    + unfold empty_text. by case_match.
Qed.

Lemma db_op_split o db :
  known_sql o = true →
  db_op o db =
  (λ rows, mkDB (map (job_op db o) (jobs db)) rows (job_items db) (domains db)) <$> mapM (row_op (domains db) o) (job_domains db).
Proof.
  destruct db as [js rows items ds]. destruct o; cbn [known_sql db_op jobs job_domains job_items domains]; intros Hk.
  1-5,7-9: by rewrite mapM_same, map_same.
  - unfold fill_column. destruct (String.eqb_spec table "job_domains") as [->|Hne].
    { by rewrite (mapM_total _ (fill_row name)), map_same. }
    apply String.eqb_neq in Hne. rewrite mapM_same by (intros r; cbn; by rewrite Hne).
    destruct (String.eqb table "jobs") eqn:Ej; cbn; unfold job_op; rewrite Ej; [done|]. by rewrite map_same.
  - unfold update_data. apply mem_true in Hk.
    destruct (String.eqb_spec sql "snapshot") as [->|]; [by rewrite (mapM_total _ (snapshot_row ds)), map_same|].
    destruct (String.eqb_spec sql "orphans") as [->|]; [by rewrite mapM_same|].
    destruct (String.eqb_spec sql "flags") as [->|]; [by rewrite map_same|].
    destruct (String.eqb_spec sql "cached calls") as [->|]; [by rewrite (mapM_total _ cached_calls), map_same|].
    destruct (String.eqb_spec sql "empty text") as [->|]; [by rewrite (mapM_total _ (empty_text (reader old))), map_same|].
    destruct (String.eqb_spec sql "cancelled jobs") as [->|]; [by rewrite mapM_same|]. exfalso.
    set_unfold in Hk. tauto.
Qed.

Lemma orphaned_rows js js' rows rows' items ds j :
  map jd_job_id rows = map jd_job_id rows' → orphaned (mkDB js rows items ds) j = orphaned (mkDB js' rows' items ds) j.
Proof.
  intros E. unfold orphaned. cbn. do 3 f_equal. revert rows' E.
  induction rows as [|r rows IH]; intros [|r' rows']; try done. cbn. intros [= E1 E2]. f_equal; [|by apply IH].
  unfold of_job. by rewrite E1.
Qed.

(** The rows and the jobs go through an upgrade one by one. *)
Lemma db_ops_split ops db :
  all known_sql ops = true →
  db_ops ops db =
  (λ rows, mkDB (map (job_ops db ops) (jobs db)) rows (job_items db) (domains db)) <$> mapM (row_ops (domains db) ops) (job_domains db).
Proof.
  revert db. induction ops as [|o ops IH]; intros db; cbn [all db_ops row_ops].
  { rewrite mapM_same by done. intros _. cbn. rewrite map_same by done. by destruct db. }
  intros [Ho Hops]%andb_true_iff. rewrite db_op_split, mapM_compose by done.
  destruct (mapM (row_op (domains db) o) (job_domains db)) as [rows|] eqn:E; [|done]. cbn. rewrite IH by done. cbn.
  destruct (mapM _ rows); [|done]. cbn. do 2 f_equal. rewrite map_map. apply map_ext. intros j.
  unfold job_ops. cbn. assert (∀ x ops', fold_left (λ j o, job_op (mkDB (map (job_op db o) (jobs db)) rows (job_items db) (domains db)) o j) ops' x
    = fold_left (λ j o, job_op db o j) ops' x) as Hf; [|apply Hf].
  intros x ops'. revert x. induction ops' as [|o' ops' IH']; intros x; cbn; [done|]. rewrite IH'. f_equal.
  destruct o'; cbn; try done. destruct db. erewrite orphaned_rows; [done|]. cbn. eapply mapM_same_job; [|exact E].
  apply row_op_job.
Qed.

(** ** The unique indexes *)

Definition user_op (o : Op) (us : list User) : list User :=
  match o with AddColumn t n _ => if String.eqb t "users" then map (fill_user n) us else us | _ => us end.
Definition user_ops (ops : list Op) (us : list User) : list User := fold_left (λ us o, user_op o us) ops us.

Lemma user_op_keys o us : user_keys (user_op o us) = user_keys us.
Proof.
  destruct o; try done. cbn. destruct (String.eqb table "users"); [|done]. unfold user_keys. rewrite map_map.
  apply map_ext. intros u. unfold fill_user. by destruct (String.eqb name _).
Qed.

Definition keyless (js : list Job) : Prop := Forall (λ j, j_idempotency_key j = None) js.

Lemma keyless_fits js : keyless js → idempotency_keys js = [].
Proof. induction 1 as [|j js E _ IH]; [done|]. unfold idempotency_keys in *. cbn. by rewrite E. Qed.

Lemma job_op_key db o j : j_idempotency_key j = None → j_idempotency_key (job_op db o j) = None.
Proof.
  intros E. destruct o as [| | | | |t n c| | | |sql cols lits]; try done; cbn.
  - destruct (String.eqb t "jobs"); [|done]. unfold fill_job. repeat case_match; done.
  - repeat case_match; try done. unfold finish_cancelled. by case_match.
Qed.

Lemma db_op_keyless o db db' : known_sql o = true → db_op o db = Some db' → keyless (jobs db) → keyless (jobs db').
Proof.
  intros Hk. rewrite db_op_split by done. intros (rows & _ & ->)%fmap_Some Hj. cbn. apply Forall_map.
  eapply Forall_impl; [exact Hj|]. intros j. apply job_op_key.
Qed.

Definition adds_key (o : Op) : bool :=
  match o with AddColumn t n _ => String.eqb t "jobs" && String.eqb n "idempotency_key" | _ => false end.

Lemma adds_key_keyless o db db' : adds_key o = true → db_op o db = Some db' → keyless (jobs db').
Proof.
  destruct o; try done. cbn [adds_key db_op]. intros [->%String.eqb_eq ->%String.eqb_eq]%andb_true_iff [= <-].
  cbn. apply Forall_map, Forall_true. done.
Qed.

(** The unique indexes of the versions: the one on jobs is built where no job has a key. *)
Fixpoint indexed (clear : bool) (ops : list Op) : bool :=
  match ops with
  | [] => true
  | CreateIndex n ix :: rest =>
      (negb (ix_unique ix) || String.eqb n "ux_users_lower_name" || (String.eqb n "ux_jobs_owner_idempotency" && clear))
      && indexed clear rest
  | o :: rest => indexed (clear || adds_key o) rest
  end.
Definition on_names (o : Op) : bool :=
  match o with CreateIndex n ix => ix_unique ix && String.eqb n "ux_users_lower_name" | _ => false end.

(** The upgrade of all tables: that of each, unless two names have one lower case. *)
Lemma migrate_tables ops clear db us :
  all known_sql ops = true → indexed clear ops = true → (clear = true → keyless (jobs db)) →
  migrate old now ops (mkData db us) =
  if negb (any on_names ops) || bool_decide (NoDup (user_keys us))
  then (λ db', mkData db' (user_ops ops us)) <$> db_ops ops db else None.
Proof.
  revert clear db us. induction ops as [|o ops IH]; intros clear db us Hk Hi Hc; [done|].
  cbn [all] in Hk. apply andb_true_iff in Hk as [Ho Hk]. cbn [migrate db_ops any existsb].
  assert (∀ db', db_op o db = Some db' → (clear || adds_key o) = true → keyless (jobs db')) as Hc'.
  { intros db' E [Hcl|Ha]%orb_true_iff; [by eapply db_op_keyless; eauto|by eapply adds_key_keyless]. }
  destruct o as [| | | | |t n c| |n ix| |sql cols lits]; cbn [migrate_op on_names indexed adds_key] in *;
    try (rewrite orb_false_r in Hi); try (by apply (IH clear)).
  - cbn [mbind option_bind dt_db dt_users orb]. rewrite (IH (clear || adds_key (AddColumn t n c))); [|done|done|by eapply Hc'].
    change (if String.eqb t "users" then map (fill_user n) us else us) with (user_op (AddColumn t n c) us).
    by rewrite user_op_keys.
  - apply andb_true_iff in Hi as [Hn Hi]. unfold index_fits. cbn [dt_db dt_users]. destruct (ix_unique ix); cbn [negb orb andb] in *;
      [|by apply (IH clear)].
    destruct (String.eqb n "ux_users_lower_name") eqn:En.
    + case_bool_decide as Hd; [|by rewrite orb_true_l || done]. cbn [mbind option_bind orb negb].
      rewrite (IH clear) by done. by rewrite bool_decide_true, orb_true_r.
    + cbn [orb] in Hn. apply andb_true_iff in Hn as [-> ->]. rewrite keyless_fits by auto. cbn. by apply (IH true).
  - rewrite orb_false_r in *. cbn [dt_db dt_users orb]. change (update_data old now sql db) with (db_op (Execute sql cols lits) db).
    destruct (db_op _ db) as [db'|] eqn:E; cbn [fmap option_fmap option_map mbind option_bind].
    + apply (IH clear); [done|done|by eapply Hc'].
    + by destruct (_ || _).
Qed.
End Rows.

(** The upgrades after the one that made the queue. *)
Definition since_queue : list Op := concat (map upgrade (drop 2 versions)).

(** A row that [finish] wrote under 0002 for the result in [d]. *)
Record finished_row (r : JobDomain) (d : Domain) (fin : instant) (res : DomainResult) : Prop := {
  fr_state : jd_state r = st_done;
  fr_domain : d_domain d = jd_domain r;
  fr_result : d_result d = Some (Dump res);
  fr_status : d_status d = Some (r_status res);
  fr_unclaimed : jd_claimed_by r = None;
  fr_finished : jd_finished_at r = Some fin;
  fr_tokens : jd_jina_tokens r = if jd_from_cache r then 0%Z else r_jina_tokens res
}.

(** The domain of a row, by the table's primary key. *)
Lemma domain_of ds d n :
  NoDup (map d_domain ds) → d ∈ ds → d_domain d = n → head (keep (λ d, String.eqb (d_domain d) n) ds) = Some d.
Proof.
  intros Hnd Hd <-. induction ds as [|d' ds IH]; [by apply elem_of_nil in Hd|]. cbn in *.
  apply NoDup_cons in Hnd as [Hni Hnd]. apply elem_of_cons in Hd as [<-|Hd]; [by rewrite String.eqb_refl|].
  destruct (String.eqb_spec (d_domain d') (d_domain d)) as [E|]; [|by apply IH]. destruct Hni. rewrite E.
  by apply list_elem_of_fmap_2.
Qed.

Lemma head_keep {A} (p : A → bool) l x : head (keep p l) = Some x → x ∈ l ∧ p x = true.
Proof. intros Hh. apply elem_of_keep. destruct (keep p l); [done|]. injection Hh as ->. by left. Qed.

Lemma nullif_truthy c : negb (is_null (nullif c "")) = str_truthy c.
Proof.
  unfold nullif. case_bool_decide as E; [by rewrite E|]. destruct c as [c|]; [|done]. cbn.
  destruct (String.eqb_spec c "") as [->|]; [done|done].
Qed.

(** The versions on one row. *)
Lemma row_ops_app old ds a b r : row_ops old ds (a ++ b) r = r' ← row_ops old ds a r; row_ops old ds b r'.
Proof. revert r. induction a as [|o a IH]; intros r; cbn; [done|]. destruct (row_op old ds o r); cbn; [apply IH|done]. Qed.

Definition no_flags (r : JobDomain) : JobDomain := set_flags false false false false false r.

Lemma v0003_row old ds r : row_ops old ds (upgrade v0003) r = Some (snapshot_row ds (set_snapshot None None r)).
Proof. reflexivity. Qed.
Lemma v0006_row old ds r : row_ops old ds (upgrade v0006) r = flags_0006 (reader old) (no_flags r).
Proof.
  change (row_ops old ds (upgrade v0006) r) with (r' ← flags_0006 (reader old) (no_flags r); Some r').
  by destruct (flags_0006 _ _).
Qed.
Lemma v0007_row old ds r : row_ops old ds (upgrade v0007) r = Some (empty_text (reader old) (cached_calls r)).
Proof. reflexivity. Qed.

Lemma since_queue_row old ds r :
  row_ops old ds since_queue r =
  r' ← flags_0006 (reader old) (no_flags (snapshot_row ds (set_snapshot None None r)));
  Some (set_requeued_at None (empty_text (reader old) (cached_calls r'))).
Proof.
  change since_queue with (upgrade v0003 ++ upgrade v0004 ++ upgrade v0005 ++ upgrade v0006 ++ upgrade v0007 ++
    upgrade v0008 ++ upgrade v0009 ++ upgrade v0010 ++ upgrade v0011)%list.
  rewrite !row_ops_app, v0003_row. cbn [mbind option_bind]. rewrite !row_ops_app.
  change (row_ops old ds (upgrade v0004)) with (λ r : JobDomain, Some r). cbn [mbind option_bind]. rewrite !row_ops_app.
  change (row_ops old ds (upgrade v0005)) with (λ r : JobDomain, Some r). cbn [mbind option_bind].
  rewrite !row_ops_app, v0006_row. destruct (flags_0006 _ _) as [r'|]; [|done]. cbn [mbind option_bind].
  by rewrite !row_ops_app, v0007_row.
Qed.

(** A row that was not done, or whose domain never got a result. *)
Lemma bare_row_upgraded old ds r :
  jd_result (snapshot_row ds (set_snapshot None None r)) = None →
  row_ops old ds since_queue r = Some (set_requeued_at None (no_flags (snapshot_row ds (set_snapshot None None r)))).
Proof.
  intros E. rewrite since_queue_row. unfold flags_0006, no_flags. cbn. rewrite E. cbn. unfold cached_calls. cbn.
  rewrite andb_false_r. unfold empty_text. cbn. by rewrite E.
Qed.

Lemma open_row_upgraded old ds r :
  jd_state r ≠ st_done → row_ops old ds since_queue r = Some (set_requeued_at None (no_flags (set_snapshot None None r))).
Proof.
  intros Hs. assert (snapshot_row ds (set_snapshot None None r) = set_snapshot None None r) as E.
  { unfold snapshot_row, state_is. cbn. rewrite bool_decide_false by done. by destruct (head _). }
  rewrite bare_row_upgraded; by rewrite E.
Qed.

Lemma finished_row_upgraded old ds r d fin res :
  NoDup (map d_domain ds) → d ∈ ds → finished_row r d fin res →
  row_ops old ds since_queue r = Some (set_requeued_at None (record_row fin res (jd_from_cache r) r)).
Proof.
  intros Hnd Hd [F1 F2 F3 F4 F5 F6 F7]. rewrite since_queue_row. unfold snapshot_row, state_is. cbn.
  rewrite (domain_of ds d _ Hnd Hd F2), bool_decide_true, F3, F4 by done. cbn. f_equal.
  unfold record_row. rewrite <- !nullif_truthy. destruct r; cbn in *; subst.
  destruct jd_from_cache, (r_typesafe_called res), (r_phones res); reflexivity.
Qed.

Lemma row_upgraded old ds r :
  Forall (λ d, d_result d = None ∨ ∃ res, d_result d = Some (Dump res)) ds → is_Some (row_ops old ds since_queue r).
Proof.
  intros Hds. destruct (jd_result (snapshot_row ds (set_snapshot None None r))) as [x|] eqn:E;
    [|by rewrite bare_row_upgraded].
  rewrite since_queue_row. unfold flags_0006, no_flags. cbn. rewrite E. revert E. unfold snapshot_row. cbn.
  destruct (head _) as [d|] eqn:Eh; [|done]. destruct (state_is _ _); [|done]. cbn. intros E.
  apply head_keep in Eh as [Hd _]. rewrite Forall_forall in Hds. destruct (Hds d Hd) as [E'|[res E']]; [congruence|].
  rewrite E in E'. injection E' as ->. done.
Qed.

(** A job that is still to be worked on. *)
Definition waiting (j : Job) : bool := mem (j_status j) [job_queued; job_running; job_paused].
Definition has_domain_item (db : DB) (j : Job) : bool :=
  any (λ i, bool_decide (ji_job_id i = j_id j) && negb (is_null (ji_domain i))) (job_items db).

Lemma job_upgraded now db j :
  let j' := job_ops now db since_queue j in
  j_id j' = j_id j ∧ j_status j' = (if orphaned db j then job_failed else j_status j) ∧
  (waiting j' = true → has_domain_item db j = true → any (of_job (j_id j)) (job_domains db) = true).
Proof.
  unfold job_ops, since_queue. cbn. unfold fill_job. cbn. unfold waiting, finish_cancelled. cbn.
  destruct (orphaned db j) eqn:Eo; cbn; [done|].
  assert (mem (j_status j) [job_queued; job_running; job_paused] = true → has_domain_item db j = true →
    any (of_job (j_id j)) (job_domains db) = true) as Hw.
  { intros Hw Hi. revert Eo. unfold orphaned, has_domain_item in *. rewrite Hw, Hi. cbn. rewrite andb_true_r. by intros ->%negb_false_iff. }
  by destruct (_ && _).
Qed.

(** 0007 ends the cancelled jobs it finds: at their pause, or now. *)
Lemma cancelled_jobs_end old now db us :
  NoDup (map (λ u, lower (us_name u)) us) →
  ∃ db', migrate old now (upgrade v0007) (mkData db us) = Some (mkData db' us) ∧
    Forall2 (λ j j', j_status j' = j_status j ∧ (j_status j = job_cancelled → is_Some (j_finished_at j')) ∧
      (j_status j ≠ job_cancelled → j_finished_at j' = j_finished_at j)) (jobs db) (jobs db').
Proof.
  intros Hu. rewrite (migrate_tables old now (upgrade v0007) false) by done.
  change (any on_names (upgrade v0007)) with true. cbn [negb orb]. rewrite (bool_decide_true _ Hu). cbn.
  eexists. split; [reflexivity|]. cbn. rewrite map_map. apply Forall2_fmap_r, Forall_Forall2_diag, Forall_true. intros j.
  unfold fill_job, finish_cancelled. cbn. case_bool_decide as Ec; [|done]. cbn.
  destruct (j_finished_at j) eqn:Ef; cbn; rewrite ?Ef; split_and!; done || (intros; by eexists).
Qed.

(** What the upgrades make of the row [r] of a database at 0002. *)
Record row_upgrade (db : DB) (r r' : JobDomain) : Prop := {
  ru_finished : ∀ d fin res, d ∈ domains db → finished_row r d fin res →
    r' = set_requeued_at None (record_row fin res (jd_from_cache r) r);
  ru_open : jd_state r ≠ st_done → r' = set_requeued_at None (no_flags (set_snapshot None None r))
}.

Lemma mapM_upgrade old db rows :
  NoDup (map d_domain (domains db)) →
  Forall (λ d, d_result d = None ∨ ∃ res, d_result d = Some (Dump res)) (domains db) →
  ∃ rows', mapM (row_ops old (domains db) since_queue) rows = Some rows' ∧ Forall2 (row_upgrade db) rows rows'.
Proof.
  intros Hnd Hds. induction rows as [|r rows (rows' & IH1 & IH2)]; [by exists []|].
  destruct (row_upgraded old (domains db) r Hds) as [r' E]. exists (r' :: rows'). split.
  { revert IH1 E. generalize (row_ops old (domains db) since_queue). intros f IH1 E. cbn. by rewrite E, IH1. }
  constructor; [|done]. split.
  - intros d fin res Hd Hf. rewrite (finished_row_upgraded old _ _ _ _ _ Hnd Hd Hf) in E. by injection E.
  - intros Hs. rewrite open_row_upgraded in E by done. by injection E.
Qed.

(** C38: upgrading the rows: a database at 0002 whose stored results are results comes
    through the remaining upgrades exactly when no two users have names that differ only in
    case; when two have, the unique index of 0007 is refused.  When it comes through, every
    row that finished there ends as the row [finish] writes for the same result today, flags
    included (a cached row counts no TypeSafe call, an empty contact form or LinkedIn page
    counts as none), and every unfinished row has no result and no flag; a job keeps its id,
    and its status unless it was open with items that name domains and no queue rows, which
    fails it, so that none is left waiting for queue rows that do not exist; and the users
    are the same, none a service. *)
Theorem upgraded_rows_as_finished old now db us :
  NoDup (map d_domain (domains db)) →
  Forall (λ d, d_result d = None ∨ ∃ res, d_result d = Some (Dump res)) (domains db) →
  (¬ NoDup (map (λ u, lower (us_name u)) us) → migrate old now since_queue (mkData db us) = None) ∧
  (NoDup (map (λ u, lower (us_name u)) us) →
   ∃ db', migrate old now since_queue (mkData db us) = Some (mkData db' (map (fill_user "is_service") us)) ∧
    Forall2 (row_upgrade db) (job_domains db) (job_domains db') ∧
    Forall2 (λ j j', j_id j' = j_id j ∧ j_status j' = (if orphaned db j then job_failed else j_status j) ∧
      (waiting j' = true → has_domain_item db j = true → any (of_job (j_id j)) (job_domains db) = true))
      (jobs db) (jobs db')).
Proof.
  intros Hnd Hds. destruct (mapM_upgrade old db (job_domains db) Hnd Hds) as (rows & E & Hrows).
  rewrite (migrate_tables old now since_queue false), db_ops_split, E by done.
  change (any on_names since_queue) with true. cbn [negb orb]. split; intros Hu.
  { by rewrite (bool_decide_false _ Hu). }
  rewrite (bool_decide_true _ Hu). eexists. split; [reflexivity|]. split; [done|]. cbn.
  apply Forall2_fmap_r, Forall_Forall2_diag, Forall_true. intros j. by apply job_upgraded.
Qed.

Definition sample_result : DomainResult := blank_result "acme.com" no_contact_info.
Definition sample_db : DB := {|
  jobs := [mkJob 1 0 None job_running 1 0 None None [] None None None None 0 None None None false;
           mkJob 2 0 None job_queued 1 0 None None [] None None None None 0 None None None false];
  job_domains := [mkJobDomain 1 "acme.com" 0 st_done 1 0 None None (Some 5%Z) true 0 None None true true true true true None];
  job_items := [mkJobItem 2 0 "acme.com" (Some "acme.com") None None None []];
  domains := [mkDomain "acme.com" stage_done (Some no_contact_info) (Some (Dump sample_result)) 1 5 (Some 5%Z) None None] |}.

Definition sample_users : list User := [mkUser 1 "Ann@acme.com" "h1" false true 0 None; mkUser 2 "bob@acme.com" "h2" true false 0 None].

Lemma upgraded_rows_as_finished_witness :
  ∃ db', migrate (mkReader (λ _, None) (λ _, None) (λ _, None)) 9 since_queue (mkData sample_db sample_users)
           = Some (mkData db' (map (fill_user "is_service") sample_users)) ∧
    map jd_typesafe_called (job_domains db') = [false] ∧ map j_status (jobs db') = [job_running; job_failed].
Proof.
  destruct (upgraded_rows_as_finished (mkReader (λ _, None) (λ _, None) (λ _, None)) 9 sample_db sample_users) as [_ H].
  - apply NoDup_singleton.
  - apply Forall_singleton. right. by eexists.
  - destruct H as (db' & E & _); [apply (bool_decide_unpack _); by vm_compute|].
    exists db'. split; [done|]. revert E. vm_compute. by intros [= <-].
Defined.

(** Two people whose names differ only in case, which 0002 allowed, stop the upgrade. *)
Example names_in_two_cases :
  migrate (mkReader (λ _, None) (λ _, None) (λ _, None)) 9 since_queue
    (mkData sample_db [mkUser 1 "Ann@acme.com" "h1" false false 0 None; mkUser 2 "ann@acme.com" "h2" false false 0 None]) = None.
Proof. vm_compute. reflexivity. Qed.

(** No statement uses an enum value that a version adds, so that all versions can run in one
    transaction, in which PostgreSQL refuses a new value as a literal. *)
Definition literals_of (o : Op) : list (string * string) := match o with Execute _ _ lits => lits | _ => [] end.
Definition added_values (o : Op) : list (string * string) := match o with AddEnumValue e v => [(e, v)] | _ => [] end.

Lemma added_values_unused x :
  x ∈ concat (map added_values (concat (map upgrade versions))) →
  x ∉ concat (map literals_of (concat (map upgrade versions))).
Proof.
  intros ->%list_elem_of_singleton. apply (bool_decide_unpack _). by vm_compute.
Qed.
