(* ===== verification/MigrationRun.v ===== *)
(** * Running the migrations ([src/migrations/env.py])

    The database URL on its way through ConfigParser, and the transaction that migrates: two
    deployments may run it at once, so it takes an advisory lock before it looks at the
    revision.  Alembic's part is to read the revision and to run what is left of the chain;
    the versions are those of [Migrations]. *)

From Stdlib Require Import Ascii String Lia.
From stdpp Require Import base strings option sets gmap list relations.
From S2P Require Import Prelude PyStr Schema Migrations.

(** ** The URL in the configuration *)

(** [url.replace("%", "%%")] *)
Fixpoint escape_percent (s : string) : string :=
  match s with
  | EmptyString => ""
  | String c s' => if Ascii.eqb c "%" then String c (String c (escape_percent s')) else String c (escape_percent s')
  end.

(** [%(name)s] at the start of a text: the name and what follows ([_KEYCRE]). *)
Definition reference (s : string) : option (string * string) :=
  match s with
  | String a (String b s1) =>
      if Ascii.eqb a "%" && Ascii.eqb b "(" then
        match partition_at ")" s1 with
        | Some (name, String e rest) => if Ascii.eqb e "s" && nonempty name then Some (name, rest) else None
        | _ => None
        end
      else None
  | _ => None
  end.

(** [value.replace("%%", "")] *)
Fixpoint drop_doubled (s : string) : string :=
  match s with
  | String c s' =>
      match s' with
      | String d s2 => if Ascii.eqb c "%" && Ascii.eqb d "%" then drop_doubled s2 else String c (drop_doubled s')
      | EmptyString => s
      end
  | EmptyString => ""
  end.

(** [_KEYCRE.sub("", value)] *)
Fixpoint drop_references (fuel : nat) (s : string) : string :=
  match fuel, s with
  | S fuel', String c s' =>
      match reference s with
      | Some (_, rest) => drop_references fuel' rest
      | None => String c (drop_references fuel' s')
      end
  | _, _ => ""
  end.

(** [before_set]: is the value accepted? *)
Definition before_set (value : string) : bool :=
  let tmp := drop_doubled value in negb (has_char "%" (drop_references (String.length tmp) tmp)).

Definition MAX_INTERPOLATION_DEPTH : nat := 10.

(** [_interpolate_some]: a doubled sign is one, a reference is the option of that name, with
    its own references resolved by [nested], and anything else after a sign raises.  [None]
    is the exception. *)
Fixpoint interpolate_some (nested option_named : string → option string) (fuel : nat) (s : string) : option string :=
  match fuel, s with
  | O, _ => None
  | _, EmptyString => Some ""
  | S fuel', String c s' =>
      if negb (Ascii.eqb c "%") then String c <$> interpolate_some nested option_named fuel' s'
      else match s' with
           | String d s2 =>
               if Ascii.eqb d "%" then String "%" <$> interpolate_some nested option_named fuel' s2
               else match reference s with
                    | Some (name, rest) =>
                        v ← option_named (lower name);
                        v' ← (if has_char "%" v then nested v else Some v);
                        String.append v' <$> interpolate_some nested option_named fuel' rest
                    | None => None
                    end
           | EmptyString => None
           end
  end.

(** Nesting deeper than the limit raises. *)
Fixpoint interpolate (depth : nat) (option_named : string → option string) (value : string) : option string :=
  match depth with
  | O => None
  | S depth' => interpolate_some (interpolate depth' option_named) option_named (S (String.length value)) value
  end.

(** The URL the engine gets: what [set_main_option] stores, read back by [get_section]. *)
Definition engine_url (others : string → option string) (database_url : string) : option string :=
  let stored := escape_percent database_url in
  if before_set stored then interpolate MAX_INTERPOLATION_DEPTH others stored else None.

Lemma drop_doubled_escaped s : has_char "%" (drop_doubled (escape_percent s)) = false.
Proof.
  induction s as [|c s IH]; [done|]. cbn [escape_percent]. destruct (Ascii.eqb_spec c "%") as [->|Hc]; [exact IH|].
  assert (∀ t, has_char "%" (drop_doubled t) = false → has_char "%" (drop_doubled (String c t)) = false) as Hstep; [|by apply Hstep].
  intros t Ht. assert (drop_doubled (String c t) = String c (drop_doubled t)) as ->.
  { destruct t as [|d t]; [done|]. cbn [drop_doubled]. by rewrite (proj2 (Ascii.eqb_neq c "%") Hc). }
  unfold has_char in *. cbn [str_any]. rewrite Ht, orb_false_r. apply Ascii.eqb_neq. congruence.
Qed.

Lemma drop_references_id fuel s : (String.length s ≤ fuel)%nat → has_char "%" s = false → drop_references fuel s = s.
Proof.
  revert s. induction fuel as [|fuel IH]; intros [|c s] Hf Hc; [done|cbn in Hf; lia|done|].
  unfold has_char in Hc. cbn [str_any] in Hc. apply orb_false_iff in Hc as [Hc Hs].
  cbn [drop_references]. assert (reference (String c s) = None) as ->.
  { destruct s as [|d s]; [done|]. cbn. rewrite Ascii.eqb_sym, Hc. done. }
  f_equal. apply IH; [cbn in Hf; lia|done].
Qed.

(** Whatever the URL holds, a percent-encoded password included, it is stored and comes out
    as it was. *)
Theorem engine_url_roundtrip others url : engine_url others url = Some url.
Proof.
  unfold engine_url, before_set. cbn zeta. rewrite drop_references_id; [|done|apply drop_doubled_escaped].
  rewrite drop_doubled_escaped. cbn [negb].
  assert (∀ nested fuel s, (String.length (escape_percent s) < fuel)%nat →
            interpolate_some nested others fuel (escape_percent s) = Some s) as Hgo; [|apply Hgo; lia].
  intros nested. induction fuel as [|fuel IH]; intros [|c s] Hf; [lia|cbn in Hf; lia|done|].
  cbn [escape_percent] in Hf |- *. destruct (Ascii.eqb c "%") eqn:E; cbn [String.length] in Hf.
  - apply Ascii.eqb_eq in E as ->. change (String "%" <$> interpolate_some nested others fuel (escape_percent s) = Some (String "%" s)).
    by rewrite (IH s) by lia.
  - cbn [interpolate_some]. rewrite E. cbn [negb]. by rewrite (IH s) by lia.
Qed.

Example raw_url_refused : before_set "postgresql://u:p%40ss@h/db" = false.
Proof. vm_compute. reflexivity. Qed.

(** ** Migrating *)

Definition MIGRATION_LOCK_ID : Z := 73402601.

(** What is committed: the row of [alembic_version] and the schema. *)
Record Deployed := mkDeployed { dp_version : option string; dp_schema : Schema }.

(** What is left of the chain; [None] for a revision no version has. *)
Fixpoint after (r : string) (ms : list Migration) : option (list Migration) :=
  match ms with
  | [] => None
  | m :: rest => if String.eqb (revision m) r then Some rest else after r rest
  end.
Definition pending (cur : option string) : option (list Migration) :=
  match cur with None => Some versions | Some r => after r versions end.

(** One process running [do_run_migrations].  Its transaction works on [work], with the
    versions [todo] still to run and [ran] those it has run. *)
Inductive Phase :=
  | Waiting                                     (* at the advisory lock *)
  | Holding                                     (* the lock taken, nothing read yet *)
  | Migrating (work : Deployed) (todo : list Migration) (ran : list string)
  | Committed (ran : list string)
  | Failed.

(** [holder] has the lock; [log] is every version whose effects were committed, in order. *)
Record Deploy := mkDeploy {
  committed : Deployed; holder : option nat; procs : list Phase; log : list string
}.

Definition set_proc (i : nat) (p : Phase) (s : Deploy) : list Phase := <[i := p]> (procs s).

(** One step of process [i].  The lock belongs to the transaction: commit and rollback give
    it back; a process may fail, and is then rolled back, at any time. *)
Inductive mstep : Deploy → Deploy → Prop :=
  | m_lock s i :
      procs s !! i = Some Waiting → holder s = None →
      mstep s (mkDeploy (committed s) (Some i) (set_proc i Holding s) (log s))
  | m_heads s i todo :
      procs s !! i = Some Holding → pending (dp_version (committed s)) = Some todo →
      mstep s (mkDeploy (committed s) (holder s) (set_proc i (Migrating (committed s) todo []) s) (log s))
  | m_version s i w m todo ran schema' :
      procs s !! i = Some (Migrating w (m :: todo) ran) → run (upgrade m) (dp_schema w) = Some schema' →
      mstep s (mkDeploy (committed s) (holder s)
                 (set_proc i (Migrating (mkDeployed (Some (revision m)) schema') todo (ran ++ [revision m])) s) (log s))
  | m_commit s i w ran :
      procs s !! i = Some (Migrating w [] ran) →
      mstep s (mkDeploy w None (set_proc i (Committed ran) s) (log s ++ ran))
  | m_fail s i p :
      procs s !! i = Some p → match p with Committed _ | Failed => False | _ => True end →
      mstep s (mkDeploy (committed s) (match p with Waiting => holder s | _ => None end) (set_proc i Failed s) (log s)).

Definition start (n : nat) (d : Deployed) : Deploy := mkDeploy d None (replicate n Waiting) [].

(** ** Each version is applied once *)

Definition names (ms : list Migration) : list string := map revision ms.

(** A database that has had the versions [done]. *)
Definition at_version (done_ : list Migration) (d : Deployed) : Prop :=
  dp_version d = last (names done_) ∧ run (concat (map upgrade done_)) empty_schema = Some (dp_schema d).

Lemma all_versions_run : run (concat (map upgrade versions)) empty_schema = Some models_schema.
Proof. by apply (bool_decide_unpack _); vm_compute. Qed.

Lemma names_distinct : NoDup (names versions).
Proof. by apply (bool_decide_unpack _); vm_compute. Qed.

Lemma after_split ms1 m ms2 : NoDup (names (ms1 ++ m :: ms2)) → after (revision m) (ms1 ++ m :: ms2) = Some ms2.
Proof.
  induction ms1 as [|x ms1 IH]; intros Hn; cbn; [by rewrite String.eqb_refl|].
  cbn in Hn. apply NoDup_cons in Hn as [Hx Hn]. rewrite (proj2 (String.eqb_neq _ _)); [by apply IH|].
  intros E. apply Hx. rewrite E. apply list_elem_of_fmap. exists m. set_solver.
Qed.

Lemma last_names ms m : last (names (ms ++ [m])) = Some (revision m).
Proof. unfold names. rewrite map_app. apply last_snoc. Qed.

Lemma pending_spec done_ todo d : versions = done_ ++ todo → at_version done_ d → pending (dp_version d) = Some todo.
Proof.
  intros E [Hv _]. rewrite Hv. destruct done_ as [|m done_ _] using rev_ind; [exact (f_equal Some E)|].
  rewrite last_names. cbn [pending]. pose proof names_distinct as Hn. rewrite E, <- app_assoc in Hn |- *. by apply after_split.
Qed.

Lemma at_version_next done_ m d schema' :
  at_version done_ d → run (upgrade m) (dp_schema d) = Some schema' →
  at_version (done_ ++ [m]) (mkDeployed (Some (revision m)) schema').
Proof.
  intros [Hv Hr] Hm. split; cbn; [by rewrite last_names|].
  rewrite map_app, concat_app, run_app, Hr. cbn. by rewrite app_nil_r.
Qed.

(** No version fails on the schema the ones before it leave. *)
Lemma next_version_runs done_ m todo d :
  versions = done_ ++ m :: todo → at_version done_ d → is_Some (run (upgrade m) (dp_schema d)).
Proof.
  intros E [_ Hr]. pose proof all_versions_run as Ha. rewrite E, map_app, concat_app, run_app, Hr in Ha.
  cbn in Ha. rewrite run_app in Ha. destruct (run (upgrade m) (dp_schema d)); [by eexists|done].
Qed.

Lemma at_head d : at_version versions d → d = mkDeployed (Some "0011") models_schema.
Proof.
  intros [Hv Hr]. rewrite all_versions_run in Hr. destruct d as [v s]. cbn in *. injection Hr as <-. rewrite Hv.
  done.
Qed.

Definition holds (p : Phase) : bool := match p with Holding | Migrating _ _ _ => true | _ => false end.

(** What every reachable state keeps; [done0] were there before. *)
Record deploy_ok (done0 : list Migration) (s : Deploy) : Prop := {
  ok_committed : ∃ done_ todo, versions = done_ ++ todo ∧ at_version done_ (committed s) ∧
    names done_ = names done0 ++ log s ∧ (done_ = done0 ∨ done_ = versions);
  ok_holder : ∀ i p, procs s !! i = Some p → holds p = true → holder s = Some i;
  ok_held : ∀ i, holder s = Some i → ∃ p, procs s !! i = Some p ∧ holds p = true;
  ok_work : ∀ i w todo ran, procs s !! i = Some (Migrating w todo ran) →
    ∃ done1, versions = done1 ++ todo ∧ at_version done1 w ∧ names done1 = names done0 ++ log s ++ ran;
  ok_done : ∀ i ran, procs s !! i = Some (Committed ran) → at_version versions (committed s)
}.

Lemma start_ok n done0 todo0 d : versions = done0 ++ todo0 → at_version done0 d → deploy_ok done0 (start n d).
Proof.
  intros E Hd. split; cbn.
  - exists done0, todo0. rewrite app_nil_r. eauto.
  - intros i p [-> _]%lookup_replicate Hh. done.
  - done.
  - intros i w todo ran [? _]%lookup_replicate. done.
  - intros i ran [? _]%lookup_replicate. done.
Qed.

Lemma names_inj done1 done2 todo1 todo2 :
  versions = done1 ++ todo1 → versions = done2 ++ todo2 → names done1 = names done2 → done1 = done2.
Proof.
  intros E1 E2 En. apply (f_equal length) in En. unfold names in En. rewrite !length_map in En.
  apply (f_equal (take (length done1))) in E1, E2. rewrite take_app_length in E1. rewrite En, take_app_length in E2. congruence.
Qed.

Lemma lookup_set_proc s i p j q :
  set_proc i p s !! j = Some q → (j = i ∧ q = p) ∨ (j ≠ i ∧ procs s !! j = Some q).
Proof.
  unfold set_proc. intros H. destruct (decide (j = i)) as [->|Hj]; [|right; by rewrite list_lookup_insert_ne in H].
  left. split; [done|]. apply list_lookup_insert_Some in H as [(_ & -> & _)|[? _]]; done.
Qed.

Lemma lookup_set_self s i p old : procs s !! i = Some old → set_proc i p s !! i = Some p.
Proof. intros H. apply list_lookup_insert_eq. by eapply lookup_lt_Some. Qed.

(** A step that leaves the committed state and the log alone, and gives process [i] a phase
    that is not [Committed]. *)
Lemma quiet_step_ok done0 s i old p h :
  deploy_ok done0 s → procs s !! i = Some old →
  (if holds p then h = Some i ∧ (holder s = None ∨ holder s = Some i)
   else h = if holds old then None else holder s) →
  (∀ w todo ran, p = Migrating w todo ran →
     ∃ done1, versions = done1 ++ todo ∧ at_version done1 w ∧ names done1 = names done0 ++ log s ++ ran) →
  (∀ ran, p ≠ Committed ran) →
  deploy_ok done0 (mkDeploy (committed s) h (set_proc i p s) (log s)).
Proof.
  intros [Hc Hh Hl Hw Hd] Hi Hp Hm Hn. split; cbn [committed holder procs log]; [done|..].
  - intros j q [[-> ->]|[Hj Hq]]%lookup_set_proc Hhq; [by rewrite Hhq in Hp; destruct Hp|].
    specialize (Hh j q Hq Hhq) as Ej. destruct (holds p); [destruct Hp as [_ [E|E]]; congruence|].
    destruct (holds old) eqn:E; [|congruence]. specialize (Hh i old Hi E). congruence.
  - intros j Ej. destruct (decide (j = i)) as [->|Hj].
    + exists p. split; [by eapply lookup_set_self|]. destruct (holds p) eqn:E; [done|].
      destruct (holds old) eqn:Eo; [congruence|]. rewrite Hp in Ej. destruct (Hl i Ej) as (q & Hq & Hhq). congruence.
    + assert (holder s = Some j) as Es by (destruct (holds p); [destruct Hp; congruence|]; destruct (holds old); congruence).
      destruct (Hl j Es) as (q & Hq & Hhq). exists q. unfold set_proc. by rewrite list_lookup_insert_ne.
  - intros j w todo ran [[-> E]|[Hj Hq]]%lookup_set_proc; [by eapply Hm|by eapply Hw].
  - intros j ran [[-> E]|[Hj Hq]]%lookup_set_proc; [by destruct (Hn ran)|by eapply Hd].
Qed.

Lemma mstep_ok done0 s s' : deploy_ok done0 s → mstep s s' → deploy_ok done0 s'.
Proof.
  intros Hok Hs. destruct Hs as [s i Hi Hf|s i todo Hi Ht|s i w m todo ran schema' Hi Hr|s i w ran Hi|s i p Hi Hp].
  - eapply quiet_step_ok; [done|done|cbn; eauto|done|done].
  - pose proof (ok_holder _ _ Hok _ _ Hi eq_refl) as Eh. eapply quiet_step_ok; [done|done|cbn; eauto| |done].
    intros w todo' ran [= <- <- <-]. destruct (ok_committed _ _ Hok) as (done_ & todo2 & E & Ha & En & _).
    rewrite (pending_spec _ _ _ E Ha) in Ht. injection Ht as <-. exists done_. by rewrite app_nil_r.
  - pose proof (ok_holder _ _ Hok _ _ Hi eq_refl) as Eh. eapply quiet_step_ok; [done|done|cbn; eauto| |done].
    intros w' todo' ran' [= <- <- <-]. destruct (ok_work _ _ Hok _ _ _ _ Hi) as (done1 & E & Ha & En).
    exists (done1 ++ [m]). split_and!; [by rewrite <- app_assoc|by eapply at_version_next|].
    unfold names in *. by rewrite map_app, En, <- !app_assoc.
  - destruct (ok_work _ _ Hok _ _ _ _ Hi) as (done1 & E & Ha & En). rewrite app_nil_r in E. subst done1.
    pose proof (ok_holder _ _ Hok _ _ Hi eq_refl) as Eh. split; cbn [committed holder procs log].
    + exists versions, []. rewrite app_nil_r. eauto.
    + intros j q [[-> ->]|[Hj Hq]]%lookup_set_proc Hhq; [done|]. pose proof (ok_holder _ _ Hok j q Hq Hhq). congruence.
    + done.
    + intros j w' todo ran' [[-> ?]|[Hj Hq]]%lookup_set_proc; [done|].
      pose proof (ok_holder _ _ Hok j _ Hq eq_refl). congruence.
    + done.
  - apply (quiet_step_ok done0 s i p); [done|done| |done|done]. cbn [holds].
    destruct p; cbn; try done; by pose proof (ok_holder _ _ Hok _ _ Hi eq_refl).
Qed.

Lemma msteps_ok done0 s s' : deploy_ok done0 s → rtc mstep s s' → deploy_ok done0 s'.
Proof. intros Hok Hs. induction Hs as [|s s1 s' H1 _ IH]; [done|]. by apply IH, (mstep_ok done0 s). Qed.

(** ** Everyone gets through *)

Definition unfinished (p : Phase) : bool := match p with Committed _ | Failed => false | _ => true end.

(** Process [i] has committed, nobody holds the lock and the others are where they were. *)
Definition finished_by (i : nat) (s s' : Deploy) : Prop :=
  rtc mstep s s' ∧ holder s' = None ∧ (∃ ran, procs s' !! i = Some (Committed ran)) ∧
  ∀ j, j ≠ i → procs s' !! j = procs s !! j.

Lemma finished_by_step i s s1 s' :
  mstep s s1 → (∀ j, j ≠ i → procs s1 !! j = procs s !! j) → finished_by i s1 s' → finished_by i s s'.
Proof.
  intros Hs Hj (Hr & Hh & Hc & Ho). split_and!; [by eapply rtc_l|done|done|].
  intros j Hne. by rewrite Ho, Hj.
Qed.

Lemma set_proc_other s i p j : j ≠ i → set_proc i p s !! j = procs s !! j.
Proof. intros Hj. unfold set_proc. by rewrite list_lookup_insert_ne. Qed.

Lemma migrating_finishes done0 s i w todo ran :
  deploy_ok done0 s → procs s !! i = Some (Migrating w todo ran) → ∃ s', finished_by i s s'.
Proof.
  revert s w ran. induction todo as [|m todo IH]; intros s w ran Hok Hi.
  - eexists. split_and!; [by apply rtc_once, (m_commit s i w ran)|done|..].
    + exists ran. by eapply lookup_set_self.
    + intros j Hj. by apply set_proc_other.
  - destruct (ok_work _ _ Hok _ _ _ _ Hi) as (done1 & E & Ha & _).
    destruct (next_version_runs _ _ _ _ E Ha) as [schema' Hr].
    pose proof (m_version s i w m todo ran schema' Hi Hr) as Hs.
    destruct (IH _ (mkDeployed (Some (revision m)) schema') (ran ++ [revision m]) (mstep_ok _ _ _ Hok Hs)) as [s' Hf];
      [by eapply lookup_set_self|].
    exists s'. eapply finished_by_step; [exact Hs| |exact Hf]. intros j Hj. by apply set_proc_other.
Qed.

Lemma holding_finishes done0 s i : deploy_ok done0 s → procs s !! i = Some Holding → ∃ s', finished_by i s s'.
Proof.
  intros Hok Hi. destruct (ok_committed _ _ Hok) as (done_ & todo & E & Ha & _).
  pose proof (m_heads s i todo Hi (pending_spec _ _ _ E Ha)) as Hs.
  edestruct migrating_finishes as [s' Hf]; [exact (mstep_ok _ _ _ Hok Hs)|by eapply lookup_set_self|].
  exists s'. eapply finished_by_step; [exact Hs| |exact Hf]. intros j Hj. by apply set_proc_other.
Qed.

Lemma waiting_finishes done0 s i :
  deploy_ok done0 s → holder s = None → procs s !! i = Some Waiting → ∃ s', finished_by i s s'.
Proof.
  intros Hok Hh Hi. pose proof (m_lock s i Hi Hh) as Hs.
  edestruct holding_finishes as [s' Hf]; [exact (mstep_ok _ _ _ Hok Hs)|by eapply lookup_set_self|].
  exists s'. eapply finished_by_step; [exact Hs| |exact Hf]. intros j Hj. by apply set_proc_other.
Qed.

(** From [s] to [s'] some unfinished processes commit and nothing else happens to any. *)
Definition only_commits (s s' : Deploy) : Prop :=
  ∀ j, procs s' !! j = procs s !! j ∨
       ∃ p ran, procs s !! j = Some p ∧ unfinished p = true ∧ procs s' !! j = Some (Committed ran).

Lemma finished_only_commits i s s' p :
  finished_by i s s' → procs s !! i = Some p → unfinished p = true → only_commits s s'.
Proof.
  intros (_ & _ & (ran & Hr) & Ho) Hi Hu j. destruct (decide (j = i)) as [->|Hj]; [right; eauto|left; by apply Ho].
Qed.

Lemma only_commits_trans s1 s2 s3 : only_commits s1 s2 → only_commits s2 s3 → only_commits s1 s3.
Proof.
  intros H12 H23 j. destruct (H23 j) as [->|(p & ran & Hp & Hu & ->)]; [by apply H12|].
  right. destruct (H12 j) as [E|(p' & ran' & Hp' & Hu' & E)]; rewrite E in Hp; [eauto|]. injection Hp as <-. done.
Qed.

Lemma release_holder done0 s :
  deploy_ok done0 s → ∃ s', rtc mstep s s' ∧ holder s' = None ∧ only_commits s s'.
Proof.
  intros Hok. destruct (holder s) as [i|] eqn:Eh; [|exists s; split_and!; [done..|intros j; by left]].
  destruct (ok_held _ _ Hok i Eh) as (p & Hi & Hh).
  assert (∃ s', finished_by i s s') as [s' Hf].
  { destruct p; try done; [by eapply holding_finishes|by eapply migrating_finishes]. }
  exists s'. split_and!; [apply Hf|apply Hf|]. eapply finished_only_commits; [done..|]. by destruct p.
Qed.

Lemma all_finish done0 s (is_ : list nat) :
  deploy_ok done0 s → ∃ s', rtc mstep s s' ∧ holder s' = None ∧ only_commits s s' ∧
    ∀ i p, i ∈ is_ → procs s' !! i = Some p → unfinished p = false.
Proof.
  intros Hok. induction is_ as [|i is_ (s1 & Hr & Hh & Hc & Hd)].
  - destruct (release_holder _ _ Hok) as (s1 & ? & ? & ?). exists s1. split_and!; [done..|]. by intros i p ?%elem_of_nil.
  - pose proof (msteps_ok _ _ _ Hok Hr) as Hok1.
    destruct (procs s1 !! i) as [p|] eqn:Ei; [destruct (unfinished p) eqn:Eu|].
    + assert (p = Waiting) as ->.
      { destruct p; try done; pose proof (ok_holder _ _ Hok1 _ _ Ei eq_refl); congruence. }
      destruct (waiting_finishes _ _ _ Hok1 Hh Ei) as [s' Hf]. exists s'. split_and!.
      * etransitivity; [done|apply Hf].
      * apply Hf.
      * eapply only_commits_trans; [done|]. by eapply finished_only_commits.
      * intros j q Hj Hq. destruct Hf as (_ & _ & (ran & Hran) & Ho).
        destruct (decide (j = i)) as [->|Hne]; [rewrite Hran in Hq; by injection Hq as <-|].
        rewrite Ho in Hq by done. apply elem_of_cons in Hj as [->|Hj]; [done|by eapply Hd].
    + exists s1. split_and!; [done..|]. intros j q [->|Hj]%elem_of_cons Hq; [congruence|by eapply Hd].
    + exists s1. split_and!; [done..|]. intros j q [->|Hj]%elem_of_cons Hq; [congruence|by eapply Hd].
Qed.

(** C39: deployments that migrate at once.  Any number of processes start on a database that
    has had the versions [done0]; whatever their order, whichever fail and wherever, at every
    moment the committed database is either as it was, or at the last version with the schema
    the models declare, and then each missing version was applied exactly once, in order; no
    two processes are past the lock; a process that has committed finds that schema; and from
    every moment on all processes that have not failed can still commit. *)
Theorem migrations_run_once done0 todo0 (d : Deployed) (n : nat) (s : Deploy)
    (Hd : versions = done0 ++ todo0) (Hat : at_version done0 d) (Hs : rtc mstep (start n d) s) :
  (committed s = d ∧ log s = [] ∨
   committed s = mkDeployed (Some "0011") models_schema ∧ log s = names todo0) ∧
  (∀ i j p q, procs s !! i = Some p → procs s !! j = Some q → holds p = true → holds q = true → i = j) ∧
  (∀ i ran, procs s !! i = Some (Committed ran) → committed s = mkDeployed (Some "0011") models_schema) ∧
  ∃ s', rtc mstep s s' ∧ ∀ i p, procs s !! i = Some p →
    if unfinished p then ∃ ran, procs s' !! i = Some (Committed ran) else procs s' !! i = Some p.
Proof.
  pose proof (msteps_ok _ _ _ (start_ok n done0 todo0 d Hd Hat) Hs) as Hok. split_and!.
  - destruct (ok_committed _ _ Hok) as (done_ & todo & E & Ha & En & [->| ->]).
    + left. split.
      * destruct Hat as [Hv Hr], Ha as [Hv' Hr']. destruct d, (committed s). cbn in *. congruence.
      * destruct (log s) as [|x l]; [done|]. apply (f_equal length) in En. rewrite length_app in En. cbn in En. lia.
    + right. split; [by apply at_head|]. rewrite Hd in En at 1. unfold names in En. rewrite map_app in En.
      apply app_inv_head in En. done.
  - intros i j p q Hi Hj Hp Hq. pose proof (ok_holder _ _ Hok _ _ Hi Hp). pose proof (ok_holder _ _ Hok _ _ Hj Hq). congruence.
  - intros i ran Hi. by eapply at_head, ok_done.
  - destruct (all_finish _ _ (seq 0 (length (procs s))) Hok) as (s' & Hr & _ & Hc & Hf). exists s'. split; [done|].
    intros i p Hi. destruct (Hc i) as [E|(p' & ran & Hp' & Hu & E)]; rewrite Hi in *.
    + destruct (unfinished p) eqn:Eu; [|done]. rewrite (Hf i p) in Eu; [done| |done].
      apply elem_of_seq. apply lookup_lt_Some in Hi. lia.
    + injection Hp' as <-. rewrite Hu. by exists ran.
Qed.

(** Two deployments on a new database: the first has the lock, the second waits. *)
Definition fresh : Deployed := mkDeployed None empty_schema.
Definition one_locked : Deploy := mkDeploy fresh (Some 0%nat) [Holding; Waiting] [].

Lemma migrations_run_once_witness :
  committed one_locked = fresh ∧
  ∃ s', rtc mstep one_locked s' ∧ (∃ ran, procs s' !! 0%nat = Some (Committed ran)) ∧ ∃ ran, procs s' !! 1%nat = Some (Committed ran).
Proof.
  assert (at_version [] fresh) as Hat by (split; reflexivity).
  assert (rtc mstep (start 2 fresh) one_locked) as Hs by exact (rtc_once _ _ (m_lock (start 2 fresh) 0 eq_refl eq_refl)).
  split; [reflexivity|].
  destruct (migrations_run_once [] versions fresh 2 one_locked eq_refl Hat Hs) as (_ & _ & _ & s' & Hr & Hp).
  exists s'. split; [exact Hr|]. split; [exact (Hp 0%nat Holding eq_refl)|exact (Hp 1%nat Waiting eq_refl)].
Defined.

(** Without the lock both would have read the same revision: the second run of the first
    version fails on the tables the first run made. *)
Example second_run_fails : run (upgrade v0001) models_schema = None.
Proof. vm_compute. reflexivity. Qed.
