(* ===== verification/LogSetup.v ===== *)
(** * Logging and the masking of credentials ([src/app/logsetup.py])

    [redact] on any text, the filter that applies it to a log record, and [configure] on the
    state of the [logging] module: the root logger's level and handlers, and the levels of
    named loggers.  The [%] formatting of a record's arguments and the text of a traceback are
    given with the record. *)

From Stdlib Require Import ZArith Ascii String Lia.
From stdpp Require Import base strings option gmap list.
From S2P Require Import Prelude PyStr Regex Groups.

(** ** The pattern *)

(** What ends a value: an ampersand, white space or a quote. *)
Definition value_end (c : ascii) : bool :=
  Ascii.eqb c "&" || is_space c || Ascii.eqb c "034" || Ascii.eqb c "'".

Definition token_char (c : ascii) : bool :=
  is_lower c || is_upper c || is_digit09 c || in_set "._~+/=-" c.

Definition dash : re := opt (Chr (in_set "_-")).
Definition label_re : re :=
  alts [seqs [lit_ci "api"; dash; lit_ci "key="];
        seqs [lit_ci "access"; dash; lit_ci "token="];
        lit_ci "token="; lit_ci "key="].
Definition value_re : re := plus (Chr (λ c, negb (value_end c))).
Definition bearer_re : re := Seq (lit_ci "bearer") spaces1.
Definition token_re : re := Seq (rep 8 (Chr token_char)) (Star (Chr token_char)).

(** A match of [_SECRET] at a position: [m.group(1) or m.group(2)], and where it ends. *)
Definition secret_at (p : pos) : option (string * pos) :=
  match m_segs [label_re; value_re] p with
  | Some (l, e) => Some (nth 0 l "", e)
  | None =>
      match m_segs [bearer_re; token_re] p with
      | Some (l, e) => Some (nth 0 l "", e)
      | None => None
      end
  end.

Definition mask : string := "[redacted]".

Fixpoint redact_from (fuel : nat) (prev : option ascii) (s : string) : string :=
  match fuel with
  | O => ""
  | S fuel' =>
      match secret_at (prev, s) with
      | Some (g, (prev', rest)) => g +:+ mask +:+ redact_from fuel' prev' rest
      | None =>
          match s with
          | EmptyString => ""
          | String c s' => String c (redact_from fuel' (Some c) s')
          end
      end
  end.

Definition redact (text : string) : string := redact_from (S (String.length text)) None text.

(** ** Records, filters, handlers *)

Inductive log_filter := RedactSecrets | OtherFilter (id : N).
#[global] Instance log_filter_eq_dec : EqDecision log_filter.
Proof. solve_decision. Defined.

Section records.
Context {A : Type} (percent : string → A → option string).

(** [args] is [None] when there is nothing to format; [exc_text] is the traceback that
    [log.exception] attaches, as the formatter prints it. *)
Record LogRecord := mkLogRecord {
  levelname : string;
  name : string;
  msg : string;
  args : option A;
  exc_text : option string;
  stack_info : option string
}.

(** [None]: the arguments do not fit the message, and formatting raises. *)
Definition getMessage (r : LogRecord) : option string :=
  match args r with Some a => percent (msg r) a | None => Some (msg r) end.

(** [RedactSecrets.filter]: whether the record passes, and the record as it leaves it. *)
Definition filter (r : LogRecord) : bool * LogRecord :=
  match getMessage r with
  | None => (true, r)
  | Some message =>
      let cleaned := redact message in
      (true, if String.eqb cleaned message then r
             else mkLogRecord (levelname r) (name r) cleaned None (exc_text r) (stack_info r))
  end.

(** What [Formatter.format] puts after the message: a traceback or a stack, on a line of
    its own. *)
Definition newline : string := String "010" "".
Definition attach (s : string) (x : option string) : string :=
  match x with
  | None | Some EmptyString => s
  | Some x => (if endswith s newline then s else s +:+ newline) +:+ x
  end.

(** The line of a record in [basicConfig]'s format, [%(levelname)s:%(name)s:%(message)s],
    given its message. *)
Definition line (r : LogRecord) (message : string) : string :=
  attach (attach (levelname r +:+ ":" +:+ name r +:+ ":" +:+ message) (exc_text r)) (stack_info r).

(** The record as a list of filters leaves it, unless one drops it.  What filters of other
    code do is an argument. *)
Fixpoint through (other : N → LogRecord → bool * LogRecord) (fs : list log_filter) (r : LogRecord) : option LogRecord :=
  match fs with
  | [] => Some r
  | f :: fs' =>
      let (pass, r') := match f with RedactSecrets => filter r | OtherFilter i => other i r end in
      if pass then through other fs' r' else None
  end.

(** What a handler does with a record: nothing, a line, or (formatting raises) the report of
    [handleError], which shows the record's message and arguments as they are. *)
Inductive Emitted := Dropped | Written (text : string) | Reported (r : LogRecord).

(** [Handler.handle] *)
Definition handle (other : N → LogRecord → bool * LogRecord) (fs : list log_filter) (r : LogRecord) : Emitted :=
  match through other fs r with
  | None => Dropped
  | Some r' => match getMessage r' with Some message => Written (line r' message) | None => Reported r' end
  end.
End records.
Arguments LogRecord : clear implicits.
Arguments mkLogRecord {A}.
Arguments Emitted : clear implicits.
Arguments Dropped {A}.
Arguments Written {A}.
Arguments Reported {A}.

(** ** Configuration *)

(** The root logger's level, the filters of each of its handlers, the levels of others. *)
Record Logging := mkLogging {
  root_level : Z;
  handlers : list (list log_filter);
  levels : gmap string Z
}.

Definition WARNING : Z := 30.
Definition level_names : list (string * Z) :=
  [("CRITICAL", 50%Z); ("FATAL", 50%Z); ("ERROR", 40%Z); ("WARN", 30%Z); ("WARNING", WARNING); ("INFO", 20%Z);
   ("DEBUG", 10%Z); ("NOTSET", 0%Z)].

Definition level_of (name : string) : option Z :=
  snd <$> find (λ x, String.eqb x.1 name) level_names.

(** [logging.basicConfig(level=...)]: nothing once the root has a handler; else a handler
    is added and the level set.  The flag is false where an unknown level raises. *)
Definition basicConfig (level : string) (st : Logging) : Logging * bool :=
  match handlers st with
  | _ :: _ => (st, true)
  | [] =>
      match level_of level with
      | Some n => (mkLogging n [[]] (levels st), true)
      | None => (mkLogging (root_level st) [[]] (levels st), false)
      end
  end.

Definition addRedact (fs : list log_filter) : list log_filter :=
  if decide (RedactSecrets ∈ fs) then fs else fs ++ [RedactSecrets].

Definition configure (level : string) (st : Logging) : Logging * bool :=
  let (st1, ok) := basicConfig level st in
  if ok then
    (mkLogging (root_level st1) (map addRedact (handlers st1))
       (foldl (λ m noisy, <[noisy := WARNING]> m) (levels st1) ["httpx"; "httpcore"]), true)
  else (st1, false).

(** * What the logs do not show ([src/app/logsetup.py]) *)

(** ** Strings cut at two places *)

Lemma app_split_str (a b c d : string) :
  a +:+ b = c +:+ d → (∃ x, a = c +:+ x ∧ d = x +:+ b) ∨ (∃ x, c = a +:+ x ∧ b = x +:+ d).
Proof.
  revert c. induction a as [|ch a IH]; intros [|ch' c] E; cbn in E.
  - right. by exists "".
  - right. exists (String ch' c). by rewrite E.
  - left. exists (String ch a). by rewrite <- E.
  - injection E as -> E. apply IH in E as [(x & -> & ->)|(x & -> & ->)]; [left|right]; by exists x.
Qed.

Definition bracket (c : ascii) : bool := Ascii.eqb c "[" || Ascii.eqb c "]".
Abbreviation plain := (str_all (λ c, negb (bracket c))).

Lemma is_space_lower c : is_space (lower_char c) = is_space c.
Proof. by destruct c as [[] [] [] [] [] [] [] []]. Qed.

Lemma str_all_lower p s : (∀ c, p (lower_char c) = p c) → str_all p (lower s) = str_all p s.
Proof. intros Hp. induction s as [|c s IH]; [done|]. cbn. by rewrite Hp, <- IH. Qed.

Lemma plain_lower s : plain (lower s) = plain s.
Proof. apply str_all_lower. intros c. by destruct c as [[] [] [] [] [] [] [] []]. Qed.

(** A plain word that starts a masked text lies before the mask. *)
Lemma plain_before_mask w b g r :
  plain w = true → w +:+ b = g +:+ mask +:+ r →
  ∃ x, g = w +:+ x ∧ b = x +:+ mask +:+ r.
Proof.
  intros Hw [(x & -> & Ex)|(x & -> & ->)]%app_split_str; [|by exists x].
  destruct x as [|c x]; [exists ""; by rewrite !app_nil_str|].
  rewrite str_all_app in Hw. apply andb_true_iff in Hw as [_ Hw]. injection Ex as <- _. done.
Qed.

(** ** What a match looks like *)

Lemma m_segs_complete rs p l e : segs_match rs p l e → is_Some (m_segs rs p).
Proof.
  induction 1 as [|r rs p p1 p2 x l Hm _ _ [y IH]]; [by eexists|].
  cbn. eapply m_complete; [exact Hm|]. cbn beta. rewrite IH. destruct y. by eexists.
Qed.

Ltac listed := apply list_elem_of_In; cbn; tauto.

Definition labels : list string :=
  map (λ l, l +:+ "=")
    ["api_key"; "api-key"; "apikey"; "access_token"; "access-token"; "accesstoken"; "token"; "key"].

(** The label of a query parameter, or the scheme of an Authorization header. *)
Inductive kept (g : string) : Prop :=
  | kept_label : lower g ∈ labels → kept g
  | kept_bearer w sp : g = w +:+ sp → lower w = "bearer" → str_all is_space sp = true → kept g.

Lemma lower_plus_dash p p' :
  matches dash p p' → ∃ u, p.2 = u +:+ p'.2 ∧ lower u ∈ ["_"; "-"; ""].
Proof.
  intros [Hm|Hm]%alt_inv; inversion Hm as [|f q c s Hc| | | | | | | | | |]; subst; [|exists ""; split; [done|listed]].
  exists (String c ""). split; [done|]. unfold in_set, has_char in Hc. cbn in Hc.
  rewrite orb_false_r in Hc. apply orb_true_iff in Hc as [->%Ascii.eqb_eq| ->%Ascii.eqb_eq]; listed.
Qed.

Lemma label_text p p' : matches label_re p p' → ∃ u, p.2 = u +:+ p'.2 ∧ lower u ∈ labels.
Proof.
  assert (∀ a b p p', lower a = a → lower b = b → matches (seqs [lit_ci a; dash; lit_ci b]) p p' →
          ∃ u, p.2 = u +:+ p'.2 ∧ lower u ∈ map (λ d, a +:+ d +:+ b) ["_"; "-"; ""]) as Hd.
  { intros a b p0 p0' Ha Hb (p1 & (u1 & E1 & L1)%matches_lit_ci & Hm)%seq_inv.
    apply seq_inv in Hm as (p2 & (u2 & E2 & L2)%lower_plus_dash & (u3 & E3 & L3)%matches_lit_ci).
    exists (u1 +:+ u2 +:+ u3). rewrite E1, E2, E3, !app_assoc_str. split; [done|].
    rewrite !lower_app, L1, L3, Ha, Hb. apply list_elem_of_fmap. by exists (lower u2). }
  intros [Hm|[Hm|[Hm|Hm]%alt_inv]%alt_inv]%alt_inv.
  1,2: apply Hd in Hm as (u & E & L); [|done..]; exists u; split; [done|]; apply list_elem_of_In in L; apply list_elem_of_In; cbn in L |- *; tauto.
  all: apply matches_lit_ci in Hm as (u & E & L); exists u; split; [done|]; rewrite L; listed.
Qed.

Lemma star_text f p p' : matches (Star (Chr f)) p p' → ∃ u, p.2 = u +:+ p'.2 ∧ str_all f u = true.
Proof. apply matches_consumed. by cbn. Qed.

Lemma plus_text f p p' : matches (plus (Chr f)) p p' → ∃ u, p.2 = u +:+ p'.2 ∧ str_all f u = true ∧ u ≠ "".
Proof.
  intros (p1 & Hc & (u & E & Hu)%star_text)%seq_inv. inversion Hc as [|? q c s Hf| | | | | | | | | |]; subst.
  exists (String c u). cbn in E |- *. by rewrite E, Hf, Hu.
Qed.

Lemma app_inv_r_str (a b c : string) : a +:+ c = b +:+ c → a = b.
Proof.
  intros E. apply app_split_str in E as [(x & -> & Ex)|(x & -> & Ex)];
    apply (f_equal String.length) in Ex; rewrite length_append_str in Ex;
    (destruct x; [by rewrite app_nil_str|cbn in Ex; lia]).
Qed.

Lemma segs_pair a b p l e :
  segs_match [a; b] p l e →
  ∃ x y p1, l = [x; y] ∧ matches a p p1 ∧ p.2 = x +:+ p1.2 ∧ matches b p1 e ∧ p1.2 = y +:+ e.2.
Proof.
  intros Hs. inversion Hs as [|? ? ? p1 ? x ? Hm Hx Hr]. subst.
  inversion Hr as [|? ? ? p2 ? y ? Hm2 Hy Hn]. subst. inversion Hn. subst. by exists x, y, p1.
Qed.

(** A starred or repeated class of characters at the end of a pattern takes all there are. *)
Lemma star_greedy {A} f (h : pos → A) n p x :
  (String.length p.2 ≤ n)%nat → star_loop (m (Chr f)) (λ p', Some (h p')) n p = Some x →
  ∃ p', x = h p' ∧ no_char f (head_char p'.2) = true.
Proof.
  revert p. induction n as [|n IH]; intros [q [|c t]] Hn H; cbn [length String.length snd] in Hn; try lia.
  - injection H as <-. by exists (q, "").
  - injection H as <-. by exists (q, "").
  - cbn [star_loop m snd] in H. destruct (f c) eqn:Ef.
    + rewrite (proj2 (Nat.ltb_lt _ _)) in H by (cbn; lia).
      destruct (star_loop _ _ n (Some c, t)) as [y|] eqn:E; [|by destruct n; cbn in E; repeat case_match].
      injection H as <-. apply IH in E; [done|cbn; lia].
    + injection H as <-. exists (q, String c t). split; [done|]. cbn. by rewrite Ef.
Qed.

Lemma segs_greedy r r' f p l e :
  m_segs [r; Seq r' (Star (Chr f))] p = Some (l, e) → no_char f (head_char e.2) = true.
Proof.
  cbn [m_segs]. intros (p1 & _ & H)%m_sound.
  destruct (m _ p1 _) as [[l' e']|] eqn:E; [|done]. injection H as _ <-. cbn [m] in E.
  apply m_sound in E as (p2 & _ & E). apply star_greedy in E as (p3 & E & Hn); [|done]. by injection E as _ ->.
Qed.

(** The credential [v] after [g], up to where it ends: the value of a parameter, or a token
    of eight characters or more. *)
Inductive secret (g v rest : string) : Prop :=
  | secret_label :
      lower g ∈ labels → v ≠ "" → str_all (λ c, negb (value_end c)) v = true →
      no_char (λ c, negb (value_end c)) (head_char rest) = true → secret g v rest
  | secret_bearer w sp :
      g = w +:+ sp → lower w = "bearer" → sp ≠ "" → str_all is_space sp = true →
      (8 ≤ String.length v)%nat → str_all token_char v = true →
      no_char token_char (head_char rest) = true → secret g v rest.

Lemma secret_kept g v rest : secret g v rest → kept g ∧ v ≠ "".
Proof.
  intros [Hl Hv _ _|w sp -> Hw _ Hsp Hv _ _]; [split; [by constructor|done]|].
  split; [by eapply kept_bearer|]. intros ->. cbn in Hv. lia.
Qed.

Lemma rep_text n f p p' :
  matches (rep n (Chr f)) p p' → ∃ u, p.2 = u +:+ p'.2 ∧ str_all f u = true ∧ String.length u = n.
Proof.
  revert p. induction n as [|n IH]; intros p Hm; [inversion Hm; subst; by exists ""|].
  apply seq_inv in Hm as (p1 & Hc & (u & E & Hu & Hl)%IH). inversion Hc as [|? q c t Hf| | | | | | | | | |]; subst.
  exists (String c u). cbn in E |- *. by rewrite E, Hf, Hu.
Qed.

Lemma secret_at_secret q s g q' rest :
  secret_at (q, s) = Some (g, (q', rest)) → ∃ v, s = g +:+ v +:+ rest ∧ secret g v rest.
Proof.
  unfold secret_at. intros H. destruct (m_segs [label_re; value_re] _) as [[l e]|] eqn:E1.
  - injection H as <- ->. pose proof (segs_greedy _ _ _ _ _ _ E1) as Hg.
    apply m_segs_sound, segs_pair in E1 as (x & y & p1 & -> & (u & E & L)%label_text & Hx & Hy & Ey). cbn in *.
    apply plus_text in Hy as (v & E2 & Hv & Hne). cbn in E2.
    rewrite E in Hx. apply app_inv_r_str in Hx as <-. exists v. split; [by rewrite E, E2|by apply secret_label].
  - destruct (m_segs [bearer_re; token_re] _) as [[l e]|] eqn:E2; [|done]. injection H as <- ->.
    pose proof (segs_greedy _ _ _ _ _ _ E2) as Hg.
    apply m_segs_sound, segs_pair in E2 as (x & y & p1 & -> & Hl & Hx & Hy & Ey). cbn in Hx, Ey, Hg |- *.
    apply seq_inv in Hl as (p0 & (u & E & L)%matches_lit_ci & (sp & E3 & Hsp & Hne)%plus_text). cbn in E.
    assert (x = u +:+ sp) as -> by (apply (app_inv_r_str _ _ p1.2); by rewrite <- Hx, E, E3, app_assoc_str).
    apply seq_inv in Hy as (p2 & (v1 & Ev1 & H1 & L1)%rep_text & (v2 & Ev2 & H2)%star_text). cbn in Ev2.
    exists (v1 +:+ v2). rewrite Hx, Ev1, Ev2, !app_assoc_str. split; [done|].
    eapply secret_bearer; [done|done|done|done| | |done].
    + rewrite length_append_str. lia.
    + by rewrite str_all_app, H1, H2.
Qed.

Lemma secret_at_spec q s g q' rest :
  secret_at (q, s) = Some (g, (q', rest)) → kept g ∧ ∃ v, s = g +:+ v +:+ rest ∧ v ≠ "".
Proof. intros (v & E & [Hk Hv]%secret_kept)%secret_at_secret. eauto. Qed.

(** ** The masked text against the text *)

(** What follows: the same character, or a mask. *)
Definition follows (b b0 : string) : Prop := head_char b = head_char b0 ∨ startswith b mask = true.

Lemma redact_prefix fuel q s w b :
  (String.length s < fuel)%nat → plain w = true → redact_from fuel q s = w +:+ b →
  ∃ b0, s = w +:+ b0 ∧ follows b b0.
Proof.
  revert q s w. induction fuel as [|fuel IH]; intros q s w Hf Hw E; [lia|]. cbn [redact_from] in E.
  destruct (secret_at (q, s)) as [[g [q' rest]]|] eqn:Es.
  - apply secret_at_spec in Es as (_ & v & -> & Hv). symmetry in E.
    apply plain_before_mask in E as (x & -> & ->); [|done]. exists (x +:+ v +:+ rest).
    split; [by rewrite !app_assoc_str|]. destruct x as [|c x]; [right; apply (prefix_app mask)|by left].
  - destruct w as [|d w].
    { exists s. split; [done|]. destruct s as [|c s]; cbn in E; subst; by left. }
    destruct s as [|c s]; [done|]. injection E as -> E. cbn in Hw, Hf. apply andb_true_iff in Hw as [_ Hw].
    apply IH in E as (b0 & -> & Hb); [|lia|done]. by exists b0.
Qed.

(** Where a plain word of the masked text comes from: characters the scan passed over, the
    part of a match that is kept, or the mask itself. *)
Lemma redact_occurrence fuel q s a w b :
  (String.length s < fuel)%nat → plain w = true → w ≠ "" → redact_from fuel q s = a +:+ w +:+ b →
  (∃ q' b0, secret_at (q', w +:+ b0) = None ∧ follows b b0) ∨
  (∃ g a' x, kept g ∧ g = a' +:+ w +:+ x ∧ startswith b (x +:+ mask) = true) ∨
  (∃ u x r, mask = u +:+ x ∧ x ≠ "" ∧ w +:+ b = x +:+ r).
Proof.
  intros Hf Hw Hne. revert q s a Hf. induction fuel as [|fuel IH]; intros q s a Hf E; [lia|].
  pose proof E as E0. cbn [redact_from] in E. destruct (secret_at (q, s)) as [[g [q' rest]]|] eqn:Es.
  - apply secret_at_spec in Es as (Hk & v & -> & Hv). rewrite !length_append_str in Hf.
    symmetry in E. apply app_split_str in E as [(x & -> & E)|(x & -> & E)].
    + symmetry in E. apply app_split_str in E as [(y & -> & E)|(y & E & Ew)].
      * apply (IH q' rest y); [|done]. destruct v; [done|cbn in Hf; lia].
      * destruct y as [|c y]; [|right; right; by exists x, (String c y), (redact_from fuel q' rest)].
        rewrite app_nil_str in E. subst x. cbn in Ew. apply (IH q' rest ""); [|by rewrite Ew].
        destruct v; [done|cbn in Hf; lia].
    + apply plain_before_mask in E as (y & -> & ->); [|done]. right. left. exists (a +:+ w +:+ y), a, y.
      split_and!; [done..|]. unfold startswith. rewrite <- app_assoc_str. apply prefix_app.
  - destruct a as [|c a].
    + left. exists q. apply (redact_prefix _ _ _ w b) in E0 as (b0 & -> & Hb); [|done..]. by exists b0.
    + destruct s as [|d s]; [done|]. injection E as -> E. cbn in Hf. apply (IH (Some c) s a); [lia|done].
Qed.

(** A word that is not a piece of the mask. *)
Lemma not_in_mask u x r w0 w b :
  mask = u +:+ x → x ≠ "" → w +:+ b = x +:+ r → lower w = w0 → w0 ∈ ["key="; "token="; "bearer"] → False.
Proof.
  intros Em Hx E Hw Hin. apply (f_equal lower) in E. rewrite !lower_app, Hw in E. clear Hw.
  apply list_elem_of_In in Hin. unfold mask in Em.
  repeat (destruct u as [|? u]; [cbn in Em; subst x; cbn in Hin, E; naive_solver|injection Em as _ Em]).
  destruct u; [by subst|done].
Qed.

Lemma label_shape l : l ∈ labels → ∃ l0, l = l0 +:+ "=" ∧ has_char "=" l0 = false ∧ str_any is_space l0 = false.
Proof.
  intros (l0 & -> & Hl)%list_elem_of_fmap. exists l0. split; [done|].
  apply list_elem_of_In in Hl. cbn in Hl. repeat destruct Hl as [<-|Hl]; done.
Qed.

Lemma equals_last l y z : has_char "=" l = false → l +:+ "=" = y +:+ "=" +:+ z → z = "".
Proof.
  revert y. induction l as [|c l IH]; intros [|d y] Hl E; cbn in *; try done.
  - by injection E as ->.
  - injection E as _ E. by destruct y.
  - injection E as -> _. done.
  - injection E as _ E. apply orb_false_iff in Hl as [_ Hl]. by eapply IH.
Qed.

Lemma no_equals_in_spaces sp : str_all is_space sp = true → has_char "=" sp = false.
Proof.
  unfold has_char. induction sp as [|c sp IH]; [done|]. cbn. intros [Hc Hs]%andb_true_iff. rewrite (IH Hs), orb_false_r.
  destruct (Ascii.eqb "=" c) eqn:E; [|exact E]. apply Ascii.eqb_eq in E as <-. by vm_compute in Hc.
Qed.

(** A label in the kept part of a match ends it. *)
Lemma kept_label_last g a w x :
  kept g → g = a +:+ w +:+ x → lower w ∈ ["key="; "token="] → x = "".
Proof.
  intros Hk -> Hw. assert (∃ w0, lower w = w0 +:+ "=") as [w0 Ew].
  { apply list_elem_of_In in Hw. cbn in Hw. destruct Hw as [<-|[<-|[]]]; [by exists "key"|by exists "token"]. }
  destruct Hk as [Hl|w1 sp E Hb Hsp].
  - rewrite !lower_app, Ew in Hl. apply label_shape in Hl as (l0 & E & Hl & _).
    assert (lower x = "") as Hx; [|by destruct x].
    apply (equals_last l0 (lower a +:+ w0)); [done|]. by rewrite <- E, !app_assoc_str.
  - apply (f_equal lower) in E. rewrite !lower_app, Ew, Hb in E.
    assert (has_char "=" ("bearer" +:+ lower sp) = true) as Hc.
    { rewrite <- E, !has_char_app. cbn. by rewrite !orb_true_r. }
    rewrite has_char_app in Hc. cbn in Hc. rewrite no_equals_in_spaces in Hc; [done|].
    by rewrite (str_all_lower _ _ is_space_lower).
Qed.

(** White space in the kept part of a match is followed by nothing else. *)
Lemma kept_space_last g a c t x :
  kept g → g = a +:+ String c t +:+ x → is_space c = true → str_all is_space t = true.
Proof.
  intros Hk -> Hc. destruct Hk as [Hl|w sp E Hb Hsp].
  - rewrite !lower_app in Hl. apply label_shape in Hl as (l0 & E & _ & Hl). exfalso.
    assert (str_any is_space (l0 +:+ "=") = true) as Hs; [rewrite <- E|].
    + assert (∀ y z, str_any is_space (y +:+ z) = str_any is_space y || str_any is_space z) as Happ.
      { intros y z. induction y as [|d y IH]; [done|]. cbn. by rewrite IH, orb_assoc. }
      rewrite !Happ. cbn. by rewrite is_space_lower, Hc, orb_true_r.
    + revert Hs Hl. clear. induction l0 as [|d l0 IH]; [done|]. cbn. destruct (is_space d); [done|]. apply IH.
  - assert (str_any is_space w = false) as Hw.
    { assert (str_any is_space (lower w) = str_any is_space w) as <-; [|by rewrite Hb].
      clear. induction w as [|d w IH]; [done|]. cbn. by rewrite is_space_lower, <- IH. }
    clear Hb. revert a E. induction w as [|d w IH]; intros a E; cbn in E.
    + rewrite <- E, !str_all_app in Hsp. cbn [str_all] in Hsp.
      rewrite str_all_app, !andb_true_iff in Hsp. apply Hsp.
    + cbn in Hw. apply orb_false_iff in Hw as [Hd Hw]. destruct a as [|d' a]; [|by injection E as _ E; eapply IH].
      injection E as -> _. congruence.
Qed.

(** ** Nothing that looks like a credential is left *)

(** No label is followed by the first character of a value - one that is not a quote, an
    ampersand or white space - unless that starts the mask; no Bearer scheme is followed by
    eight characters of a token.  A value between quotes does not start with a value
    character, so it may be there: [quoted_value]. *)
Definition masked_text (t : string) : Prop :=
  (∀ a w b, t = a +:+ w +:+ b → lower w ∈ ["key="; "token="] →
     no_char (λ c, negb (value_end c)) (head_char b) = true ∨ startswith b mask = true) ∧
  (∀ a w sp tok b, t = a +:+ w +:+ sp +:+ tok +:+ b → lower w = "bearer" →
     sp ≠ "" → str_all is_space sp = true → str_all token_char tok = true → (String.length tok < 8)%nat).

Lemma label_accepted q w c b :
  lower w ∈ ["key="; "token="] → value_end c = false → secret_at (q, w +:+ String c b) ≠ None.
Proof.
  intros Hw Hc. assert (∃ q', matches label_re (q, w +:+ String c b) (q', String c b)) as [q' Hl].
  { apply list_elem_of_In in Hw. cbn in Hw. destruct Hw as [Hw|[Hw|[]]].
    - destruct (lit_ci_accepts "key=" q w (String c b)) as [q' Hm]; [by rewrite <- Hw|].
      exists q'. unfold label_re. cbn [alts]. auto with ee.
    - destruct (lit_ci_accepts "token=" q w (String c b)) as [q' Hm]; [by rewrite <- Hw|].
      exists q'. unfold label_re. cbn [alts]. auto with ee. }
  assert (is_Some (m_segs [label_re; value_re] (q, w +:+ String c b))) as [[l e] E].
  { eapply m_segs_complete, sm_cons; [exact Hl|done|]. eapply (sm_cons _ [] _ (Some c, b) _ (String c "")); [|done|constructor].
    eapply mt_seq; [constructor; by rewrite Hc|constructor]. }
  unfold secret_at. by rewrite E.
Qed.

Lemma bearer_accepted q w sp tok b :
  lower w = "bearer" → sp ≠ "" → str_all is_space sp = true → str_all token_char tok = true →
  String.length tok = 8%nat → secret_at (q, (w +:+ sp +:+ tok) +:+ b) ≠ None.
Proof.
  intros Hw Hne Hsp Ht Hlen.
  destruct (lit_ci_accepts "bearer" q w (sp +:+ tok +:+ b)) as [q1 H1]; [by rewrite Hw|].
  destruct (plus_accepts is_space q1 sp (tok +:+ b) Hne Hsp) as [q2 H2].
  destruct (rep_accepts token_char q2 tok b Ht) as [q3 H3]. rewrite Hlen in H3.
  assert (is_Some (m_segs [bearer_re; token_re] (q, (w +:+ sp +:+ tok) +:+ b))) as [[l e] E].
  { rewrite !app_assoc_str. eapply m_segs_complete, (sm_cons _ _ _ (q2, tok +:+ b) _ (w +:+ sp)).
    - eapply mt_seq; [exact H1|exact H2].
    - cbn. by rewrite app_assoc_str.
    - eapply (sm_cons _ [] _ (q3, b) _ tok); [|done|constructor]. eapply mt_seq; [exact H3|constructor]. }
  unfold secret_at. rewrite E. by destruct (m_segs [label_re; value_re] _) as [[]|].
Qed.

Lemma all_disjoint (p q : ascii → bool) s :
  (∀ c, p c = true → q c = true → False) → str_all p s = true → str_all q s = true → s = "".
Proof. intros Hpq. destruct s as [|c s]; [done|]. cbn. intros ? ?. bool_to_prop. exfalso. eauto. Qed.

Lemma token_not_space c : token_char c = true → is_space c = true → False.
Proof. by destruct c as [[] [] [] [] [] [] [] []]. Qed.

Lemma space_plain c : is_space c = true → negb (bracket c) = true.
Proof. by destruct c as [[] [] [] [] [] [] [] []]. Qed.

Lemma token_plain c : token_char c = true → negb (bracket c) = true.
Proof. by destruct c as [[] [] [] [] [] [] [] []]. Qed.

Lemma redact_labels s a w b :
  redact s = a +:+ w +:+ b → lower w ∈ ["key="; "token="] →
  no_char (λ c, negb (value_end c)) (head_char b) = true ∨ startswith b mask = true.
Proof.
  intros E Hw. assert (w ≠ "") as Hne by (intros ->; apply list_elem_of_In in Hw; cbn in Hw; naive_solver).
  assert (plain w = true) as Hp.
  { rewrite <- plain_lower. apply list_elem_of_In in Hw. cbn in Hw. by destruct Hw as [<-|[<-|[]]]. }
  apply redact_occurrence in E as [(q' & b0 & Hs & [Eb|Hb])|[(g & a' & x & Hk & Eg & Hb)|(u & x & r & Em & Hx & Ex)]];
    [| | | |lia|done|done].
  - left. rewrite Eb. destruct b0 as [|c b0]; [done|]. cbn. rewrite negb_involutive.
    destruct (value_end c) eqn:Ev; [done|]. by apply label_accepted in Hs.
  - by right.
  - apply kept_label_last in Eg as ->; [|done..]. by right.
  - exfalso. eapply not_in_mask; [done..|]. apply list_elem_of_In in Hw. apply list_elem_of_In. cbn in Hw |- *. tauto.
Qed.

Lemma redact_bearer s a w sp tok b :
  redact s = a +:+ w +:+ sp +:+ tok +:+ b → lower w = "bearer" →
  sp ≠ "" → str_all is_space sp = true → str_all token_char tok = true → (String.length tok < 8)%nat.
Proof.
  intros E Hw Hne Hsp Ht. apply Nat.nle_gt. intros Hlen.
  assert (∃ t8 t', tok = t8 +:+ t' ∧ String.length t8 = 8%nat) as (t8 & t' & -> & H8).
  { do 8 (destruct tok as [|? tok]; [cbn in Hlen; lia|]). by eexists (String _ (String _ (String _ (String _ (String _ (String _ (String _ (String _ "")))))))), tok. }
  rewrite str_all_app in Ht. apply andb_true_iff in Ht as [Ht _].
  assert (redact s = a +:+ (w +:+ sp +:+ t8) +:+ t' +:+ b) as E' by (rewrite E; by rewrite !app_assoc_str).
  apply redact_occurrence in E' as [(q' & b0 & Hs & _)|[(g & a' & x & Hk & Eg & _)|(u & x & r & Em & Hx & Ex)]]; [| | |lia| |].
  - by apply bearer_accepted in Hs.
  - destruct sp as [|c sp]; [done|]. cbn in Hsp. apply andb_true_iff in Hsp as [Hc _].
    apply (kept_space_last g (a' +:+ w) c (sp +:+ t8) x) in Hk; [|rewrite Eg, !app_assoc_str; cbn; by rewrite !app_assoc_str|done].
    rewrite str_all_app in Hk. apply andb_true_iff in Hk as [_ Hk].
    apply (all_disjoint _ _ t8 token_not_space Ht) in Hk as ->. done.
  - rewrite app_assoc_str in Ex. eapply not_in_mask; [done..|]. listed.
  - rewrite !str_all_app, <- plain_lower, Hw. cbn.
    by rewrite (str_all_impl _ _ _ space_plain Hsp), (str_all_impl _ _ _ token_plain Ht).
  - by destruct w.
Qed.

Lemma redact_masked s : masked_text (redact s).
Proof. split; eauto using redact_labels, redact_bearer. Qed.

(** ** Nothing else is changed *)

(** The second text is the first with some credentials, each whole, replaced by the mask. *)
Inductive masks : string → string → Prop :=
  | masks_nil : masks "" ""
  | masks_char c s t : masks s t → masks (String c s) (String c t)
  | masks_value g v s t : secret g v s → masks s t → masks (g +:+ v +:+ s) (g +:+ mask +:+ t).

Lemma redact_masks s : masks s (redact s).
Proof.
  unfold redact. generalize (@None ascii). assert (String.length s < S (String.length s))%nat as Hf by lia.
  revert Hf. generalize (S (String.length s)) as fuel. intros fuel. revert s.
  induction fuel as [|fuel IH]; intros s Hf q; [lia|]. cbn [redact_from].
  destruct (secret_at (q, s)) as [[g [q' rest]]|] eqn:Es.
  - apply secret_at_secret in Es as (v & -> & Hs). rewrite !length_append_str in Hf.
    apply masks_value; [done|]. apply IH. destruct (secret_kept _ _ _ Hs). destruct v; [done|cbn in Hf; lia].
  - destruct s as [|c s]; constructor. apply IH. cbn in Hf. lia.
Qed.

Lemma contains_app_mid a x b y : contains x y = true → contains (a +:+ x +:+ b) y = true.
Proof.
  intros (u & v & ->)%contains_spec. apply contains_spec. exists (a +:+ u), (v +:+ b). by rewrite !app_assoc_str.
Qed.

Lemma kept_says g : kept g → any (contains (lower g)) ["key="; "token="; "bearer"] = true.
Proof.
  intros [Hl|w sp -> Hw _].
  - apply list_elem_of_In in Hl. cbn [labels In map] in Hl. repeat destruct Hl as [<-|Hl]; done.
  - rewrite lower_app, Hw. apply existsb_exists. exists "bearer". split; [cbn; tauto|]. by eapply contains_app_l.
Qed.

Lemma redact_unchanged s :
  any (contains (lower s)) ["key="; "token="; "bearer"] = false → redact s = s.
Proof.
  intros Hn. pose proof (redact_masks s) as Hm. revert Hn.
  induction Hm as [|c s t Hm IH|g v s t [Hk Hv]%secret_kept Hm IH]; [done|..]; intros Hn.
  - f_equal. apply IH. apply not_true_iff_false in Hn. apply not_true_iff_false. intros Hy. apply Hn.
    apply existsb_exists in Hy as (x & Hx & Hc). apply existsb_exists. exists x. split; [done|].
    unfold lower in *. cbn [str_map]. by rewrite contains_cons, Hc, orb_true_r.
  - apply not_true_iff_false in Hn as []. apply kept_says, existsb_exists in Hk as (x & Hx & Hc).
    apply existsb_exists. exists x. split; [done|]. rewrite !lower_app. by apply (contains_app_mid "").
Qed.

Example redact_line :
  redact "GET https://x/api?api_key=jina_abc123&x=1 Authorization: Bearer ts_live_abcdefghij" =
  "GET https://x/api?api_key=[redacted]&x=1 Authorization: Bearer [redacted]".
Proof. vm_compute. reflexivity. Qed.

(** ** What the pattern does not see

    A scheme after a label takes the label's mask and the token after it stays; a quoted
    value does not start with a value character. *)
Example scheme_after_label :
  redact "token=Bearer sk_live_12345678" = "token=[redacted] sk_live_12345678".
Proof. vm_compute. reflexivity. Qed.

Example quoted_value :
  let quote := String "034" "" in
  redact ("api_key=" +:+ quote +:+ "jina_abc123" +:+ quote) = "api_key=" +:+ quote +:+ "jina_abc123" +:+ quote.
Proof. vm_compute. reflexivity. Qed.

(** ** The configured process *)

Section configured.
Context {A : Type} (percent : string → A → option string).
Context (other : N → LogRecord A → bool * LogRecord A).

Lemma filter_passes (r : LogRecord A) : (filter percent r).1 = true.
Proof. unfold filter. by destruct (getMessage percent r). Qed.

Lemma filter_line (r : LogRecord A) m0 :
  getMessage percent r = Some m0 →
  getMessage percent (filter percent r).2 = Some (redact m0) ∧
  ∀ text, line (filter percent r).2 text = line r text.
Proof.
  unfold filter. intros E. rewrite E. cbn [snd]. destruct (String.eqb_spec (redact m0) m0) as [Em|]; [|done].
  rewrite E. split; [exact (f_equal Some (eq_sym Em))|done].
Qed.

Lemma through_app fs gs (r : LogRecord A) :
  through percent other (fs ++ gs) r = through percent other fs r ≫= through percent other gs.
Proof.
  revert r. induction fs as [|f fs IH]; intros r; [done|]. cbn [app through].
  destruct (match f with RedactSecrets => _ | OtherFilter i => _ end) as [[] r']; [apply IH|done].
Qed.

Lemma handle_redacting fs (r : LogRecord A) :
  handle percent other (fs ++ [RedactSecrets]) r =
    match through percent other fs r with
    | None => Dropped
    | Some r' =>
        match getMessage percent r' with
        | Some m0 => Written (line r' (redact m0))
        | None => Reported r'
        end
    end.
Proof.
  unfold handle. rewrite through_app. destruct (through percent other fs r) as [r'|]; [|done].
  change (Some r' ≫= through percent other [RedactSecrets]) with (through percent other [RedactSecrets] r').
  cbn [through]. pose proof (filter_passes r') as Hp. destruct (getMessage percent r') as [m0|] eqn:E.
  - destruct (filter_line r' m0 E) as [Em El]. destruct (filter percent r') as [p r'']. cbn in Hp, Em, El. subst p.
    by rewrite Em, El.
  - unfold filter. rewrite E. cbn. by rewrite E.
Qed.

Lemma addRedact_fixed fs : addRedact (addRedact fs) = addRedact fs.
Proof.
  unfold addRedact. destruct (decide (RedactSecrets ∈ fs)) as [Hin|Hin]; [by rewrite decide_True|].
  rewrite decide_True; [done|set_solver].
Qed.

Lemma configure_handlers level st st' :
  configure level st = (st', true) →
  handlers st' = map addRedact (handlers (basicConfig level st).1) ∧ handlers st' ≠ [] ∧
  levels st' = <["httpcore" := WARNING]> (<["httpx" := WARNING]> (levels st)).
Proof.
  unfold configure. destruct (basicConfig level st) as [st1 ok] eqn:E. destruct ok; [|done]. intros [= <-].
  unfold basicConfig in E. destruct (handlers st) as [|h hs] eqn:Eh.
  - destruct (level_of level); [|done]. by injection E as <-.
  - injection E as <-. cbn. by rewrite Eh.
Qed.

(** C32: after a successful [configure] of a process whose handlers carry no redaction yet,
    the root logger has a handler, and every handler redacts after its other filters: a
    record they let through is written in the format of [basicConfig] with its message
    replaced by one in which whole credentials, and nothing else, give way to the mask - the
    value of a parameter [key=] or [token=] up to the next quote, ampersand or white space,
    and a Bearer token of eight characters or more - and none is left: what follows such a
    label is the mask, or no value (the end, an ampersand, white space or a quote), and no
    Bearer scheme is followed by such a token.  So a value between quotes is not masked, nor
    the token after a scheme that was itself masked as a value, as in [token=Bearer x].  Only the message is cleaned: the traceback of the record
    follows it as it is, and a record whose arguments do not fit is reported as it is.  httpx
    and httpcore are held at WARNING, and configuring again, with any level, changes
    nothing. *)
Theorem logs_masked level st st' :
  configure level st = (st', true) → (∀ fs, fs ∈ handlers st → RedactSecrets ∉ fs) →
  handlers st' ≠ [] ∧
  (∀ fs, fs ∈ handlers st' →
     ∃ fs0, fs = fs0 ++ [RedactSecrets] ∧ (fs0 = [] ∨ fs0 ∈ handlers st) ∧
     ∀ r, match through percent other fs0 r with
          | None => handle percent other fs r = Dropped
          | Some r' =>
              match getMessage percent r' with
              | None => handle percent other fs r = Reported r'
              | Some m0 =>
                  ∃ message, handle percent other fs r = Written (line r' message) ∧
                    masks m0 message ∧ masked_text message
              end
          end) ∧
  levels st' !! "httpx" = Some WARNING ∧ levels st' !! "httpcore" = Some WARNING ∧
  (∀ level', configure level' st' = (st', true)).
Proof.
  intros Hc Hn. destruct (configure_handlers _ _ _ Hc) as (Eh & Hne & El). split_and!.
  - done.
  - intros fs Hin. rewrite Eh in Hin. apply list_elem_of_fmap in Hin as (fs0 & -> & Hin). exists fs0.
    assert ((fs0 = [] ∨ fs0 ∈ handlers st) ∧ RedactSecrets ∉ fs0) as [Hfs Hr].
    { unfold basicConfig in Hin. destruct (handlers st) as [|h hs] eqn:E; [|cbn in Hin; rewrite E in Hin; auto].
      destruct (level_of level); cbn in Hin; apply list_elem_of_singleton in Hin as ->; auto using not_elem_of_nil. }
    assert (addRedact fs0 = fs0 ++ [RedactSecrets]) as -> by (unfold addRedact; by rewrite decide_False).
    split_and!; [done..|]. intros r. rewrite handle_redacting. destruct (through percent other fs0 r) as [r'|]; [|done].
    destruct (getMessage percent r') as [m0|]; [|done]. exists (redact m0). auto using redact_masks, redact_masked.
  - rewrite El. by rewrite lookup_insert_ne, lookup_insert_eq.
  - rewrite El. by rewrite lookup_insert_eq.
  - intros level'. assert (basicConfig level' st' = (st', true)) as Eb by (unfold basicConfig; by destruct (handlers st')).
    unfold configure. rewrite Eb. destruct st' as [rl hs lv]. cbn in Eh, El |- *. f_equal. f_equal.
    + rewrite Eh, map_map. apply map_ext, addRedact_fixed.
    + rewrite El. apply map_eq. intros k. rewrite !lookup_insert. by repeat case_decide.
Qed.
End configured.

Lemma logs_masked_witness :
  let percent (m : string) (a : string) := Some (m +:+ a) in
  let other (i : N) (r : LogRecord string) := (true, r) in
  let r := mkLogRecord "INFO" "httpx" "GET https://h/?" (Some "api_key=SECRET999") None None in
  let st := mkLogging 30 [] ∅ in
  let st' := (configure "INFO" st).1 in
  handle percent other [RedactSecrets] r = Written "INFO:httpx:GET https://h/?api_key=[redacted]" ∧
  handlers st' = [[RedactSecrets]] ∧
  ∃ fs0, [RedactSecrets] = fs0 ++ [RedactSecrets] ∧ (fs0 = [] ∨ fs0 ∈ handlers st) ∧
    ∃ r' m0 message, through percent other fs0 r = Some r' ∧ getMessage percent r' = Some m0 ∧ masks m0 message.
Proof.
  intros percent other r st st'. split; [vm_compute; reflexivity|]. split; [reflexivity|].
  assert (configure "INFO" st = (st', true)) as Hc by reflexivity.
  assert (∀ fs, fs ∈ handlers st → RedactSecrets ∉ fs) as Hn by (intros fs Hfs; apply elem_of_nil in Hfs as []).
  assert ([RedactSecrets] ∈ handlers st') as Hin by (apply list_elem_of_In; left; reflexivity).
  destruct (proj1 (proj2 (logs_masked percent other "INFO" st st' Hc Hn)) [RedactSecrets] Hin) as (fs0 & E & Hfs & H).
  exists fs0. split; [exact E|]. split; [exact Hfs|]. specialize (H r).
  destruct fs0 as [|f fs0]; [|destruct fs0; discriminate E].
  destruct H as (message & _ & Hm & _). exists r, "GET https://h/?api_key=SECRET999", message.
  split; [reflexivity|]. split; [reflexivity|exact Hm].
Defined.

(** The traceback of an exception whose text holds a key is written with it. *)
Example traceback_not_masked :
  let r := mkLogRecord "ERROR" "worker" "claim_failed" (@None unit) (Some "ValueError: api_key=SECRET999") None in
  handle (λ m _, Some m) (λ _ r, (true, r)) [RedactSecrets] r =
    Written ("ERROR:worker:claim_failed" +:+ newline +:+ "ValueError: api_key=SECRET999").
Proof. vm_compute. reflexivity. Qed.
