(* ===== verification/DbSession.v ===== *)
(** * Engines and session factories ([src/app/db.py])

    The two module dictionaries, keyed by the running event loop.  An engine is a number with
    the settings it was made with; disposing one is recorded, since its connections are gone.
    A loop is known by [id], which Python may give to a later loop once the first is gone. *)

From Stdlib Require Import ZArith NArith String Lia.
From stdpp Require Import base strings option gmap list.
From S2P Require Import Prelude Models.

Record Engine := mkEngine {
  engine_no : N;
  engine_url : string;
  engine_pool_size : Z;
  engine_max_overflow : Z
}.

(** [engines] and [sessionmakers] are the dictionaries; a session factory is its engine. *)
Record Plumbing := mkPlumbing {
  engines : gmap Z Engine;
  sessionmakers : gmap Z Engine;
  made : N;
  disposed : list N
}.

Definition no_engines : Plumbing := mkPlumbing ∅ ∅ 0 [].

(** [running] is the id of the running loop, if one runs. *)
Definition loop_key (running : option Z) : Z := default 0%Z running.

Section session.
Context (settings : Settings).

Definition create_async_engine (no : N) : Engine :=
  mkEngine no (database_url settings) (db_pool_size settings) (db_max_overflow settings).

Definition get_engine (running : option Z) (st : Plumbing) : Engine * Plumbing :=
  let key := loop_key running in
  match engines st !! key with
  | Some e => (e, st)
  | None =>
      let e := create_async_engine (made st) in
      (e, mkPlumbing (<[key := e]> (engines st)) (sessionmakers st) (made st + 1) (disposed st))
  end.

Definition get_sessionmaker (running : option Z) (st : Plumbing) : Engine * Plumbing :=
  let key := loop_key running in
  match sessionmakers st !! key with
  | Some e => (e, st)
  | None =>
      let (e, st1) := get_engine running st in
      (e, mkPlumbing (engines st1) (<[key := e]> (sessionmakers st1)) (made st1) (disposed st1))
  end.

Definition dispose_engine (running : option Z) (st : Plumbing) : Plumbing :=
  let key := loop_key running in
  mkPlumbing (delete key (engines st)) (delete key (sessionmakers st)) (made st)
    (match engines st !! key with Some e => engine_no e :: disposed st | None => disposed st end).

(** ** Every factory is on a live engine of its loop *)

(** The factories are on the engines of the same key; engines were made, are not disposed
    and are not shared between keys. *)
Record plumbing_ok (st : Plumbing) : Prop := {
  ok_factories : sessionmakers st ⊆ engines st;
  ok_live : ∀ k e, engines st !! k = Some e → engine_no e ∉ disposed st;
  ok_made : ∀ k e, engines st !! k = Some e → (engine_no e < made st)%N;
  ok_gone : ∀ n, n ∈ disposed st → (n < made st)%N;
  ok_distinct : ∀ k k' e e', engines st !! k = Some e → engines st !! k' = Some e' →
    engine_no e = engine_no e' → k = k'
}.

Lemma no_engines_ok : plumbing_ok no_engines.
Proof. split; cbn; try done; set_solver. Qed.

Lemma get_engine_ok running st :
  plumbing_ok st → plumbing_ok (get_engine running st).2 ∧
  engines (get_engine running st).2 !! loop_key running = Some (get_engine running st).1.
Proof.
  intros Hok. unfold get_engine. destruct (engines st !! loop_key running) as [e|] eqn:E; [done|]. cbn.
  split; [|by rewrite lookup_insert_eq]. destruct Hok as [Hf Hl Hm Hg Hd]. split; cbn.
  - etransitivity; [exact Hf|]. by apply insert_subseteq.
  - intros k e [[<- <-]|[_ He]]%lookup_insert_Some; [|by eapply Hl]. cbn. intros Hn%Hg. lia.
  - intros k e [[<- <-]|[_ He]]%lookup_insert_Some; [cbn; lia|]. apply Hm in He. lia.
  - intros n Hn%Hg. lia.
  - intros k k' e e' [[<- <-]|[? He]]%lookup_insert_Some [[<- <-]|[? He']]%lookup_insert_Some En; cbn in En;
      [done|apply Hm in He'; lia|apply Hm in He; lia|by eapply Hd].
Qed.

Lemma get_sessionmaker_ok running st :
  plumbing_ok st → plumbing_ok (get_sessionmaker running st).2 ∧
  sessionmakers (get_sessionmaker running st).2 !! loop_key running = Some (get_sessionmaker running st).1.
Proof.
  intros Hok. unfold get_sessionmaker. destruct (sessionmakers st !! loop_key running) as [e|] eqn:E; [done|].
  destruct (get_engine_ok running st Hok) as [Hok1 He]. destruct (get_engine running st) as [e st1]. cbn in *.
  split; [|by rewrite lookup_insert_eq]. destruct Hok1 as [Hf Hl Hm Hg Hd]. split; cbn; try done.
  by apply insert_subseteq_l.
Qed.

Lemma dispose_engine_ok running st : plumbing_ok st → plumbing_ok (dispose_engine running st).
Proof.
  intros [Hf Hl Hm Hg Hd]. unfold dispose_engine. split; cbn.
  - by apply delete_mono.
  - intros k e [Hk He]%lookup_delete_Some. destruct (engines st !! loop_key running) as [e0|] eqn:E; [|by eapply Hl].
    intros [En|Hn]%elem_of_cons; [|exact (Hl k e He Hn)]. apply Hk. by eapply Hd.
  - intros k e [Hk He]%lookup_delete_Some. by eapply Hm.
  - intros n. destruct (engines st !! loop_key running) as [e0|] eqn:E; [|by apply Hg].
    intros [->|Hn]%elem_of_cons; [by eapply Hm|by apply Hg].
  - intros k k' e e' [_ He]%lookup_delete_Some [_ He']%lookup_delete_Some. by eapply Hd.
Qed.

(** ** Uses of the module *)

Inductive use := UseEngine (running : option Z) | UseSession (running : option Z) | Dispose (running : option Z).

Definition run_use (u : use) (st : Plumbing) : Plumbing :=
  match u with
  | UseEngine r => (get_engine r st).2
  | UseSession r => (get_sessionmaker r st).2
  | Dispose r => dispose_engine r st
  end.

Definition run_uses (us : list use) : Plumbing := foldl (λ st u, run_use u st) no_engines us.

Lemma run_uses_ok us : plumbing_ok (run_uses us).
Proof.
  unfold run_uses. generalize no_engines_ok. generalize no_engines as st.
  induction us as [|u us IH]; intros st Hok; [done|]. cbn. apply IH.
  destruct u; cbn; [by apply get_engine_ok|by apply get_sessionmaker_ok|by apply dispose_engine_ok].
Qed.

(** Whatever was done before, a session is on the engine of its loop's key, which is not
    disposed; a second request gives the same one, and after a dispose it is a new one. *)
Theorem sessions_on_live_engines us running :
  let (e, st) := get_sessionmaker running (run_uses us) in
  (get_engine running st).1 = e ∧ engine_no e ∉ disposed st ∧
  get_sessionmaker running st = (e, st) ∧
  engine_no (get_sessionmaker running (dispose_engine running st)).1 ≠ engine_no e.
Proof.
  destruct (get_sessionmaker_ok running _ (run_uses_ok us)) as [Hok Hs].
  destruct (get_sessionmaker running (run_uses us)) as [e st]. cbn in Hok, Hs.
  pose proof (lookup_weaken _ _ _ _ Hs (ok_factories st Hok)) as He. split_and!.
  - unfold get_engine. by rewrite He.
  - by eapply ok_live.
  - unfold get_sessionmaker. by rewrite Hs.
  - apply (ok_made st Hok) in He. unfold get_sessionmaker, dispose_engine. cbn. rewrite lookup_delete_eq.
    unfold get_engine. cbn. rewrite lookup_delete_eq. cbn. lia.
Qed.

(** A later loop with the id of one that never disposed gets that loop's engine. *)
Example reused_loop_id :
  let st := run_uses [UseSession (Some 4096%Z)] in
  engine_no (get_sessionmaker (Some 4096%Z) st).1 = 0%N ∧ made (get_sessionmaker (Some 4096%Z) st).2 = 1%N.
Proof. vm_compute. split; reflexivity. Qed.
End session.
