(* ===== verification/KeyRefresh.v ===== *)
(** * How soon a saved key is in use

    The loops that reload the provider keys: [_refresh_provider_keys_forever] of
    [src/app/main.py] and the second half of [_heartbeat_loop] in [src/app/worker.py], over
    [ProviderKeys.refresh].  The table of saved keys is any history of committed rows; times
    are readings of one process's monotonic clock. *)

From Stdlib Require Import ZArith NArith Ascii String Lia.
From stdpp Require Import base strings option sets list.
From S2P Require Import Prelude PyStr Sql Models Queue ProviderKeys ProviderKeysProps.

(** ** Calls of [refresh] in one process *)

(** The clock is read at [c_begin] (inside the lock, so calls do not overlap), the rows are
    those of [c_read], the copy is replaced at [c_loaded].  [c_ok] is false when the session
    or the query raised, which changes nothing. *)
Record Call := mkCall {
  c_force : bool; c_begin : instant; c_read : instant; c_loaded : instant; c_ok : bool
}.

(** ** The loops *)

(** One pass: how long it is until [refresh] reads the clock (the session, the lock and, in
    the worker, the heartbeat), until the rows are read, until they are loaded, until the
    pass is over, and how late the sleep after or before it ends. *)
Record Pass := mkPass {
  p_enter : Z; p_wait : Z; p_load : Z; p_leave : Z; p_late : Z; p_ok : bool
}.

Definition call_of (now : instant) (p : Pass) : Call :=
  let b := (now + p_enter p)%Z in mkCall false b (b + p_wait p) (b + p_wait p + p_load p) (p_ok p).

Definition pass_over (now : instant) (p : Pass) : instant := (c_loaded (call_of now p) + p_leave p)%Z.

(** [_refresh_provider_keys_forever]: the calls of its passes, and when the next one starts. *)
Fixpoint refresh_provider_keys_forever (now : instant) (passes : list Pass) : list Call * instant :=
  match passes with
  | [] => ([], now)
  | p :: rest =>
      let (cs, next) := refresh_provider_keys_forever (pass_over now p + seconds REFRESH_S + p_late p) rest in
      (call_of now p :: cs, next)
  end.

(** [_heartbeat_loop]: it sleeps first. *)
Fixpoint heartbeat_loop (now : instant) (passes : list Pass) : list Call * instant :=
  match passes with
  | [] => ([], now)
  | p :: rest =>
      let start := (now + seconds HEARTBEAT_S + p_late p)%Z in
      let (cs, next) := heartbeat_loop (pass_over start p) rest in
      (call_of start p :: cs, next)
  end.

Section refreshing.
Context `{Aead} (cfg : Settings).
(** The committed rows of [provider_keys] at each instant. *)
Context (rows : instant → list KeyRow).

Definition run_call (ks : KeyStore) (c : Call) : KeyStore :=
  if c_ok c then (refresh cfg (c_force c) (c_begin c) (c_loaded c) 0 false (mkTables (rows (c_read c)) [] []) ks).2
  else ks.

Definition run_calls (ks : KeyStore) (cs : list Call) : KeyStore := foldl run_call ks cs.

(** ** The copy is that of a recent table *)

Context (Hrows : ∀ t, NoDup (map kr_provider (rows t))).

(** The copy is the table as it was at [r]. *)
Definition as_of (r : instant) (ks : KeyStore) : Prop :=
  ∀ p, current cfg ks p = spec_key cfg (rows r) p ∧ source cfg ks p = spec_source cfg (rows r) p.

(** The calls one after the other from [lo], each loading what it read at most [d] earlier. *)
Fixpoint in_order (d lo : Z) (cs : list Call) : Prop :=
  match cs with
  | [] => True
  | c :: rest =>
      (lo ≤ c_begin c ∧ c_begin c ≤ c_read c ∧ c_read c ≤ c_loaded c ∧ c_loaded c - c_read c ≤ d)%Z ∧
      in_order d (c_loaded c) rest
  end.

(** What was loaded last was read at most [d] before. *)
Definition loaded_ok (d : Z) (ks : KeyStore) : Prop :=
  ks_loaded_at ks = 0%Z ∨ ∃ r, (ks_loaded_at ks - d ≤ r ≤ ks_loaded_at ks)%Z ∧ as_of r ks.

(** The copy was read after [lo]. *)
Definition newer (lo : Z) (ks : KeyStore) : Prop := ∃ r, (lo < r ≤ ks_loaded_at ks)%Z ∧ as_of r ks.

Lemma refresh_cases force b l t ks :
  NoDup (map kr_provider (kt_keys t)) →
  let ks' := (refresh cfg force b l 0 false t ks).2 in
  (ks' = ks ∧ (b - ks_loaded_at ks < seconds REFRESH_S)%Z) ∨
  (ks_loaded_at ks' = l ∧
   ∀ p, current cfg ks' p = spec_key cfg (kt_keys t) p ∧ source cfg ks' p = spec_source cfg (kt_keys t) p).
Proof.
  intros Hn. cbn zeta. destruct (negb force && Z.ltb (b - ks_loaded_at ks) (seconds REFRESH_S)) eqn:E.
  - left. unfold refresh. rewrite E. split; [done|]. apply andb_true_iff in E as [_ E]. by apply Z.ltb_lt.
  - right. assert (refresh cfg force b l 0 false t ks = refresh cfg true b l 0 false t ks) as -> by (unfold refresh; by rewrite E).
    split.
    + unfold refresh. cbn [negb andb]. by destruct (load_rows _ _ _ _ _) as [[keys meta] failed].
    + intros p. pose proof (refresh_spec cfg b l 0 false t ks p Hn) as Hr.
      destruct (refresh _ _ _ _ _ _ _ _). by destruct Hr as (_ & ? & ?).
Qed.

Lemma run_call_cases ks c :
  (run_call ks c = ks ∧ (c_ok c = true → c_begin c - ks_loaded_at ks < seconds REFRESH_S)%Z) ∨
  (ks_loaded_at (run_call ks c) = c_loaded c ∧ as_of (c_read c) (run_call ks c)).
Proof.
  unfold run_call. destruct (c_ok c) eqn:E; [|by left].
  destruct (refresh_cases (c_force c) (c_begin c) (c_loaded c) (mkTables (rows (c_read c)) [] []) ks (Hrows _))
    as [[-> Hlt]|[Hl Ha]]; [by left|by right].
Qed.

Lemma run_calls_ok d lo ks cs :
  (0 ≤ d)%Z → in_order d lo cs → (ks_loaded_at ks ≤ lo)%Z → loaded_ok d ks →
  loaded_ok d (run_calls ks cs) ∧ (∀ b, newer b ks → newer b (run_calls ks cs)).
Proof.
  intros Hd. revert lo ks. induction cs as [|c cs IH]; intros lo ks Ho Hlo Hk; [done|].
  destruct Ho as [Hc Ho]. cbn [run_calls foldl]. fold (run_calls (run_call ks c) cs).
  destruct (run_call_cases ks c) as [[-> _]|[El Ha]]; [by apply (IH (c_loaded c)); [..|lia|]|].
  destruct (IH (c_loaded c) (run_call ks c)) as [IH1 IH2]; [done|lia| |].
  { right. exists (c_read c). split; [lia|done]. }
  split; [done|]. intros b (r & Hr & _). apply IH2. exists (c_read c). split; [lia|done].
Qed.

Lemma in_order_app d lo cs1 c cs2 :
  (0 ≤ lo)%Z → in_order d lo (cs1 ++ c :: cs2) →
  ∃ lo1, (lo ≤ lo1)%Z ∧ in_order d lo cs1 ∧ (∀ x, x ∈ cs1 → c_loaded x ≤ lo1)%Z ∧ in_order d lo1 (c :: cs2).
Proof.
  revert lo. induction cs1 as [|x cs1 IH]; intros lo H0 Ho.
  - exists lo. split_and!; [lia|done| |done]. intros x Hx. by apply elem_of_nil in Hx.
  - destruct Ho as [Hx Ho]. apply IH in Ho as (lo1 & Hlo & H1 & H2 & H3); [|lia]. exists lo1.
    split_and!; [lia|done| |done]. intros y [->|Hy]%elem_of_cons; [lia|by apply H2].
Qed.

Lemma run_calls_loaded ks cs lo :
  (ks_loaded_at ks ≤ lo)%Z → (∀ x, x ∈ cs → c_loaded x ≤ lo)%Z → (ks_loaded_at (run_calls ks cs) ≤ lo)%Z.
Proof.
  revert ks. induction cs as [|c cs IH]; intros ks Hk Hx; [done|]. cbn. apply IH; [|set_solver].
  destruct (run_call_cases ks c) as [[-> _]|[-> _]]; [done|]. apply Hx. set_solver.
Qed.

(** One call that went through, forced or not, leaves a copy read at most [REFRESH_S] and a
    load before it, however many calls follow. *)
Lemma call_refreshes d lo cs c :
  (0 ≤ d)%Z → (seconds REFRESH_S ≤ lo)%Z → in_order d lo cs → c ∈ cs → c_ok c = true →
  newer (c_begin c - seconds REFRESH_S - d) (run_calls empty_store cs).
Proof.
  intros Hd Hlo Ho (cs1 & cs2 & ->)%list_elem_of_split Hok.
  assert (0 < seconds REFRESH_S)%Z as Hpos by done.
  apply in_order_app in Ho as (lo1 & Hlo1 & Ho1 & Hl1 & Hc & Ho2); [|lia].
  destruct (run_calls_ok d lo empty_store cs1) as [Hk _]; [done|done|cbn; lia|by left|].
  assert (ks_loaded_at (run_calls empty_store cs1) ≤ lo1)%Z as Hle by (apply run_calls_loaded; [cbn; lia|done]).
  unfold run_calls. rewrite foldl_app. cbn [foldl]. fold (run_calls empty_store cs1).
  set (ks := run_calls empty_store cs1) in *. fold (run_calls (run_call ks c) cs2).
  destruct (run_call_cases ks c) as [[-> Hlt]|[El Ha]].
  - specialize (Hlt Hok). destruct (run_calls_ok d (c_loaded c) ks cs2) as [_ Hn]; [done|done|lia|done|]. apply Hn.
    destruct Hk as [E0|(r & Hr & Ha)]; [lia|]. exists r. split; [lia|done].
  - destruct (run_calls_ok d (c_loaded c) (run_call ks c) cs2) as [_ Hn]; [done|done|lia| |].
    { right. exists (c_read c). split; [lia|done]. }
    apply Hn. exists (c_read c). split; [lia|done].
Qed.

(** ** The loops keep calling *)

(** A pass takes at most [d] and wakes at most [s] late. *)
Definition prompt (d s : Z) (p : Pass) : Prop :=
  (0 ≤ p_enter p ∧ 0 ≤ p_wait p ∧ 0 ≤ p_load p ∧ 0 ≤ p_leave p ∧
   p_enter p + p_wait p + p_load p + p_leave p ≤ d ∧ 0 ≤ p_late p ≤ s)%Z.

Lemma forever_snoc now passes p :
  let '(cs, start) := refresh_provider_keys_forever now passes in
  refresh_provider_keys_forever now (passes ++ [p]) =
    (cs ++ [call_of start p], pass_over start p + seconds REFRESH_S + p_late p)%Z.
Proof.
  revert now. induction passes as [|q passes IH]; intros now; [done|]. cbn.
  specialize (IH (pass_over now q + seconds REFRESH_S + p_late q)%Z).
  destruct (refresh_provider_keys_forever _ passes) as [cs start]. by rewrite IH.
Qed.

Lemma heartbeat_snoc now passes p :
  let '(cs, start) := heartbeat_loop now passes in
  let begin_ := (start + seconds HEARTBEAT_S + p_late p)%Z in
  heartbeat_loop now (passes ++ [p]) = (cs ++ [call_of begin_ p], pass_over begin_ p).
Proof.
  revert now. induction passes as [|q passes IH]; intros now; [done|]. cbn.
  specialize (IH (pass_over (now + seconds HEARTBEAT_S + p_late q) q)%Z).
  destruct (heartbeat_loop _ passes) as [cs start]. by rewrite IH.
Qed.
End refreshing.

(** At [t] the copy is the table as it was less than [bound] before. *)
Definition stale_at_most `{Aead} (cfg : Settings) (rows : instant → list KeyRow) (bound t : Z) (ks : KeyStore) : Prop :=
  ∃ r, (t - bound < r ≤ t)%Z ∧ as_of cfg rows r ks.

Lemma newer_stale `{Aead} cfg rows (Hrows : ∀ t, NoDup (map kr_provider (rows t))) d bound t all c :
  (0 ≤ d)%Z → in_order d (seconds REFRESH_S) all → c ∈ all → c_ok c = true →
  (∀ x, x ∈ all → c_loaded x ≤ t)%Z → (0 ≤ t)%Z → (t - bound ≤ c_begin c - seconds REFRESH_S - d)%Z →
  stale_at_most cfg rows bound t (run_calls cfg rows empty_store all).
Proof.
  intros Hd Ho Hc Hok Hx Ht Hb. destruct (call_refreshes cfg rows Hrows d _ all c Hd ltac:(reflexivity) Ho Hc Hok) as (r & Hr & Ha).
  exists r. split; [|done]. split; [lia|]. etransitivity; [apply Hr|].
  apply (run_calls_loaded cfg rows Hrows); [cbn; lia|done].
Qed.

(** C22: a key saved by any process is in use soon.  Whatever was committed to the table when,
    whatever other reloads the process makes in between, forced or not, and however many
    passes of its loop failed before: once a pass has gone through, and until the next one
    has had its time, the keys in use are those the table held less than a minute earlier in
    the API, and less than fifty seconds earlier in the worker (plus the lateness of a sleep
    and three times the length of a pass).  So a table that has not changed for that long is
    the one in use, and a key that was replaced or removed is not used any more.  The
    process's clock has to be past the first thirty seconds since boot. *)
Theorem saved_keys_take_effect `{A : Aead} (cfg : Settings) (rows : instant → list KeyRow) (d s : Z) (p : Pass)
    (Hrows : ∀ t, NoDup (map kr_provider (rows t))) (Hp : prompt d s p) (Hok : p_ok p = true) :
  (∀ now passes all t,
     let '(cs, next) := refresh_provider_keys_forever now (passes ++ [p]) in
     in_order d (seconds REFRESH_S) all → cs ⊆ all → (∀ c, c ∈ all → c_loaded c ≤ t)%Z → (t ≤ next + d)%Z →
     stale_at_most cfg rows (seconds 60 + s + 3 * d) t (run_calls cfg rows empty_store all)) ∧
  (∀ now passes all t,
     let '(cs, next) := heartbeat_loop now (passes ++ [p]) in
     in_order d (seconds REFRESH_S) all → cs ⊆ all → (∀ c, c ∈ all → c_loaded c ≤ t)%Z →
     (t ≤ next + seconds HEARTBEAT_S + s + d)%Z →
     stale_at_most cfg rows (seconds 50 + s + 3 * d) t (run_calls cfg rows empty_store all)) ∧
  (∀ bound w t ks, stale_at_most cfg rows bound t ks → (∀ u, w ≤ u ≤ t → rows u = rows t)%Z → (w + bound ≤ t)%Z →
     ∀ q, current cfg ks q = spec_key cfg (rows t) q).
Proof.
  assert (seconds REFRESH_S = 30000000 ∧ seconds HEARTBEAT_S = 20000000 ∧ seconds 60 = 60000000 ∧ seconds 50 = 50000000)%Z
    as (E1 & E2 & E3 & E4) by done.
  destruct Hp as (H1 & H2 & H3 & H4 & H5 & H6).
  assert (∀ lo all c, (0 ≤ lo)%Z → in_order d lo all → c ∈ all → (lo ≤ c_begin c ∧ c_begin c ≤ c_loaded c)%Z) as Hpos.
  { intros lo all c Hlo. revert lo Hlo. induction all as [|x all IH]; intros lo Hlo Ho Hc; [by apply elem_of_nil in Hc|].
    destruct Ho as [Hx Ho]. apply elem_of_cons in Hc as [->|Hc]; [lia|]. apply (IH (c_loaded x)) in Hc; [lia|lia|done]. }
  split_and!.
  - intros now passes all t. pose proof (forever_snoc now passes p) as E.
    destruct (refresh_provider_keys_forever now passes) as [cs start]. rewrite E. intros Ho Hsub Hx Ht.
    assert (call_of start p ∈ all) as Hin by (apply Hsub; set_solver).
    pose proof (Hpos (seconds REFRESH_S) _ _ ltac:(lia) Ho Hin). specialize (Hx _ Hin) as Hxc.
    eapply (newer_stale cfg rows Hrows d _ t all); [lia|done|done|done|done|lia|].
    unfold pass_over in Ht. cbn in *. lia.
  - intros now passes all t. pose proof (heartbeat_snoc now passes p) as E.
    destruct (heartbeat_loop now passes) as [cs start]. cbn zeta in E. rewrite E. intros Ho Hsub Hx Ht.
    match type of E with _ = (_ ++ [?c], _) => assert (c ∈ all) as Hin by (apply Hsub; set_solver) end.
    pose proof (Hpos (seconds REFRESH_S) _ _ ltac:(lia) Ho Hin). specialize (Hx _ Hin) as Hxc.
    eapply (newer_stale cfg rows Hrows d _ t all); [lia|done|exact Hin|done|done|lia|].
    unfold pass_over in Ht. cbn in *. lia.
  - intros bound w t ks (r & Hr & Ha) Hu Hw q. rewrite <- (Hu r) by lia. apply Ha.
Qed.

(** A worker alone: its second beat comes before [REFRESH_S] are over and skips the reload,
    so a key saved just after the first is not in use 39 seconds later. *)
Definition demo_rows (t : instant) : list KeyRow := if Z.ltb t (seconds 101) then [] else kt_keys demo_tables.
Definition demo_pass : Pass := mkPass 0 0 0 0 0 true.

Example worker_skips_a_beat :
  let '(cs, next) := heartbeat_loop (seconds 80) [demo_pass; demo_pass] in
  map c_begin cs = [seconds 100; seconds 120] ∧ next = seconds 120 ∧
  current key_cfg (run_calls (H := tagged) key_cfg demo_rows empty_store cs) "jina" = "env-jina-key" ∧
  current key_cfg (run_calls (H := tagged) key_cfg demo_rows empty_store
                     (heartbeat_loop (seconds 80) [demo_pass; demo_pass; demo_pass]).1) "jina" = "jina_secret_0123".
Proof. vm_compute. split_and!; reflexivity. Qed.

Lemma saved_keys_take_effect_witness :
  let all := (heartbeat_loop (seconds 80) [demo_pass; demo_pass; demo_pass; demo_pass]).1 in
  current key_cfg (run_calls (H := tagged) key_cfg demo_rows empty_store all) "jina" = "jina_secret_0123".
Proof.
  intros all.
  assert (∀ t, NoDup (map kr_provider (demo_rows t))) as Hn.
  { intros t. unfold demo_rows. destruct (Z.ltb t (seconds 101)); [constructor|].
    replace (map kr_provider (kt_keys demo_tables)) with ["jina"] by (vm_compute; reflexivity). apply NoDup_singleton. }
  assert (prompt 0 0 demo_pass) as Hp by (unfold prompt; cbn; lia).
  destruct (saved_keys_take_effect (A := tagged) key_cfg demo_rows 0 0 demo_pass Hn Hp eq_refl) as (_ & Hw & Hc).
  rewrite (Hc (seconds 50) (seconds 102) (seconds 160)).
  - vm_compute. reflexivity.
  - apply (Hw (seconds 80) [demo_pass; demo_pass; demo_pass] all (seconds 160)).
    + vm_compute. intuition discriminate.
    + done.
    + intros c Hin. apply Z.leb_le. revert c Hin. apply Forall_forall. repeat constructor.
    + vm_compute. discriminate.
  - intros u Hu. unfold demo_rows. change (seconds 101) with 101000000%Z. change (seconds 102) with 102000000%Z in Hu.
    change (seconds 160) with 160000000%Z in *. rewrite !(proj2 (Z.ltb_ge _ _)) by lia. reflexivity.
  - vm_compute. discriminate.
Defined.
