(* ===== verification/Process.v ===== *)
(** * The processes: what they open and close

    [main] of [src/app/worker.py], the lifespan of [src/app/main.py], [_main] of
    [src/app/users.py] and [main] of [src/app/serve.py]; the HTTP client a process shares
    ([get_client], [close_client] of [src/app/pipeline/fetch.py]) and the fetcher of the API
    process.  What happens between start and end is any sequence of uses. *)

From Stdlib Require Import ZArith NArith Ascii String Lia.
From stdpp Require Import base strings option gmap list.
From S2P Require Import Prelude PyStr Sql Models Regex Auth LogSetup DbSession Fetchers RetryAfter.

(** ** The shared client *)

Record Client := mkClient {
  cl_no : N;
  cl_http2 : bool;
  cl_follow_redirects : bool;
  cl_connect : Z; cl_read : Z; cl_write : Z; cl_pool : Z;
  cl_max_connections : Z;
  cl_max_keepalive : Z;
  cl_user_agent : string
}.

(** The clients made so far are numbered below [made_clients]; [closed] are those that are
    [is_closed]. *)
Record Http := mkHttp { client : option Client; made_clients : N; closed : list N }.
Definition no_http : Http := mkHttp None 0 [].

Definition is_closed (h : Http) (c : Client) : bool := mem (cl_no c) (closed h).

Section process.
Context (cfg : Settings).

Definition new_client (no : N) : Client := {|
  cl_no := no; cl_http2 := false; cl_follow_redirects := false;
  cl_connect := connect_timeout_s cfg; cl_read := read_timeout_s cfg; cl_write := read_timeout_s cfg;
  cl_pool := connect_timeout_s cfg; cl_max_connections := global_fetch_concurrency cfg; cl_max_keepalive := 100;
  cl_user_agent := user_agent cfg |}.

Definition get_client (h : Http) : Client * Http :=
  let fresh := (new_client (made_clients h), mkHttp (Some (new_client (made_clients h))) (made_clients h + 1) (closed h)) in
  match client h with
  | Some c => if is_closed h c then fresh else (c, h)
  | None => fresh
  end.

(** The flag is false when closing raises: the client stays where it is. *)
Definition close_client (aclose_ok : bool) (h : Http) : Http * bool :=
  match client h with
  | Some c =>
      if is_closed h c then (mkHttp None (made_clients h) (closed h), true)
      else if aclose_ok then (mkHttp None (made_clients h) (cl_no c :: closed h), true)
      else (h, false)
  | None => (mkHttp None (made_clients h) (closed h), true)
  end.

(** ** A process *)

(** [fetcher] is [_fetcher] of the API: which one it is, and the number of its gate. *)
Record Process := mkProc {
  http : Http;
  plumbing : Plumbing;
  logging : Logging;
  process_name : option string;
  fetcher : option (Fetcher * N);
  gates : N;
  refresher : bool            (* the refresh loop runs *)
}.

Definition with_http (p : Process) (h : Http) : Process :=
  mkProc h (plumbing p) (logging p) (process_name p) (fetcher p) (gates p) (refresher p).
Definition with_plumbing (p : Process) (pl : Plumbing) : Process :=
  mkProc (http p) pl (logging p) (process_name p) (fetcher p) (gates p) (refresher p).

Definition fresh_process : Process := mkProc no_http no_engines (mkLogging WARNING [] ∅) None None 0 false.

Definition get_fetcher (p : Process) : (Fetcher * N) * Process :=
  match fetcher p with
  | Some f => (f, p)
  | None =>
      let f := (build_fetcher cfg, gates p) in
      (f, mkProc (http p) (plumbing p) (logging p) (process_name p) (Some f) (gates p + 1) (refresher p))
  end.

(** What the running process does to these: a request, a session, the engine itself, an
    [/extract] call. *)
Inductive use := UseClient | UseSession | UseEngine | UseFetcher.

Definition run_use (running : option Z) (p : Process) (u : use) : Process :=
  match u with
  | UseClient => with_http p (get_client (http p)).2
  | UseSession => with_plumbing p (get_sessionmaker cfg running (plumbing p)).2
  | UseEngine => with_plumbing p (get_engine cfg running (plumbing p)).2
  | UseFetcher => (get_fetcher p).2
  end.

Definition run_uses (running : option Z) (us : list use) (p : Process) : Process := foldl (run_use running) p us.

(** The client and then the engine, as every process ends; an exception of the first skips
    the second. *)
Definition close_all (running : option Z) (aclose_ok : bool) (p : Process) : Process * bool :=
  let (h, ok) := close_client aclose_ok (http p) in
  let p1 := with_http p h in
  if ok then (with_plumbing p1 (dispose_engine running (plumbing p1)), true) else (p1, false).

(** ** The API *)

(** [lifespan] up to its [yield]. *)
Definition lifespan_start (p : Process) : Process :=
  mkProc (http p) (plumbing p) (logging p) (Some "api") (fetcher p) (gates p) true.

(** [lifespan] after it: the loop is cancelled and awaited first. *)
Definition lifespan_stop (running : option Z) (aclose_ok : bool) (p : Process) : Process * bool :=
  close_all running aclose_ok
    (mkProc (http p) (plumbing p) (logging p) (process_name p) (fetcher p) (gates p) false).

(** The module is imported, which sets the logging up, and then served. *)
Definition api_process (running : option Z) (us : list use) (aclose_ok : bool) (p : Process) : Process * bool :=
  let (lg, ok) := configure (log_level cfg) (logging p) in
  let p1 := mkProc (http p) (plumbing p) lg (process_name p) (fetcher p) (gates p) (refresher p) in
  if ok then lifespan_stop running aclose_ok (run_uses running us (lifespan_start p1)) else (p1, false).

(** ** The worker *)

(** [Worker.__init__]: a fetcher with a gate of its own, and the session factory. *)
Definition make_worker (running : option Z) (p : Process) : Process :=
  mkProc (http p) (get_sessionmaker cfg running (plumbing p)).2 (logging p) (process_name p) (fetcher p) (gates p + 1)
    (refresher p).

(** The first thing [Worker.run] does about the keys. *)
Definition set_process_name (name : string) (p : Process) : Process :=
  mkProc (http p) (plumbing p) (logging p) (Some name) (fetcher p) (gates p) (refresher p).

(** [main]: logging, the worker and its run, which may raise after any of its uses; the flag
    says whether everything was closed. *)
Definition worker_main (running : option Z) (us : list use) (aclose_ok : bool) (p : Process) : Process * bool :=
  let (lg, ok) := configure (log_level cfg) (logging p) in
  let p1 := mkProc (http p) (plumbing p) lg (process_name p) (fetcher p) (gates p) (refresher p) in
  if ok then close_all running aclose_ok (run_uses running us (set_process_name "worker" (make_worker running p1)))
  else (p1, false).

(** ** The user commands *)

Inductive Command := CmdAdd (name : string) (admin service : bool) | CmdList | CmdRevoke (name : string).

Inductive Printed :=
  | PrintedKey (key : string)
  | PrintedUsers (rows : list (string * string * option instant))
  | PrintedRevoked (name : string)
  | Exited (message : string)       (* SystemExit *)
  | Crashed.

Definition users_main (running : option Z) (cmd : Command) (now : instant) (id : uuid) (token : string)
    (users : list User) (pl : Plumbing) : Printed * list User * Plumbing :=
  let pl1 := (get_sessionmaker cfg running pl).2 in
  let '(out, users') :=
    match cmd with
    | CmdAdd name admin service =>
        match add_user name admin service now id token users with
        | (added key, us) => (PrintedKey key, us)
        | (name_taken, us) => (Exited ("a user named '" +:+ name +:+ "' already exists"), us)
        | (integrity_error, us) => (Crashed, us)
        end
    | CmdList => (PrintedUsers (list_users users), users)
    | CmdRevoke name =>
        match revoke_user name now users with
        | Some us => (PrintedRevoked name, us)
        | None => (Exited ("no user named '" +:+ name +:+ "'"), users)
        end
    end in
  (out, users', dispose_engine running pl1).
End process.

(** ** The socket of the API *)

Record Socket := mkSocket { so_ipv6 : bool; so_reuse_addr : bool; so_v6only : bool; so_host : string; so_port : Z }.

(** [None]: the port is no 16-bit number, and [bind] raises OverflowError. *)
Definition dual_stack_socket (port : Z) : option Socket :=
  if Z.leb 0 port && Z.ltb port 65536 then Some (mkSocket true true false "::" port) else None.

(** [main] of serve.py: the socket uvicorn gets; [None] for a PORT that is no port. *)
Definition serve_socket (environ : string → option string) : option Socket :=
  port ← py_int (default "8000" (environ "PORT")); dual_stack_socket port.

Example serve_default : serve_socket (λ _, None) = Some (mkSocket true true false "::" 8000).
Proof. vm_compute. reflexivity. Qed.
Example serve_bad_port : serve_socket (λ _, Some "80a") = None ∧ serve_socket (λ _, Some "70000") = None.
Proof. vm_compute. split; reflexivity. Qed.

(** ** Nothing stays open *)

(** Of the clients made, those not closed are the current one. *)
Definition http_ok (h : Http) : Prop :=
  (∀ n, (n < made_clients h)%N → n ∈ closed h ∨ ∃ c, client h = Some c ∧ cl_no c = n) ∧
  (∀ c, client h = Some c → (cl_no c < made_clients h)%N) ∧ (∀ n, n ∈ closed h → (n < made_clients h)%N).

Definition all_closed (h : Http) : Prop := client h = None ∧ ∀ n, (n < made_clients h)%N → n ∈ closed h.

Section closing.
Context (cfg : Settings) (running : option Z).

Lemma fresh_client_ok h :
  http_ok h → (∀ c, client h = Some c → cl_no c ∈ closed h) →
  let c := new_client cfg (made_clients h) in
  let h' := mkHttp (Some c) (made_clients h + 1) (closed h) in http_ok h' ∧ is_closed h' c = false.
Proof.
  intros (H1 & H2 & H3) Hc. cbn zeta. split; [split_and!; cbn|].
  - intros n Hn. destruct (decide (n = made_clients h)) as [->|Hne]; [right; by eexists|].
    destruct (H1 n) as [?|(c & E & <-)]; [lia|by left|left; by apply Hc].
  - intros c [= <-]. cbn. lia.
  - intros n Hn%H3. lia.
  - apply bool_decide_eq_false. cbn. intros Hn%H3. lia.
Qed.

(** The client a request gets is open. *)
Lemma get_client_ok h :
  http_ok h → http_ok (get_client cfg h).2 ∧ client (get_client cfg h).2 = Some (get_client cfg h).1 ∧
  is_closed (get_client cfg h).2 (get_client cfg h).1 = false.
Proof.
  intros Hok. unfold get_client. destruct (client h) as [c|] eqn:E; [destruct (is_closed h c) eqn:Ec|]; [| done |].
  - destruct (fresh_client_ok h Hok) as [? ?]; [|done]. rewrite E. intros c' [= <-]. by apply bool_decide_eq_true in Ec.
  - destruct (fresh_client_ok h Hok) as [? ?]; [|done]. by rewrite E.
Qed.

Lemma close_client_ok h : http_ok h → (close_client true h).2 = true ∧ all_closed (close_client true h).1.
Proof.
  intros (H1 & _ & _). unfold close_client. destruct (client h) as [c|] eqn:E; [destruct (is_closed h c) eqn:Ec|]; cbn.
  - split; [done|]. split; [done|]. intros n Hn. cbn in *. destruct (H1 n Hn) as [?|(c' & [= <-] & <-)]; [done|].
    by apply bool_decide_eq_true in Ec.
  - split; [done|]. split; [done|]. intros n Hn. cbn in *. destruct (H1 n Hn) as [?|(c' & [= <-] & <-)]; set_solver.
  - split; [done|]. split; [done|]. intros n Hn. cbn in *. by destruct (H1 n Hn) as [?|(c' & ? & _)].
Qed.

(** Of the engines made, those not disposed are the one of the running loop. *)
Definition engines_ok (pl : Plumbing) : Prop :=
  ∀ n, (n < made pl)%N → n ∈ disposed pl ∨ ∃ e, engines pl !! loop_key running = Some e ∧ engine_no e = n.

Lemma get_engine_kept pl : engines_ok pl → engines_ok (get_engine cfg running pl).2.
Proof.
  intros Hok. unfold get_engine. destruct (engines pl !! loop_key running) as [e|] eqn:E; [done|]. intros n Hn. cbn in *.
  destruct (decide (n = made pl)) as [->|Hne]; [right; eexists; by rewrite lookup_insert_eq|].
  destruct (Hok n) as [?|(e & E' & _)]; [lia|by left|congruence].
Qed.

Lemma get_sessionmaker_kept pl : engines_ok pl → engines_ok (get_sessionmaker cfg running pl).2.
Proof.
  intros Hok. unfold get_sessionmaker. destruct (sessionmakers pl !! loop_key running) as [e|]; [done|].
  pose proof (get_engine_kept pl Hok) as Hk. destruct (get_engine cfg running pl) as [e pl1]. exact Hk.
Qed.

Lemma dispose_engine_all pl :
  engines_ok pl → ∀ n, (n < made (dispose_engine running pl))%N → n ∈ disposed (dispose_engine running pl).
Proof.
  intros Hok n Hn. unfold dispose_engine in *. cbn in *.
  destruct (Hok n Hn) as [Hd|(e & E & <-)]; [|rewrite E; set_solver]. destruct (engines pl !! _); set_solver.
Qed.

Definition process_ok (p : Process) : Prop := http_ok (http p) ∧ engines_ok (plumbing p).

Lemma run_uses_kept us p : process_ok p → process_ok (run_uses cfg running us p).
Proof.
  unfold run_uses. revert p. induction us as [|u us IH]; intros p Hp; [done|]. cbn. apply IH. destruct Hp as [Hh He].
  destruct u; cbn; split; try done.
  - by apply get_client_ok.
  - by apply get_sessionmaker_kept.
  - by apply get_engine_kept.
  - unfold get_fetcher. by destruct (fetcher p).
  - unfold get_fetcher. by destruct (fetcher p).
Qed.

Lemma fresh_process_ok : process_ok fresh_process.
Proof.
  split; [split_and!; cbn|intros n Hn; cbn in Hn; lia].
  - intros n Hn. lia.
  - done.
  - by intros n ?%elem_of_nil.
Qed.

(** The gate is built with the fetcher, once. *)
Definition one_gate (p : Process) : Prop := gates p = match fetcher p with Some _ => 1%N | None => 0%N end.

Lemma run_uses_gate us p : one_gate p → one_gate (run_uses cfg running us p) ∧ refresher (run_uses cfg running us p) = refresher p.
Proof.
  unfold run_uses. revert p. induction us as [|u us IH]; intros p Hp; [done|]. cbn.
  assert (one_gate (run_use cfg running p u) ∧ refresher (run_use cfg running p u) = refresher p) as [Hg Hr].
  { destruct u; cbn; try done. unfold get_fetcher, one_gate in *. destruct (fetcher p) eqn:E; cbn; [by rewrite E|].
    split; [lia|done]. }
  destruct (IH _ Hg) as [? ->]. done.
Qed.

Lemma close_all_frame b p :
  refresher (close_all running b p).1 = refresher p ∧ gates (close_all running b p).1 = gates p.
Proof. unfold close_all. by destruct (close_client b (http p)) as [h []]. Qed.

(** Nothing the process opened is left: clients, engines, and none of either current. *)
Definition nothing_open (p : Process) : Prop :=
  all_closed (http p) ∧ engines (plumbing p) !! loop_key running = None ∧
  ∀ n, (n < made (plumbing p))%N → n ∈ disposed (plumbing p).

Lemma close_all_closes p : process_ok p → (close_all running true p).2 = true ∧ nothing_open (close_all running true p).1.
Proof.
  intros [Hh He]. destruct (close_client_ok (http p) Hh) as [Ho Hc]. unfold close_all.
  destruct (close_client true (http p)) as [h ok]. cbn in Ho, Hc. subst ok. cbn. split; [done|]. split_and!; [done|..].
  - cbn. apply lookup_delete_eq.
  - by apply dispose_engine_all.
Qed.
End closing.

(** The API and the worker close what they opened.  Whatever a process does between its start
    and its end (and wherever the worker's run raises): if its level of logging is known and
    closing the client does not fail, then at its end every HTTP client it made is closed and
    every engine of its loop disposed; the lookups of the API all went through one gate; and
    the user commands leave no engine, whatever they answer. *)
Theorem processes_close_what_they_open (cfg : Settings) (running : option Z) (us : list use) :
  is_Some (level_of (log_level cfg)) →
  (let '(p, ok) := api_process cfg running us true fresh_process in
   ok = true ∧ nothing_open running p ∧ refresher p = false ∧ (gates p ≤ 1)%N) ∧
  (let '(p, ok) := worker_main cfg running us true fresh_process in ok = true ∧ nothing_open running p) ∧
  (∀ cmd now id token users,
     let '(_, _, pl) := users_main cfg running cmd now id token users no_engines in
     ∀ n, (n < made pl)%N → n ∈ disposed pl).
Proof.
  intros [lv Hlv].
  assert (∃ lg, configure (log_level cfg) (logging fresh_process) = (lg, true)) as [lg Elg].
  { unfold configure, basicConfig. cbn [logging fresh_process handlers]. rewrite Hlv. by eexists. }
  split_and!.
  - unfold api_process. rewrite Elg. unfold lifespan_stop. set (p0 := lifespan_start _).
    assert (process_ok running p0 ∧ one_gate p0) as [Hok Hg] by (split; [exact (fresh_process_ok running)|done]).
    apply (run_uses_kept cfg running us) in Hok. apply (run_uses_gate cfg running us) in Hg as [Hg _].
    set (p1 := run_uses cfg running us p0) in *.
    match goal with |- context [close_all _ _ ?q] =>
      destruct (close_all_closes running q Hok) as [E1 E2]; destruct (close_all_frame running true q) as [E3 E4];
      destruct (close_all running true q) as [p ok] end.
    cbn in *. rewrite E4. split_and!; [done..|]. unfold one_gate in Hg. destruct (fetcher p1); lia.
  - unfold worker_main. rewrite Elg. set (p0 := set_process_name _ _).
    assert (process_ok running p0) as Hok.
    { split; [exact (proj1 (fresh_process_ok running))|]. cbn.
      exact (get_sessionmaker_kept cfg running _ (proj2 (fresh_process_ok running))). }
    apply (run_uses_kept cfg running us) in Hok. destruct (close_all_closes running _ Hok) as [E1 E2].
    by destruct (close_all running true _) as [p ok].
  - intros cmd now id token users. unfold users_main.
    destruct cmd as [name ad sv| |name]; [destruct (add_user _ _ _ _ _ _ _) as [[key| |] users']| |destruct (revoke_user _ _ _)];
      apply dispose_engine_all; exact (get_sessionmaker_kept cfg running _ (proj2 (fresh_process_ok running))).
Qed.

Lemma processes_close_what_they_open_witness :
  (let '(p, ok) := worker_main default_settings (Some 7%Z) [UseClient; UseSession; UseClient] true fresh_process in
   ok = true ∧ nothing_open (Some 7%Z) p) ∧
  closed (http (worker_main default_settings (Some 7%Z) [UseClient; UseSession; UseClient] true fresh_process).1) = [0%N].
Proof.
  split; [|vm_compute; reflexivity].
  exact (proj1 (proj2 (processes_close_what_they_open default_settings (Some 7%Z) [UseClient; UseSession; UseClient]
    (mk_is_Some _ _ eq_refl)))).
Defined.
