(* ===== verification/EvalReport.v ===== *)
(** * The figures of the evaluation script ([src/scripts/eval.py])

    What the log handler collects, the progress of a run and the figures [report] prints
    beside the counts of [Evaluation].  Figures are exact rationals, before they are rounded
    for printing. *)

From Stdlib Require Import ZArith QArith Ascii String Lia Lqa Sorted.
From stdpp Require Import base strings option sets list.
From S2P Require Import Prelude PyStr Models Jobs Emails Normalize Evaluation.

(** ** The log handler *)

(** [STATS]. *)
Record Stats := mkStats { homepage_text_len : list Z; duration_ms : list Z }.
Definition no_stats : Stats := mkStats [] [].

(** A record of the pipeline's log: its message and the two attributes, when it has them. *)
Record DoneRecord := mkDone { dr_message : string; dr_text_len : option Z; dr_duration_ms : option Z }.

(** [DomainDoneCapture.emit] *)
Definition emit (st : Stats) (r : DoneRecord) : Stats :=
  if negb (String.eqb (dr_message r) "domain_done") then st
  else mkStats (homepage_text_len st ++ option_list (dr_text_len r)) (duration_ms st ++ option_list (dr_duration_ms r)).

(** ** Progress *)

(** What is printed after every [every] results: the rate and the seconds left; [inl] is the
    ZeroDivisionError of a clock that has not moved, [None] no line. *)
Definition progress (every : Z) (rows done_ : Z) (elapsed : Q) : option (unit + Q * Q) :=
  if negb (Z.eqb (Z.modulo done_ every) 0) then None
  else if Qeq_bool elapsed 0 then Some (inl tt)
  else
    let rate := (inject_Z done_ / elapsed)%Q in
    Some (inr (rate, if Qeq_bool rate 0 then 0%Q else (inject_Z (rows - done_) / rate)%Q)).

(** ** Figures *)

Definition sorted (l : list Z) : list Z := sort_by Z.leb l.

(** [statistics.mean] and [statistics.median]; the report asks only for lists with
    something in them. *)
Definition mean (l : list Z) : Q := (inject_Z (foldr Z.add 0%Z l) / inject_Z (Z.of_nat (length l)))%Q.

Definition median (l : list Z) : option Q :=
  let s := sorted l in
  let n := length s in
  if Nat.eqb n 0 then None
  else if Nat.eqb (n mod 2) 1 then inject_Z <$> nth_error s (n / 2)
  else match nth_error s (n / 2 - 1), nth_error s (n / 2) with
       | Some a, Some b => Some ((inject_Z a + inject_Z b) / 2)%Q
       | _, _ => None
       end.

(** [durs_s[len(durs_s)//2]] and [durs_s[int(len(durs_s)*.95)]]; [None] is an IndexError. *)
Definition p50 (l : list Z) : option Z := nth_error (sorted l) (length l / 2).
Definition p95 (l : list Z) : option Z := nth_error (sorted l) (length l * 95 / 100).

Definition near_empty (st : Stats) : list Z := keep (λ n, Z.ltb n 200) (homepage_text_len st).

Definition ratio (a b : nat) : Q := (inject_Z (Z.of_nat a) / inject_Z (Z.of_nat b))%Q.

(** The shares of the report; those that are only printed when there is something to divide
    by are [None] otherwise. *)
Record Figures := mkFigures {
  fg_hit : Q;
  fg_with_any : Q;
  fg_per_domain : Q;
  fg_precision : option Q;
  fg_leak : option Q;
  fg_needs_review : Q;
  fg_typesafe : Q;
  fg_near_empty : option Q;
  fg_tokens : option (Z * Q * option Q);
  fg_durations : option (option Z * option Z)
}.

Definition figures (st : Stats) (tokens : list Z) (rp : Report) : Figures :=
  let total := Nat.max (rp_total rp) 1 in
  {| fg_hit := ratio (rp_found rp) total;
     fg_with_any := ratio (rp_with_any rp) total;
     fg_per_domain := ratio (rp_addresses rp) (Nat.max (rp_with_any rp) 1);
     fg_precision := if Nat.eqb (rp_picks rp) 0 then None else Some (ratio (rp_correct rp) (rp_picks rp));
     fg_leak := if Nat.eqb (rp_picks rp) 0 then None else Some (ratio (rp_leak rp) (rp_picks rp));
     fg_needs_review := ratio (rp_needs_review rp) total;
     fg_typesafe := ratio (rp_typesafe rp) total;
     fg_near_empty := match homepage_text_len st with
                      | [] => None
                      | l => Some (ratio (length (near_empty st)) (length l))
                      end;
     fg_tokens := match tokens with [] => None | l => Some (foldr Z.add 0%Z l, mean l, median l) end;
     fg_durations := match duration_ms st with [] => None | l => Some (p50 l, p95 l) end |}.

(** ** The figures exist and mean what they say *)

Lemma sorted_perm l : sorted l ≡ₚ l.
Proof. apply sort_by_Permutation. Qed.

Lemma length_sorted l : length (sorted l) = length l.
Proof. apply length_sort_by. Qed.

Lemma sorted_ordered l : StronglySorted Z.le (sorted l).
Proof.
  eapply StronglySorted_weaken; [|apply (sort_by_StronglySorted Z.leb)].
  - intros x y Hxy. by apply Z.leb_le.
  - intros x y ?%Z.leb_gt. apply Z.leb_le. lia.
  - intros x y z ?%Z.leb_le ?%Z.leb_le. apply Z.leb_le. lia.
Qed.

(** No index is out of range. *)
Lemma percentiles_defined l : l ≠ [] → is_Some (p50 l) ∧ is_Some (p95 l) ∧ is_Some (median l).
Proof.
  intros Hl. assert (0 < length l)%nat as Hn by (destruct l; [done|cbn; lia]).
  assert (∀ i, (i < length l)%nat → is_Some (nth_error (sorted l) i)) as Hi.
  { intros i Hi. destruct (nth_error (sorted l) i) eqn:E; [by eexists|]. apply nth_error_None in E. rewrite length_sorted in E. lia. }
  assert (length l / 2 < length l)%nat as H2 by (apply Nat.div_lt; lia).
  split_and!.
  - by apply Hi.
  - apply Hi. apply Nat.Div0.div_lt_upper_bound. lia.
  - unfold median. rewrite length_sorted. destruct (Nat.eqb_spec (length l) 0); [lia|].
    destruct (Hi _ H2) as [b ->]. destruct (Nat.eqb (length l mod 2) 1); [by eexists|].
    destruct (Hi (length l / 2 - 1)%nat) as [a ->]; [lia|by eexists].
Qed.

(** In a sorted list the first [i + 1] are at most the one at [i], the others at least. *)
Lemma sorted_split s i x :
  StronglySorted Z.le s → nth_error s i = Some x →
  (i < count (λ y, Z.leb y x) s)%nat ∧ (length s - i ≤ count (λ y, Z.leb x y) s)%nat.
Proof.
  intros Hs. revert i x. induction Hs as [|y s Hs IH Hall]; intros i x Hx; [by destruct i|].
  unfold count, keep in *. cbn [List.filter length]. rewrite Forall_forall in Hall. destruct i as [|i]; cbn in Hx.
  - injection Hx as ->. rewrite Z.leb_refl. cbn [length].
    assert (List.filter (λ y, Z.leb x y) s = s) as ->.
    { apply (keep_all (λ y, Z.leb x y)). intros z Hz. apply Z.leb_le. by apply Hall. }
    lia.
  - destruct (IH i x Hx) as [H1 H2]. assert (y ≤ x)%Z as Hy by (apply Hall, list_elem_of_In; by eapply nth_error_In).
    rewrite (proj2 (Z.leb_le y x) Hy). cbn [length]. destruct (Z.leb x y); cbn [length]; lia.
Qed.

Lemma count_perm (p : Z → bool) l k : l ≡ₚ k → count p l = count p k.
Proof. intros Hp. unfold count. by rewrite Hp. Qed.

(** More than half of the durations are at most the printed p50, and 95 in 100 at most the
    printed p95; no fewer than the rest are at least it. *)
Theorem percentile_ranks l x y :
  p50 l = Some x → p95 l = Some y →
  (length l < 2 * count (λ z, Z.leb z x) l)%nat ∧ (length l ≤ 2 * count (λ z, Z.leb x z) l)%nat ∧
  (95 * length l < 100 * count (λ z, Z.leb z y) l)%nat ∧ (5 * length l ≤ 100 * count (λ z, Z.leb y z) l)%nat.
Proof.
  intros [H1 H2]%(sorted_split _ _ _ (sorted_ordered l)) [H3 H4]%(sorted_split _ _ _ (sorted_ordered l)).
  rewrite !(count_perm _ _ _ (sorted_perm l)), ?length_sorted in *.
  pose proof (Nat.div_mod_eq (length l) 2). pose proof (Nat.mod_upper_bound (length l) 2 ltac:(lia)).
  pose proof (Nat.div_mod_eq (length l * 95) 100). pose proof (Nat.mod_upper_bound (length l * 95) 100 ltac:(lia)). lia.
Qed.

(** The handler keeps the figures of every finished domain, and of nothing else. *)
Lemma emit_collects st rs :
  duration_ms (foldl emit st rs) =
    duration_ms st ++ omap (λ r, if String.eqb (dr_message r) "domain_done" then dr_duration_ms r else None) rs.
Proof.
  revert st. induction rs as [|r rs IH]; intros st; cbn; [by rewrite app_nil_r|]. rewrite IH. unfold emit.
  destruct (String.eqb (dr_message r) "domain_done"); cbn; [|done]. destruct (dr_duration_ms r); cbn; by rewrite <- app_assoc.
Qed.
